(* ===== verification/_CoqProject ===== *)
-Q . S2P
Prelude.v
Protocol.v
ALock.v
MPBuffers.v
MPChannel.v
OneWayBuffer.v
Value.v
Partition.v
PartitionInv.v
PartitionLru.v
PartitionThms.v
TableOps.v
Ownership.v
Server.v
ServerThms.v
HashTable.v
Estates.v
Holders.v
Shares.v
Stats.v
Locking.v
LockingThms.v
LockingLive.v
Blocks.v
LockingWorld.v
LockingWorldInv.v
Client.v
Link.v
LinkInv.v
ClientInv.v
SystemThms.v
DoallThms.v
HashTableThms.v
LockingWorldThms.v
Stream.v
HashClient.v
Gather.v
GatherThms.v
Reply.v
ReplyThms.v
HashServer.v
HashServerThms.v
System.v
Concurrent.v
ConcurrentInv.v
ConcurrentThms.v
Tests.v
Bench.v
BenchThms.v
BenchLocking.v
BenchLockingInv.v
BenchLockingThms.v
BenchServer.v
BenchServerThms.v
BenchMemcached.v
BenchMemcachedThms.v
Serve.v
ServeInv.v
ServeAccept.v
ServeThms.v
Options.v
OptionsThms.v
PerfCounters.v
PerfCountersThms.v
