(* ===== verification/Prelude.v ===== *)
(** * SMPHashTable: a verification development

    SMPHashTable is a hash table with LRU or random eviction, partitioned over
    several cores. Keys are routed to partitions by [hash_get_server]. There are
    two implementations of its operations. In the message-passing one every partition is
    owned by a server thread, and clients send it requests through shared-memory
    buffers, one pair of buffers ("box") for every client and server. In the
    locking one every client thread works on the partitions itself, under an
    array lock per partition. A TCP server ([hashserver2.c]) with its client
    library ([hashclient.c]) is built on top of either.

    ** Files

    The files are listed in the order in which they depend on each other; paths are
    below [src/].

    - [Prelude] (this file): outcomes of C code, machine integers, C arrays,
      lemmas and tactics used everywhere.
    - [Protocol]: [util.h], [hashprotocol.h] and the head of [smphashtable.c]:
      sizes, queries, request words, [hash_get_server].
    - [ALock]: [alock.c]. [alock] is the lock in memory, [pc] where a thread stands,
      [anderson_step] the next atomic action of a thread; [cstep] interleaves
      threads. Mutual exclusion and progress for at most [nthread] threads, and what
      goes wrong beyond that.
    - [MPBuffers]: [mpbuffers.c]. The two buffers with their operations run
      without interruption, refining the queue specification in its module [Spec].
      [MPChannel]: the same input buffer accessed word by word by both ends at
      once ([flush_act], [read_act]); the queue specification holds there too.
    - [OneWayBuffer]: [onewaybuffer.c], the predecessor of these buffers.
    - [Value]: [struct elem], reference counts, the ready mark, and the operations
      on them at the end of [smphashtable.c]. The class [Releases] is what a
      partition expects of [release_value_f], [RefCounted] what the table
      expects of a counting scheme; both schemes are instances.
    - [Partition]: [partition.c], operation by operation. [PartitionInv] has its
      invariant [part_wf] and the preservation of it by every operation,
      [PartitionLru] the refinement of an abstract LRU cache, [PartitionThms] the
      properties and a concrete machine to run it on.
    - [TableOps], [Ownership]: what a lookup or insertion does in a partition
      beyond [hash_lookup] and [hash_insert], for either counting scheme, and the books
      of who holds which element.
    - [Server], [ServerThms]: the batch loop of [hash_table_server], against
      serving the requests one by one; the safety of a server whose clients
      release what they hold.
    - [HashTable], [HashTableThms]: [struct hash_table], its creation, clients,
      server threads, shutdown and destruction. [Stats]: the [stats_*] functions.
    - [Estates]: the books of all partitions over the one heap they share, for
      either counting scheme. [Holders]: who holds which references, for either
      scheme. [Shares]: that a server keeps the sum of them right as it serves a box.
    - [Locking], [LockingThms]: the [locking_*] calls as actions of threads on a
      shared table, and the lock-free operations of the holders of values.
      [LockingLive]: some call can always go on.
      [Blocks]: the block that the allocator gave an element, which bounds what can be
      written into its value, and what [hash_insert] asks for.
      [LockingWorld]: threads with programs of such calls and operations ([lworld_act]).
      [LockingWorldInv] has its invariant, [LockingWorldThms] what the threads are
      given and that the table returns its memory.
    - [Client]: the [smp_*] and [mp_*] calls of the client library, including
      [smp_hash_doall], as programs that access one buffer at a time.
      [Link]: a box as three queues. [LinkInv]: what the boxes of a client owe it,
      and [safe], the judgement by which programs are proved. [ClientInv]: the
      pending ring. [SystemThms]: sessions of a client against any servers, and
      the turn of a server thread as one visit. [DoallThms]: the batch call.
    - [Stream], [HashClient]: streams as [fread] and [write] show them,
      [read_object] and [write_object]; the formats of [hashclient.c].
    - [Gather], [GatherThms]: the first loop of [clientgo] in [hashserver2.c],
      which collects a batch of requests from the sockets of a client thread.
    - [Reply], [ReplyThms]: the loops of [clientgo] that handle the values of a batch
      and write the replies ([write_iovs]).
    - [HashServer], [HashServerThms]: [doqueries] in its three designs, batches one
      after the other, and [tcpserver], action by action: the scan for the client thread
      that a new connection goes to, the wait for it and the search for a place.
    - [Serve]: the hash server over the locking table, action by action: its client
      threads ([clientgo]), the actions of [tcpserver] ([server_accept]) and the start
      ([run_server]). [ServeInv] has the invariant of the threads, [ServeAccept] its
      preservation as connections come, [ServeThms] what it means for the clients.
    - [System], [Tests]: a whole table with its clients and servers, run along a
      script, and the four tests of [testhashtable.c] on it.
    - [Concurrent]: the same table with any number of client threads and its server
      threads taking turns in any order ([world_act], [run_world]). [ConcurrentInv]
      has the invariant [world_inv] and its preservation by the turns of either,
      [ConcurrentThms] the safety of the whole table.
    - [Bench], [BenchThms]: the clients of [benchhashtable.c] in the message designs.
      [BenchLocking], [BenchLockingInv], [BenchLockingThms]: the benchmark of the
      locking design, from the creation of the table to its destruction.
      [BenchServer], [BenchServerThms]: the client of [benchhashserver.c] that
      talks to the hash server. [BenchMemcached], [BenchMemcachedThms]: its two
      clients that talk to memcached, over any [libmemcached] (class [Memcached]).
    - [Options], [OptionsThms]: the command lines of the hash server and of the
      benchmarks, with [getopt]. [PerfCounters], [PerfCountersThms]: [ia32msr.c],
      [ia32perf.c] and the counters of [benchhashtable.c], over any files of the
      registers (class [MsrFiles]).

    ** How the code is modelled

    An operation is a function to [result]: a value, or a [fault]. [AssertFailed]
    is an [assert] of the code that fails. [Undefined] is an access outside an
    array, a use of freed memory, a removal from a list that does not hold the
    element, a division by zero or a conversion out of range: what C leaves undefined.
    [Blocked] is a loop that waits for another thread, at a moment when its
    condition still holds. That an operation returns is always part of what is proved
    about it; [Fault] is never taken for a result.

    Machine words are integers in [Z] with their width written out: [u64], [u32]
    and [i32] are the conversions, and arithmetic that can leave the range goes
    through them, signed arithmetic too, which the compilers of the code wrap
    around. Memory is a finite map from addresses to elements; a [struct elem] is a
    record with the bytes behind it. Tail queues are lists of addresses. The
    allocator and the time stamp counter are fields of the class [Machine]: the allocator
    may fail, and what it gives is not in use, aligned, has at least the bytes requested
    ([memalign_gives]), and holds anything.

    The bytes behind the header of an element are those of its block, not those of
    the size accounted to it: every store into a value ([write_bytes]) is [Undefined]
    past the end of the block. That matters, because [hash_insert] has the arguments of
    [memalign] the wrong way round and requests 64 bytes, the header alone, for every element
    ([Blocks.inserted_value_room]). The library itself touches only headers, so that
    its own safety is not concerned; for the programs that write values, the theorems say
    that a store goes through exactly when it fits the block, and that a store which does not
    is the one action that can be undefined. The machine on which the tests run has an
    allocator that gives 64 bytes more than it is asked for.

    Concurrency is a sequence of atomic actions: accesses to shared words take effect one
    after the other, in program order. The code asks for no less with its
    barriers, and runs on x86, where stores are seen in order. A client call is a
    [prog], a tree of steps; between two of them any servers may make visits. A
    visit of a server (one turn of its loop on one box) is a single step there;
    [MPChannel] proves what makes that sound, that the buffer behaves
    as a queue when the accesses of both ends interleave one by one. In
    [Locking] the work of an insertion under the lock is one action (see there).

    Loops that always end are structural or have fuel that is proved to be enough:
    as many rounds as words of a batch ([serve_batch]), as elements of the
    list ([make_room]), as answers that are outstanding ([wait_room], [da_wait]),
    as the threads and places that [tcpserver] looks at. Loops that wait have fuel only where
    they wait for the outside: [spins] bounds the random search for a victim,
    [read_value] and [write_iovs] run along a script of what the stream brings or
    accepts, and [gather_run] is shown to end for enough fuel.

    ** What the theorems show

    - Whatever the programs of the client threads and however the threads take
      turns, as long as a thread releases only what it was given, no turn touches
      freed memory or fails an assertion ([ConcurrentThms.table_safe]); once the
      threads are done and have given everything back, the destruction of the
      table returns all of its memory ([ConcurrentThms.table_returns_memory]).
      What a thread holds from a lookup is a ready element of the key it asked
      for, and stays as it is until a holder writes it; what it holds from an
      insertion is its own, with the size asked accounted to it, but not with a block of that
      size ([ConcurrentThms.answers_right], [Blocks.inserted_value_room]).
      The same holds of the locking table ([LockingWorldThms.locking_answers_right],
      [LockingWorldThms.locking_returns_memory]). Only want of a victim or of memory
      fails an action, and want of memory only where the allocator refuses although no
      more elements are in memory than the theorem says ([PartitionInv.refused]).
    - The clients of the locking benchmark, at most one for every server, find the key
      in every value, and their runs can always be brought to an end, unless the allocator gave
      some element fewer than the eight bytes that a client stores ([BenchLockingThms]).
    - A value lives exactly as long as somebody holds it, in both counting
      schemes ([Value.mp_lifetime], [Value.atomic_lifetime]); no sequence of requests by
      clients that release only what they hold makes a server touch freed memory
      ([ServerThms.server_run_safe]), and no interleaving of locking calls does
      ([LockingThms.locking_safe]).
    - A partition is an LRU cache bounded in bytes, and insertions have the
      outcomes listed, none undefined ([PartitionThms]).
    - The buffers are queues, alone and under interleaving ([MPBuffers],
      [MPChannel], [OneWayBuffer]).
    - Command lines lead to keys within the bounds the benchmark relies on, or the program
      ends, and to exactly the settings of the server in their ranges; a negative number of
      clients gets through ([OptionsThms]). The benchmark starts all its counters, and its
      totals are the sums, in [double] arithmetic, of what they counted
      ([PerfCountersThms.benchmark_counts]).
    - A client gets the answers to its queries in their order; no call ever gets
      stuck and each can be brought to its end ([SystemThms]), also in batches of
      the TCP server ([HashServerThms.doqueries_answers]). What a client assumes of
      the servers is what a turn of a server thread does
      ([SystemThms.server_visit_refines]) with the batch it reads
      ([ServerThms.batch_in_place]).
    - A lookup answers the ready value in the table ([ServerThms], [LockingThms]).
    - The TCP server works on exactly the requests that its connections send
      ([GatherThms]), and its replies are the answers, with every value given
      back once ([ReplyThms]); formats are read back as they were written
      ([Link], [HashClient]). The whole server with the locking table, from its start,
      with connections that come and go, for clients that send well-formed queries of at most
      1 MB which fit into a partition, and at most as many client threads as partitions: no
      action of any thread is undefined, however they interleave, but for filling in a value that
      its block has no room for ([ServeThms.server_threads_safe]); what a client reads are
      whole replies to its lookups, in order, each NULL or a value that some client
      sent for the key ([ServeThms.server_replies_right]). What other bytes do to the
      reading of a request is in [GatherThms.request_outcome]. A descriptor that the system
      gives again while a request with it is in a batch is the exception
      ([ServeAccept.opened_at]); there the code replies to the wrong connection.
    - The tests of the repository, with smaller counts and along one schedule, pass on the
      model ([Tests.tests_pass]); the pipelined client of the benchmark handles every answer with its query
      ([BenchThms.pipeline_handles_all]), as does the client of the server
      benchmark with the replies it reads ([BenchServerThms.client_reads_replies]);
      the memcached clients end whatever the server answers
      ([BenchMemcachedThms.memcached_clients_end]).
    - Creation, shutdown, destruction and counters ([HashTableThms], [Stats]).
    - Connections: a new one takes a free place of the thread that the scan of [tcpserver]
      ended at, which then waits for that thread however many places others have
      ([HashServerThms.connections_well_formed]).
    - Where the code does not do what it means to, the theorem states what it
      does: [ALock.two_clients_one_slot], [MPBuffers.zero_size_insert_truncates],
      [PartitionThms.insert_outcome], [Blocks.inserted_value_room],
      [OptionsThms.negative_clients], [HashTableThms.create_client_outcome],
      [HashTableThms.last_round_leaves_a_batch], [GatherThms.request_outcome] and
      the last clause of [ReplyThms.batch_answered].

    ** Not modelled

    System calls and set-up: threads and affinities, sockets and their options,
    times and printing. The prefetch functions of the buffers have empty bodies, and code
    under [#if 0] is left out. The totals of the counters
    are [double]s with their rounding ([PerfCounters.round_double]); the other floating-point
    numbers are rational numbers, those of the statistics up to the last division or root.

    Whole runs of the hash server are those of the locking design. In the message designs
    its batches are run on the boxes of one client ([HashServerThms]), and whole
    programs on the table are those of [ConcurrentThms]. *)
From stdpp Require Import base list gmap relations.
From Stdlib Require Import ZArith Zbitwise Lia.

Local Open Scope Z_scope.

(** ** Outcomes of C code

    A C function either returns ([Ok]) or meets one of three faults: an
    [assert] that fails, an operation whose behaviour C leaves undefined (an
    access outside an array, a use of freed memory, a pointer that is not a
    list member), or a busy-wait whose condition still holds ([Blocked]). *)
Inductive fault := AssertFailed | Undefined | Blocked.

#[export] Instance fault_eq_dec : EqDecision fault.
Proof. solve_decision. Defined.

Inductive result (A : Type) :=
  | Ok (a : A)
  | Fault (f : fault).
Arguments Ok {A} a.
Arguments Fault {A} f.

#[export] Instance result_ret : MRet result := fun A a => Ok a.
#[export] Instance result_bind : MBind result := fun A B k m =>
  match m with Ok a => k a | Fault f => Fault f end.
#[export] Instance result_fmap : FMap result := fun A B g m =>
  match m with Ok a => Ok (g a) | Fault f => Fault f end.

(** [check b f] is the C statement that faults with [f] unless [b]. *)
Definition check (b : bool) (f : fault) : result unit :=
  if b then Ok tt else Fault f.

(** An [option] read as a C access: [None] is undefined behaviour. *)
Definition deref {A} (o : option A) : result A :=
  match o with Some a => Ok a | None => Fault Undefined end.

Definition is_ok {A} (m : result A) : bool :=
  match m with Ok _ => true | Fault _ => false end.

Lemma bind_Ok {A B} (m : result A) (k : A -> result B) b :
  (m ≫= k) = Ok b <-> exists a, m = Ok a /\ k a = Ok b.
Proof.
  destruct m; simpl; split; try naive_solver.
Qed.

Lemma Ok_inj {A} (a b : A) : Ok a = Ok b -> a = b.
Proof. by intros [= ->]. Qed.

Lemma check_Ok b f u : check b f = Ok u <-> b = true.
Proof. destruct b, u; simpl; naive_solver. Qed.

Lemma deref_Ok {A} (o : option A) a : deref o = Ok a <-> o = Some a.
Proof. destruct o; simpl; naive_solver. Qed.

(** [invb H] takes a successful computation apart, one bind at a time. *)
Ltac invb1 H :=
  lazymatch type of H with
  | (_ ≫= _) = Ok _ =>
      let a := fresh "a" in let Ha := fresh "Ha" in
      apply bind_Ok in H; destruct H as [a [Ha H]];
      try invb1 Ha; try invb1 H
  | check _ _ = Ok _ => apply check_Ok in H
  | deref _ = Ok _ => apply deref_Ok in H
  | mret _ = Ok _ => injection H as H
  | Ok _ = Ok _ => injection H as H
  | Fault _ = Ok _ => discriminate H
  end.
Ltac invb H := repeat invb1 H; simplify_eq/=.

(** ** Machine integers *)
Definition u64 (x : Z) : Z := x mod 2 ^ 64.
Definition u32 (x : Z) : Z := x mod 2 ^ 32.
(** Conversion to [int]: the value modulo 2^32 in the signed range. *)
Definition i32 (x : Z) : Z := (x + 2 ^ 31) mod 2 ^ 32 - 2 ^ 31.

Lemma u64_range x : 0 <= u64 x < 2 ^ 64.
Proof. apply Z.mod_pos_bound. lia. Qed.

Lemma u64_small x : 0 <= x < 2 ^ 64 -> u64 x = x.
Proof. intros. apply Z.mod_small. lia. Qed.

Lemma u64_u64 x : u64 (u64 x) = u64 x.
Proof. apply u64_small, u64_range. Qed.

Lemma u64_add_l x y : u64 (u64 x + y) = u64 (x + y).
Proof. unfold u64. rewrite Zplus_mod_idemp_l. reflexivity. Qed.

Lemma u64_add_r x y : u64 (x + u64 y) = u64 (x + y).
Proof. unfold u64. rewrite Zplus_mod_idemp_r. reflexivity. Qed.

Lemma u64_sub_l x y : u64 (u64 x - y) = u64 (x - y).
Proof. unfold u64. rewrite Zminus_mod_idemp_l. reflexivity. Qed.

Lemma u64_sub_r x y : u64 (x - u64 y) = u64 (x - y).
Proof. unfold u64. rewrite Zminus_mod_idemp_r. reflexivity. Qed.

Lemma u64_shift x k : u64 (x + k * 2 ^ 64) = u64 x.
Proof. unfold u64. apply Z.mod_add. lia. Qed.

Lemma u32_small x : 0 <= x < 2 ^ 32 -> u32 x = x.
Proof. intros. apply Z.mod_small. lia. Qed.

Lemma i32_range x : - 2 ^ 31 <= i32 x < 2 ^ 31.
Proof. unfold i32. pose proof (Z.mod_pos_bound (x + 2 ^ 31) (2 ^ 32)). lia. Qed.

Lemma i32_small x : - 2 ^ 31 <= x < 2 ^ 31 -> i32 x = x.
Proof. intros. unfold i32. rewrite Z.mod_small; lia. Qed.

Lemma i32_u64 x : i32 (u64 x) = i32 x.
Proof.
  unfold i32, u64. f_equal. rewrite <- (Zplus_mod_idemp_l (x mod 2 ^ 64)).
  rewrite Z.mod_mod_divide by (exists (2 ^ 32); lia). by rewrite Zplus_mod_idemp_l.
Qed.

(** Masking with a power of two minus one is the remainder. *)
Lemma land_ones_mod x k : 0 <= k -> Z.land x (2 ^ k - 1) = x mod 2 ^ k.
Proof.
  intros Hk. rewrite <- Z.land_ones by assumption. f_equal.
  rewrite Z.ones_equiv. lia.
Qed.

(** A wrapped index masks to the same slot as the unwrapped one. *)
Lemma u64_mod_pow2 x k : 0 <= k <= 64 -> u64 x mod 2 ^ k = x mod 2 ^ k.
Proof.
  intros Hk. unfold u64. apply Z.mod_mod_divide.
  exists (2 ^ (64 - k)). rewrite <- Z.pow_add_r by lia. f_equal. lia.
Qed.

(** Or-ing a multiple of [2 ^ k] to a value below [2 ^ k] adds it. *)
Lemma lor_disjoint a n k :
  0 <= k -> 0 <= a < 2 ^ k -> Z.lor a (n * 2 ^ k) = a + n * 2 ^ k.
Proof.
  intros Hk Ha.
  assert (Z.land a (n * 2 ^ k) = 0) as Hd.
  { apply Z.bits_inj'. intros i Hi. rewrite Z.land_spec, Z.bits_0.
    destruct (Z.lt_ge_cases i k) as [Hik | Hik].
    - rewrite Z.mul_pow2_bits_low by assumption. apply andb_false_r.
    - rewrite <- (Z.mod_small a (2 ^ k)) by assumption.
      rewrite Z.mod_pow2_bits_high by lia. reflexivity. }
  pose proof (Z.add_lor_land a (n * 2 ^ k)). lia.
Qed.

(** Masking away everything below [2 ^ k] on 64 bits. *)
Lemma land_high w k :
  0 <= k <= 64 -> 0 <= w < 2 ^ 64 ->
  Z.land w (Z.ldiff (Z.ones 64) (Z.ones k)) = w - w mod 2 ^ k.
Proof.
  intros Hk Hw.
  assert (Z.land w (Z.ones 64) = w) as Hm
    by (rewrite Z.land_ones by lia; apply Z.mod_small; lia).
  assert (Z.land w (Z.ldiff (Z.ones 64) (Z.ones k)) = Z.ldiff w (Z.ones k)) as ->.
  { apply Z.bits_inj'. intros i Hi. rewrite Z.land_spec, !Z.ldiff_spec.
    rewrite <- Hm at 2. rewrite Z.land_spec.
    destruct (Z.testbit w i), (Z.testbit (Z.ones 64) i); reflexivity. }
  rewrite Z.ldiff_ones_r, Z.shiftl_mul_pow2, Z.shiftr_div_pow2 by lia.
  pose proof (Z.div_mod w (2 ^ k)). lia.
Qed.

(** ** Arrays: a list indexed by a C integer; outside it is undefined *)
Definition aget {A} (l : list A) (i : Z) : result A :=
  if 0 <=? i then deref (l !! Z.to_nat i) else Fault Undefined.

Definition aset {A} (l : list A) (i : Z) (v : A) : result (list A) :=
  if (0 <=? i) && (i <? Z.of_nat (length l))
  then Ok (<[Z.to_nat i := v]> l) else Fault Undefined.

Arguments aget : simpl never.
Arguments aset : simpl never.

Lemma aget_Ok {A} (l : list A) i v :
  aget l i = Ok v <-> 0 <= i /\ l !! Z.to_nat i = Some v.
Proof.
  unfold aget. destruct (Z.leb_spec 0 i).
  - rewrite deref_Ok. tauto.
  - split; [discriminate | lia].
Qed.

Lemma aset_Ok {A} (l : list A) i v l' :
  aset l i v = Ok l' <->
  0 <= i < Z.of_nat (length l) /\ l' = <[Z.to_nat i := v]> l.
Proof.
  unfold aset.
  destruct (Z.leb_spec 0 i), (Z.ltb_spec i (Z.of_nat (length l))); simpl;
    split; intros H1; try lia; try discriminate; naive_solver.
Qed.

Lemma aset_in {A} (l : list A) i v :
  0 <= i < Z.of_nat (length l) -> aset l i v = Ok (<[Z.to_nat i := v]> l).
Proof. intros. apply aset_Ok. tauto. Qed.

Lemma aget_in {A} (l : list A) i :
  0 <= i < Z.of_nat (length l) -> exists v, aget l i = Ok v.
Proof.
  intros H. destruct (lookup_lt_is_Some_2 l (Z.to_nat i)) as [v Hv]; [lia|].
  exists v. apply aget_Ok. split; [lia | assumption].
Qed.

Create Rewrite HintDb smp.
#[export] Hint Rewrite @u64_u64 @u64_add_l @u64_add_r @u64_sub_l @u64_sub_r : smp.

(** ** Sums over lists *)
Definition zsum {A} (f : A -> Z) (l : list A) : Z := foldr (fun x a => f x + a) 0 l.

Arguments zsum : simpl never.

Lemma zsum_nil {A} (f : A -> Z) : zsum f [] = 0.
Proof. reflexivity. Qed.

Lemma zsum_cons {A} (f : A -> Z) x l : zsum f (x :: l) = f x + zsum f l.
Proof. reflexivity. Qed.

#[export] Hint Rewrite @zsum_nil @zsum_cons : smp.

Lemma zsum_app {A} (f : A -> Z) l1 l2 : zsum f (l1 ++ l2) = zsum f l1 + zsum f l2.
Proof. induction l1; simpl; autorewrite with smp; lia. Qed.

Lemma zsum_nonneg {A} (f : A -> Z) l :
  (forall x, x ∈ l -> 0 <= f x) -> 0 <= zsum f l.
Proof.
  induction l as [|x l IH]; intros H; autorewrite with smp; [lia|].
  pose proof (H x (list_elem_of_here x l)).
  enough (0 <= zsum f l) by lia. apply IH. intros. apply H. by right.
Qed.

Lemma zsum_member {A} (f : A -> Z) l x :
  (forall y, y ∈ l -> 0 <= f y) -> x ∈ l -> f x <= zsum f l.
Proof.
  induction l as [|y l IH]; intros Hp Hx; [set_solver|]. autorewrite with smp.
  assert (0 <= zsum f l) by (apply zsum_nonneg; intros; apply Hp; by right).
  pose proof (Hp y (list_elem_of_here y l)).
  apply elem_of_cons in Hx as [->|Hx]; [lia|].
  enough (f x <= zsum f l) by lia. apply IH; [|done]. intros. apply Hp. by right.
Qed.

Lemma zsum_two {A} (f : A -> Z) l i j x y :
  (forall z, z ∈ l -> 0 <= f z) -> l !! i = Some x -> l !! j = Some y -> i <> j -> f x + f y <= zsum f l.
Proof.
  revert i j. induction l as [|z l IH]; intros [|i] [|j] Hp Hx Hy Hne; simplify_eq/=; autorewrite with smp.
  - pose proof (zsum_member f l y ltac:(intros; apply Hp; by right) ltac:(by eapply list_elem_of_lookup_2)). lia.
  - pose proof (zsum_member f l x ltac:(intros; apply Hp; by right) ltac:(by eapply list_elem_of_lookup_2)). lia.
  - pose proof (Hp z ltac:(by left)).
    pose proof (IH i j ltac:(intros; apply Hp; by right) Hx Hy ltac:(congruence)). lia.
Qed.

Lemma zsum_insert {A} (f : A -> Z) l i x y :
  l !! i = Some x -> zsum f (<[i := y]> l) = zsum f l - f x + f y.
Proof.
  revert i. induction l as [|z l IH]; intros [|i] H; simplify_eq/=;
    autorewrite with smp; [lia|]. rewrite (IH _ H). lia.
Qed.

Lemma zsum_perm {A} (f : A -> Z) l1 l2 : l1 ≡ₚ l2 -> zsum f l1 = zsum f l2.
Proof. induction 1; autorewrite with smp; lia. Qed.

Lemma zsum_ext {A} (f g : A -> Z) l :
  (forall x, x ∈ l -> f x = g x) -> zsum f l = zsum g l.
Proof.
  induction l as [|x l IH]; intros H; [done|]. autorewrite with smp.
  rewrite (H x) by (by left). rewrite IH; [done|]. intros. apply H. by right.
Qed.

Lemma zsum_bound {A} (f : A -> Z) l b :
  (forall x, x ∈ l -> f x <= b) -> zsum f l <= b * Z.of_nat (length l).
Proof.
  induction l as [|x l IH]; intros H; autorewrite with smp; simpl length; [lia|].
  pose proof (H x (list_elem_of_here x l)).
  assert (zsum f l <= b * Z.of_nat (length l)) by (apply IH; intros; apply H; by right).
  lia.
Qed.

Lemma zsum_pos_inv {A} (f : A -> Z) l : 0 < zsum f l -> exists x, x ∈ l /\ 0 < f x.
Proof.
  induction l as [|x l IH]; intros H; autorewrite with smp in H; [lia|].
  destruct (Z.lt_ge_cases 0 (f x)) as [Hx|Hx]; [exists x; split; [by left | done]|].
  destruct IH as (y & Hy & Hf); [lia|]. exists y. split; [by right | done].
Qed.

Lemma zsum_replicate {A} (f : A -> Z) n x : zsum f (replicate n x) = Z.of_nat n * f x.
Proof. induction n as [|n IH]; [done|]. cbn [replicate]. autorewrite with smp. lia. Qed.

Lemma zsum_zero {A} (f : A -> Z) l : (forall x, x ∈ l -> f x = 0) -> zsum f l = 0.
Proof.
  intros H. rewrite (zsum_ext f (fun _ => 0)) by done. clear H.
  induction l as [|x l IH]; [done|]. autorewrite with smp. lia.
Qed.

Lemma zsum_Forall2 {A B} (f : A -> Z) (g : B -> Z) l1 l2 :
  Forall2 (fun x y => f x <= g y) l1 l2 -> zsum f l1 <= zsum g l2.
Proof. induction 1; autorewrite with smp; lia. Qed.

Lemma zsum_sub {A} (f g : A -> Z) l : zsum (fun x => f x - g x) l = zsum f l - zsum g l.
Proof. induction l as [|x l IH]; [done|]. autorewrite with smp. lia. Qed.

Lemma zsum_add {A} (f g : A -> Z) l : zsum (fun x => f x + g x) l = zsum f l + zsum g l.
Proof. induction l as [|x l IH]; [done|]. autorewrite with smp. lia. Qed.

Lemma zsum_fmap {A B} (g : A -> B) (f : B -> Z) l : zsum f (g <$> l) = zsum (fun x => f (g x)) l.
Proof. induction l as [|x l IH]; [done|]. rewrite fmap_cons. autorewrite with smp. lia. Qed.

Lemma zsum_filter {A} (f : A -> Z) (P : A -> Prop) `{!forall x, Decision (P x)} l :
  (forall x, x ∈ l -> ~ P x -> f x = 0) -> zsum f (filter P l) = zsum f l.
Proof.
  induction l as [|x l IH]; intros Hf; [done|]. rewrite filter_cons.
  assert (zsum f (filter P l) = zsum f l) as Hl by (apply IH; intros; apply Hf; [by right | done]).
  case_decide as Hx; autorewrite with smp; rewrite Hl; [done|]. rewrite (Hf x) by (done || by left). lia.
Qed.

Lemma zsum_filter_le {A} (f : A -> Z) (P : A -> Prop) `{!forall x, Decision (P x)} l :
  (forall x, x ∈ l -> ~ P x -> 0 <= f x) -> zsum f (filter P l) <= zsum f l.
Proof.
  induction l as [|x l IH]; intros Hf; [done|]. rewrite filter_cons.
  assert (zsum f (filter P l) <= zsum f l) as Hl by (apply IH; intros; apply Hf; [by right | done]).
  case_decide as Hx; autorewrite with smp; [lia|]. pose proof (Hf x ltac:(by left) Hx). lia.
Qed.

(** How often [v] is in a list. *)
Definition occurs (v : Z) (l : list Z) : Z := zsum (fun x => if x =? v then 1 else 0) l.

Arguments occurs : simpl never.

Lemma occurs_nil v : occurs v [] = 0.
Proof. reflexivity. Qed.

Lemma occurs_cons v x l : occurs v (x :: l) = (if x =? v then 1 else 0) + occurs v l.
Proof. reflexivity. Qed.

Lemma occurs_app v l1 l2 : occurs v (l1 ++ l2) = occurs v l1 + occurs v l2.
Proof. apply zsum_app. Qed.

#[export] Hint Rewrite occurs_nil occurs_cons occurs_app : smp.

Lemma occurs_nonneg v l : 0 <= occurs v l.
Proof. apply zsum_nonneg. intros x _. case_match; lia. Qed.

Lemma occurs_pos v l : 0 < occurs v l <-> v ∈ l.
Proof.
  split.
  - intros H. apply zsum_pos_inv in H as (x & Hx & Hf). destruct (Z.eqb_spec x v); [by subst | lia].
  - intros Hv. pose proof (zsum_member (fun x => if x =? v then 1 else 0) l v) as H.
    assert (forall y : Z, y ∈ l -> 0 <= (if y =? v then 1 else 0)) as Hp
      by (intros y _; destruct (y =? v); lia).
    specialize (H Hp Hv). cbn beta in H. rewrite Z.eqb_refl in H.
    unfold occurs. lia.
Qed.

(** The weight of one element, for sums that count it. *)
Definition is_at {A} `{EqDecision A} (x y : A) : Z := if decide (y = x) then 1 else 0.

Lemma is_at_nonneg {A} `{EqDecision A} (x y : A) : 0 <= is_at x y.
Proof. unfold is_at. case_decide; lia. Qed.

Lemma zsum_is_at {A} `{EqDecision A} (x : A) l : 0 < zsum (is_at x) l <-> x ∈ l.
Proof.
  split.
  - intros H. apply zsum_pos_inv in H as (y & Hy & Hf). unfold is_at in Hf. case_decide; [by subst | lia].
  - intros Hx. pose proof (zsum_member (is_at x) l x (fun y _ => is_at_nonneg x y) Hx) as H.
    unfold is_at in H at 1. rewrite decide_True in H by done. lia.
Qed.

(** Distinct indices below [n] are at most [n]. *)
Lemma NoDup_bounded_length (q : list nat) n :
  NoDup q -> (forall t, t ∈ q -> (t < n)%nat) -> (length q <= n)%nat.
Proof.
  intros Hnd Hb. rewrite <- (length_seq n 0).
  apply submseteq_length, NoDup_submseteq; [assumption|].
  intros t Ht. apply elem_of_seq. specialize (Hb t Ht). lia.
Qed.

(** Residues of nearby integers are distinct. *)
Lemma mod_near_inj n a i j :
  0 < n -> 0 <= i < n -> 0 <= j < n -> (a + i) mod n = (a + j) mod n -> i = j.
Proof.
  intros Hn Hi Hj H.
  assert (((a + i) - (a + j)) mod n = 0) as Hz
    by (rewrite Zminus_mod, H, Z.sub_diag; apply Z.mod_0_l; lia).
  replace (a + i - (a + j)) with (i - j) in Hz by lia.
  apply Z.mod_divide in Hz; [|lia]. destruct Hz as [k Hk].
  assert (k <= -1 \/ k = 0 \/ 1 <= k) as [?|[->|?]] by lia; nia.
Qed.

(** Rule induction: what holds at the start and is kept by every step holds of
    every reachable state. *)
Lemma rtc_invariant {A} (R : relation A) (P : A -> Prop) x y :
  rtc R x y -> P x -> (forall a b, P a -> R a b -> P b) -> P y.
Proof. induction 1; eauto. Qed.

(** ** Copying words: [for (k = 0; k < n; k++) dst[di + k] = src[si + k]] *)
Fixpoint acopy {A} (n : nat) (src : list A) (si : Z) (dst : list A) (di : Z) : result (list A) :=
  match n with
  | O => mret dst
  | S n => v ← aget src si; dst' ← aset dst di v; acopy n src (si + 1) dst' (di + 1)
  end.

(** The copy succeeds inside both arrays and replaces [n] consecutive words. *)
Lemma acopy_spec {A} n (src : list A) si dst di :
  0 <= si -> 0 <= di ->
  si + Z.of_nat n <= Z.of_nat (length src) ->
  di + Z.of_nat n <= Z.of_nat (length dst) ->
  exists dst', acopy n src si dst di = Ok dst' /\ length dst' = length dst /\
    forall j, dst' !! j =
      if decide (Z.to_nat di <= j < Z.to_nat di + n)%nat
      then src !! (Z.to_nat si + (j - Z.to_nat di))%nat else dst !! j.
Proof.
  revert si dst di. induction n as [|n IH]; intros si dst di Hsi Hdi Hs Hd.
  - exists dst. split_and!; try done. intros j. rewrite decide_False by lia. done.
  - destruct (lookup_lt_is_Some_2 src (Z.to_nat si)) as [v Hv]; [lia|]. simpl.
    assert (aget src si = Ok v) as -> by (by apply aget_Ok). simpl.
    rewrite aset_in by lia. simpl.
    destruct (IH (si + 1) (<[Z.to_nat di:=v]> dst) (di + 1)) as (dst' & Hc & Hl & Hj);
      [lia | lia | lia | rewrite length_insert; lia |].
    exists dst'. rewrite length_insert in Hl. split_and!; [done | done |].
    intros j. rewrite Hj, !Z2Nat.inj_add by lia. replace (Z.to_nat 1) with 1%nat by done.
    destruct (decide (j = Z.to_nat di)) as [->|Hne].
    + rewrite decide_False, decide_True by lia.
      rewrite list_lookup_insert_eq by lia. rewrite <- Hv. f_equal. lia.
    + rewrite list_lookup_insert_ne by lia.
      destruct (decide (Z.to_nat di + 1 <= j < Z.to_nat di + 1 + n)%nat).
      * rewrite decide_True by lia. f_equal. lia.
      * rewrite decide_False by lia. done.
Qed.

(** A prefix, word by word. *)
Lemma take_prefix_lookup {A} (b s : list A) :
  take (length b) s = b <-> (forall j, (j < length b)%nat -> s !! j = b !! j).
Proof.
  split.
  - intros <- j Hj. rewrite length_take in Hj. rewrite lookup_take_lt; [done | lia].
  - intros H. apply list_eq. intros j. destruct (decide (j < length b)%nat).
    + rewrite lookup_take_lt by lia. auto.
    + rewrite lookup_take_ge by lia. symmetry. apply lookup_ge_None. lia.
Qed.

(** ** Ring indices *)
Lemma land_ring x k : 0 <= k <= 64 -> Z.land (u64 x) (2 ^ k - 1) = x mod 2 ^ k.
Proof. intros. rewrite land_ones_mod, u64_mod_pow2 by lia. done. Qed.

Lemma land_ring_size k size x :
  0 <= k <= 64 -> size = 2 ^ k -> Z.land (u64 x) (size - 1) = x mod size.
Proof. intros Hk ->. by apply land_ring. Qed.

(** [for (i = 0; i < n; i++) ring[(base + i) & (size - 1)] = data[i]] *)
Fixpoint ring_store (size : Z) (n : nat) (i : Z) (data : list Z) (base : Z) (ring : list Z)
    : result (list Z) :=
  match n with
  | O => mret ring
  | S n =>
      v ← aget data i;
      ring' ← aset ring (Z.land (u64 (base + i)) (size - 1)) v;
      ring_store size n (i + 1) data base ring'
  end.

(** [for (i = 0; i < n; i++) data[i] = ring[(base + i) & (size - 1)]] *)
Fixpoint ring_load (size : Z) (n : nat) (i : Z) (data : list Z) (base : Z) (ring : list Z)
    : result (list Z) :=
  match n with
  | O => mret data
  | S n =>
      v ← aget ring (Z.land (u64 (base + i)) (size - 1));
      data' ← aset data i v;
      ring_load size n (i + 1) data' base ring
  end.

Lemma mod_turn x n : 0 < n -> (x + n) mod n = x mod n.
Proof. intros. rewrite <- (Z.mul_1_l n) at 1. by rewrite Z.mod_add by lia. Qed.

(** Storing [n] words from position [base + i] on: the positions written, and
    the rest of the ring. *)
Lemma ring_store_spec k size n i data base ring :
  0 <= k <= 64 -> size = 2 ^ k ->
  0 <= i -> i + Z.of_nat n <= Z.of_nat (length data) ->
  length ring = Z.to_nat size -> Z.of_nat n <= size ->
  exists ring', ring_store size n i data base ring = Ok ring' /\
    length ring' = Z.to_nat size /\
    (forall m, i <= m < i + Z.of_nat n ->
       ring' !! Z.to_nat ((base + m) mod size) = data !! Z.to_nat m) /\
    (forall m, i + Z.of_nat n <= m < i + size ->
       ring' !! Z.to_nat ((base + m) mod size) = ring !! Z.to_nat ((base + m) mod size)).
Proof.
  intros Hk Hsize. assert (0 < size) as Hpos by (rewrite Hsize; apply Z.pow_pos_nonneg; lia).
  revert i ring. induction n as [|n IH]; intros i ring Hi Hn Hlen Hsz.
  - exists ring. split_and!; try done. lia.
  - destruct (aget_in data i) as [v Hv]; [lia|]. simpl. rewrite Hv. simpl.
    rewrite (land_ring_size k) by done. apply aget_Ok in Hv as [_ Hv].
    pose proof (Z.mod_pos_bound (base + i) size Hpos) as Hp.
    rewrite aset_in by lia. simpl.
    destruct (IH (i + 1) (<[Z.to_nat ((base + i) mod size) := v]> ring))
      as (ring' & Hr & Hl & Hnew & Hold); [lia | lia | by rewrite length_insert | lia |].
    exists ring'. split_and!; [done | done | |].
    + intros m Hm. destruct (Z.eq_dec m i) as [->|Hne]; [|apply Hnew; lia].
      specialize (Hold (i + size)). rewrite Z.add_assoc, mod_turn in Hold by done.
      rewrite Hold, list_lookup_insert_eq by lia. done.
    + intros m Hm. rewrite Hold by lia. apply list_lookup_insert_ne. intros Heq.
      pose proof (Z.mod_pos_bound (base + m) size Hpos).
      assert (m - i = 0); [|lia].
      apply (mod_near_inj size (base + i)); try lia.
      replace (base + i + (m - i)) with (base + m) by lia. rewrite Z.add_0_r. lia.
Qed.

(** Loading replaces [n] words of the destination. *)
Lemma ring_load_spec k size n i data base ring :
  0 <= k <= 64 -> size = 2 ^ k -> length ring = Z.to_nat size ->
  0 <= i -> i + Z.of_nat n <= Z.of_nat (length data) ->
  exists data', ring_load size n i data base ring = Ok data' /\ length data' = length data /\
    (forall m, i <= m < i + Z.of_nat n ->
       data' !! Z.to_nat m = ring !! Z.to_nat ((base + m) mod size)) /\
    (forall m, ~ (i <= Z.of_nat m < i + Z.of_nat n) -> data' !! m = data !! m).
Proof.
  intros Hk Hsize Hlen. assert (0 < size) as Hpos by (rewrite Hsize; apply Z.pow_pos_nonneg; lia).
  revert i data. induction n as [|n IH]; intros i data Hi Hn.
  - exists data. split_and!; try done. lia.
  - pose proof (Z.mod_pos_bound (base + i) size Hpos) as Hp.
    destruct (aget_in ring ((base + i) mod size)) as [v Hv]; [lia|]. simpl.
    rewrite (land_ring_size k), Hv by done. simpl. apply aget_Ok in Hv as [_ Hv].
    rewrite aset_in by lia. simpl.
    destruct (IH (i + 1) (<[Z.to_nat i := v]> data)) as (data' & Hr & Hl & Hnew & Hold);
      [lia | rewrite length_insert; lia |].
    rewrite length_insert in Hl. exists data'. split_and!; [done | done | |].
    + intros m Hm. destruct (Z.eq_dec m i) as [->|Hne]; [|apply Hnew; lia].
      rewrite Hold, list_lookup_insert_eq by lia. done.
    + intros m Hm. rewrite Hold by lia. apply list_lookup_insert_ne. lia.
Qed.

(** ** Removing a member from a list *)
Fixpoint list_remove {A} `{EqDecision A} (x : A) (l : list A) : option (list A) :=
  match l with
  | [] => None
  | y :: l => if decide (x = y) then Some l else (y ::.) <$> list_remove x l
  end.

Lemma filter_all {A} (P : A -> Prop) `{!forall x, Decision (P x)} (l : list A) :
  (forall x, x ∈ l -> P x) -> filter P l = l.
Proof.
  induction l as [|x l IH]; intros Hl; [done|].
  rewrite filter_cons, decide_True by (apply Hl; by left). f_equal.
  apply IH. intros. apply Hl. by right.
Qed.

Section list_remove.
Context {A : Type} `{EqDecision A}.
Implicit Types (x : A) (l : list A).
Lemma list_remove_perm x l k : list_remove x l = Some k -> l ≡ₚ x :: k.
Proof.
  revert k. induction l as [|y l IH]; intros k H; simplify_eq/=.
  case_decide; simplify_eq/=; [done|].
  destruct (list_remove x l) as [k'|]; simplify_eq/=.
  rewrite (IH k') by done. constructor.
Qed.
Lemma list_remove_member x l : x ∈ l -> exists k, list_remove x l = Some k.
Proof.
  induction l as [|y l IH]; intros H; [set_solver|]. simpl. case_decide; [eauto|].
  destruct IH as [k ->]; [set_solver|]. simpl. eauto.
Qed.
Lemma list_remove_app x l1 l2 :
  x ∉ l1 -> list_remove x (l1 ++ x :: l2) = Some (l1 ++ l2).
Proof.
  induction l1 as [|y l1 IH]; intros H; simpl.
  - by rewrite decide_True.
  - rewrite decide_False by set_solver. rewrite IH by set_solver. done.
Qed.
Lemma list_remove_filter x l k :
  NoDup l -> list_remove x l = Some k -> k = filter (fun y => y <> x) l.
Proof.
  revert k. induction l as [|y l IH]; intros k Hnd H; simplify_eq/=.
  apply NoDup_cons in Hnd as [Hy Hnd]. rewrite filter_cons. case_decide; simplify_eq.
  - rewrite decide_False by (intros ?; done). symmetry. apply filter_all.
    intros z Hz ->. done.
  - rewrite decide_True by congruence.
    destruct (list_remove x l) as [k'|] eqn:Hk; simplify_eq/=. f_equal. eauto.
Qed.
End list_remove.

(** ** Updating one list of a list of lists *)
Lemma concat_split {A} (t : list (list A)) i ch ch' :
  t !! i = Some ch ->
  concat t ≡ₚ ch ++ concat (<[i := []]> t) /\
  concat (<[i := ch']> t) ≡ₚ ch' ++ concat (<[i := []]> t).
Proof.
  revert i. induction t as [|x t IH]; intros [|i] H; simplify_eq/=; [done|].
  destruct (IH _ H) as [H1 H2]. split.
  - rewrite H1 at 1. rewrite !app_assoc. by rewrite (Permutation_app_comm x ch).
  - rewrite H2 at 1. rewrite !app_assoc. by rewrite (Permutation_app_comm x ch').
Qed.

(** Taking [x] out of list [i], and putting it in. *)
Lemma concat_out {A} (t : list (list A)) i ch ch' x :
  t !! i = Some ch -> ch ≡ₚ x :: ch' -> concat t ≡ₚ x :: concat (<[i := ch']> t).
Proof.
  intros H Hp. destruct (concat_split t i ch ch' H) as [H1 H2].
  rewrite H1, H2, Hp. done.
Qed.

Lemma concat_in {A} (t : list (list A)) i ch x :
  t !! i = Some ch -> concat (<[i := ch ++ [x]]> t) ≡ₚ x :: concat t.
Proof.
  intros H. destruct (concat_split t i ch (ch ++ [x]) H) as [H1 H2].
  rewrite H1, H2. by rewrite <- app_assoc, (Permutation_app_comm ch ([x] ++ _)),
    <- app_assoc, (Permutation_app_comm _ ch).
Qed.

Lemma elem_of_concat {A} (t : list (list A)) x :
  x ∈ concat t <-> exists i ch, t !! i = Some ch /\ x ∈ ch.
Proof.
  rewrite list_elem_of_In, in_concat. split.
  - intros (ch & Hch & Hx). apply list_elem_of_In in Hch, Hx.
    apply list_elem_of_lookup in Hch as [i Hi]. eauto.
  - intros (i & ch & Hi & Hx). exists ch. split; apply list_elem_of_In; [|done].
    apply list_elem_of_lookup. eauto.
Qed.

Lemma NoDup_concat_apart {A} (ls : list (list A)) :
  (forall i l, ls !! i = Some l -> NoDup l) ->
  (forall i j l1 l2 a, ls !! i = Some l1 -> ls !! j = Some l2 -> a ∈ l1 -> a ∈ l2 -> i = j) ->
  NoDup (concat ls).
Proof.
  induction ls as [|l ls IH]; intros Hn Hd; simpl; [constructor|]. apply NoDup_app. split_and!.
  - by apply (Hn 0%nat).
  - intros a Ha Hin. apply list_elem_of_In, in_concat in Hin as (l2 & Hl2 & Ha2).
    rewrite <- list_elem_of_In in Hl2. rewrite <- list_elem_of_In in Ha2. apply list_elem_of_lookup in Hl2 as [j Hj].
    by specialize (Hd 0%nat (S j) l l2 a eq_refl Hj Ha Ha2).
  - apply IH.
    + intros i l2 Hl2. by apply (Hn (S i)).
    + intros i j l1 l2 a H1 H2 Ha1 Ha2. pose proof (Hd (S i) (S j) l1 l2 a H1 H2 Ha1 Ha2). lia.
Qed.

(** A map with all its keys in a list has no more entries than that. *)
Lemma map_size_le {A} (h : gmap Z A) (l : list Z) :
  (forall a, is_Some (h !! a) -> a ∈ l) -> (base.size h <= length l)%nat.
Proof.
  intros H. rewrite <- size_dom. unfold base.size, set_size. simpl. apply submseteq_length.
  apply NoDup_submseteq; [apply NoDup_elements|]. intros a Ha. apply elem_of_elements, elem_of_dom in Ha. by apply H.
Qed.

Lemma length_concat_le {A} (ls : list (list A)) b :
  (forall l, l ∈ ls -> (length l <= b)%nat) -> (length (concat ls) <= length ls * b)%nat.
Proof.
  induction ls as [|l ls IH]; intros H; simpl; [lia|]. rewrite length_app.
  pose proof (H l ltac:(left)). specialize (IH ltac:(intros; apply H; by right)). lia.
Qed.
