(* ===== verification/Protocol.v ===== *)
(** * Protocol: constants, request words and key routing

    [util.h], [hashprotocol.h] and the constants at the head of
    [smphashtable.c]: the sizes every component shares, the query records of
    the public interface, the three request words a client puts on the wire
    ([key | HASHOP_LOOKUP], [key | HASHOP_INSERT] followed by the size,
    [e | HASHOP_RELEASE]) and [hash_get_server]. *)
From stdpp Require Import base list.
From Stdlib Require Import ZArith Lia.
From S2P Require Import Prelude.

Local Open Scope Z_scope.

(** ** Shared constants ([util.h], [mpbuffers.h], [smphashtable.c]) *)
Definition CACHELINE : Z := 64.
Definition MAX_CLIENTS : Z := 1024.
Definition MAX_SERVERS : Z := 1024.
Definition INPB_SIZE : Z := Z.shiftr CACHELINE 3.
Definition INPB_COUNT : Z := 4.
Definition OUTB_SIZE : Z := Z.shiftl (Z.shiftr CACHELINE 3) 3.

Definition HASHOP_MASK : Z := 0xF000000000000000.
Definition HASHOP_LOOKUP : Z := 0x1000000000000000.
Definition HASHOP_INSERT : Z := 0x2000000000000000.
Definition HASHOP_RELEASE : Z := 0x3000000000000000.
Definition INSERT_MSG_LENGTH : Z := 2.
Definition DATA_READY_MASK : Z := 0x8000000000000000.
Definition MAX_PENDING_SIZE : Z := OUTB_SIZE * MAX_SERVERS.
Definition MAX_PENDING_PER_SERVER : Z := OUTB_SIZE - Z.shiftr CACHELINE 3.

(** [min] of [util.h]. *)
Definition int_min (a b : Z) : Z := if a <? b then a else b.

(** [~m] on 64 bits. *)
Definition not64 (m : Z) : Z := u64 (Z.lnot m).

(** ** Public query records ([hashprotocol.h]) *)
Inductive optype := OPTYPE_LOOKUP | OPTYPE_INSERT.

#[export] Instance optype_eq_dec : EqDecision optype.
Proof. solve_decision. Defined.

Record hash_query := HashQuery {
  q_optype : Z;   (** [uint32_t optype]: any 32-bit value can arrive *)
  q_size : Z;     (** [uint32_t size] *)
  q_key : Z       (** [hash_key key], a [uint64_t] *)
}.

Definition optype_code (o : optype) : Z :=
  match o with OPTYPE_LOOKUP => 0 | OPTYPE_INSERT => 1 end.

(** ** Request words *)
Definition lookup_word (key : Z) : Z := Z.lor key HASHOP_LOOKUP.
Definition insert_words (key size : Z) : list Z := [Z.lor key HASHOP_INSERT; u64 size].
Definition release_word (e : Z) : Z := Z.lor e HASHOP_RELEASE.

(** What the server reads off a word: the operation and its argument. *)
Definition op_of (w : Z) : Z := Z.land w HASHOP_MASK.
Definition arg_of (w : Z) : Z := Z.land w (not64 HASHOP_MASK).

(** The requests and their encoding as words of the input buffer. *)
Inductive request :=
  | Lookup (key : Z)
  | Insert (key size : Z)
  | Release (e : Z).

#[export] Instance request_eq_dec : EqDecision request.
Proof. solve_decision. Defined.

(** The requests that the server answers. *)
Definition answering (r : request) : Prop := match r with Release _ => False | _ => True end.

#[export] Instance answering_dec r : Decision (answering r).
Proof. destruct r; simpl; apply _. Defined.

Definition encode (r : request) : list Z :=
  match r with
  | Lookup key => [lookup_word key]
  | Insert key size => insert_words key size
  | Release e => [release_word e]
  end.

(** The 60-bit argument space that the four operation bits leave. *)
Definition arg_ok (a : Z) : Prop := 0 <= a < 2 ^ 60.

#[export] Instance arg_ok_dec a : Decision (arg_ok a).
Proof. unfold arg_ok. apply _. Defined.

(** [hash_get_server]: [key % nservers], an [uint64_t] by an [int], as [int]. *)
Definition hash_get_server (nservers key : Z) : Z := i32 (key mod u64 nservers).

(** ** Splitting a word *)
Lemma not64_mask : not64 HASHOP_MASK = Z.ones 60.
Proof. reflexivity. Qed.

Lemma arg_of_mod w : arg_of w = w mod 2 ^ 60.
Proof. unfold arg_of. rewrite not64_mask. apply Z.land_ones. lia. Qed.

Lemma op_of_split w : 0 <= w < 2 ^ 64 -> op_of w = w - w mod 2 ^ 60.
Proof.
  intros Hw. unfold op_of.
  change HASHOP_MASK with (Z.ldiff (Z.ones 64) (Z.ones 60)).
  apply land_high; lia.
Qed.

(** A word built from a 60-bit argument and an operation code splits back. *)
Lemma word_split a n :
  arg_ok a -> 0 <= n < 16 ->
  let w := Z.lor a (n * 2 ^ 60) in
  op_of w = n * 2 ^ 60 /\ arg_of w = a /\ 0 <= w < 2 ^ 64.
Proof.
  intros Ha Hn w. unfold arg_ok in Ha. subst w.
  rewrite lor_disjoint by lia.
  assert ((a + n * 2 ^ 60) mod 2 ^ 60 = a) as Hmod
    by (rewrite Z.mod_add by lia; apply Z.mod_small; lia).
  assert (0 <= a + n * 2 ^ 60 < 2 ^ 64) by lia.
  rewrite op_of_split, arg_of_mod, Hmod by assumption. lia.
Qed.

Lemma lookup_word_split k :
  arg_ok k -> op_of (lookup_word k) = HASHOP_LOOKUP /\ arg_of (lookup_word k) = k.
Proof. intros Hk. destruct (word_split k 1 Hk) as (? & ? & ?); [lia|]. split; assumption. Qed.

Lemma insert_word_split k :
  arg_ok k ->
  op_of (Z.lor k HASHOP_INSERT) = HASHOP_INSERT /\ arg_of (Z.lor k HASHOP_INSERT) = k.
Proof. intros Hk. destruct (word_split k 2 Hk) as (? & ? & ?); [lia|]. split; assumption. Qed.

Lemma release_word_split e :
  arg_ok e -> op_of (release_word e) = HASHOP_RELEASE /\ arg_of (release_word e) = e.
Proof. intros He. destruct (word_split e 3 He) as (? & ? & ?); [lia|]. split; assumption. Qed.

(** The first word of a request is never the empty-slot marker 0. *)
Lemma lor_nonzero a b : b <> 0 -> Z.lor a b <> 0.
Proof. intros Hb H. apply Z.lor_eq_0_iff in H. tauto. Qed.

(** Every word of a request, the size word of an insert included, is non-zero
    when the size is. *)
Definition request_ok (r : request) : Prop :=
  match r with
  | Lookup k => arg_ok k
  | Insert k size => arg_ok k /\ 0 < size < 2 ^ 31
  | Release e => arg_ok e
  end.

#[export] Instance request_ok_dec r : Decision (request_ok r).
Proof. destruct r; simpl; apply _. Defined.

Lemma encode_nonzero r : request_ok r -> Forall (fun w => w <> 0) (encode r).
Proof.
  destruct r; simpl; intros H; repeat constructor;
    try (apply lor_nonzero; discriminate).
  destruct H as [_ H]. rewrite u64_small; lia.
Qed.

(** [hash_get_server] picks a server of the table. *)
Lemma hash_get_server_mod n key :
  0 < n < 2 ^ 31 -> hash_get_server n key = key mod n.
Proof.
  intros Hn. unfold hash_get_server. rewrite u64_small by lia.
  apply i32_small. pose proof (Z.mod_pos_bound key n). lia.
Qed.

Lemma hash_get_server_range n key :
  0 < n < 2 ^ 31 -> 0 <= hash_get_server n key < n.
Proof.
  intros Hn. rewrite hash_get_server_mod by assumption.
  apply Z.mod_pos_bound. lia.
Qed.
