(* ===== verification/ALock.v ===== *)
(** * ALock: Anderson's array lock ([alock.h], [alock.c])

    [anderson_acquire] and [anderson_release] as the atomic actions they make
    on the shared lock, one [pc] per point between two actions, so that any
    interleaving of any number of threads is a sequence of [cstep]s. *)
From stdpp Require Import base list relations.
From Stdlib Require Import ZArith Lia.
From S2P Require Import Prelude Protocol.

Local Open Scope Z_scope.

(** [struct alock]: [has_lock] holds the [x] fields of the [myalock]s. *)
Record alock := ALock {
  has_lock : list Z;
  next_slot : Z;
  nthread : Z
}.

(** [anderson_init]: [al] is the memory as it was, and only slot 0 of
    [has_lock] is written. *)
Definition anderson_init (al : alock) (n : Z) : result alock :=
  _ ← check (n <=? MAX_CLIENTS) AssertFailed;
  hl ← aset (has_lock al) 0 1;
  mret (ALock hl 0 n).

(** Where a thread stands. [Fetched me] has drawn ticket [me] and not yet
    corrected [next_slot]; [Clearing me] has seen its slot set and not yet
    cleared it; [Critical extra] holds the lock. *)
Inductive pc :=
  | Idle
  | Fetched (me : Z)
  | Spinning (me : Z)
  | Clearing (me : Z)
  | Critical (extra : Z).

(** One atomic action of a thread: lines 18, 19-21, the test of line 22, line
    25 with 26, and the store of line 32. C's [%] is [Z.rem]. *)
Definition anderson_step (l : alock) (p : pc) : result (alock * pc) :=
  match p with
  | Idle =>
      mret (ALock (has_lock l) (i32 (next_slot l + 1)) (nthread l), Fetched (next_slot l))
  | Fetched me =>
      _ ← check (negb (nthread l =? 0)) Undefined;
      let ns := if (0 <? me) && (Z.rem me (nthread l) =? 0)
                then i32 (next_slot l - nthread l) else next_slot l in
      mret (ALock (has_lock l) ns (nthread l), Spinning (Z.rem me (nthread l)))
  | Spinning me =>
      x ← aget (has_lock l) me;
      mret (l, if x =? 0 then Spinning me else Clearing me)
  | Clearing me =>
      hl ← aset (has_lock l) me 0;
      mret (ALock hl (next_slot l) (nthread l), Critical me)
  | Critical extra =>
      _ ← check (negb (nthread l =? 0)) Undefined;
      hl ← aset (has_lock l) (Z.rem (extra + 1) (nthread l)) 1;
      mret (ALock hl (next_slot l) (nthread l), Idle)
  end.

(** A lock and the threads that use it. *)
Record config := Config { lock : alock; threads : list pc }.

Definition cstep (t : nat) (c : config) : result config :=
  p ← deref (threads c !! t);
  '(l, p') ← anderson_step (lock c) p;
  mret (Config l (<[t := p']> (threads c))).

Definition step (c c' : config) : Prop := exists t, cstep t c = Ok c'.

(** A schedule run from a configuration. *)
Fixpoint run (ts : list nat) (c : config) : result config :=
  match ts with
  | [] => mret c
  | t :: ts => c' ← cstep t c; run ts c'
  end.

Definition in_critical (p : pc) : bool :=
  match p with Critical _ => true | _ => false end.

(** [nt] threads about to use a lock that [anderson_init] left. *)
Definition initial (l : alock) (nt : nat) : config := Config l (replicate nt Idle).

(** ** The invariant

    [q] lists the threads that hold a ticket, in ticket order; the first one
    has ticket [R]. [free] says whether the token lies in the array (at slot
    [R mod n]) or the head of [q] has taken it into its critical section. *)
Definition slot_ok (n s : Z) (p : pc) : Prop :=
  match p with
  | Idle => False
  | Fetched me => 0 <= me < 2 ^ 31 /\ me mod n = s
  | Spinning me | Clearing me | Critical me => me = s
  end.

Definition waiting (p : pc) : Prop :=
  match p with Fetched _ | Spinning _ => True | _ => False end.

(** Tickets whose correction of [next_slot] is still to come. *)
Definition needs_fix (n : Z) (p : pc) : Z :=
  match p with
  | Fetched me => if (0 <? me) && (me mod n =? 0) then 1 else 0
  | _ => 0
  end.

Record lock_inv (n : Z) (c : config) (R : Z) (q : list nat) (free : bool) : Prop := {
  li_n : 1 <= n <= MAX_CLIENTS;
  li_nthread : nthread (lock c) = n;
  li_len : length (has_lock (lock c)) = Z.to_nat MAX_CLIENTS;
  li_threads : Z.of_nat (length (threads c)) <= n;
  li_nodup : NoDup q;
  li_active : forall t p, threads c !! t = Some p -> (t ∈ q <-> p <> Idle);
  li_live : forall t, t ∈ q -> (t < length (threads c))%nat;
  li_slot : forall i t p, q !! i = Some t -> threads c !! t = Some p ->
              slot_ok n ((R + Z.of_nat i) mod n) p;
  li_wait : forall i t p, q !! S i = Some t -> threads c !! t = Some p -> waiting p;
  li_next : next_slot (lock c) mod n = (R + Z.of_nat (length q)) mod n;
  li_nonneg : 0 <= next_slot (lock c);
  li_drift : exists v, 0 <= v <= n /\
               next_slot (lock c) = v + n * zsum (needs_fix n) (threads c) /\
               (v = 0 -> zsum (needs_fix n) (threads c) = 0);
  li_token : forall j, 0 <= j < n -> exists x, has_lock (lock c) !! Z.to_nat j = Some x /\
               (x <> 0 <-> j = R mod n /\ free = true);
  li_free : free = true -> forall t e, threads c !! t <> Some (Critical e);
  li_held : free = false -> exists t q' e, q = t :: q' /\ threads c !! t = Some (Critical e)
}.

Section invariant.
Context (n : Z).
Implicit Types (c : config) (q : list nat).
Lemma needs_fix_range p : 0 <= needs_fix n p <= 1.
Proof. destruct p; simpl; try lia. case_match; lia. Qed.
Lemma fixes_range (ps : list pc) :
  0 <= zsum (needs_fix n) ps <= Z.of_nat (length ps).
Proof.
  split.
  - apply zsum_nonneg. intros. apply needs_fix_range.
  - rewrite <- (Z.mul_1_l (Z.of_nat _)). apply zsum_bound. intros. apply needs_fix_range.
Qed.
(** [next_slot] stays far from the end of [int]. *)
Lemma next_slot_bound c R q free :
  lock_inv n c R q free -> 0 <= next_slot (lock c) <= 2 ^ 21.
Proof.
  intros []. destruct li_drift0 as (v & Hv & -> & _).
  pose proof (fixes_range (threads c)). unfold MAX_CLIENTS in *. nia.
Qed.
Lemma queue_short c R q free :
  lock_inv n c R q free -> Z.of_nat (length q) <= n.
Proof.
  intros []. pose proof (NoDup_bounded_length q _ li_nodup0 li_live0). lia.
Qed.
(** Only the head of the queue can be past the spin loop. *)
Lemma past_spin_head c R q free t p :
  lock_inv n c R q free -> threads c !! t = Some p ->
  p <> Idle -> ~ waiting p -> exists q', q = t :: q'.
Proof.
  intros Hi Hp Hid Hw. assert (t ∈ q) as Hq by (by apply (li_active _ _ _ _ _ Hi _ _ Hp)).
  apply list_elem_of_lookup in Hq as [[|i] Hq].
  - destruct q; simplify_eq/=. eauto.
  - by destruct Hw; apply (li_wait _ _ _ _ _ Hi _ _ _ Hq Hp).
Qed.
(** A thread that moves between two active points leaves the queue as it
    is; what has to be shown is what its move did to the lock. *)
Lemma inv_move c R q free free' t p l p' :
  lock_inv n c R q free ->
  threads c !! t = Some p -> p <> Idle -> p' <> Idle -> needs_fix n p' = 0 ->
  nthread l = n -> length (has_lock l) = Z.to_nat MAX_CLIENTS ->
  (forall s, slot_ok n s p -> slot_ok n s p') ->
  (waiting p' \/ exists q', q = t :: q') ->
  0 <= next_slot l -> next_slot l = next_slot (lock c) - n * needs_fix n p ->
  (forall j, 0 <= j < n -> exists x, has_lock l !! Z.to_nat j = Some x /\
     (x <> 0 <-> j = R mod n /\ free' = true)) ->
  (free' = true -> forall t' e, <[t := p']> (threads c) !! t' <> Some (Critical e)) ->
  (free' = false -> exists t0 q' e, q = t0 :: q' /\
     <[t := p']> (threads c) !! t0 = Some (Critical e)) ->
  lock_inv n (Config l (<[t := p']> (threads c))) R q free'.
Proof.
  intros Hi Hp Hpi Hpi' Hp0 Hn Hlen Hslot Hw Hnn Hfix Htok Hfr Hhd.
  pose proof (lookup_lt_Some _ _ _ Hp) as Hlt.
  assert (Hq : t ∈ q) by (by apply (li_active _ _ _ _ _ Hi _ _ Hp)).
  destruct Hi. split; simpl; try done.
  - by rewrite length_insert.
  - intros t' p0 Ht'. apply list_lookup_insert_Some in Ht' as [(-> & -> & _)|[Hne Ht']];
      [tauto | by apply li_active0].
  - intros t' Ht'. rewrite length_insert. auto.
  - intros i t' p0 Hi' Ht'.
    apply list_lookup_insert_Some in Ht' as [(-> & -> & _)|[Hne Ht']]; eauto.
  - intros i t' p0 Hi' Ht'.
    apply list_lookup_insert_Some in Ht' as [(-> & -> & _)|[Hne Ht']]; eauto.
    destruct Hw as [Hw|[q0 ->]]; [done|]. exfalso.
    apply NoDup_cons in li_nodup0 as [Hnot _]. apply Hnot.
    apply list_elem_of_lookup. by exists i.
  - rewrite Hfix, <- li_next0. replace (next_slot (lock c) - n * needs_fix n p)
      with (next_slot (lock c) + (- needs_fix n p) * n) by lia.
    apply Z.mod_add. lia.
  - destruct li_drift0 as (v & Hv & Hns & Hz). exists v.
    rewrite (zsum_insert _ _ _ _ _ Hp). pose proof (needs_fix_range p).
    pose proof (fixes_range (<[t := p']> (threads c))) as Hr.
    rewrite (zsum_insert _ _ _ _ _ Hp) in Hr.
    split_and!; [lia | lia | lia | lia].
Qed.
(** Taking a ticket. *)
Lemma inv_fetch c R q free t :
  lock_inv n c R q free -> threads c !! t = Some Idle ->
  lock_inv n (Config (ALock (has_lock (lock c)) (i32 (next_slot (lock c) + 1))
                            (nthread (lock c)))
                     (<[t := Fetched (next_slot (lock c))]> (threads c)))
           R (q ++ [t]) free.
Proof.
  intros Hi Hp. pose proof (lookup_lt_Some _ _ _ Hp) as Hlt.
  pose proof (next_slot_bound _ _ _ _ Hi) as Hb.
  assert (Hq : t ∉ q) by (intros H; by apply (li_active _ _ _ _ _ Hi _ _ Hp) in H).
  rewrite i32_small by lia.
  destruct Hi. split; simpl; try done.
  - by rewrite length_insert.
  - apply NoDup_app. split_and!; [done | set_solver | apply NoDup_singleton].
  - intros t' p0 Ht'. rewrite elem_of_app, list_elem_of_singleton.
    apply list_lookup_insert_Some in Ht' as [(-> & <- & _)|[Hne Ht']].
    + naive_solver.
    + rewrite (li_active0 _ _ Ht'). naive_solver.
  - intros t' Ht'. rewrite length_insert.
    apply elem_of_app in Ht' as [?|Ht'%list_elem_of_singleton]; [auto|by subst].
  - intros i t' p0 Hi' Ht'.
    apply list_lookup_insert_Some in Ht' as [(-> & <- & _)|[Hne Ht']].
    + apply lookup_app_Some in Hi' as [Hi'|[Hge Hi']].
      { destruct Hq. apply list_elem_of_lookup. eauto. }
      apply list_lookup_singleton_Some in Hi' as [? _].
      replace i with (length q) by lia. simpl. rewrite <- li_next0. lia.
    + apply lookup_app_Some in Hi' as [Hi'|[_ Hi']]; [eauto|].
      apply list_lookup_singleton_Some in Hi' as [_ ?]. congruence.
  - intros i t' p0 Hi' Ht'.
    apply list_lookup_insert_Some in Ht' as [(-> & <- & _)|[Hne Ht']]; [done|].
    apply lookup_app_Some in Hi' as [Hi'|[_ Hi']]; [eauto|].
    apply list_lookup_singleton_Some in Hi' as [_ ?]. congruence.
  - rewrite length_app. simpl.
    replace (R + Z.of_nat (length q + 1)) with (R + Z.of_nat (length q) + 1) by lia.
    rewrite (Z.add_mod (next_slot _)), li_next0, <- Z.add_mod by lia. done.
  - lia.
  - destruct li_drift0 as (v & Hv & Hns & Hz).
    rewrite (zsum_insert _ _ _ _ _ Hp). simpl.
    pose proof (fixes_range (threads c)) as Hr.
    set (k := zsum _ _) in *.
    destruct (Z.eqb_spec (next_slot (lock c) mod n) 0) as [Hm|Hm].
    + apply Z.mod_divide in Hm as [d Hd]; [|lia].
      destruct (Z.ltb_spec 0 (next_slot (lock c))); simpl.
      * assert (v = n).
        { assert (v = (d - k) * n) as Hvn by lia.
          assert (v <> 0) by (intros ->; assert (k = 0) by auto; lia).
          assert (d - k = 1) by nia. nia. }
        exists 1. lia.
      * assert (v = 0 /\ k = 0) as [-> ?] by nia. exists 1. lia.
    + rewrite andb_false_r. exists (v + 1).
      assert (v <> n).
      { intros ->. apply Hm. rewrite Hns. replace (n + n * k) with ((1 + k) * n) by lia.
        apply Z.mod_mul. lia. }
      lia.
  - intros Hf t' e Ht'.
    apply list_lookup_insert_Some in Ht' as [(-> & ? & _)|[Hne Ht']]; [done|].
    by apply (li_free0 Hf t' e).
  - intros Hf. destruct (li_held0 Hf) as (t0 & q' & e & -> & Ht0).
    exists t0, (q' ++ [t]), e. split; [done|].
    rewrite list_lookup_insert_ne; [done|]. intros ->. congruence.
Qed.
(** Giving the lock back: the head leaves and the token moves on. *)
Lemma inv_release c R q free t e hl :
  lock_inv n c R q free -> threads c !! t = Some (Critical e) ->
  aset (has_lock (lock c)) (Z.rem (e + 1) n) 1 = Ok hl ->
  exists q', q = t :: q' /\
  lock_inv n (Config (ALock hl (next_slot (lock c)) (nthread (lock c)))
                     (<[t := Idle]> (threads c))) (R + 1) q' true.
Proof.
  intros Hi Hp Hhl. pose proof (lookup_lt_Some _ _ _ Hp) as Hlt.
  destruct (past_spin_head _ _ _ _ _ _ Hi Hp) as [q' ->]; [done | by intros [] |].
  exists q'. split; [done|].
  assert (free = false) as ->.
  { destruct free; [|done]. by destruct (li_free _ _ _ _ _ Hi eq_refl t e). }
  pose proof (next_slot_bound _ _ _ _ Hi) as Hb.
  destruct Hi.
  assert (e = R mod n) as ->.
  { specialize (li_slot0 0%nat t _ eq_refl Hp). simpl in li_slot0.
    by rewrite Z.add_0_r in li_slot0. }
  pose proof (Z.mod_pos_bound R n).
  assert (Z.rem (R mod n + 1) n = (R + 1) mod n) as Hrem.
  { rewrite Z.rem_mod_nonneg by lia. rewrite Zplus_mod_idemp_l. done. }
  rewrite Hrem in Hhl. apply aset_Ok in Hhl as [Hrng ->].
  pose proof (Z.mod_pos_bound (R + 1) n).
  apply NoDup_cons in li_nodup0 as [Hnot Hnd].
  split; simpl; try done.
  - by rewrite length_insert.
  - by rewrite length_insert.
  - intros t' p0 Ht'.
    apply list_lookup_insert_Some in Ht' as [(-> & <- & _)|[Hne Ht']]; [tauto|].
    rewrite <- (li_active0 _ _ Ht'). set_solver.
  - intros t' Ht'. rewrite length_insert. apply li_live0. by right.
  - intros i t' p0 Hi' Ht'.
    apply list_lookup_insert_Some in Ht' as [(-> & <- & _)|[Hne Ht']].
    + destruct Hnot. apply list_elem_of_lookup. eauto.
    + replace (R + 1 + Z.of_nat i) with (R + Z.of_nat (S i)) by lia. eauto.
  - intros i t' p0 Hi' Ht'.
    apply list_lookup_insert_Some in Ht' as [(-> & <- & _)|[Hne Ht']].
    + destruct Hnot. apply list_elem_of_lookup. eauto.
    + by apply (li_wait0 (S i) t').
  - rewrite li_next0. simpl length. f_equal. lia.
  - destruct li_drift0 as (v & Hv & Hns & Hz). exists v.
    rewrite (zsum_insert _ _ _ _ _ Hp). simpl. rewrite Z.sub_0_r, Z.add_0_r. done.
  - intros j Hj. destruct (li_token0 j Hj) as (x & Hx & Hiff).
    destruct (Z.eq_dec j ((R + 1) mod n)) as [->|Hne].
    + exists 1. rewrite list_lookup_insert_eq by lia. split; [done|]. split; [done|lia].
    + exists x. rewrite list_lookup_insert_ne by lia. split; [done|].
      rewrite Hiff. naive_solver.
  - intros _ t' e' Ht'.
    apply list_lookup_insert_Some in Ht' as [(-> & ? & _)|[Hne Ht']]; [done|].
    destruct (li_held0 eq_refl) as (t0 & q0 & e0 & [= <- <-] & _).
    assert (t' ∈ t :: q') as Hin by (by apply (li_active0 _ _ Ht')).
    apply elem_of_cons in Hin as [->|Hin]; [done|].
    apply list_elem_of_lookup in Hin as [i Hin].
    by destruct (li_wait0 i t' (Critical e')).
Qed.
(** The slot a thread spins on is one of the first [n]. *)
Lemma slot_range c R q free t p me :
  lock_inv n c R q free -> threads c !! t = Some p ->
  p = Spinning me \/ p = Clearing me -> 0 <= me < n.
Proof.
  intros Hi Hp Hme. pose proof (li_n _ _ _ _ _ Hi).
  assert (t ∈ q) as Hq by (apply (li_active _ _ _ _ _ Hi _ _ Hp); naive_solver).
  apply list_elem_of_lookup in Hq as [i Hq].
  pose proof (li_slot _ _ _ _ _ Hi _ _ _ Hq Hp) as Hs.
  assert (me = (R + Z.of_nat i) mod n) as -> by (destruct Hme; by subst).
  apply Z.mod_pos_bound. lia.
Qed.
(** A thread that sees its slot set is the head, and the token was free. *)
Lemma token_head c R q free t me x :
  lock_inv n c R q free -> threads c !! t = Some (Spinning me) ->
  has_lock (lock c) !! Z.to_nat me = Some x -> x <> 0 ->
  free = true /\ exists q', q = t :: q'.
Proof.
  intros Hi Hp Hx Hnz. pose proof (queue_short _ _ _ _ Hi) as Hqs.
  pose proof (slot_range _ _ _ _ _ _ _ Hi Hp (or_introl eq_refl)) as Hr.
  destruct Hi. destruct (li_token0 me Hr) as (x' & Hx' & Hiff).
  rewrite Hx in Hx'. injection Hx' as <-.
  destruct Hiff as [[Hme ->] _]; [done|]. split; [done|].
  assert (t ∈ q) as Hq by (by apply (li_active0 _ _ Hp)).
  apply list_elem_of_lookup in Hq as [i Hq].
  pose proof (li_slot0 _ _ _ Hq Hp) as Hs. simpl in Hs.
  pose proof (lookup_lt_Some _ _ _ Hq).
  assert (Z.of_nat i = 0).
  { apply (mod_near_inj n R); [lia | lia | lia |]. rewrite <- Hs, Hme. f_equal. lia. }
  destruct i; [|lia]. destruct q as [|t0 q]; [done|]. injection Hq as ->. eauto.
Qed.
(** Every action of every thread succeeds and keeps the invariant. *)
Lemma inv_step c R q free t p :
  lock_inv n c R q free -> threads c !! t = Some p ->
  exists c' R' q' free', cstep t c = Ok c' /\ lock_inv n c' R' q' free'.
Proof.
  intros Hi Hp. unfold cstep. rewrite Hp.
  pose proof (li_n _ _ _ _ _ Hi) as Hn. pose proof (li_nthread _ _ _ _ _ Hi) as Hnt.
  pose proof (li_len _ _ _ _ _ Hi) as Hlen.
  destruct p as [|me|me|me|e]; cbn -[aget aset].
  - eexists _, _, _, _. split; [done|]. by apply inv_fetch.
  - rewrite Hnt. destruct (Z.eqb_spec n 0); [lia|]. cbn.
    assert (t ∈ q) as Hq by (by apply (li_active _ _ _ _ _ Hi _ _ Hp)).
    apply list_elem_of_lookup in Hq as [i Hq].
    destruct (li_slot _ _ _ _ _ Hi _ _ _ Hq Hp) as [Hme _].
    rewrite !Z.rem_mod_nonneg by lia.
    pose proof (li_drift _ _ _ _ _ Hi) as (v & Hv & Hns & Hz).
    pose proof (next_slot_bound _ _ _ _ Hi) as Hb.
    assert (needs_fix n (Fetched me) <= zsum (needs_fix n) (threads c)) as Hle.
    { pose proof (fixes_range (<[t := Idle]> (threads c))) as Hr.
      rewrite (zsum_insert _ _ _ _ _ Hp) in Hr. simpl in Hr |- *. lia. }
    eexists _, R, q, free. split; [done|]. apply (inv_move c R q free free t (Fetched me)); try done;
      simpl in *; try apply Hi.
    + intros s [_ ?]. done.
    + by left.
    + destruct (_ && _); [rewrite i32_small by nia|]; nia.
    + destruct (_ && _); [rewrite i32_small by nia|]; lia.
    + intros Hf t' e' Ht'.
      apply list_lookup_insert_Some in Ht' as [(-> & ? & _)|[Hne Ht']]; [done|].
      by apply (li_free _ _ _ _ _ Hi Hf t' e').
    + intros Hf. destruct (li_held _ _ _ _ _ Hi Hf) as (t0 & q' & e0 & -> & Ht0).
      eexists t0, q', e0. split; [done|]. rewrite list_lookup_insert_ne; [done|].
      intros ->. congruence.
  - pose proof (slot_range _ _ _ _ _ _ _ Hi Hp (or_introl eq_refl)) as Hr.
    destruct (li_token _ _ _ _ _ Hi me Hr) as (x & Hx & Hiff).
    assert (aget (has_lock (lock c)) me = Ok x) as -> by (apply aget_Ok; split; [lia|done]).
    cbn. eexists _, R, q, free. split; [done|].
    apply (inv_move c R q free free t (Spinning me)); try done; try apply Hi.
    + by case_match.
    + by case_match.
    + intros s. by case_match.
    + case_match; [by left | right].
      eapply (token_head c R q free t me x); eauto. by apply Z.eqb_neq.
    + simpl. lia.
    + intros Hf t' e' Ht'.
      apply list_lookup_insert_Some in Ht' as [(-> & Hq & _)|[Hne Ht']]; [by case_match|].
      by apply (li_free _ _ _ _ _ Hi Hf t' e').
    + intros Hf. destruct (li_held _ _ _ _ _ Hi Hf) as (t0 & q' & e0 & -> & Ht0).
      eexists t0, q', e0. split; [done|]. rewrite list_lookup_insert_ne; [done|].
      intros ->. congruence.
  - pose proof (slot_range _ _ _ _ _ _ _ Hi Hp (or_intror eq_refl)) as Hr.
    destruct (past_spin_head _ _ _ _ _ _ Hi Hp) as [q' ->]; [done | by intros [] |].
    pose proof (li_slot _ _ _ _ _ Hi 0%nat t _ eq_refl Hp) as Hs. simpl in Hs.
    rewrite Z.add_0_r in Hs.
    rewrite aset_in by (rewrite Hlen; unfold MAX_CLIENTS in *; lia). cbn.
    eexists _, R, (t :: q'), false. split; [done|].
    apply (inv_move c R (t :: q') free false t (Clearing me)); try done; simpl.
    + by rewrite length_insert.
    + right. eauto.
    + apply Hi.
    + lia.
    + intros j Hj. destruct (li_token _ _ _ _ _ Hi j Hj) as (x & Hx & Hiff).
      destruct (Z.eq_dec j me) as [->|Hne].
      * exists 0. rewrite list_lookup_insert_eq by lia. split; [done|].
        split; [done | intros [_ ?]; done].
      * exists x. rewrite list_lookup_insert_ne by lia. split; [done|].
        rewrite Hiff. subst me. naive_solver.
    + intros _. eexists t, q', me. split; [done|].
      apply list_lookup_insert_eq. by eapply lookup_lt_Some.
  - rewrite Hnt. destruct (Z.eqb_spec n 0); [lia|]. cbn -[aset].
    pose proof (Z.rem_bound_pos (e + 1) n) as Hr.
    assert (0 <= e + 1).
    { destruct (past_spin_head _ _ _ _ _ _ Hi Hp) as [q' ->]; [done | by intros [] |].
      pose proof (li_slot _ _ _ _ _ Hi 0%nat t _ eq_refl Hp) as Hs. simpl in Hs.
      pose proof (Z.mod_pos_bound (R + 0) n). lia. }
    destruct (aset (has_lock (lock c)) (Z.rem (e + 1) n) 1) as [hl|] eqn:Hhl.
    + cbn. destruct (inv_release _ _ _ _ _ _ _ Hi Hp Hhl) as (q' & _ & Hi').
      rewrite Hnt in Hi'. eauto 10.
    + rewrite aset_in in Hhl; [done|]. rewrite Hlen. unfold MAX_CLIENTS in *. lia.
Qed.
(** The initial configuration, in memory whose other slots are clear. *)
Lemma inv_initial raw l nt :
  1 <= n -> Z.of_nat nt <= n ->
  length (has_lock raw) = Z.to_nat MAX_CLIENTS ->
  (forall i, 0 < i < n -> has_lock raw !! Z.to_nat i = Some 0) ->
  anderson_init raw n = Ok l -> lock_inv n (initial l nt) 0 [] true.
Proof.
  intros Hn Hnt Hlen Hz Hl. unfold anderson_init in Hl. invb Hl.
  apply Z.leb_le in Ha. apply aset_Ok in Ha0 as [Hr ->].
  assert (zsum (needs_fix n) (replicate nt Idle) = 0) as Hsum.
  { clear. induction nt; simpl; autorewrite with smp; simpl; lia. }
  split; simpl; try done.
  - by rewrite length_insert.
  - by rewrite length_replicate.
  - apply NoDup_nil_2.
  - intros t p Hp. apply lookup_replicate in Hp as [-> _]. set_solver.
  - set_solver.
  - exists 0. rewrite Hsum. lia.
  - intros j Hj. rewrite Z.mod_0_l by lia.
    destruct (Z.eq_dec j 0) as [->|Hne].
    + exists 1. rewrite list_lookup_insert_eq by lia. done.
    + exists 0. rewrite list_lookup_insert_ne by lia. rewrite Hz by lia. split; [done|]. lia.
  - intros _ t e Ht. apply lookup_replicate in Ht as [? _]. done.
Qed.
End invariant.

(** ** A thread running alone *)
Definition enters (k : nat) (t : nat) (c : config) : Prop :=
  exists c' e, run (replicate k t) c = Ok c' /\ threads c' !! t = Some (Critical e).

Lemma enters_step k t c p l p' :
  threads c !! t = Some p -> anderson_step (lock c) p = Ok (l, p') ->
  enters k t (Config l (<[t := p']> (threads c))) -> enters (S k) t c.
Proof.
  intros Hp Hs (c' & e & Hr & Hc). exists c', e. split; [|done].
  simpl. unfold cstep. rewrite Hp. simpl. rewrite Hs. exact Hr.
Qed.

Lemma enter_clearing t c me :
  threads c !! t = Some (Clearing me) ->
  0 <= me < Z.of_nat (length (has_lock (lock c))) -> enters 1 t c.
Proof.
  intros Hp Hme. eapply enters_step; [done | simpl; by rewrite aset_in by done|].
  eexists _, _. split; [done|]. simpl. apply list_lookup_insert_eq.
  by eapply lookup_lt_Some.
Qed.

Lemma enter_spinning t c me x :
  threads c !! t = Some (Spinning me) -> aget (has_lock (lock c)) me = Ok x -> x <> 0 ->
  enters 2 t c.
Proof.
  intros Hp Hx Hnz. eapply enters_step; [done | simpl; by rewrite Hx|].
  apply Z.eqb_neq in Hnz. rewrite Hnz. apply aget_Ok in Hx as [Hme Hx].
  apply (enter_clearing t _ me); simpl.
  - apply list_lookup_insert_eq. by eapply lookup_lt_Some.
  - apply lookup_lt_Some in Hx. lia.
Qed.

Lemma enter_fetched t c me x :
  threads c !! t = Some (Fetched me) -> nthread (lock c) <> 0 ->
  aget (has_lock (lock c)) (Z.rem me (nthread (lock c))) = Ok x -> x <> 0 ->
  enters 3 t c.
Proof.
  intros Hp Hn Hx Hnz. apply Z.eqb_neq in Hn.
  eapply enters_step; [done | simpl; by rewrite Hn|].
  apply (enter_spinning t _ (Z.rem me (nthread (lock c))) x); try done; simpl.
  apply list_lookup_insert_eq. by eapply lookup_lt_Some.
Qed.

(** ** Reachable configurations *)
Section reachable.
Context (n : Z) (raw l : alock) (nt : nat).
Context (Hn : 1 <= n) (Hnt : Z.of_nat nt <= n).
Context (Hlen : length (has_lock raw) = Z.to_nat MAX_CLIENTS).
Context (Hzero : forall i, 0 < i < n -> has_lock raw !! Z.to_nat i = Some 0).
Context (Hinit : anderson_init raw n = Ok l).
Lemma reachable_inv c :
  rtc step (initial l nt) c -> exists R q free, lock_inv n c R q free.
Proof.
  intros H.
  refine (rtc_invariant step
    (fun c => exists R q free, lock_inv n c R q free) _ _ H _ _).
  - exists 0, [], true. by apply (inv_initial n raw).
  - intros c1 c2 (R & q & free & Hi) [t Ht].
    destruct (threads c1 !! t) as [p|] eqn:Hp.
    + destruct (inv_step n c1 R q free t p Hi Hp) as (c' & R' & q' & free' & Hc & Hi').
      rewrite Ht in Hc. simplify_eq. eauto.
    + unfold cstep in Ht. by rewrite Hp in Ht.
Qed.
(** C28: when at most [nthread] threads use a lock whose unused slots are
    clear, no reachable configuration has two of them in the critical
    section. *)
Theorem mutual_exclusion c t1 t2 e1 e2 :
  rtc step (initial l nt) c ->
  threads c !! t1 = Some (Critical e1) -> threads c !! t2 = Some (Critical e2) ->
  t1 = t2.
Proof.
  intros Hr H1 H2. destruct (reachable_inv _ Hr) as (R & q & free & Hi).
  destruct (past_spin_head _ _ _ _ _ _ _ Hi H1) as [q1 ->]; [done | by intros [] |].
  destruct (past_spin_head _ _ _ _ _ _ _ Hi H2) as [q2 [=]]; [done | by intros [] |]. done.
Qed.
(** Under the same conditions every action of every thread is defined
    (the array index is in range, the divisor is not zero, no assertion
    fails) and [next_slot] never comes near the end of [int], although it is
    decremented by [nthread] only now and then and late. *)
Theorem lock_actions_defined c t p :
  rtc step (initial l nt) c -> threads c !! t = Some p ->
  0 <= next_slot (lock c) <= 2 ^ 21 /\ exists c', cstep t c = Ok c'.
Proof.
  intros Hr Hp. destruct (reachable_inv _ Hr) as (R & q & free & Hi). split.
  - by eapply next_slot_bound.
  - destruct (inv_step _ _ _ _ _ _ _ Hi Hp) as (c' & _ & _ & _ & Hc & _). eauto.
Qed.
(** The head of the queue reaches its critical section on its own. *)
Lemma head_enters c R q t :
  lock_inv n c R (t :: q) true -> exists k, (k <= 3)%nat /\ enters k t c.
Proof.
  intros Hi.
  assert (t < length (threads c))%nat as Hlt by (apply (li_live _ _ _ _ _ Hi); by left).
  destruct (lookup_lt_is_Some_2 _ _ Hlt) as [p Hp].
  pose proof (li_slot _ _ _ _ _ Hi 0%nat t p eq_refl Hp) as Hs. simpl in Hs.
  rewrite Z.add_0_r in Hs. pose proof (Z.mod_pos_bound R n ltac:(lia)) as Hrn.
  destruct (li_token _ _ _ _ _ Hi (R mod n) Hrn) as (x & Hx & Hiff).
  assert (x <> 0) as Hxn by (by apply Hiff).
  assert (aget (has_lock (lock c)) (R mod n) = Ok x) as Hget
    by (apply aget_Ok; split; [lia | done]).
  pose proof (li_nthread _ _ _ _ _ Hi) as Hnt'.
  destruct p as [|me|me|me|e]; simpl in Hs; try done.
  - destruct Hs as [Hme Hs]. exists 3%nat. split; [lia|].
    apply (enter_fetched t c me x); rewrite ?Hnt'; try done; [lia|].
    by rewrite Z.rem_mod_nonneg, Hs by lia.
  - exists 2%nat. split; [lia|]. subst me. by eapply enter_spinning.
  - exists 1%nat. split; [lia|]. apply (enter_clearing t c me); [done|].
    apply lookup_lt_Some in Hx. lia.
  - by destruct (li_free _ _ _ _ _ Hi eq_refl t e).
Qed.
(** C29: the token is never lost. Whenever some thread has taken a ticket and
    no thread is in the critical section, some thread gets in by at most
    three actions of its own, whatever the others do not do. *)
Theorem lock_progress c t p :
  rtc step (initial l nt) c -> threads c !! t = Some p -> p <> Idle ->
  (forall t' e, threads c !! t' <> Some (Critical e)) ->
  exists t' k, (k <= 3)%nat /\ enters k t' c.
Proof.
  intros Hr Hp Hid Hnc. destruct (reachable_inv _ Hr) as (R & q & free & Hi).
  assert (t ∈ q) as Hq by (by apply (li_active _ _ _ _ _ Hi _ _ Hp)).
  destruct q as [|t0 q]; [set_solver|].
  destruct free.
  - exists t0. by apply (head_enters c R q t0).
  - destruct (li_held _ _ _ _ _ Hi eq_refl) as (t1 & q1 & e & _ & Ht1).
    by destruct (Hnc t1 e).
Qed.
End reachable.

(** ** The condition on the number of threads

    [init_hash_partition] initialises the partition lock with
    [nthread = nservers], but the threads that take it are the clients. *)
Definition clear_memory : alock := ALock (replicate (Z.to_nat MAX_CLIENTS) 0) 0 0.

Lemma run_rtc ts c c' : run ts c = Ok c' -> rtc step c c'.
Proof.
  revert c. induction ts as [|t ts IH]; intros c H.
  - injection H as ->. done.
  - apply bind_Ok in H as (c1 & H1 & H). apply rtc_l with c1; [by exists t | auto].
Qed.

(** One slot shared by two threads is not a lock. With [nthread = 1] (one
    partition) two threads that both see the slot set before either clears it
    are in the critical section together. *)
Theorem two_clients_one_slot :
  exists l c, anderson_init clear_memory 1 = Ok l /\ rtc step (initial l 2) c /\
    threads c = [Critical 0; Critical 0].
Proof.
  exists (ALock (1 :: replicate 1023 0) 0 1).
  assert (exists c, run [0; 1; 0; 1; 0; 1; 0; 1]%nat
            (initial (ALock (1 :: replicate 1023 0) 0 1) 2) = Ok c /\
            threads c = [Critical 0; Critical 0]) as (c & Hc & Ht)
    by (eexists; split; [vm_compute; reflexivity | reflexivity]).
  exists c. split; [by vm_compute|]. split; [by eapply run_rtc | done].
Qed.

(** [anderson_init] writes slot 0 only. In memory where slot 1 was not already
    clear, two threads on a two-slot lock are in the critical section together. *)
Theorem uninitialised_slot :
  exists raw l c, length (has_lock raw) = Z.to_nat MAX_CLIENTS /\
    anderson_init raw 2 = Ok l /\ rtc step (initial l 2) c /\
    threads c = [Critical 0; Critical 1].
Proof.
  exists (ALock (replicate 1024 7) 7 7), (ALock (1 :: replicate 1023 7) 0 2).
  assert (exists c, run [0; 0; 0; 0; 1; 1; 1; 1]%nat
            (initial (ALock (1 :: replicate 1023 7) 0 2) 2) = Ok c /\
            threads c = [Critical 0; Critical 1]) as (c & Hc & Ht)
    by (eexists; split; [vm_compute; reflexivity | reflexivity]).
  exists c. split; [by vm_compute|]. split; [by vm_compute|].
  split; [by eapply run_rtc | done].
Qed.

(** ** Witnesses: two threads on two slots *)
Definition two_slots : alock := ALock (1 :: replicate 1023 0) 0 2.

Definition run_or_start (ts : list nat) : config :=
  match run ts (initial two_slots 2) with Ok c => c | Fault _ => initial two_slots 2 end.

Lemma two_slots_zero i : 0 < i < 2 -> has_lock clear_memory !! Z.to_nat i = Some 0.
Proof. intros Hi. assert (i = 1) as -> by lia. reflexivity. Qed.

(** Thread 0 in its critical section, thread 1 waiting behind it. *)
Lemma mutual_exclusion_witness :
  threads (run_or_start [0; 0; 0; 1; 0; 1; 1]%nat) = [Critical 0; Spinning 1] /\ 0%nat = 0%nat.
Proof.
  split; [vm_compute; reflexivity|].
  apply (mutual_exclusion 2 clear_memory two_slots 2 ltac:(lia) ltac:(lia) eq_refl
           two_slots_zero eq_refl (run_or_start [0; 0; 0; 1; 0; 1; 1]%nat) 0 0 0 0).
  - apply (run_rtc [0; 0; 0; 1; 0; 1; 1]%nat). vm_compute. reflexivity.
  - vm_compute. reflexivity.
  - vm_compute. reflexivity.
Defined.

Lemma lock_actions_defined_witness :
  exists c', cstep 1 (run_or_start [0; 0; 0; 1; 0; 1; 1]%nat) = Ok c'.
Proof.
  apply (lock_actions_defined 2 clear_memory two_slots 2 ltac:(lia) ltac:(lia) eq_refl
           two_slots_zero eq_refl (run_or_start [0; 0; 0; 1; 0; 1; 1]%nat) 1 (Spinning 1)).
  - apply (run_rtc [0; 0; 0; 1; 0; 1; 1]%nat). vm_compute. reflexivity.
  - vm_compute. reflexivity.
Defined.

Lemma lock_progress_witness :
  exists t' k, (k <= 3)%nat /\ enters k t' (run_or_start [0; 0; 0; 1; 0; 0; 1]%nat).
Proof.
  apply (lock_progress 2 clear_memory two_slots 2 ltac:(lia) ltac:(lia) eq_refl
           two_slots_zero eq_refl (run_or_start [0; 0; 0; 1; 0; 0; 1]%nat) 1 (Spinning 1)).
  - apply (run_rtc [0; 0; 0; 1; 0; 0; 1]%nat). vm_compute. reflexivity.
  - vm_compute. reflexivity.
  - discriminate.
  - intros [|[|t']] e; vm_compute; discriminate.
Defined.
