(* ===== verification/MPBuffers.v ===== *)
(** * MPBuffers: the message buffers ([mpbuffers.h], [mpbuffers.c])

    The input buffer carries batches of at most one cache line of words from a
    client to a server through [INPB_COUNT] slots, with 0 as the mark of an
    empty slot and of the end of a short batch. The output buffer carries the
    server's answers back through a ring of [OUTB_SIZE] words. Here are the
    operations as their callers run them, and the queue each buffer is; the
    interleavings of the two ends are in [MPChannel]. *)
From stdpp Require Import base list.
From Stdlib Require Import ZArith Lia.
From S2P Require Import Prelude Protocol.

Local Open Scope Z_scope.

(** [struct inputbuffer] and [struct outputbuffer], without the padding. *)
Record inputbuffer := InputBuffer {
  ib_data : list (list Z);
  data_rd : Z;
  local_data : list Z;
  local_index : Z;
  data_wr : Z
}.

Record outputbuffer := OutputBuffer {
  ob_data : list Z;
  wr_index : Z;
  local_rd_index : Z;
  local_wr_index : Z
}.

(** [memset(box, 0, sizeof(struct box))] in [create_hash_table_client]. *)
Definition inputbuffer_zero : inputbuffer :=
  InputBuffer (replicate (Z.to_nat INPB_COUNT) (replicate (Z.to_nat INPB_SIZE) 0)) 0
              (replicate (Z.to_nat INPB_SIZE) 0) 0 0.

Definition outputbuffer_zero : outputbuffer :=
  OutputBuffer (replicate (Z.to_nat OUTB_SIZE) 0) 0 0 0.

(** ** Client side of the input buffer *)

(** The slot a flush leaves: words 1 .. local_index-1, then the terminator of
    a short batch, then, after the barrier, word 0. *)
Definition fill_slot (slot local : list Z) (n : Z) : result (list Z) :=
  s ← acopy (Z.to_nat (n - 1)) local 1 slot 1;
  s ← (if n <? INPB_SIZE then aset s n 0 else mret s);
  v ← aget local 0;
  aset s 0 v.

Arguments fill_slot : simpl never.

Definition inpb_flush (b : inputbuffer) : result inputbuffer :=
  if local_index b =? 0 then mret b else
  slot ← aget (ib_data b) (data_wr b);
  w ← aget slot 0;
  _ ← check (w =? 0) Blocked;
  slot ← fill_slot slot (local_data b) (local_index b);
  d ← aset (ib_data b) (data_wr b) slot;
  mret (InputBuffer d (data_rd b) (local_data b) 0 (Z.land (data_wr b + 1) (INPB_COUNT - 1))).

Definition inpb_write (b : inputbuffer) (write_count : Z) (data : list Z) : result inputbuffer :=
  _ ← check (write_count <=? INPB_SIZE) AssertFailed;
  b ← (if INPB_SIZE <? local_index b + write_count then inpb_flush b else mret b);
  l ← acopy (Z.to_nat write_count) data 0 (local_data b) (local_index b);
  mret (InputBuffer (ib_data b) (data_rd b) l (local_index b + write_count) (data_wr b)).

(** ** Server side of the input buffer *)

(** The scan of one slot into the caller's buffer [data], which keeps its old
    words past the count. The loop runs at most [INPB_SIZE] times. *)
Fixpoint inpb_scan (fuel : nat) (slot : list Z) (count : Z) (data : list Z)
    : result (Z * list Z) :=
  if count <? INPB_SIZE then
    w ← aget slot count;
    if w =? 0 then mret (count, data) else
    match fuel with
    | O => Fault Blocked
    | S fuel => data' ← aset data count w; inpb_scan fuel slot (count + 1) data'
    end
  else mret (count, data).

Definition inpb_read (b : inputbuffer) (data : list Z) : result (Z * list Z * inputbuffer) :=
  slot ← aget (ib_data b) (data_rd b);
  '(count, data') ← inpb_scan (Z.to_nat INPB_SIZE) slot 0 data;
  if count =? 0 then mret (count, data', b) else
  slot' ← aset slot 0 0;
  d ← aset (ib_data b) (data_rd b) slot';
  mret (count, data',
        InputBuffer d (Z.land (data_rd b + 1) (INPB_COUNT - 1)) (local_data b)
                    (local_index b) (data_wr b)).

(** ** Output buffer *)

Definition outb_write (b : outputbuffer) (write_count : Z) (data : list Z) : result outputbuffer :=
  _ ← check (write_count <=? OUTB_SIZE) AssertFailed;
  d ← ring_store OUTB_SIZE (Z.to_nat write_count) 0 data (wr_index b) (ob_data b);
  mret (OutputBuffer d (u64 (wr_index b + write_count)) (local_rd_index b) (local_wr_index b)).

(** Returns the [int] result, the word read if any, and the buffer. *)
Definition outb_read (b : outputbuffer) : result (Z * option Z * outputbuffer) :=
  let lw := if local_rd_index b =? local_wr_index b then wr_index b else local_wr_index b in
  if local_rd_index b =? lw then
    mret (0, None, OutputBuffer (ob_data b) (wr_index b) (local_rd_index b) lw)
  else
    v ← aget (ob_data b) (Z.land (local_rd_index b) (OUTB_SIZE - 1));
    mret (1, Some v,
          OutputBuffer (ob_data b) (wr_index b) (u64 (local_rd_index b + 1)) lw).

(** The blocking read is [Blocked] while the server has published nothing:
    only the other end can end the wait. *)
Definition outb_blocking_read (b : outputbuffer) : result (Z * outputbuffer) :=
  '(r, v, b') ← outb_read b;
  if r =? 0 then Fault Blocked else w ← deref v; mret (w, b').

(** ** What the input buffer holds *)
Definition nonzero (w : Z) : Prop := w <> 0.

(** A slot that carries a batch, and a slot free for the next one. *)
Definition slot_holds (slot batch : list Z) : Prop :=
  length slot = Z.to_nat INPB_SIZE /\
  (1 <= length batch <= Z.to_nat INPB_SIZE)%nat /\
  Forall nonzero batch /\
  take (length batch) slot = batch /\
  ((length batch < Z.to_nat INPB_SIZE)%nat -> slot !! length batch = Some 0).

Definition slot_free (slot : list Z) : Prop :=
  length slot = Z.to_nat INPB_SIZE /\ slot !! 0%nat = Some 0.

(** [ib_rep b q loc]: [b] is the queue [q] of flushed batches, read at
    [data_rd], with [loc] accumulated and not flushed. *)
Record ib_rep (b : inputbuffer) (q : list (list Z)) (loc : list Z) : Prop := {
  ir_len : length (ib_data b) = Z.to_nat INPB_COUNT;
  ir_local : length (local_data b) = Z.to_nat INPB_SIZE;
  ir_rd : 0 <= data_rd b < INPB_COUNT;
  ir_wr : data_wr b = (data_rd b + Z.of_nat (length q)) mod INPB_COUNT;
  ir_q : Z.of_nat (length q) <= INPB_COUNT;
  ir_loc : take (length loc) (local_data b) = loc;
  ir_index : local_index b = Z.of_nat (length loc);
  ir_loc_nz : Forall nonzero loc;
  ir_slot : forall i, 0 <= i < INPB_COUNT ->
    exists slot, ib_data b !! Z.to_nat ((data_rd b + i) mod INPB_COUNT) = Some slot /\
      match q !! Z.to_nat i with
      | Some batch => slot_holds slot batch
      | None => slot_free slot
      end
}.

Lemma INPB_SIZE_val : INPB_SIZE = 8. Proof. reflexivity. Qed.
Lemma INPB_COUNT_val : INPB_COUNT = 4. Proof. reflexivity. Qed.
Lemma OUTB_SIZE_val : OUTB_SIZE = 64. Proof. reflexivity. Qed.

(** Masking a slot number is taking it modulo the number of slots. *)
Lemma slot_succ x : 0 <= x -> Z.land (x + 1) (INPB_COUNT - 1) = (x + 1) mod INPB_COUNT.
Proof. intros. change (INPB_COUNT - 1) with (2 ^ 2 - 1). rewrite land_ones_mod by lia. done. Qed.

Lemma out_index x : Z.land (u64 x) (OUTB_SIZE - 1) = x mod OUTB_SIZE.
Proof. change (OUTB_SIZE - 1) with (2 ^ 6 - 1). rewrite land_ring by lia. done. Qed.

Lemma fill_slot_holds slot local loc :
  length slot = Z.to_nat INPB_SIZE -> length local = Z.to_nat INPB_SIZE ->
  (1 <= length loc <= Z.to_nat INPB_SIZE)%nat -> Forall nonzero loc ->
  take (length loc) local = loc ->
  exists s, fill_slot slot local (Z.of_nat (length loc)) = Ok s /\ slot_holds s loc.
Proof.
  rewrite INPB_SIZE_val. change (Z.to_nat 8) with 8%nat. intros Hs Hl Hn Hnz Ht.
  rewrite take_prefix_lookup in Ht. unfold fill_slot. rewrite INPB_SIZE_val.
  destruct (acopy_spec (Z.to_nat (Z.of_nat (length loc) - 1)) local 1 slot 1)
    as (s1 & -> & Hl1 & Hj1); [lia | lia | lia | lia |]. simpl.
  destruct (aget_in local 0) as [v Hv]; [lia|]. rewrite Hv.
  apply aget_Ok in Hv as [_ Hv]. change (Z.to_nat 0) with 0%nat in Hv.
  set (s2 := if Z.of_nat (length loc) <? 8 then <[length loc := 0]> s1 else s1).
  assert ((if Z.of_nat (length loc) <? 8 then aset s1 (Z.of_nat (length loc)) 0 else mret s1)
          = Ok s2) as ->.
  { subst s2. destruct (Z.ltb_spec (Z.of_nat (length loc)) 8); [|done].
    rewrite aset_in by lia. by rewrite Nat2Z.id. }
  assert (length s2 = 8%nat) as Hl2 by (subst s2; case_match; rewrite ?length_insert; lia).
  simpl. rewrite aset_in by lia. eexists. split; [done|]. unfold slot_holds.
  change (Z.to_nat INPB_SIZE) with 8%nat. change (Z.to_nat 0) with 0%nat.
  split_and!; [by rewrite length_insert | lia | lia | done | |].
  - apply take_prefix_lookup. intros j Hj. rewrite <- Ht by done.
    destruct (decide (j = 0%nat)) as [->|Hne].
    + rewrite list_lookup_insert_eq by lia. by rewrite Hv.
    + rewrite list_lookup_insert_ne by lia.
      assert (s2 !! j = s1 !! j) as ->
        by (subst s2; case_match; [by rewrite list_lookup_insert_ne by lia | done]).
      rewrite Hj1, decide_True by lia. f_equal. lia.
  - intros Hlt. rewrite list_lookup_insert_ne by lia. subst s2.
    destruct (Z.ltb_spec (Z.of_nat (length loc)) 8); [|lia].
    rewrite list_lookup_insert_eq by lia. done.
Qed.

(** Scanning a slot that holds a batch yields the batch, in front of whatever
    the caller's buffer held further on. *)
Lemma inpb_scan_holds slot batch fuel k data :
  slot_holds slot batch -> length data = Z.to_nat INPB_SIZE ->
  (k <= length batch)%nat -> (Z.to_nat INPB_SIZE <= k + fuel)%nat ->
  inpb_scan fuel slot (Z.of_nat k) data =
    Ok (Z.of_nat (length batch),
        take k data ++ drop k batch ++ drop (length batch) data).
Proof.
  intros (Hsl & Hlen & Hnz & Ht & Hterm) Hd. revert k data Hd.
  change (Z.to_nat INPB_SIZE) with 8%nat in *.
  rewrite take_prefix_lookup in Ht.
  induction fuel as [|fuel IH]; intros k data Hd Hk Hf; cbn [inpb_scan];
    rewrite INPB_SIZE_val; destruct (Z.ltb_spec (Z.of_nat k) 8); try lia.
  - assert (k = length batch) as -> by lia.
    rewrite drop_all, app_nil_l, take_drop. done.
  - destruct (decide (k = length batch)) as [->|Hne].
    + assert (aget slot (Z.of_nat (length batch)) = Ok 0) as ->
        by (apply aget_Ok; split; [lia | rewrite Nat2Z.id; apply Hterm; lia]).
      simpl. by rewrite drop_all, app_nil_l, take_drop.
    + destruct (lookup_lt_is_Some_2 batch k) as [w Hw]; [lia|].
      assert (aget slot (Z.of_nat k) = Ok w) as ->
        by (apply aget_Ok; split; [lia | rewrite Nat2Z.id, Ht by lia; done]).
      simpl. rewrite (proj2 (Z.eqb_neq w 0)) by
        (rewrite Forall_forall in Hnz; apply Hnz; apply list_elem_of_lookup; eauto).
      rewrite aset_in by lia. simpl. rewrite Nat2Z.id.
      replace (Z.of_nat k + 1) with (Z.of_nat (S k)) by lia.
      rewrite IH; [| by rewrite length_insert | lia | lia].
      do 2 f_equal. rewrite (take_S_r _ _ w) by (apply list_lookup_insert_eq; lia).
      rewrite take_insert_ge, drop_insert_lt, (drop_S batch w k) by (done || lia).
      by rewrite <- app_assoc.
  - assert (k = length batch) as -> by lia.
    rewrite drop_all, app_nil_l, take_drop. done.
Qed.

Lemma inpb_scan_free slot fuel data :
  slot_free slot -> inpb_scan fuel slot 0 data = Ok (0, data).
Proof.
  intros [Hl H0]. destruct fuel; cbn [inpb_scan];
    (assert (aget slot 0 = Ok 0) as -> by (apply aget_Ok; split; [lia | done]); done).
Qed.

(** ** The input buffer as a queue of batches *)
Lemma ib_rep_zero : ib_rep inputbuffer_zero [] [].
Proof.
  split; try done; try (unfold INPB_COUNT; simpl; lia).
  intros i Hi. exists (replicate 8 0). rewrite INPB_COUNT_val in *. split.
  - unfold inputbuffer_zero. cbn [ib_data data_rd].
    apply lookup_replicate. split; [done|]. pose proof (Z.mod_pos_bound (0 + i) 4).
    rewrite INPB_COUNT_val. lia.
  - done.
Qed.

Lemma ib_slot_wr b q loc :
  ib_rep b q loc -> Z.of_nat (length q) < INPB_COUNT ->
  exists slot, aget (ib_data b) (data_wr b) = Ok slot /\ slot_free slot.
Proof.
  intros [] Hlt. destruct (ir_slot0 (Z.of_nat (length q))) as (slot & Hs & Hq); [lia|].
  rewrite Nat2Z.id, (proj2 (lookup_ge_None q (length q))) in Hq by lia.
  exists slot. split; [|done]. apply aget_Ok. rewrite ir_wr0. split; [|done].
  apply Z.mod_pos_bound. done.
Qed.

(** A full buffer blocks the flush of a non-empty batch; anything else is
    appended to the queue. *)
Lemma inpb_flush_full b q loc :
  ib_rep b q loc -> Z.of_nat (length q) = INPB_COUNT -> loc <> [] ->
  inpb_flush b = Fault Blocked.
Proof.
  intros [] Hlen Hloc. unfold inpb_flush.
  rewrite (proj2 (Z.eqb_neq _ 0)) by (destruct loc; simpl in *; [done|lia]).
  destruct (ir_slot0 0) as (slot & Hs & Hq); [done|].
  destruct q as [|batch q]; [done|]. cbn in Hq. rewrite Z.add_0_r in Hs.
  assert (aget (ib_data b) (data_wr b) = Ok slot) as ->.
  { apply aget_Ok. rewrite ir_wr0, Hlen. split; [by apply Z.mod_pos_bound|].
    rewrite <- Hs. do 2 f_equal. rewrite <- (Z.mul_1_l INPB_COUNT) at 1. by rewrite Z.mod_add. }
  destruct Hq as (_ & Hbl & Hnz & Ht & _). destruct batch as [|w batch]; [simpl in *; lia|].
  destruct slot as [|w' slot]; [done|]. injection Ht as -> _.
  apply Forall_cons in Hnz as [Hw _]. simpl. change (aget (w :: slot) 0) with (Ok w).
  simpl. by rewrite (proj2 (Z.eqb_neq w 0)).
Qed.

(** A filled slot becomes the last batch of the queue. *)
Lemma ib_publish b q loc s :
  ib_rep b q loc -> Z.of_nat (length q) < INPB_COUNT -> slot_holds s loc ->
  ib_rep (InputBuffer (<[Z.to_nat (data_wr b) := s]> (ib_data b)) (data_rd b) (local_data b) 0
            (Z.land (data_wr b + 1) (INPB_COUNT - 1))) (q ++ [loc]) [].
Proof.
  intros [] Hlt Hh.
  assert (0 <= data_wr b < INPB_COUNT) as Hwr by (rewrite ir_wr0; by apply Z.mod_pos_bound).
  rewrite INPB_COUNT_val in *.
  split; simpl; try done.
  - by rewrite length_insert.
  - rewrite slot_succ, ir_wr0, length_app by lia. simpl. rewrite INPB_COUNT_val.
    rewrite Zplus_mod_idemp_l. f_equal. lia.
  - rewrite length_app. simpl. rewrite INPB_COUNT_val. lia.
  - rewrite INPB_COUNT_val. intros i Hi.
    destruct (Z.eq_dec i (Z.of_nat (length q))) as [->|Hne].
    + exists s. rewrite <- ir_wr0, list_lookup_insert_eq by lia. split; [done|].
      by rewrite Nat2Z.id, lookup_app_r, Nat.sub_diag.
    + destruct (ir_slot0 i Hi) as (si & Hsi & Hm). exists si.
      rewrite list_lookup_insert_ne.
      * split; [done|]. destruct (decide (Z.to_nat i < length q)%nat).
        -- by rewrite lookup_app_l.
        -- rewrite (proj2 (lookup_ge_None _ _)) in Hm by lia.
           rewrite (proj2 (lookup_ge_None _ _)); [done|]. rewrite length_app. simpl. lia.
      * rewrite ir_wr0. intros Heq.
        pose proof (Z.mod_pos_bound (data_rd b + i) 4).
        pose proof (Z.mod_pos_bound (data_rd b + Z.of_nat (length q)) 4).
        apply Hne, (mod_near_inj 4 (data_rd b)); lia.
Qed.

(** The slot of the first batch is given back by clearing its first word. *)
Lemma ib_consume b batch q loc slot :
  ib_rep b (batch :: q) loc -> aget (ib_data b) (data_rd b) = Ok slot ->
  ib_rep (InputBuffer (<[Z.to_nat (data_rd b) := <[0%nat := 0]> slot]> (ib_data b))
            (Z.land (data_rd b + 1) (INPB_COUNT - 1)) (local_data b) (local_index b) (data_wr b)) q loc.
Proof.
  intros [] Hslot. apply aget_Ok in Hslot as [_ Hslot]. rewrite INPB_COUNT_val in *.
  assert (length slot = 8%nat) as Hsl.
  { destruct (ir_slot0 0) as (s0 & Hs0 & Hh); [done|].
    rewrite Z.add_0_r, Z.mod_small, Hslot in Hs0 by lia. injection Hs0 as <-. apply Hh. }
  assert (0 <= data_rd b) as Hrd0 by lia.
  split; simpl; rewrite ?slot_succ, ?INPB_COUNT_val by lia; try done.
  - by rewrite length_insert.
  - apply Z.mod_pos_bound. lia.
  - rewrite ir_wr0, Zplus_mod_idemp_l. simpl length. f_equal. lia.
  - simpl in ir_q0. lia.
  - intros i Hi. rewrite Zplus_mod_idemp_l.
    replace (data_rd b + 1 + i) with (data_rd b + (i + 1)) by lia.
    destruct (Z.eq_dec i 3) as [->|Hne].
    + exists (<[0%nat := 0]> slot). replace (3 + 1) with (1 * 4) by lia.
      rewrite Z.mod_add, Z.mod_small, list_lookup_insert_eq by lia. split; [done|].
      rewrite (proj2 (lookup_ge_None _ _)) by (simpl in ir_q0; lia).
      split; [by rewrite length_insert | apply list_lookup_insert_eq; lia].
    + destruct (ir_slot0 (i + 1)) as (si & Hsi & Hm); [lia|]. exists si.
      rewrite list_lookup_insert_ne.
      * split; [done|]. rewrite Z2Nat.inj_add, Nat.add_1_r in Hm by lia. exact Hm.
      * intros Heq. pose proof (Z.mod_pos_bound (data_rd b + (i + 1)) 4).
        assert (i + 1 = 0); [|lia]. apply (mod_near_inj 4 (data_rd b)); try lia.
        rewrite Z.add_0_r, (Z.mod_small (data_rd b)) by lia. lia.
Qed.

Lemma inpb_flush_spec b q loc :
  ib_rep b q loc -> loc <> [] -> Z.of_nat (length q) < INPB_COUNT ->
  exists b', inpb_flush b = Ok b' /\ ib_rep b' (q ++ [loc]) [].
Proof.
  intros Hrep Hloc Hlt. destruct (ib_slot_wr _ _ _ Hrep Hlt) as (slot & Hget & Hfree).
  destruct Hrep. unfold inpb_flush.
  assert (1 <= length loc <= Z.to_nat INPB_SIZE)%nat as Hll.
  { split; [destruct loc; [done | simpl; lia]|].
    apply (f_equal length) in ir_loc0. rewrite length_take in ir_loc0. lia. }
  rewrite ir_index0, (proj2 (Z.eqb_neq _ 0)) by lia.
  rewrite Hget. simpl. destruct Hfree as [Hsl H0].
  assert (aget slot 0 = Ok 0) as -> by (apply aget_Ok; split; [lia | done]).
  destruct (fill_slot_holds slot (local_data b) loc) as (s & Hs & Hh); try done.
  simpl. rewrite Hs. simpl.
  assert (0 <= data_wr b < INPB_COUNT) as Hwr by (rewrite ir_wr0; by apply Z.mod_pos_bound).
  rewrite aset_in by (rewrite ir_len0; lia). simpl. eexists. split; [done|].
  apply ib_publish; [by split | done | done].
Qed.

Lemma ib_rep_loc_length b q loc : ib_rep b q loc -> (length loc <= Z.to_nat INPB_SIZE)%nat.
Proof. intros []. apply (f_equal length) in ir_loc0. rewrite length_take in ir_loc0. lia. Qed.

(** Accumulating words that fit. *)
Lemma inpb_append b q loc ws :
  ib_rep b q loc -> Forall nonzero ws -> (length loc + length ws <= Z.to_nat INPB_SIZE)%nat ->
  exists l, acopy (length ws) ws 0 (local_data b) (local_index b) = Ok l /\
    ib_rep (InputBuffer (ib_data b) (data_rd b) l
              (local_index b + Z.of_nat (length ws)) (data_wr b)) q (loc ++ ws).
Proof.
  intros [] Hnz Hfit.
  destruct (acopy_spec (length ws) ws 0 (local_data b) (local_index b))
    as (l & Hl & Hlen & Hj); [lia | lia | lia | lia |].
  exists l. split; [done|]. split; simpl; try done.
  - congruence.
  - apply take_prefix_lookup. rewrite take_prefix_lookup in ir_loc0.
    intros j Hjl. rewrite Hj, ir_index0, Nat2Z.id. rewrite length_app in Hjl.
    destruct (decide (j < length loc)%nat).
    + rewrite decide_False by lia. rewrite lookup_app_l by done. auto.
    + rewrite decide_True, lookup_app_r by lia. f_equal.
  - rewrite length_app, ir_index0. lia.
  - by apply Forall_app.
Qed.

(** The queue of batches as an abstract channel of bounded capacity: [None]
    means that the operation waits. *)
Module Spec.
Record chan := Chan { queue : list (list Z); accum : list Z }.
Definition flush (c : chan) : option chan :=
  match accum c with
  | [] => Some c
  | _ => if Z.of_nat (length (queue c)) <? INPB_COUNT
         then Some (Chan (queue c ++ [accum c]) []) else None
  end.
Definition write (c : chan) (ws : list Z) : option chan :=
  if Z.of_nat (length (accum c) + length ws) <=? INPB_SIZE
  then Some (Chan (queue c) (accum c ++ ws))
  else c' ← flush c; Some (Chan (queue c') (accum c' ++ ws)).
Definition read (c : chan) : list Z * chan :=
  match queue c with
  | [] => ([], c)
  | batch :: q => (batch, Chan q (accum c))
  end.
End Spec.

(** A buffer implements a channel; a computation implements a channel step. *)
Definition implements (b : inputbuffer) (c : Spec.chan) : Prop :=
  ib_rep b (Spec.queue c) (Spec.accum c).

Definition implements_op (m : result inputbuffer) (o : option Spec.chan) : Prop :=
  match m, o with
  | Ok b, Some c => implements b c
  | Fault Blocked, None => True
  | _, _ => False
  end.

Lemma flush_refines b c :
  implements b c -> implements_op (inpb_flush b) (Spec.flush c).
Proof.
  intros Hrep. destruct c as [q loc]. unfold implements in *. simpl in *. unfold Spec.flush. simpl.
  destruct loc as [|w loc].
  - unfold inpb_flush. rewrite (ir_index _ _ _ Hrep). done.
  - destruct (Z.ltb_spec (Z.of_nat (length q)) INPB_COUNT) as [Hlt|Hge].
    + destruct (inpb_flush_spec _ _ _ Hrep) as (b' & -> & Hb'); done.
    + rewrite (inpb_flush_full _ _ _ Hrep); [done | | done].
      pose proof (ir_q _ _ _ Hrep). lia.
Qed.

(** Writing non-zero words, at most one cache line of them. *)
Lemma write_refines b c ws :
  implements b c -> Forall nonzero ws -> (length ws <= Z.to_nat INPB_SIZE)%nat ->
  implements_op (inpb_write b (Z.of_nat (length ws)) ws) (Spec.write c ws).
Proof.
  intros Hrep Hnz Hlen. unfold inpb_write, Spec.write.
  assert (Z.of_nat (length ws) <= INPB_SIZE) as Hle by (rewrite INPB_SIZE_val in *; lia).
  apply Z.leb_le in Hle. rewrite Hle. cbn [check mbind result_bind].
  rewrite Nat2Z.id, (ir_index _ _ _ Hrep).
  destruct (Z.leb_spec (Z.of_nat (length (Spec.accum c) + length ws)) INPB_SIZE) as [Hfit|Hno];
    rewrite INPB_SIZE_val in *.
  - destruct (Z.ltb_spec 8 (Z.of_nat (length (Spec.accum c)) + Z.of_nat (length ws))); [lia|].
    simpl. destruct (inpb_append _ _ _ ws Hrep Hnz) as (l & Hl & Hrep'); [rewrite INPB_SIZE_val; lia|].
    rewrite Hl. exact Hrep'.
  - destruct (Z.ltb_spec 8 (Z.of_nat (length (Spec.accum c)) + Z.of_nat (length ws))); [|lia].
    pose proof (flush_refines _ _ Hrep) as Hf.
    destruct (inpb_flush b) as [b'|[]] eqn:Hfl, (Spec.flush c) as [c'|] eqn:Hsf; try done.
    simpl. assert (Spec.accum c' = []) as Hemp.
    { unfold Spec.flush in Hsf. destruct (Spec.accum c) as [|x xs] eqn:Ha; [simpl in *; lia|].
      case_match; simplify_eq/=. done. }
    simpl in Hf.
    destruct (inpb_append _ _ _ ws Hf Hnz) as (l & Hl & Hrep');
      [rewrite Hemp, INPB_SIZE_val; simpl; lia|].
    simpl. rewrite Hl. exact Hrep'.
Qed.

(** Reading takes the oldest batch and frees its slot; the caller's buffer
    keeps its old words past the batch. *)
Lemma read_refines b c data :
  implements b c -> length data = Z.to_nat INPB_SIZE ->
  let '(batch, c') := Spec.read c in
  exists b', inpb_read b data =
    Ok (Z.of_nat (length batch), batch ++ drop (length batch) data, b') /\ implements b' c'.
Proof.
  intros Hrep Hd. unfold implements in *. destruct c as [q loc]. simpl in *. unfold Spec.read.
  cbn [Spec.queue Spec.accum]. unfold inpb_read.
  pose proof (ir_rd _ _ _ Hrep) as Hrd.
  destruct (ir_slot _ _ _ Hrep 0) as (slot & Hs & Hq); [done|].
  rewrite Z.add_0_r, Z.mod_small in Hs by done.
  assert (aget (ib_data b) (data_rd b) = Ok slot) as -> by (apply aget_Ok; split; [lia|done]).
  cbn [mbind result_bind].
  destruct q as [|batch q]; cbn in Hq.
  - rewrite (inpb_scan_free _ _ _ Hq). simpl. exists b. split; [done|]. done.
  - pose proof (inpb_scan_holds slot batch (Z.to_nat INPB_SIZE) 0 data Hq Hd) as Hscan.
    change (Z.of_nat 0) with 0 in Hscan. rewrite Hscan by (rewrite ?INPB_SIZE_val; lia). cbn [mbind result_bind].
    destruct Hq as (Hsl & Hbl & _).
    rewrite (proj2 (Z.eqb_neq _ 0)) by lia.
    rewrite aset_in by (rewrite Hsl; lia). simpl.
    rewrite aset_in by (rewrite (ir_len _ _ _ Hrep); lia). simpl.
    eexists. split; [done|]. change (Z.to_nat 0) with 0%nat. apply (ib_consume b batch q loc slot Hrep).
    apply aget_Ok. split; [lia | done].
Qed.

(** ** The output buffer as a queue of answers

    [unread] are the answers the server has published and the client not yet
    taken; the client has looked at the first [k] of them when it last copied
    [wr_index]. *)
Record ob_rep (b : outputbuffer) (unread : list Z) : Prop := {
  or_len : length (ob_data b) = Z.to_nat OUTB_SIZE;
  or_rd : 0 <= local_rd_index b < 2 ^ 64;
  or_fit : Z.of_nat (length unread) <= OUTB_SIZE;
  or_wr : wr_index b = u64 (local_rd_index b + Z.of_nat (length unread));
  or_seen : exists k, 0 <= k <= Z.of_nat (length unread) /\
              local_wr_index b = u64 (local_rd_index b + k);
  or_word : forall i, (i < length unread)%nat ->
    ob_data b !! Z.to_nat ((local_rd_index b + Z.of_nat i) mod OUTB_SIZE) = unread !! i
}.

Lemma ob_rep_zero : ob_rep outputbuffer_zero [].
Proof. split; try done; [exists 0; done | simpl; lia]. Qed.

(** The server's write appends to the queue, provided there is room. The code
    does not check that there is: the clients' accounting guarantees it. *)
Lemma outb_write_spec b unread ws :
  ob_rep b unread -> Z.of_nat (length unread + length ws) <= OUTB_SIZE ->
  exists b', outb_write b (Z.of_nat (length ws)) ws = Ok b' /\ ob_rep b' (unread ++ ws).
Proof.
  intros [] Hfit. unfold outb_write.
  assert (Z.of_nat (length ws) <= OUTB_SIZE) as Hle by lia.
  apply Z.leb_le in Hle as ->. cbn [check mbind result_bind]. rewrite Nat2Z.id.
  destruct (ring_store_spec 6 OUTB_SIZE (length ws) 0 ws (wr_index b) (ob_data b))
    as (d & -> & Hl & Hnew & Hold); [lia | done | lia | lia | done | lia |].
  simpl. eexists. split; [done|]. split; simpl; try done.
  - rewrite length_app. lia.
  - rewrite or_wr0, length_app. autorewrite with smp. f_equal. lia.
  - destruct or_seen0 as (k & Hk & ->). exists k. rewrite length_app. split; [lia|done].
  - intros i Hi. rewrite length_app in Hi. rewrite OUTB_SIZE_val in *.
    assert (forall x, (wr_index b + x) mod 64 =
              (local_rd_index b + Z.of_nat (length unread) + x) mod 64) as Hw.
    { intros x. rewrite or_wr0. unfold u64.
      rewrite <- (Z.mod_mod_divide _ (2 ^ 64) 64) by (exists (2 ^ 58); lia).
      rewrite Zplus_mod_idemp_l, Z.mod_mod_divide by (exists (2 ^ 58); lia). done. }
    destruct (decide (i < length unread)%nat) as [Hlt|Hge].
    + rewrite lookup_app_l, <- or_word0 by done.
      specialize (Hold (64 - Z.of_nat (length unread) + Z.of_nat i)).
      rewrite Hw in Hold.
      replace (local_rd_index b + Z.of_nat (length unread)
               + (64 - Z.of_nat (length unread) + Z.of_nat i))
        with (local_rd_index b + Z.of_nat i + 1 * 64) in Hold by lia.
      rewrite Z.mod_add in Hold by lia. apply Hold. lia.
    + rewrite lookup_app_r by lia.
      specialize (Hnew (Z.of_nat (i - length unread))). rewrite Hw in Hnew.
      replace (local_rd_index b + Z.of_nat (length unread) + Z.of_nat (i - length unread))
        with (local_rd_index b + Z.of_nat i) in Hnew by lia.
      rewrite Hnew by lia. f_equal. lia.
Qed.

(** The client's read takes the oldest answer, or reports that none is there. *)
Lemma outb_read_spec b unread :
  ob_rep b unread ->
  exists b', ob_rep b' (tail unread) /\
    outb_read b = Ok (match unread with [] => (0, None, b') | v :: _ => (1, Some v, b') end).
Proof.
  intros []. destruct or_seen0 as (k & Hk & Hseen). unfold outb_read.
  rewrite OUTB_SIZE_val in *.
  assert (forall d, 0 <= d <= 64 -> u64 (local_rd_index b + d) = local_rd_index b -> d = 0) as Hu.
  { intros d Hd He. unfold u64 in He.
    apply (mod_near_inj (2 ^ 64) (local_rd_index b)); try lia.
    rewrite He, Z.add_0_r, Z.mod_small; lia. }
  set (lw := if local_rd_index b =? local_wr_index b then wr_index b else local_wr_index b).
  assert (exists k', 0 <= k' <= Z.of_nat (length unread) /\ (unread <> [] -> 0 < k') /\
            lw = u64 (local_rd_index b + k')) as (k' & Hk' & Hpos & Hlw).
  { subst lw. destruct (Z.eqb_spec (local_rd_index b) (local_wr_index b)) as [He|Hne].
    - exists (Z.of_nat (length unread)). split_and!; [lia | lia | | done].
      destruct unread; [done | simpl; lia].
    - exists k. split_and!; [lia | lia | | done]. intros _.
      destruct (Z.eq_dec k 0) as [->|]; [|lia].
      rewrite Z.add_0_r, u64_small in Hseen; [congruence|lia]. }
  destruct unread as [|v unread]; simpl in Hk'.
  - assert (k' = 0) as -> by lia. rewrite Z.add_0_r, u64_small in Hlw by lia.
    rewrite Hlw, Z.eqb_refl. eexists. split; [|done].
    split; simpl; try done. exists 0. rewrite Z.add_0_r, u64_small; lia.
  - specialize (Hpos ltac:(done)).
    assert (local_rd_index b <> lw) as Hne.
    { intros He. rewrite Hlw in He. symmetry in He. simpl in or_fit0.
      apply Hu in He; lia. }
    rewrite (proj2 (Z.eqb_neq _ _)) by done.
    change (64 - 1) with (2 ^ 6 - 1). rewrite land_ones_mod by lia. change (2 ^ 6) with 64.
    assert (aget (ob_data b) (local_rd_index b mod 64) = Ok v) as ->.
    { apply aget_Ok. split; [by apply Z.mod_pos_bound|].
      specialize (or_word0 0%nat). rewrite Z.add_0_r in or_word0. apply or_word0. simpl. lia. }
    simpl. eexists. split; [|done]. split; simpl.
    + done.
    + apply u64_range.
    + rewrite OUTB_SIZE_val. simpl in or_fit0. lia.
    + rewrite or_wr0. autorewrite with smp. simpl length. f_equal. lia.
    + exists (k' - 1). autorewrite with smp.
      split; [lia|]. rewrite Hlw. f_equal. lia.
    + intros i Hi. specialize (or_word0 (S i)). rewrite OUTB_SIZE_val.
      unfold u64. rewrite <- (Z.mod_mod_divide _ (2 ^ 64) 64) by (exists (2 ^ 58); lia).
      rewrite Zplus_mod_idemp_l, Z.mod_mod_divide by (exists (2 ^ 58); lia).
      replace (local_rd_index b + 1 + Z.of_nat i) with (local_rd_index b + Z.of_nat (S i)) by lia.
      apply or_word0. simpl. lia.
Qed.

(** ** Sequences of operations on one input buffer

    The client writes and flushes, the server reads into the same [data] buffer
    over and over. [in_do] returns the words that the operation received. *)
Inductive in_op := IWrite (ws : list Z) | IFlush | IRead.

Definition in_do (op : in_op) (data : list Z) (b : inputbuffer)
    : result (list Z * list Z * inputbuffer) :=
  match op with
  | IWrite ws => b ← inpb_write b (Z.of_nat (length ws)) ws; mret ([], data, b)
  | IFlush => b ← inpb_flush b; mret ([], data, b)
  | IRead => '(n, data, b) ← inpb_read b data; mret (take (Z.to_nat n) data, data, b)
  end.

Fixpoint run_in (ops : list in_op) (data : list Z) (b : inputbuffer)
    : result (list Z * list Z * inputbuffer) :=
  match ops with
  | [] => mret ([], data, b)
  | op :: ops =>
      '(got, data, b) ← in_do op data b;
      '(more, data, b) ← run_in ops data b;
      mret (got ++ more, data, b)
  end.

Definition written (op : in_op) : list Z := match op with IWrite ws => ws | _ => [] end.

Definition in_ok (op : in_op) : Prop :=
  Forall nonzero (written op) /\ (length (written op) <= Z.to_nat INPB_SIZE)%nat.

(** What a channel has in transit. *)
Definition in_transit (c : Spec.chan) : list Z := concat (Spec.queue c) ++ Spec.accum c.

Lemma spec_flush_transit c c' : Spec.flush c = Some c' -> in_transit c' = in_transit c.
Proof.
  unfold Spec.flush, in_transit. destruct (Spec.accum c) as [|w l] eqn:Ha.
  - intros [= <-]. by rewrite Ha.
  - case_match; [|done]. intros [= <-]. simpl.
    rewrite concat_app. simpl. by rewrite !app_nil_r.
Qed.

Lemma spec_write_transit c c' ws :
  Spec.write c ws = Some c' -> in_transit c' = in_transit c ++ ws.
Proof.
  unfold Spec.write. case_match.
  - intros [= <-]. unfold in_transit. simpl. by rewrite app_assoc.
  - intros H1. destruct (Spec.flush c) as [c1|] eqn:Hf; [|done]. injection H1 as <-.
    rewrite <- (spec_flush_transit _ _ Hf). unfold in_transit. simpl. by rewrite app_assoc.
Qed.

(** A channel operation can only wait when the buffer is full. *)
Lemma spec_flush_full c : Spec.flush c = None -> INPB_COUNT <= Z.of_nat (length (Spec.queue c)).
Proof. unfold Spec.flush. destruct (Spec.accum c); [done|]. case_match; [done|]. intros. lia. Qed.

Lemma spec_write_full c ws : Spec.write c ws = None -> INPB_COUNT <= Z.of_nat (length (Spec.queue c)).
Proof.
  unfold Spec.write. case_match; [done|]. destruct (Spec.flush c) eqn:Hf; [done|].
  intros _. by apply spec_flush_full.
Qed.

Lemma read_data b data n data' b' c :
  implements b c -> length data = Z.to_nat INPB_SIZE -> inpb_read b data = Ok (n, data', b') ->
  exists c', Spec.read c = (take (Z.to_nat n) data', c') /\ implements b' c' /\
    length data' = Z.to_nat INPB_SIZE /\ in_transit c = take (Z.to_nat n) data' ++ in_transit c'.
Proof.
  intros Hrep Hd Hr. pose proof (read_refines b c data Hrep Hd) as Hread.
  destruct (Spec.read c) as [batch c'] eqn:Hs. destruct Hread as (b1 & Hr1 & Hrep1).
  rewrite Hr in Hr1. injection Hr1 as -> -> <-. exists c'.
  rewrite Nat2Z.id, take_app_length.
  assert (length batch <= Z.to_nat INPB_SIZE)%nat as Hlen.
  { unfold Spec.read in Hs. destruct c as [[|q0 q] loc]; simpl in Hs; injection Hs as <- _.
    - simpl. lia.
    - destruct (ir_slot _ _ _ Hrep 0) as (slot & _ & Hq); [done|]. cbn in Hq.
      destruct Hq as (_ & [_ Hq] & _). exact Hq. }
  split_and!; try done.
  - rewrite length_app, length_drop. lia.
  - unfold Spec.read in Hs. unfold in_transit. destruct c as [[|q0 q] loc]; simpl in *.
    + by injection Hs as <- <-.
    + injection Hs as <- <-. simpl. by rewrite app_assoc.
Qed.

Lemma in_do_ok op data b c :
  implements b c -> length data = Z.to_nat INPB_SIZE -> in_ok op ->
  match in_do op data b with
  | Ok (got, data', b') => exists c', implements b' c' /\ length data' = Z.to_nat INPB_SIZE /\
      got ++ in_transit c' = in_transit c ++ written op
  | Fault f => f = Blocked /\ Z.of_nat (length (Spec.queue c)) = INPB_COUNT
  end.
Proof.
  intros Hrep Hd [Hnz Hlen]. pose proof (ir_q _ _ _ Hrep) as Hq.
  destruct op as [ws| |]; simpl in *.
  - pose proof (write_refines b c ws Hrep Hnz Hlen) as Hr.
    destruct (inpb_write b _ ws) as [b'|[]], (Spec.write c ws) as [c'|] eqn:Hs; try done; simpl.
    + exists c'. split_and!; [done | done | by apply spec_write_transit].
    + apply spec_write_full in Hs. split; [done | lia].
  - pose proof (flush_refines b c Hrep) as Hr.
    destruct (inpb_flush b) as [b'|[]], (Spec.flush c) as [c'|] eqn:Hs; try done; simpl.
    + exists c'. rewrite app_nil_r. split_and!; [done | done | by apply spec_flush_transit].
    + apply spec_flush_full in Hs. split; [done | lia].
  - pose proof (read_refines b c data Hrep Hd) as Hr.
    destruct (Spec.read c) as [bt cc]. destruct Hr as (b1 & Hr & _).
    destruct (read_data _ _ _ _ _ _ Hrep Hd Hr) as (c1 & _ & Hrep1 & Hd1 & Htr).
    rewrite Hr. cbn [mbind result_bind]. exists c1. by rewrite app_nil_r.
Qed.

Lemma run_in_ok ops data b c :
  implements b c -> length data = Z.to_nat INPB_SIZE -> Forall in_ok ops ->
  match run_in ops data b with
  | Ok (got, _, b') => exists c', implements b' c' /\
      got ++ in_transit c' = in_transit c ++ concat (written <$> ops)
  | Fault f => f = Blocked /\ exists ops1 op ops2 got d b1 c1, ops = ops1 ++ op :: ops2 /\
      run_in ops1 data b = Ok (got, d, b1) /\ implements b1 c1 /\
      Z.of_nat (length (Spec.queue c1)) = INPB_COUNT
  end.
Proof.
  revert data b c. induction ops as [|op ops IH]; intros data b c Hrep Hd Hops.
  - exists c. by rewrite app_nil_r.
  - apply Forall_cons in Hops as [Hop Hops]. cbn [run_in].
    pose proof (in_do_ok op data b c Hrep Hd Hop) as Hdo.
    destruct (in_do op data b) as [[[got d1] b1]|f] eqn:Hrun; cbn [mbind result_bind].
    + destruct Hdo as (c1 & Hrep1 & Hd1 & Htr). specialize (IH d1 b1 c1 Hrep1 Hd1 Hops).
      destruct (run_in ops d1 b1) as [[[more d2] b2]|f]; cbn [mbind result_bind].
      * destruct IH as (c2 & Hrep2 & Heq). exists c2. split; [done|].
        csimpl. by rewrite app_assoc, <- Htr, <- !app_assoc, Heq.
      * destruct IH as (-> & ops1 & op2 & ops2 & got' & d' & b' & c' & -> & Hr & Hrest).
        split; [done|]. exists (op :: ops1), op2, ops2, (got ++ got'), d', b', c'.
        split_and!; try apply Hrest; [done|]. cbn [run_in]. rewrite Hrun.
        cbn [mbind result_bind]. by rewrite Hr.
    + destruct Hdo as [-> Hl]. split; [done|]. exists [], op, ops, [], data, b, c. done.
Qed.

(** C16: from a zeroed buffer, the words the server has received, followed by
    the batches in the slots and the words not yet flushed, are exactly the
    words the client wrote, in order, for every sequence of operations of the
    two ends. A client operation waits only when all the slots hold unread
    batches; nothing is ever undefined. *)
Theorem input_buffer_fifo ops data :
  length data = Z.to_nat INPB_SIZE -> Forall in_ok ops ->
  match run_in ops data inputbuffer_zero with
  | Ok (got, _, b) => exists batches loc, ib_rep b batches loc /\
      got ++ concat batches ++ loc = concat (written <$> ops)
  | Fault f => f = Blocked /\ exists ops1 op ops2 got d b batches loc, ops = ops1 ++ op :: ops2 /\
      run_in ops1 data inputbuffer_zero = Ok (got, d, b) /\ ib_rep b batches loc /\
      Z.of_nat (length batches) = INPB_COUNT
  end.
Proof.
  intros Hd Hops.
  pose proof (run_in_ok ops data inputbuffer_zero (Spec.Chan [] []) ib_rep_zero Hd Hops) as Hr.
  destruct (run_in ops data inputbuffer_zero) as [[[got d] b]|f].
  - destruct Hr as ([q loc] & Hrep & Heq). eauto.
  - destruct Hr as (-> & ops1 & op & ops2 & got & d & b & [q loc] & Hr). split; [done|].
    exists ops1, op, ops2, got, d, b, q, loc. exact Hr.
Qed.

(** A zero word ends the batch. An insertion of size 0 puts its key word
    and a zero on the wire; the server receives the key word alone, and the
    request written after it in the same batch is lost. *)
Theorem zero_size_insert_truncates k k2 data :
  length data = Z.to_nat INPB_SIZE ->
  exists b data', (b ← inpb_write inputbuffer_zero INSERT_MSG_LENGTH (insert_words k 0);
     b ← inpb_write b 1 [lookup_word k2];
     b ← inpb_flush b; inpb_read b data) = Ok (1, data', b) /\
    data' = Z.lor k HASHOP_INSERT :: tail data /\
    run_in [IFlush; IRead] data' b = Ok ([], data', b).
Proof.
  intros Hd.
  destruct data as [|d0 [|d1 [|d2 [|d3 [|d4 [|d5 [|d6 [|d7 [|]]]]]]]]]; try done.
  assert ((Z.lor k HASHOP_INSERT =? 0) = false) as Hk
    by (apply Z.eqb_neq, lor_nonzero; done).
  unfold insert_words, lookup_word. set (w := Z.lor k HASHOP_INSERT) in *.
  set (v := Z.lor k2 HASHOP_LOOKUP).
  eexists _, _. split; [|split].
  - unfold inpb_read, inpb_flush, inpb_write, fill_slot, inputbuffer_zero, aget, aset. simpl.
    unfold aget, aset. simpl. rewrite Hk. simpl. reflexivity.
  - reflexivity.
  - reflexivity.
Qed.

(** ** Sequences of operations on one output buffer *)
Inductive out_op := OWrite (ws : list Z) | ORead.

Fixpoint run_out (ops : list out_op) (b : outputbuffer) : result (list (option Z) * outputbuffer) :=
  match ops with
  | [] => mret ([], b)
  | OWrite ws :: ops => b ← outb_write b (Z.of_nat (length ws)) ws; run_out ops b
  | ORead :: ops => '(r, v, b) ← outb_read b; '(vs, b) ← run_out ops b; mret (v :: vs, b)
  end.

(** The queue of answers, while the writer leaves at most [OUTB_SIZE] unread. *)
Fixpoint out_spec (ops : list out_op) (q : list Z) : option (list (option Z) * list Z) :=
  match ops with
  | [] => Some ([], q)
  | OWrite ws :: ops =>
      if Z.of_nat (length q + length ws) <=? OUTB_SIZE then out_spec ops (q ++ ws) else None
  | ORead :: ops => '(vs, q') ← out_spec ops (tail q); Some (head q :: vs, q')
  end.

Lemma run_out_ok ops b q vs q' :
  ob_rep b q -> out_spec ops q = Some (vs, q') ->
  exists b', run_out ops b = Ok (vs, b') /\ ob_rep b' q'.
Proof.
  revert b q vs. induction ops as [|[ws|] ops IH]; intros b q vs Hrep Hs; simpl in Hs.
  - injection Hs as <- <-. by exists b.
  - destruct (Z.leb_spec (Z.of_nat (length q + length ws)) OUTB_SIZE); [|done].
    destruct (outb_write_spec b q ws Hrep) as (b1 & Hw & Hrep1); [done|].
    destruct (IH b1 (q ++ ws) vs Hrep1 Hs) as (b' & Hr & Hrep'). exists b'.
    cbn [run_out]. by rewrite Hw.
  - destruct (out_spec ops (tail q)) as [[vs1 q1]|] eqn:Ho; [|done]. injection Hs as <- <-.
    destruct (outb_read_spec b q Hrep) as (b1 & Hrep1 & Hr).
    destruct (IH b1 (tail q) vs1 Hrep1 Ho) as (b' & Hr' & Hrep'). exists b'.
    cbn [run_out]. rewrite Hr. destruct q; cbn [mbind result_bind]; by rewrite Hr'.
Qed.

(** C17: from a zeroed buffer, as long as at most [OUTB_SIZE] answers are
    unread, every read returns the oldest unread answer, or reports that there
    is none; over the wrap-around of the ring and of the 64-bit indices. *)
Theorem output_buffer_fifo ops vs q :
  out_spec ops [] = Some (vs, q) ->
  exists b, run_out ops outputbuffer_zero = Ok (vs, b) /\ ob_rep b q.
Proof. apply run_out_ok, ob_rep_zero. Qed.

(** ** Instances *)
Definition scratch : list Z := replicate 8 77.

Lemma input_buffer_fifo_witness :
  exists b batches loc, ib_rep b batches loc /\
    [1; 2; 3; 4; 5; 6; 7; 8] ++ concat batches ++ loc = [1; 2; 3; 4; 5; 6; 7; 8; 9; 10].
Proof.
  pose proof (input_buffer_fifo
    [IWrite [1; 2; 3]; IRead; IWrite [4; 5; 6; 7; 8]; IWrite [9; 10]; IRead] scratch eq_refl) as H.
  assert (Forall in_ok [IWrite [1; 2; 3]; IRead; IWrite [4; 5; 6; 7; 8]; IWrite [9; 10]; IRead])
    as Hok by (repeat constructor; discriminate).
  specialize (H Hok). vm_compute in H. destruct H as (batches & loc & Hrep & Heq).
  eexists _, batches, loc. split; [exact Hrep | exact Heq].
Defined.

Lemma zero_size_insert_truncates_witness :
  exists b data', (b ← inpb_write inputbuffer_zero INSERT_MSG_LENGTH (insert_words 5 0);
     b ← inpb_write b 1 [lookup_word 6];
     b ← inpb_flush b; inpb_read b scratch) = Ok (1, data', b) /\
    data' = Z.lor 5 HASHOP_INSERT :: tail scratch /\
    run_in [IFlush; IRead] data' b = Ok ([], data', b).
Proof. exact (zero_size_insert_truncates 5 6 scratch eq_refl). Defined.

Lemma output_buffer_fifo_witness :
  exists b, run_out [OWrite [1; 2]; ORead; OWrite [3]; ORead; ORead; ORead] outputbuffer_zero
    = Ok ([Some 1; Some 2; Some 3; None], b) /\ ob_rep b [].
Proof.
  exact (output_buffer_fifo [OWrite [1; 2]; ORead; OWrite [3]; ORead; ORead; ORead]
           [Some 1; Some 2; Some 3; None] [] eq_refl).
Defined.
