(* ===== verification/MPChannel.v ===== *)
(** * MPChannel: both ends of an input buffer at once ([mpbuffers.c])

    [inpb_flush] and [inpb_read] as the accesses they make to the shared slots,
    one action each, so that a client that fills a slot and a server that scans
    one interleave in every way. Actions take effect in the order in which they
    are made: the barrier before the first word of a slot is stored asks for no
    less, and x86 stores are seen in order. *)
From stdpp Require Import base list relations.
From Stdlib Require Import ZArith Lia.
From S2P Require Import Prelude Protocol MPBuffers.

Local Open Scope Z_scope.

(** Where the client stands in [inpb_flush], and the server in [inpb_read]. *)
Inductive cpc := CReady | CWait | CFill (i : Z) | CTerm | CPublish.
Inductive spc := SReady | SScan (count : Z) | SCopy (count : Z) | SClear (count : Z).

(** [buffer->data[wr][i] = v]. *)
Definition put_word (b : inputbuffer) (s i v : Z) : result inputbuffer :=
  slot ← aget (ib_data b) s;
  slot ← aset slot i v;
  d ← aset (ib_data b) s slot;
  mret (InputBuffer d (data_rd b) (local_data b) (local_index b) (data_wr b)).

Definition get_word (b : inputbuffer) (s i : Z) : result Z :=
  slot ← aget (ib_data b) s; aget slot i.

(** The private indices move with the access before them. *)
Definition flush_act (b : inputbuffer) (pc : cpc) : result (inputbuffer * cpc) :=
  match pc with
  | CReady => mret (b, if local_index b =? 0 then CReady else CWait)
  | CWait => w ← get_word b (data_wr b) 0; mret (b, if w =? 0 then CFill 1 else CWait)
  | CFill i =>
      if i <? local_index b then
        v ← aget (local_data b) i;
        b ← put_word b (data_wr b) i v;
        mret (b, CFill (i + 1))
      else mret (b, CTerm)
  | CTerm =>
      if local_index b <? INPB_SIZE then
        b ← put_word b (data_wr b) (local_index b) 0; mret (b, CPublish)
      else mret (b, CPublish)
  | CPublish =>
      v ← aget (local_data b) 0;
      b ← put_word b (data_wr b) 0 v;
      mret (InputBuffer (ib_data b) (data_rd b) (local_data b) 0
              (Z.land (data_wr b + 1) (INPB_COUNT - 1)), CReady)
  end.

(** [data] is the caller's buffer; the last component is what a finished call
    has read. *)
Definition read_act (b : inputbuffer) (pc : spc) (data : list Z)
    : result (inputbuffer * spc * list Z * option (list Z)) :=
  match pc with
  | SReady => mret (b, SScan 0, data, None)
  | SScan count =>
      let finish := if count =? 0 then (b, SReady, data, Some []) else (b, SClear count, data, None) in
      if count <? INPB_SIZE then
        w ← get_word b (data_rd b) count;
        mret (if w =? 0 then finish else (b, SCopy count, data, None))
      else mret finish
  | SCopy count =>
      w ← get_word b (data_rd b) count;
      data ← aset data count w;
      mret (b, SScan (count + 1), data, None)
  | SClear count =>
      b ← put_word b (data_rd b) 0 0;
      mret (InputBuffer (ib_data b) (Z.land (data_rd b + 1) (INPB_COUNT - 1)) (local_data b)
              (local_index b) (data_wr b), SReady, data, Some (take (Z.to_nat count) data))
  end.

(** The buffer, both ends, and what went in and came out. *)
Record chan := Chan {
  ch_buf : inputbuffer;
  ch_cpc : cpc;
  ch_spc : spc;
  ch_data : list Z;
  ch_sent : list Z;
  ch_got : list Z
}.

Inductive chan_step : chan -> chan -> Prop :=
  | chan_write b sp data sent got ws l :
      Forall nonzero ws -> local_index b + Z.of_nat (length ws) <= INPB_SIZE ->
      acopy (length ws) ws 0 (local_data b) (local_index b) = Ok l ->
      chan_step (Chan b CReady sp data sent got)
        (Chan (InputBuffer (ib_data b) (data_rd b) l (local_index b + Z.of_nat (length ws)) (data_wr b))
           CReady sp data (sent ++ ws) got)
  | chan_flush b cp sp data sent got b' cp' :
      flush_act b cp = Ok (b', cp') ->
      chan_step (Chan b cp sp data sent got) (Chan b' cp' sp data sent got)
  | chan_read b cp sp data sent got b' sp' data' r :
      read_act b sp data = Ok (b', sp', data', r) ->
      chan_step (Chan b cp sp data sent got) (Chan b' cp sp' data' sent (got ++ default [] r)).

Definition chan_init (data : list Z) : chan := Chan inputbuffer_zero CReady SReady data [] [].

(** ** The invariant *)

(** How far the slot [s] under the writer's hands is filled with [loc]. *)
Definition filled (s loc : list Z) (i : nat) : Prop :=
  forall j, (1 <= j < i)%nat -> s !! j = loc !! j.

Definition client_at (b : inputbuffer) (q : list (list Z)) (loc : list Z) (pc : cpc) : Prop :=
  match pc with
  | CReady => True
  | CWait => loc <> []
  | CFill i => loc <> [] /\ Z.of_nat (length q) < INPB_COUNT /\ 1 <= i <= Z.of_nat (length loc) /\
      exists s, aget (ib_data b) (data_wr b) = Ok s /\ filled s loc (Z.to_nat i)
  | CTerm => loc <> [] /\ Z.of_nat (length q) < INPB_COUNT /\
      exists s, aget (ib_data b) (data_wr b) = Ok s /\ filled s loc (length loc)
  | CPublish => loc <> [] /\ Z.of_nat (length q) < INPB_COUNT /\
      exists s, aget (ib_data b) (data_wr b) = Ok s /\ filled s loc (length loc) /\
        ((length loc < Z.to_nat INPB_SIZE)%nat -> s !! length loc = Some 0)
  end.

Definition server_at (q : list (list Z)) (data : list Z) (pc : spc) : Prop :=
  match pc with
  | SReady => True
  | SScan count => count = 0 \/ exists batch q', q = batch :: q' /\
      1 <= count <= Z.of_nat (length batch) /\ take (Z.to_nat count) data = take (Z.to_nat count) batch
  | SCopy count => exists batch q', q = batch :: q' /\
      0 <= count < Z.of_nat (length batch) /\ take (Z.to_nat count) data = take (Z.to_nat count) batch
  | SClear count => exists batch q', q = batch :: q' /\ count = Z.of_nat (length batch) /\
      take (length batch) data = batch
  end.

Definition chan_inv (c : chan) : Prop :=
  exists q loc, ib_rep (ch_buf c) q loc /\ client_at (ch_buf c) q loc (ch_cpc c) /\
    server_at q (ch_data c) (ch_spc c) /\ length (ch_data c) = Z.to_nat INPB_SIZE /\
    ch_got c ++ concat q ++ loc = ch_sent c.

(** ** Writing into the free slot *)
Lemma wr_range b q loc : ib_rep b q loc -> 0 <= data_wr b < INPB_COUNT.
Proof. intros Hrep. rewrite (ir_wr _ _ _ Hrep). by apply Z.mod_pos_bound. Qed.

(** A word behind the first of the slot at [data_wr] is of no consequence yet. *)
Lemma put_word_free b q loc s i v :
  ib_rep b q loc -> Z.of_nat (length q) < INPB_COUNT -> 1 <= i < INPB_SIZE ->
  aget (ib_data b) (data_wr b) = Ok s ->
  exists b', put_word b (data_wr b) i v = Ok b' /\ ib_rep b' q loc /\
    data_wr b' = data_wr b /\ data_rd b' = data_rd b /\ local_data b' = local_data b /\
    local_index b' = local_index b /\ aget (ib_data b') (data_wr b) = Ok (<[Z.to_nat i := v]> s).
Proof.
  intros Hrep Hlt Hi Hs. pose proof (wr_range _ _ _ Hrep) as Hwr.
  destruct (ib_slot_wr _ _ _ Hrep Hlt) as (s0 & Hs0 & Hfree). rewrite Hs in Hs0. injection Hs0 as <-.
  destruct Hfree as [Hsl Hs0]. unfold put_word. rewrite Hs. cbn [mbind result_bind].
  rewrite aset_in by (rewrite Hsl; lia). cbn [mbind result_bind].
  pose proof (ir_len _ _ _ Hrep) as Hlen.
  rewrite aset_in by (rewrite Hlen; lia). cbn [mbind result_bind mret result_ret].
  eexists. split; [done|]. simpl. split_and!; try done.
  2: { apply aget_Ok. split; [lia|]. apply list_lookup_insert_eq. rewrite Hlen.
       rewrite INPB_COUNT_val in *. lia. }
  apply aget_Ok in Hs as [_ Hs]. destruct Hrep. split; simpl; try done.
  { by rewrite length_insert. }
  intros j Hj. destruct (ir_slot j Hj) as (sj & Hsj & Hm).
  destruct (decide ((data_rd b + j) mod INPB_COUNT = data_wr b)) as [Heq|Hne].
  - rewrite Heq. exists (<[Z.to_nat i := v]> s). rewrite list_lookup_insert_eq
      by (rewrite Hlen, INPB_COUNT_val in *; lia).
    split; [done|]. assert (j = Z.of_nat (length q)) as ->.
    { rewrite INPB_COUNT_val in *. apply (mod_near_inj 4 (data_rd b)); lia. }
    rewrite Nat2Z.id, (proj2 (lookup_ge_None q _)) by done.
    split; [by rewrite length_insert|]. rewrite list_lookup_insert_ne by lia. done.
  - exists sj. rewrite list_lookup_insert_ne; [done|]. intros Hx. apply Hne.
    pose proof (Z.mod_pos_bound (data_rd b + j) INPB_COUNT ltac:(done)). lia.
Qed.

Lemma filled_step s loc i v :
  filled s loc i -> loc !! i = Some v -> (1 <= i < length s)%nat -> filled (<[i := v]> s) loc (S i).
Proof.
  intros Hf Hv Hi j Hj. destruct (decide (j = i)) as [->|Hne].
  - rewrite list_lookup_insert_eq by lia. done.
  - rewrite list_lookup_insert_ne by done. apply Hf. lia.
Qed.

Lemma filled_holds s loc v :
  length s = Z.to_nat INPB_SIZE -> (1 <= length loc <= Z.to_nat INPB_SIZE)%nat -> Forall nonzero loc ->
  filled s loc (length loc) -> loc !! 0%nat = Some v ->
  ((length loc < Z.to_nat INPB_SIZE)%nat -> s !! length loc = Some 0) ->
  slot_holds (<[0%nat := v]> s) loc.
Proof.
  intros Hs Hl Hnz Hf Hv Ht. split; [by rewrite length_insert|]. split; [done|]. split; [done|]. split.
  - apply take_prefix_lookup. intros j Hj. destruct j as [|j].
    + by rewrite list_lookup_insert_eq by lia.
    + rewrite list_lookup_insert_ne by lia. apply Hf. lia.
  - intros Hlt. rewrite list_lookup_insert_ne by lia. by apply Ht.
Qed.

(** ** Every action is defined and keeps the invariant *)
Lemma loc_bounds b q loc :
  ib_rep b q loc -> loc <> [] -> 1 <= Z.of_nat (length loc) <= INPB_SIZE.
Proof.
  intros Hrep Hne. pose proof (ib_rep_loc_length _ _ _ Hrep). rewrite INPB_SIZE_val in *.
  destruct loc; [done | simpl in *; lia].
Qed.

Lemma local_word b q loc i :
  ib_rep b q loc -> (i < length loc)%nat ->
  exists v, loc !! i = Some v /\ aget (local_data b) (Z.of_nat i) = Ok v.
Proof.
  intros Hrep Hi. destruct (lookup_lt_is_Some_2 loc i Hi) as [v Hv]. exists v. split; [done|].
  apply aget_Ok. split; [lia|]. rewrite Nat2Z.id.
  pose proof (ir_loc _ _ _ Hrep) as Hl. rewrite take_prefix_lookup in Hl. by rewrite Hl.
Qed.

(** What a server sees at the head. *)
Lemma head_slot b batch q loc :
  ib_rep b (batch :: q) loc -> exists s, aget (ib_data b) (data_rd b) = Ok s /\ slot_holds s batch.
Proof.
  intros Hrep. pose proof (ir_rd _ _ _ Hrep) as Hrd.
  destruct (ir_slot _ _ _ Hrep 0) as (s & Hs & Hq); [done|].
  rewrite Z.add_0_r, Z.mod_small in Hs by done. exists s. split; [|done].
  apply aget_Ok. split; [lia | done].
Qed.

Lemma empty_slot b loc :
  ib_rep b [] loc -> get_word b (data_rd b) 0 = Ok 0.
Proof.
  intros Hrep. pose proof (ir_rd _ _ _ Hrep) as Hrd.
  destruct (ir_slot _ _ _ Hrep 0) as (s & Hs & Hq); [done|].
  rewrite Z.add_0_r, Z.mod_small in Hs by done. unfold get_word.
  rewrite (proj2 (aget_Ok _ _ s)) by (split; [lia|done]). cbn [mbind result_bind].
  apply aget_Ok. split; [lia | apply Hq].
Qed.

Lemma get_head b s i w :
  aget (ib_data b) (data_rd b) = Ok s -> s !! i = Some w -> get_word b (data_rd b) (Z.of_nat i) = Ok w.
Proof.
  intros Hs Hw. unfold get_word. rewrite Hs. cbn [mbind result_bind].
  apply aget_Ok. rewrite Nat2Z.id. split; [lia | done].
Qed.

(** The word the client waits on is 0 just when there is a free slot. *)
Lemma wait_word b q loc :
  ib_rep b q loc -> exists w, get_word b (data_wr b) 0 = Ok w /\
    (w = 0 -> Z.of_nat (length q) < INPB_COUNT).
Proof.
  intros Hrep. pose proof (ir_q _ _ _ Hrep) as Hq. pose proof (wr_range _ _ _ Hrep) as Hwr.
  destruct (decide (Z.of_nat (length q) < INPB_COUNT)) as [Hlt|Hge].
  - exists 0. split; [|done]. destruct (ib_slot_wr _ _ _ Hrep Hlt) as (s & Hs & _ & H0).
    unfold get_word. rewrite Hs. apply aget_Ok. done.
  - destruct q as [|batch q]; [rewrite INPB_COUNT_val in Hge; simpl in Hge; lia|].
    destruct (head_slot _ _ _ _ Hrep) as (s & Hs & _ & Hbl & Hnz & Ht & _).
    assert (data_wr b = data_rd b) as ->.
    { rewrite (ir_wr _ _ _ Hrep). replace (Z.of_nat (length (batch :: q))) with INPB_COUNT by lia.
      rewrite mod_turn by done. apply Z.mod_small, (ir_rd _ _ _ Hrep). }
    destruct batch as [|w batch]; [simpl in Hbl; lia|]. exists w.
    rewrite take_prefix_lookup in Ht. split; [|by apply Forall_cons in Hnz as [Hw _]].
    apply (get_head b s 0 w Hs). apply Ht. simpl. lia.
Qed.

(** The outcome of an action of the client: it changes the queue only by
    publishing. *)
Definition flushed (q : list (list Z)) (loc : list Z) (r : result (inputbuffer * cpc)) : Prop :=
  exists b' pc' q' loc', r = Ok (b', pc') /\ ib_rep b' q' loc' /\
    client_at b' q' loc' pc' /\ concat q' ++ loc' = concat q ++ loc /\ (q' = q \/ q' = q ++ [loc]).

Lemma flushed_same b q loc pc : ib_rep b q loc -> client_at b q loc pc -> flushed q loc (Ok (b, pc)).
Proof. intros Hrep Hc. exists b, pc, q, loc. auto 10. Qed.

Section client.
Context (b : inputbuffer) (q : list (list Z)) (loc : list Z) (Hrep : ib_rep b q loc).
Lemma start_ok : flushed q loc (flush_act b CReady).
Proof.
  cbn [flush_act]. rewrite (ir_index _ _ _ Hrep). apply flushed_same; [done|]. by destruct loc.
Qed.
Lemma wait_ok : loc <> [] -> flushed q loc (flush_act b CWait).
Proof.
  intros Hne. destruct (wait_word b q loc Hrep) as (w & Hw & Hfree). cbn [flush_act]. rewrite Hw.
  cbn [mbind result_bind]. apply flushed_same; [done|].
  destruct (Z.eqb_spec w 0) as [->|]; [|done]. specialize (Hfree eq_refl).
  destruct (ib_slot_wr _ _ _ Hrep Hfree) as (s & Hs & _). pose proof (loc_bounds _ _ _ Hrep Hne).
  split; [done|]. split; [done|]. split; [lia|]. exists s. split; [done|]. intros j Hj. lia.
Qed.
Section filling.
Context (Hne : loc <> []) (Hlt : Z.of_nat (length q) < INPB_COUNT).
Context (s : list Z) (Hs : aget (ib_data b) (data_wr b) = Ok s).
Lemma cell_length : length s = Z.to_nat INPB_SIZE.
Proof.
  destruct (ib_slot_wr _ _ _ Hrep Hlt) as (s0 & Hs0 & Hl0 & _). rewrite Hs in Hs0.
  by injection Hs0 as <-.
Qed.
Lemma fill_ok i :
  1 <= i <= Z.of_nat (length loc) -> filled s loc (Z.to_nat i) -> flushed q loc (flush_act b (CFill i)).
Proof.
  intros Hi Hf. pose proof (loc_bounds _ _ _ Hrep Hne) as Hlb. cbn [flush_act].
  rewrite (ir_index _ _ _ Hrep). destruct (Z.ltb_spec i (Z.of_nat (length loc))) as [Hil|Hil].
  - destruct (local_word b q loc (Z.to_nat i) Hrep) as (v & Hv & Hget); [lia|].
    rewrite Z2Nat.id in Hget by lia. rewrite Hget. cbn [mbind result_bind].
    destruct (put_word_free b q loc s i v Hrep Hlt) as (b' & -> & Hrep' & Hw' & _ & _ & _ & Hs');
      [lia | done |].
    cbn [mbind result_bind mret result_ret]. apply flushed_same; [done|].
    split; [done|]. split; [done|]. split; [lia|]. rewrite Hw'. eexists. split; [exact Hs'|].
    rewrite Z2Nat.inj_add, Nat.add_1_r by lia.
    apply filled_step; [done | done | rewrite cell_length, INPB_SIZE_val in *; lia].
  - apply flushed_same; [done|]. split; [done|]. split; [done|]. exists s. split; [done|].
    by replace (length loc) with (Z.to_nat i) by lia.
Qed.
Lemma term_ok : filled s loc (length loc) -> flushed q loc (flush_act b CTerm).
Proof.
  intros Hf. pose proof (loc_bounds _ _ _ Hrep Hne) as Hlb. cbn [flush_act].
  rewrite (ir_index _ _ _ Hrep). destruct (Z.ltb_spec (Z.of_nat (length loc)) INPB_SIZE) as [Hil|Hil].
  - destruct (put_word_free b q loc s (Z.of_nat (length loc)) 0 Hrep Hlt)
      as (b' & -> & Hrep' & Hw' & _ & _ & _ & Hs'); [lia | done |].
    cbn [mbind result_bind mret result_ret]. apply flushed_same; [done|].
    split; [done|]. split; [done|]. rewrite Hw'. eexists. split; [exact Hs'|]. rewrite Nat2Z.id.
    split.
    + intros j Hj. rewrite list_lookup_insert_ne by lia. by apply Hf.
    + intros _. apply list_lookup_insert_eq. rewrite cell_length, INPB_SIZE_val in *. lia.
  - apply flushed_same; [done|]. split; [done|]. split; [done|]. exists s. split; [done|].
    split; [done|]. rewrite INPB_SIZE_val in *. lia.
Qed.
Lemma publish_ok :
  filled s loc (length loc) -> ((length loc < Z.to_nat INPB_SIZE)%nat -> s !! length loc = Some 0) ->
  flushed q loc (flush_act b CPublish).
Proof.
  intros Hf Ht. pose proof (loc_bounds _ _ _ Hrep Hne) as Hlb. cbn [flush_act].
  destruct (local_word b q loc 0 Hrep) as (v & Hv & Hget); [lia|].
  change (Z.of_nat 0) with 0 in Hget. rewrite Hget. cbn [mbind result_bind].
  pose proof (wr_range _ _ _ Hrep) as Hwr. pose proof (ir_len _ _ _ Hrep) as Hlen.
  pose proof cell_length as Hsl. unfold put_word. rewrite Hs. cbn [mbind result_bind].
  rewrite aset_in by (rewrite Hsl; done). cbn [mbind result_bind].
  rewrite aset_in by (rewrite Hlen, INPB_COUNT_val in *; lia). cbn [mbind result_bind mret result_ret].
  eexists _, _, (q ++ [loc]), []. split; [done|]. split; [|split; [done|split; [|by right]]].
  - refine (ib_publish b q loc _ Hrep Hlt _). change (Z.to_nat 0) with 0%nat.
    apply filled_holds; try done; [rewrite INPB_SIZE_val in *; lia | by apply (ir_loc_nz _ _ _ Hrep)].
  - by rewrite concat_app, concat_cons, concat_nil, !app_nil_r.
Qed.
End filling.
Lemma flush_act_ok pc : client_at b q loc pc -> flushed q loc (flush_act b pc).
Proof.
  destruct pc as [| |i| |]; simpl.
  - intros _. apply start_ok.
  - apply wait_ok.
  - intros (Hne & Hlt & Hi & s & Hs & Hf). by apply (fill_ok Hne Hlt s).
  - intros (Hne & Hlt & s & Hs & Hf). by apply (term_ok Hne Hlt s).
  - intros (Hne & Hlt & s & Hs & Hf & Ht). by apply (publish_ok Hne Hlt s).
Qed.
End client.

(** Publishing does not disturb a server. *)
Lemma server_at_snoc q data pc loc : server_at q data pc -> server_at (q ++ [loc]) data pc.
Proof.
  destruct pc as [|k|k|k]; simpl; [done|intros [->|(b & q' & -> & H)]; [by left|right]
    |intros (b & q' & -> & H)|intros (b & q' & -> & H)];
    (exists b, (q' ++ [loc]); done).
Qed.

(** Giving the head slot back does not disturb a client. *)
Lemma client_at_consume b batch q loc pc slot :
  ib_rep b (batch :: q) loc -> client_at b (batch :: q) loc pc ->
  client_at (InputBuffer (<[Z.to_nat (data_rd b) := slot]> (ib_data b))
               (Z.land (data_rd b + 1) (INPB_COUNT - 1)) (local_data b) (local_index b) (data_wr b))
    q loc pc.
Proof.
  intros Hrep.
  assert (Z.of_nat (length (batch :: q)) < INPB_COUNT -> forall s,
    aget (ib_data b) (data_wr b) = Ok s ->
    aget (<[Z.to_nat (data_rd b) := slot]> (ib_data b)) (data_wr b) = Ok s) as Hkeep.
  { intros Hlt s Hs. apply aget_Ok in Hs as [Hwr Hs]. apply aget_Ok. split; [done|].
    rewrite list_lookup_insert_ne; [done|]. pose proof (ir_rd _ _ _ Hrep) as Hrd.
    intros Heq. assert (data_rd b = data_wr b) as He by lia. rewrite (ir_wr _ _ _ Hrep) in He.
    rewrite INPB_COUNT_val in *. rewrite <- (Z.mod_small (data_rd b) 4) in He at 1 by lia.
    rewrite <- (Z.add_0_r (data_rd b)) in He at 1.
    apply mod_near_inj in He; simpl in *; lia. }
  assert (Z.of_nat (length (batch :: q)) < INPB_COUNT -> Z.of_nat (length q) < INPB_COUNT) as Hless
    by (simpl; lia).
  destruct pc as [| |i| |]; simpl ib_data; simpl data_wr; cbn [client_at ib_data data_wr]; try done.
  - intros (Hne & Hlt & Hi & s & Hs & Hf). split; [done|]. split; [auto|]. split; [done|]. eauto.
  - intros (Hne & Hlt & s & Hs & Hf). split; [done|]. split; [auto|]. eauto.
  - intros (Hne & Hlt & s & Hs & Hf). split; [done|]. split; [auto|]. eauto.
Qed.

(** The outcome of an action of the server. *)
Definition received (q : list (list Z)) (loc : list Z) (cp : cpc)
    (r : result (inputbuffer * spc * list Z * option (list Z))) : Prop :=
  exists b' pc' data' got q', r = Ok (b', pc', data', got) /\ ib_rep b' q' loc /\
    client_at b' q' loc cp /\ server_at q' data' pc' /\ length data' = Z.to_nat INPB_SIZE /\
    default [] got ++ concat q' = concat q.

Lemma received_same b q loc cp data pc got :
  ib_rep b q loc -> client_at b q loc cp -> length data = Z.to_nat INPB_SIZE ->
  server_at q data pc -> default [] got = [] -> received q loc cp (Ok (b, pc, data, got)).
Proof. intros. exists b, pc, data, got, q. split_and!; try done. by rewrite H3. Qed.

Section server.
Context (b : inputbuffer) (q : list (list Z)) (loc : list Z) (cp : cpc) (data : list Z).
Context (Hrep : ib_rep b q loc) (Hcl : client_at b q loc cp) (Hd : length data = Z.to_nat INPB_SIZE).
Lemma scan_ok k : server_at q data (SScan k) -> received q loc cp (read_act b (SScan k) data).
Proof.
  cbn [server_at read_act]. intros [->|(batch & q' & -> & Hk & Hpre)].
  - change (0 <? INPB_SIZE) with true. cbv zeta. change (0 =? 0) with true. cbn iota.
    destruct q as [|batch q'].
    + rewrite (empty_slot b loc Hrep). cbn [mbind result_bind]. by apply received_same.
    + destruct (head_slot _ _ _ _ Hrep) as (s & Hs & _ & Hbl & Hnz & Ht & _).
      destruct batch as [|w batch]; [simpl in Hbl; lia|]. apply Forall_cons in Hnz as [Hw _].
      rewrite take_prefix_lookup in Ht.
      assert (get_word b (data_rd b) 0 = Ok w) as -> by (apply (get_head b s 0 w Hs); apply Ht; simpl; lia).
      cbn [mbind result_bind]. rewrite (proj2 (Z.eqb_neq w 0) Hw). apply received_same; try done.
      exists (w :: batch), q'. split; [done|]. split; [simpl; lia | done].
  - destruct (head_slot _ _ _ _ Hrep) as (s & Hs & _ & Hbl & Hnz & Ht & Hterm).
    rewrite INPB_SIZE_val in *. rewrite (proj2 (Z.eqb_neq k 0)) by lia. cbv zeta.
    assert (Z.of_nat (length batch) = k -> server_at (batch :: q') data (SClear k)) as Hfin.
    { intros <-. exists batch, q'. rewrite Nat2Z.id in Hpre. split; [done|]. split; [done|].
      rewrite Hpre. by apply take_ge. }
    destruct (Z.ltb_spec k 8).
    2: { apply received_same; try done. apply Hfin. lia. }
    destruct (decide (Z.of_nat (length batch) = k)) as [Heq|Hne].
    + specialize (Hterm ltac:(lia)). rewrite <- Heq at 1. rewrite (get_head b s _ 0 Hs Hterm).
      cbn [mbind result_bind]. change (0 =? 0) with true. cbn iota.
      apply received_same; try done. by apply Hfin.
    + destruct (lookup_lt_is_Some_2 batch (Z.to_nat k)) as [w Hw]; [lia|].
      rewrite take_prefix_lookup in Ht.
      pose proof (get_head b s (Z.to_nat k) w Hs) as Hget. rewrite Z2Nat.id in Hget by lia.
      rewrite Hget by (rewrite Ht by lia; done). cbn [mbind result_bind].
      rewrite Forall_forall in Hnz. rewrite (proj2 (Z.eqb_neq w 0)).
      2: { apply Hnz. apply list_elem_of_lookup. eauto. }
      apply received_same; try done. exists batch, q'. split; [done|]. split; [lia | done].
Qed.
Lemma copy_ok k : server_at q data (SCopy k) -> received q loc cp (read_act b (SCopy k) data).
Proof.
  cbn [server_at read_act]. intros (batch & q' & -> & Hk & Hpre).
  destruct (head_slot _ _ _ _ Hrep) as (s & Hs & _ & Hbl & Hnz & Ht & _).
  rewrite INPB_SIZE_val in *. rewrite take_prefix_lookup in Ht.
  destruct (lookup_lt_is_Some_2 batch (Z.to_nat k)) as [w Hw]; [lia|].
  pose proof (get_head b s (Z.to_nat k) w Hs) as Hget. rewrite Z2Nat.id in Hget by lia.
  rewrite Hget by (rewrite Ht by lia; done). cbn [mbind result_bind].
  rewrite aset_in by lia. cbn [mbind result_bind mret result_ret].
  apply received_same; try done; [by rewrite length_insert|].
  right. exists batch, q'. split; [done|]. split; [lia|]. rewrite Z2Nat.inj_add, Nat.add_1_r by lia.
  rewrite (take_S_r _ _ w) by (apply list_lookup_insert_eq; lia). rewrite (take_S_r batch _ w) by done.
  by rewrite take_insert_ge, Hpre by lia.
Qed.
Lemma clear_ok k : server_at q data (SClear k) -> received q loc cp (read_act b (SClear k) data).
Proof.
  cbn [server_at read_act]. intros (batch & q' & -> & -> & Hpre).
  destruct (head_slot _ _ _ _ Hrep) as (s & Hs & Hsl & _).
  pose proof (ir_rd _ _ _ Hrep) as Hrd. pose proof (ir_len _ _ _ Hrep) as Hlen.
  unfold put_word. rewrite Hs. cbn [mbind result_bind]. rewrite aset_in by (rewrite Hsl; done).
  cbn [mbind result_bind]. rewrite aset_in by (rewrite Hlen, INPB_COUNT_val in *; lia).
  cbn [mbind result_bind mret result_ret]. eexists _, _, _, _, q'. split; [done|].
  change (Z.to_nat 0) with 0%nat. split; [exact (ib_consume b batch q' loc s Hrep Hs)|].
  split; [by apply (client_at_consume b batch)|]. split; [done|]. split; [done|].
  simpl. by rewrite Nat2Z.id, Hpre.
Qed.
Lemma read_act_ok pc : server_at q data pc -> received q loc cp (read_act b pc data).
Proof.
  destruct pc; [|apply scan_ok|apply copy_ok|apply clear_ok].
  intros _. apply received_same; try done. by left.
Qed.
End server.

(** ** A server alone

    The actions of a whole call, with nothing in between, are [inpb_read]. *)
Fixpoint read_alone (fuel : nat) (b : inputbuffer) (pc : spc) (data : list Z)
    : result (list Z * list Z * inputbuffer) :=
  match fuel with
  | O => Fault Blocked
  | S fuel =>
      '(b, pc, data, r) ← read_act b pc data;
      match r with
      | Some got => mret (got, data, b)
      | None => read_alone fuel b pc data
      end
  end.

Lemma read_alone_S fuel b pc data :
  read_alone (S fuel) b pc data =
    ('(b, pc, data, r) ← read_act b pc data;
     match r with
     | Some got => mret (got, data, b)
     | None => read_alone fuel b pc data
     end).
Proof. reflexivity. Qed.

Definition scan_end (b : inputbuffer) (slot : list Z) (x : Z * list Z)
    : result (list Z * list Z * inputbuffer) :=
  let '(count, data) := x in
  if count =? 0 then mret ([], data, b) else
  slot' ← aset slot 0 0;
  d ← aset (ib_data b) (data_rd b) slot';
  mret (take (Z.to_nat count) data, data,
    InputBuffer d (Z.land (data_rd b + 1) (INPB_COUNT - 1)) (local_data b) (local_index b) (data_wr b)).

Lemma clear_alone b slot count data fuel :
  aget (ib_data b) (data_rd b) = Ok slot ->
  read_alone (S fuel) b (SClear count) data =
    (slot' ← aset slot 0 0; d ← aset (ib_data b) (data_rd b) slot';
     mret (take (Z.to_nat count) data, data,
       InputBuffer d (Z.land (data_rd b + 1) (INPB_COUNT - 1)) (local_data b) (local_index b)
         (data_wr b))).
Proof.
  intros Hs. cbn [read_alone read_act]. unfold put_word. rewrite Hs. cbn [mbind result_bind].
  destruct (aset slot 0 0); [|done]. cbn [mbind result_bind]. by destruct (aset (ib_data b) _ _).
Qed.

Lemma scan_alone b slot fuel k data :
  aget (ib_data b) (data_rd b) = Ok slot -> 0 <= k -> INPB_SIZE <= k + Z.of_nat fuel ->
  read_alone (S (S (2 * fuel))) b (SScan k) data =
    (x ← inpb_scan fuel slot k data; scan_end b slot x).
Proof.
  intros Hs. revert k data. induction fuel as [|fuel IH]; intros k data Hk Hf.
  - rewrite INPB_SIZE_val in Hf. change (S (S (2 * 0)))%nat with 2%nat. cbn [read_alone read_act inpb_scan].
    rewrite INPB_SIZE_val, (proj2 (Z.ltb_ge k 8)), (proj2 (Z.eqb_neq k 0)) by lia.
    cbn [mbind result_bind mret result_ret]. unfold scan_end. rewrite (proj2 (Z.eqb_neq k 0)) by lia.
    exact (clear_alone b slot k data 0 Hs).
  - replace (S (S (2 * S fuel))) with (S (S (S (S (2 * fuel))))) by lia.
    rewrite read_alone_S. cbn [inpb_scan read_act]. cbv zeta. destruct (Z.ltb_spec k INPB_SIZE) as [Hlt|Hge].
    + unfold get_word at 1. rewrite Hs. cbn [mbind result_bind].
      destruct (aget slot k) as [w|] eqn:Hw; [|done]. cbn [mbind result_bind mret result_ret].
      destruct (w =? 0).
      * cbn [mbind result_bind mret result_ret]. unfold scan_end. destruct (k =? 0); [done|]. exact (clear_alone b slot k data _ Hs).
      * rewrite read_alone_S. cbn [read_act]. unfold get_word at 1. rewrite Hs. cbn [mbind result_bind]. rewrite Hw.
        cbn [mbind result_bind]. destruct (aset data k w) as [data'|]; [|done].
        cbn [mbind result_bind mret result_ret]. apply IH; lia.
    + rewrite INPB_SIZE_val in *. rewrite (proj2 (Z.eqb_neq k 0)) by lia.
      cbn [mbind result_bind mret result_ret]. unfold scan_end. rewrite (proj2 (Z.eqb_neq k 0)) by lia.
      exact (clear_alone b slot k data _ Hs).
Qed.

Lemma read_alone_whole b data slot :
  aget (ib_data b) (data_rd b) = Ok slot ->
  read_alone 19 b SReady data =
    ('(count, data, b) ← inpb_read b data; mret (take (Z.to_nat count) data, data, b)).
Proof.
  intros Hs. change (read_alone 19 b SReady data) with (read_alone (S (S (2 * 8))) b (SScan 0) data).
  rewrite (scan_alone b slot 8 0 data Hs) by (rewrite ?INPB_SIZE_val; lia).
  unfold inpb_read. rewrite Hs. cbn [mbind result_bind]. change (Z.to_nat INPB_SIZE) with 8%nat.
  destruct (inpb_scan 8 slot 0 data) as [[count d]|]; [|done]. cbn [mbind result_bind].
  unfold scan_end. destruct (Z.eqb_spec count 0) as [->|]; [done|].
  destruct (aset slot 0 0); [|done]. cbn [mbind result_bind].
  by destruct (aset (ib_data b) (data_rd b) _).
Qed.

(** ** Any interleaving *)
Lemma chan_inv_step c c' : chan_inv c -> chan_step c c' -> chan_inv c'.
Proof.
  intros (q & loc & Hrep & Hcl & Hsv & Hd & Heq) Hst.
  destruct Hst as [b sp data sent got ws l Hnz Hfit Hcp|b cp sp data sent got b' cp' Hf
    |b cp sp data sent got b' sp' data' r Hr]; simpl in *.
  - rewrite (ir_index _ _ _ Hrep), INPB_SIZE_val in Hfit.
    destruct (inpb_append b q loc ws Hrep Hnz) as (l' & Hl & Hrep'); [rewrite INPB_SIZE_val; lia|].
    rewrite Hcp in Hl. injection Hl as <-. exists q, (loc ++ ws). split_and!; try done.
    simpl. by rewrite <- Heq, <- !app_assoc.
  - destruct (flush_act_ok b q loc Hrep cp Hcl) as (b1 & pc1 & q1 & loc1 & Hf1 & Hrep1 & Hc1 & He1 & Hq1).
    rewrite Hf in Hf1. injection Hf1 as <- <-. exists q1, loc1. split_and!; try done; simpl.
    + destruct Hq1 as [->| ->]; [done | by apply server_at_snoc].
    + by rewrite He1.
  - destruct (read_act_ok b q loc cp data Hrep Hcl Hd sp Hsv)
      as (b1 & pc1 & d1 & g1 & q1 & Hr1 & Hrep1 & Hc1 & Hs1 & Hd1 & He1).
    rewrite Hr in Hr1. injection Hr1 as <- <- <- <-. exists q1, loc. split_and!; try done; simpl.
    by rewrite <- Heq, <- He1, <- !app_assoc.
Qed.

Lemma chan_reachable data c :
  length data = Z.to_nat INPB_SIZE -> rtc chan_step (chan_init data) c -> chan_inv c.
Proof.
  intros Hd Hr. apply (rtc_invariant chan_step chan_inv _ _ Hr); [|by intros; eapply chan_inv_step].
  exists [], []. split_and!; try done. apply ib_rep_zero.
Qed.

(** C18: the input buffer is a queue under every interleaving of the single
    accesses of a client and a server: at any moment the words received,
    followed by the batches that are published and not yet given back and by the
    words still accumulated, are the words written. A batch is never seen before
    all of it is there and never overwritten before all of it is read, although
    the two ends share nothing but the first word of a slot. *)
Theorem channel_fifo data c :
  length data = Z.to_nat INPB_SIZE -> rtc chan_step (chan_init data) c ->
  exists batches loc, ib_rep (ch_buf c) batches loc /\
    ch_got c ++ concat batches ++ loc = ch_sent c.
Proof.
  intros Hd Hr. destruct (chan_reachable data c Hd Hr) as (q & loc & Hrep & _ & _ & _ & Heq). eauto.
Qed.

(** C33: every access of either end is defined at any moment; a client that
    waits does so only while all [INPB_COUNT] slots hold batches; and a server
    that starts a call and goes on alone does just what [inpb_read] does: it
    returns the oldest batch, or nothing when there is none. *)
Theorem channel_progress data c :
  length data = Z.to_nat INPB_SIZE -> rtc chan_step (chan_init data) c ->
  (exists b' cp', flush_act (ch_buf c) (ch_cpc c) = Ok (b', cp') /\
     (ch_cpc c = CWait -> cp' = CWait -> exists batches loc,
        ib_rep (ch_buf c) batches loc /\ Z.of_nat (length batches) = INPB_COUNT)) /\
  (exists b' sp' d' got, read_act (ch_buf c) (ch_spc c) (ch_data c) = Ok (b', sp', d', got)) /\
  (ch_spc c = SReady -> exists batches loc d' b', ib_rep (ch_buf c) batches loc /\
     read_alone 19 (ch_buf c) SReady (ch_data c) = Ok (default [] (head batches), d', b') /\
     exists n, inpb_read (ch_buf c) (ch_data c) = Ok (n, d', b')).
Proof.
  intros Hd Hr. destruct (chan_reachable data c Hd Hr) as (q & loc & Hrep & Hcl & Hsv & Hdl & _).
  split; [|split].
  - destruct (flush_act_ok _ q loc Hrep _ Hcl) as (b' & cp' & _ & _ & Hf & _). exists b', cp'.
    split; [done|]. intros Hw ->. rewrite Hw in Hf, Hcl. cbn [flush_act] in Hf.
    exists q, loc. split; [done|]. pose proof (ir_q _ _ _ Hrep) as Hq.
    destruct (decide (Z.of_nat (length q) < INPB_COUNT)) as [Hlt|]; [|lia].
    destruct (ib_slot_wr _ _ _ Hrep Hlt) as (s & Hs & _ & H0). unfold get_word in Hf.
    rewrite Hs in Hf. cbn [mbind result_bind] in Hf.
    by rewrite (proj2 (aget_Ok s 0 0)) in Hf.
  - destruct (read_act_ok _ q loc _ _ Hrep Hcl Hdl _ Hsv) as (b' & sp' & d' & got & _ & H & _). eauto.
  - intros _. destruct (aget_in (ib_data (ch_buf c)) (data_rd (ch_buf c))) as [slot Hs].
    { pose proof (ir_rd _ _ _ Hrep). rewrite (ir_len _ _ _ Hrep), INPB_COUNT_val in *. lia. }
    rewrite (read_alone_whole _ _ slot Hs).
    pose proof (read_refines (ch_buf c) (Spec.Chan q loc) (ch_data c) Hrep Hdl) as Hread.
    destruct q as [|batch q]; simpl in Hread; destruct Hread as (b' & Hread & _); rewrite Hread;
      cbn [mbind result_bind mret result_ret].
    + eexists [], loc, _, b'. split; [done|]. split; [done|]. eauto.
    + eexists (batch :: q), loc, _, b'. split; [done|].
      split; [|eauto]. by rewrite Nat2Z.id, take_app_length.
Qed.

(** ** Running an interleaving *)
Inductive move := MWrite (ws : list Z) | MClient | MServer.

Definition chan_do (mv : move) (c : chan) : option chan :=
  match mv with
  | MWrite ws =>
      match ch_cpc c, acopy (length ws) ws 0 (local_data (ch_buf c)) (local_index (ch_buf c)) with
      | CReady, Ok l =>
          if forallb (fun w => negb (w =? 0)) ws
             && (local_index (ch_buf c) + Z.of_nat (length ws) <=? INPB_SIZE)
          then let b := ch_buf c in
               Some (Chan (InputBuffer (ib_data b) (data_rd b) l
                             (local_index b + Z.of_nat (length ws)) (data_wr b))
                       CReady (ch_spc c) (ch_data c) (ch_sent c ++ ws) (ch_got c))
          else None
      | _, _ => None
      end
  | MClient =>
      match flush_act (ch_buf c) (ch_cpc c) with
      | Ok (b, pc) => Some (Chan b pc (ch_spc c) (ch_data c) (ch_sent c) (ch_got c))
      | Fault _ => None
      end
  | MServer =>
      match read_act (ch_buf c) (ch_spc c) (ch_data c) with
      | Ok (b, pc, d, r) => Some (Chan b (ch_cpc c) pc d (ch_sent c) (ch_got c ++ default [] r))
      | Fault _ => None
      end
  end.

Fixpoint chan_run (mvs : list move) (c : chan) : option chan :=
  match mvs with
  | [] => Some c
  | mv :: mvs => c' ← chan_do mv c; chan_run mvs c'
  end.

Lemma chan_do_step mv c c' : chan_do mv c = Some c' -> chan_step c c'.
Proof.
  destruct c as [b cp sp d sent got], mv as [ws| |]; cbn [chan_do ch_buf ch_cpc ch_spc ch_data ch_sent ch_got].
  - destruct cp; try done. destruct (acopy _ _ _ _ _) as [l|] eqn:Hl; [|done].
    destruct (forallb _ ws) eqn:Hnz; [|done].
    destruct (Z.leb_spec (local_index b + Z.of_nat (length ws)) INPB_SIZE); [|done].
    intros [= <-]. apply chan_write; [|done|done].
    apply Forall_forall. intros w Hw. rewrite forallb_forall in Hnz.
    specialize (Hnz w (proj1 (list_elem_of_In _ _) Hw)). intros ->. done.
  - destruct (flush_act b cp) as [[b' cp']|] eqn:Hf; [|done]. intros [= <-]. by apply chan_flush.
  - destruct (read_act b sp d) as [[[[b' sp'] d'] r]|] eqn:Hr; [|done]. intros [= <-].
    by apply chan_read.
Qed.

Lemma chan_run_steps mvs c c' : chan_run mvs c = Some c' -> rtc chan_step c c'.
Proof.
  revert c. induction mvs as [|mv mvs IH]; simpl; intros c Hc.
  - injection Hc as ->. constructor.
  - destruct (chan_do mv c) as [c1|] eqn:Hm; [|done]. apply rtc_l with c1; [|by apply IH].
    by apply (chan_do_step mv).
Qed.

(** The server looks at the slot while the client fills it, and again when the
    batch is published. *)
Definition demo_moves : list move :=
  [MWrite [5; 6; 7]; MClient; MClient; MServer; MClient; MServer; MClient; MClient; MServer; MClient;
   MServer; MClient; MServer; MServer; MServer; MWrite [8]; MServer; MServer; MServer; MServer; MServer; MServer].

Definition demo_chan : chan := default (chan_init scratch) (chan_run demo_moves (chan_init scratch)).

Lemma channel_fifo_witness :
  exists batches loc, ib_rep (ch_buf demo_chan) batches loc /\
    [5; 6; 7] ++ concat batches ++ loc = [5; 6; 7; 8].
Proof.
  exact (channel_fifo scratch demo_chan eq_refl
           (chan_run_steps demo_moves (chan_init scratch) demo_chan ltac:(vm_compute; reflexivity))).
Defined.

Lemma channel_progress_witness :
  exists b' cp', flush_act (ch_buf demo_chan) (ch_cpc demo_chan) = Ok (b', cp').
Proof.
  destruct (channel_progress scratch demo_chan eq_refl
    (chan_run_steps demo_moves (chan_init scratch) demo_chan ltac:(vm_compute; reflexivity)))
    as ((b' & cp' & Hf & _) & _).
  exists b', cp'. exact Hf.
Defined.
