(* ===== verification/OneWayBuffer.v ===== *)
(** * OneWayBuffer: the single-writer ring ([onewaybuffer.h], [onewaybuffer.c])

    The predecessor of the message buffers: one ring of words with a read, a
    published and a private write index, none of which is ever reduced modulo
    the size. *)
From stdpp Require Import base list.
From Stdlib Require Import ZArith Lia.
From S2P Require Import Prelude Protocol.

Local Open Scope Z_scope.

Definition ONEWAY_BUFFER_SIZE : Z := 2 * Z.shiftr CACHELINE 3.
Definition BUFFER_FLUSH_COUNT : Z := 8.

(** [struct onewaybuffer], without the padding. *)
Record onewaybuffer := OneWay {
  ow_data : list Z;
  ow_rd : Z;
  ow_wr : Z;
  ow_tmp : Z
}.

Definition onewaybuffer_zero : onewaybuffer :=
  OneWay (replicate (Z.to_nat ONEWAY_BUFFER_SIZE) 0) 0 0 0.

Definition buffer_flush (b : onewaybuffer) : onewaybuffer :=
  OneWay (ow_data b) (ow_rd b) (ow_tmp b) (ow_tmp b).

(** The wait for space is [Blocked]: only the reader can end it. *)
Definition buffer_write (b : onewaybuffer) (w : Z) : result onewaybuffer :=
  _ ← check (ow_tmp b <? u64 (ow_rd b + ONEWAY_BUFFER_SIZE)) Blocked;
  d ← aset (ow_data b) (Z.land (ow_tmp b) (ONEWAY_BUFFER_SIZE - 1)) w;
  let b := OneWay d (ow_rd b) (ow_wr b) (u64 (ow_tmp b + 1)) in
  mret (if u64 (ow_wr b + BUFFER_FLUSH_COUNT) <=? ow_tmp b then buffer_flush b else b).

Definition buffer_write_all (b : onewaybuffer) (write_count : Z) (data : list Z) (force_flush : bool)
    : result onewaybuffer :=
  _ ← check (write_count <=? ONEWAY_BUFFER_SIZE) AssertFailed;
  _ ← check (u64 (u64 (ow_tmp b + u64 write_count) - 1) <? u64 (ow_rd b + ONEWAY_BUFFER_SIZE)) Blocked;
  d ← ring_store ONEWAY_BUFFER_SIZE (Z.to_nat write_count) 0 data (ow_tmp b) (ow_data b);
  let b := OneWay d (ow_rd b) (ow_wr b) (u64 (ow_tmp b + u64 write_count)) in
  mret (if force_flush || (u64 (ow_wr b + BUFFER_FLUSH_COUNT) <=? ow_tmp b)
        then buffer_flush b else b).

Definition buffer_read_all (b : onewaybuffer) (max_read_count : Z) (data : list Z)
    : result (Z * list Z * onewaybuffer) :=
  let count := i32 (ow_wr b - ow_rd b) in
  if count =? 0 then mret (0, data, b) else
  let count := if max_read_count <? count then max_read_count else count in
  data ← ring_load ONEWAY_BUFFER_SIZE (Z.to_nat count) 0 data (ow_rd b) (ow_data b);
  mret (count, data, OneWay (ow_data b) (u64 (ow_rd b + u64 count)) (ow_wr b) (ow_tmp b)).

(** ** The ring as a queue: [q] published and not read, [loc] not published *)
Record ow_rep (b : onewaybuffer) (q loc : list Z) : Prop := {
  ow_len : length (ow_data b) = Z.to_nat ONEWAY_BUFFER_SIZE;
  ow_lo : 0 <= ow_rd b;
  ow_hi : ow_tmp b < 2 ^ 63;
  ow_fit : Z.of_nat (length (q ++ loc)) <= ONEWAY_BUFFER_SIZE;
  ow_wr_at : ow_wr b = ow_rd b + Z.of_nat (length q);
  ow_tmp_at : ow_tmp b = ow_wr b + Z.of_nat (length loc);
  ow_word : forall i, (i < length (q ++ loc))%nat ->
    ow_data b !! Z.to_nat ((ow_rd b + Z.of_nat i) mod ONEWAY_BUFFER_SIZE) = (q ++ loc) !! i
}.

(** What the test at the end of a write does to the queue. *)
Definition publish (force : bool) (q loc : list Z) : list Z * list Z :=
  if force || (BUFFER_FLUSH_COUNT <=? Z.of_nat (length loc)) then (q ++ loc, []) else (q, loc).

Lemma ONEWAY_val : ONEWAY_BUFFER_SIZE = 16. Proof. reflexivity. Qed.

Lemma ow_rep_zero : ow_rep onewaybuffer_zero [] [].
Proof. split; try done. simpl. lia. Qed.

Lemma flush_rep b q loc : ow_rep b q loc -> ow_rep (buffer_flush b) (q ++ loc) [].
Proof.
  intros []. split; simpl; rewrite ?app_nil_r; try done.
  - rewrite length_app. lia.
  - lia.
Qed.

(** The end of both writes, once the words are in the ring. *)
Lemma publish_rep b q loc force :
  ow_rep b q loc ->
  let q' := publish force q loc in
  ow_rep (if force || (u64 (ow_wr b + BUFFER_FLUSH_COUNT) <=? ow_tmp b) then buffer_flush b else b)
    q'.1 q'.2.
Proof.
  intros Hrep. pose proof Hrep as []. unfold publish. rewrite ONEWAY_val in *.
  assert ((u64 (ow_wr b + BUFFER_FLUSH_COUNT) <=? ow_tmp b) =
          (BUFFER_FLUSH_COUNT <=? Z.of_nat (length loc))) as ->.
  { unfold BUFFER_FLUSH_COUNT. rewrite u64_small by lia.
    destruct (Z.leb_spec (ow_wr b + 8) (ow_tmp b)), (Z.leb_spec 8 (Z.of_nat (length loc))); lia. }
  destruct (force || _); [by apply flush_rep | done].
Qed.

(** Words stored behind the last one. *)
Lemma append_rep b q loc ws d :
  ow_rep b q loc -> length d = Z.to_nat ONEWAY_BUFFER_SIZE ->
  Z.of_nat (length (q ++ loc ++ ws)) <= ONEWAY_BUFFER_SIZE ->
  ow_tmp b + Z.of_nat (length ws) < 2 ^ 63 ->
  (forall m, 0 <= m < Z.of_nat (length ws) ->
     d !! Z.to_nat ((ow_tmp b + m) mod ONEWAY_BUFFER_SIZE) = ws !! Z.to_nat m) ->
  (forall m, Z.of_nat (length ws) <= m < ONEWAY_BUFFER_SIZE ->
     d !! Z.to_nat ((ow_tmp b + m) mod ONEWAY_BUFFER_SIZE) =
     ow_data b !! Z.to_nat ((ow_tmp b + m) mod ONEWAY_BUFFER_SIZE)) ->
  ow_rep (OneWay d (ow_rd b) (ow_wr b) (ow_tmp b + Z.of_nat (length ws))) q (loc ++ ws).
Proof.
  intros [] Hd Hfit Hhi Hnew Hold. rewrite !length_app in Hfit. rewrite length_app in ow_fit0.
  rewrite ONEWAY_val in *. split; simpl; try done.
  - rewrite !length_app, ONEWAY_val. lia.
  - rewrite length_app. lia.
  - intros i Hi. rewrite app_assoc in Hi |- *. rewrite length_app in Hi. rewrite ONEWAY_val.
    destruct (decide (i < length (q ++ loc))%nat) as [Hlt|Hge].
    + rewrite lookup_app_l, <- ow_word0 by done. rewrite length_app in Hlt.
      specialize (Hold (16 - Z.of_nat (length q + length loc) + Z.of_nat i) ltac:(lia)).
      replace (ow_tmp b + (16 - Z.of_nat (length q + length loc) + Z.of_nat i))
        with (ow_rd b + Z.of_nat i + 16) in Hold by lia.
      by rewrite mod_turn in Hold by lia.
    + rewrite lookup_app_r by lia. rewrite length_app in *.
      specialize (Hnew (Z.of_nat (i - (length q + length loc))) ltac:(lia)).
      replace (ow_tmp b + Z.of_nat (i - (length q + length loc))) with (ow_rd b + Z.of_nat i)
        in Hnew by lia.
      rewrite Hnew. f_equal. lia.
Qed.

Lemma write_all_ok b q loc ws force :
  ow_rep b q loc -> (1 <= length ws)%nat -> Z.of_nat (length ws) <= ONEWAY_BUFFER_SIZE ->
  ow_tmp b + Z.of_nat (length ws) < 2 ^ 63 ->
  if Z.of_nat (length (q ++ loc ++ ws)) <=? ONEWAY_BUFFER_SIZE then
    exists b', buffer_write_all b (Z.of_nat (length ws)) ws force = Ok b' /\
      ow_tmp b' = ow_tmp b + Z.of_nat (length ws) /\
      ow_rep b' (publish force q (loc ++ ws)).1 (publish force q (loc ++ ws)).2
  else buffer_write_all b (Z.of_nat (length ws)) ws force = Fault Blocked.
Proof.
  intros Hrep Hn Hsz Hhi. pose proof Hrep as []. unfold buffer_write_all.
  rewrite (proj2 (Z.leb_le _ _) Hsz). cbn [check mbind result_bind]. rewrite ONEWAY_val in *.
  rewrite (u64_small (Z.of_nat _)), (u64_small (ow_tmp b + _)), !u64_small by lia.
  rewrite !length_app in *.
  destruct (Z.leb_spec (Z.of_nat (length q + (length loc + length ws))) 16).
  2: { rewrite (proj2 (Z.ltb_ge _ _)) by lia. done. }
  rewrite (proj2 (Z.ltb_lt _ _)) by lia. cbn [check mbind result_bind]. rewrite Nat2Z.id.
  destruct (ring_store_spec 4 16 (length ws) 0 ws (ow_tmp b) (ow_data b))
    as (d & -> & Hl & Hnew & Hold); [lia | done | lia | lia | done | lia |].
  cbn [mbind result_bind mret result_ret]. eexists. split; [done|].
  split; [case_match; done|].
  refine (publish_rep (OneWay d (ow_rd b) (ow_wr b) (ow_tmp b + Z.of_nat (length ws))) q
            (loc ++ ws) force _).
  apply append_rep; rewrite ?ONEWAY_val, ?length_app; try done; lia.
Qed.

(** One word is a batch of one that is not forced out. *)
Lemma write_one b q loc w :
  ow_rep b q loc -> ow_tmp b + 1 < 2 ^ 63 -> buffer_write b w = buffer_write_all b 1 [w] false.
Proof.
  intros [] Hhi. unfold buffer_write, buffer_write_all. rewrite ONEWAY_val in *.
  change (1 <=? 16) with true. cbn [check mbind result_bind].
  change (u64 1) with 1. rewrite !u64_small by (rewrite ?u64_small; lia).
  replace (ow_tmp b + 1 - 1) with (ow_tmp b) by lia.
  destruct (ow_tmp b <? ow_rd b + 16); [|done].
  cbn [check mbind result_bind]. change (Z.to_nat 1) with 1%nat. cbn [ring_store]. unfold aget. simpl deref.
  change (if 0 <=? 0 then Ok w else Fault Undefined) with (Ok w).
  cbn [mbind result_bind]. rewrite Z.add_0_r, (u64_small (ow_tmp b)) by lia.
  by destruct (aset (ow_data b) _ w).
Qed.

Lemma read_all_ok b q loc max data :
  ow_rep b q loc -> 0 <= max < 2 ^ 31 -> (length q <= length data)%nat ->
  let n := Z.to_nat (if max <? Z.of_nat (length q) then max else Z.of_nat (length q)) in
  exists data' b', buffer_read_all b max data = Ok (Z.of_nat n, data', b') /\
    length data' = length data /\ take n data' = take n q /\
    ow_tmp b' = ow_tmp b /\ ow_rep b' (drop n q) loc.
Proof.
  intros Hrep Hmax Hdata n. pose proof Hrep as []. unfold buffer_read_all.
  rewrite length_app, ONEWAY_val in *.
  replace (ow_wr b - ow_rd b) with (Z.of_nat (length q)) by lia. rewrite i32_small by lia.
  assert (n <= length q)%nat as Hnq by (subst n; case_match; lia).
  destruct (Z.eqb_spec (Z.of_nat (length q)) 0) as [Hq|Hq].
  { assert (n = 0%nat) as -> by lia. exists data, b.
    destruct q; [done | simpl in Hq; lia]. }
  replace (if max <? Z.of_nat (length q) then max else Z.of_nat (length q)) with (Z.of_nat n)
    by (subst n; case_match; lia).
  rewrite Nat2Z.id. clearbody n.
  destruct (ring_load_spec 4 16 n 0 data (ow_rd b) (ow_data b)) as (data' & -> & Hl & Hnew & _);
    [lia | done | done | lia | lia |].
  cbn [mbind result_bind mret result_ret]. eexists data', _. split; [done|]. split; [done|].
  assert (forall i, (i < n)%nat -> data' !! i = q !! i) as Hread.
  { intros i Hi. specialize (Hnew (Z.of_nat i) ltac:(lia)). rewrite Nat2Z.id in Hnew.
    rewrite Hnew, ow_word0, lookup_app_l by lia. done. }
  split.
  { apply list_eq. intros i. destruct (decide (i < n)%nat).
    - rewrite !lookup_take_lt by done. by apply Hread.
    - rewrite !lookup_take_ge by lia. done. }
  rewrite (u64_small (Z.of_nat n)), u64_small by lia. split; [done|].
  split; simpl; rewrite ?length_app, ?length_drop, ?ONEWAY_val; try done; try lia.
  intros i Hi. specialize (ow_word0 (n + i)%nat ltac:(lia)).
  replace (ow_rd b + Z.of_nat n + Z.of_nat i) with (ow_rd b + Z.of_nat (n + i)) by lia.
  rewrite ow_word0. rewrite <- (lookup_drop (q ++ loc)), drop_app_le by lia. done.
Qed.

(** ** Sequences of operations *)
Inductive ow_op := OneWrite (w : Z) | AllWrite (ws : list Z) (force : bool) | Flush | Read (max : Z).

Definition ow_do (op : ow_op) (data : list Z) (b : onewaybuffer)
    : result (list Z * list Z * onewaybuffer) :=
  match op with
  | OneWrite w => b ← buffer_write b w; mret ([], data, b)
  | AllWrite ws force => b ← buffer_write_all b (Z.of_nat (length ws)) ws force; mret ([], data, b)
  | Flush => mret ([], data, buffer_flush b)
  | Read max => '(n, data, b) ← buffer_read_all b max data; mret (take (Z.to_nat n) data, data, b)
  end.

Fixpoint run_ow (ops : list ow_op) (data : list Z) (b : onewaybuffer)
    : result (list Z * list Z * onewaybuffer) :=
  match ops with
  | [] => mret ([], data, b)
  | op :: ops =>
      '(got, data, b) ← ow_do op data b;
      '(more, data, b) ← run_ow ops data b;
      mret (got ++ more, data, b)
  end.

Definition ow_written (op : ow_op) : list Z :=
  match op with OneWrite w => [w] | AllWrite ws _ => ws | _ => [] end.

Definition ow_op_ok (op : ow_op) : Prop :=
  match op with
  | AllWrite ws _ => (1 <= length ws)%nat /\ Z.of_nat (length ws) <= ONEWAY_BUFFER_SIZE
  | Read max => 0 <= max < 2 ^ 31
  | _ => True
  end.

(** The queue after an operation, and what it received; [None] when it waits. *)
Definition ow_spec (op : ow_op) (q loc : list Z) : option (list Z * list Z * list Z) :=
  match op with
  | Flush => Some ([], q ++ loc, [])
  | Read max => let n := Z.to_nat (Z.min max (Z.of_nat (length q))) in
                Some (take n q, drop n q, loc)
  | _ => if Z.of_nat (length (q ++ loc ++ ow_written op)) <=? ONEWAY_BUFFER_SIZE then
           let force := match op with AllWrite _ f => f | _ => false end in
           let c := publish force q (loc ++ ow_written op) in Some ([], c.1, c.2)
         else None
  end.

Lemma ow_do_ok op data b q loc :
  ow_rep b q loc -> ow_op_ok op -> (length q <= length data)%nat ->
  ow_tmp b + Z.of_nat (length (ow_written op)) < 2 ^ 63 ->
  match ow_spec op q loc with
  | Some (got, q', loc') => exists data' b', ow_do op data b = Ok (got, data', b') /\
      ow_rep b' q' loc' /\ length data' = length data /\
      ow_tmp b' = ow_tmp b + Z.of_nat (length (ow_written op))
  | None => ow_do op data b = Fault Blocked
  end.
Proof.
  intros Hrep Hok Hd Hhi. destruct op as [w|ws force| |max]; cbn [ow_spec ow_do ow_written] in *.
  - rewrite (write_one b q loc w) by done.
    pose proof (write_all_ok b q loc [w] false Hrep) as H.
    change (Z.of_nat (length [w])) with 1 in H.
    specialize (H (le_n 1) ltac:(rewrite ONEWAY_val; lia) Hhi).
    case_match; [|by rewrite H]. destruct H as (b' & -> & Ht & Hr). eauto 10.
  - destruct Hok as [H1 H2]. pose proof (write_all_ok b q loc ws force Hrep H1 H2 Hhi) as H.
    case_match; [|by rewrite H]. destruct H as (b' & -> & Ht & Hr). eauto 10.
  - exists data, (buffer_flush b). simpl. rewrite Z.add_0_r. eauto using flush_rep.
  - destruct (read_all_ok b q loc max data Hrep Hok Hd) as (data' & b' & Hr & Hl & Hg & Ht & Hrep').
    rewrite Hr. cbn [mbind result_bind mret result_ret]. rewrite Nat2Z.id, Hg.
    assert (Z.min max (Z.of_nat (length q)) =
            if max <? Z.of_nat (length q) then max else Z.of_nat (length q)) as ->
      by (destruct (Z.ltb_spec max (Z.of_nat (length q))); lia).
    exists data', b'. simpl. rewrite Z.add_0_r. done.
Qed.

Lemma ow_spec_words op q loc got q' loc' :
  ow_spec op q loc = Some (got, q', loc') -> got ++ q' ++ loc' = q ++ loc ++ ow_written op.
Proof.
  destruct op; simpl; unfold publish; repeat case_match; intros; simplify_eq/=;
    rewrite ?app_nil_r, <- ?app_assoc; try done.
  by rewrite app_assoc, take_drop.
Qed.

Lemma run_ow_ok ops data b q loc :
  ow_rep b q loc -> Forall ow_op_ok ops -> ONEWAY_BUFFER_SIZE <= Z.of_nat (length data) ->
  ow_tmp b + Z.of_nat (length (concat (ow_written <$> ops))) < 2 ^ 63 ->
  match run_ow ops data b with
  | Ok (got, _, b') => exists q' loc', ow_rep b' q' loc' /\
      got ++ q' ++ loc' = q ++ loc ++ concat (ow_written <$> ops)
  | Fault f => f = Blocked
  end.
Proof.
  revert data b q loc. induction ops as [|op ops IH]; intros data b q loc Hrep Hok Hd Hhi.
  - exists q, loc. simpl. by rewrite app_nil_r.
  - apply Forall_cons in Hok as [Hop Hok]. rewrite fmap_cons in Hhi |- *.
    cbn [concat run_ow] in *. rewrite length_app in Hhi.
    pose proof (ow_fit _ _ _ Hrep) as Hfit. rewrite length_app in Hfit.
    pose proof (ow_do_ok op data b q loc Hrep Hop ltac:(lia) ltac:(lia)) as Hdo.
    destruct (ow_spec op q loc) as [[[got q1] loc1]|] eqn:Hs; [|by rewrite Hdo].
    destruct Hdo as (data1 & b1 & -> & Hrep1 & Hl & Ht). cbn [mbind result_bind].
    specialize (IH data1 b1 q1 loc1 Hrep1 Hok ltac:(lia) ltac:(lia)).
    destruct (run_ow ops data1 b1) as [[[more data2] b2]|]; [|done].
    cbn [mbind result_bind mret result_ret].
    destruct IH as (q' & loc' & Hrep' & Heq). exists q', loc'. split; [done|].
    apply ow_spec_words in Hs. rewrite <- app_assoc, Heq, !app_assoc. f_equal.
    by rewrite <- !app_assoc.
Qed.

(** The one-way buffer is a queue. From a zeroed buffer, in any sequence of
    single writes, batches of one to [ONEWAY_BUFFER_SIZE] words, flushes and
    reads, nothing is lost, repeated or reordered: what was read, followed by
    what is published and what is still private, is what was written. The only
    thing an operation can do besides is to wait for space. *)
Theorem oneway_buffer_fifo ops data :
  Forall ow_op_ok ops -> ONEWAY_BUFFER_SIZE <= Z.of_nat (length data) ->
  Z.of_nat (length (concat (ow_written <$> ops))) < 2 ^ 63 ->
  match run_ow ops data onewaybuffer_zero with
  | Ok (got, _, b) => exists q loc, ow_rep b q loc /\
      got ++ q ++ loc = concat (ow_written <$> ops)
  | Fault f => f = Blocked
  end.
Proof. intros Hok Hd Hl. by apply (run_ow_ok ops data onewaybuffer_zero [] [] ow_rep_zero). Qed.

(** An empty batch on a fresh buffer waits forever: [tmp_wr_index +
    write_count - 1] wraps around, and the buffer looks full while it is empty. *)
Theorem empty_batch_blocks force :
  buffer_write_all onewaybuffer_zero 0 [] force = Fault Blocked.
Proof. by destruct force. Qed.

Lemma oneway_buffer_fifo_witness :
  exists q loc b, ow_rep b q loc /\ [1; 2; 3; 4; 5; 6; 7] ++ q ++ loc = [1; 2; 3; 4; 5; 6; 7; 8; 9].
Proof.
  pose proof (oneway_buffer_fifo
    [OneWrite 1; AllWrite [2; 3; 4; 5; 6; 7; 8] false; OneWrite 9; Read 3; Read 4] (replicate 16 77)
    ltac:(repeat constructor; discriminate) ltac:(discriminate) ltac:(reflexivity)) as H.
  vm_compute in H. destruct H as (q & loc & Hrep & Heq). eexists q, loc, _. split; [exact Hrep | exact Heq].
Defined.
