(* ===== verification/Value.v ===== *)
(** * Value: elements, the heap, and the life of a value

    [struct elem] ([partition.h]), the heap of allocated elements, and the
    value memory management operations of [smphashtable.c]: [is_value_ready],
    [mp_release_value_] and the three [atomic_*] operations. The second half
    states what a reference count means: who holds the element. *)
From stdpp Require Import base list gmap.
From Stdlib Require Import ZArith Lia.
From S2P Require Import Prelude Protocol.

Local Open Scope Z_scope.

(** [struct elem]. The two [TAILQ_ENTRY] links are the lists of [Partition].
    [value] are the bytes of the allocated block behind the header: as many as the
    allocator gave, whatever the field [size] says. *)
Record elem := Elem {
  key : Z;
  ref_count : Z;
  size : Z;
  value : list Z
}.

Definition sizeof_elem : Z := 64.

(** The allocated elements, by address. *)
Abbreviation heap := (gmap Z elem).

(** [e->value] and back. *)
Definition value_ptr (e : Z) : Z := u64 (e + sizeof_elem).
Definition elem_of_ptr (ptr : Z) : Z := u64 (ptr - sizeof_elem).

Definition set_ref_count (rc : Z) (el : elem) : elem :=
  Elem (key el) rc (size el) (value el).

(** [free(e)]: freeing what is not allocated is undefined. *)
Definition free (h : heap) (e : Z) : result heap :=
  _ ← deref (h !! e); mret (delete e h).

(** [memcpy] to the start of the value. The bytes must lie in the allocated block: past
    its end the behaviour is undefined. *)
Definition write_bytes (bs : list Z) (el : elem) : result elem :=
  _ ← check (Z.of_nat (length bs) <=? Z.of_nat (length (value el))) Undefined;
  mret (Elem (key el) (ref_count el) (size el) (bs ++ drop (length bs) (value el))).

(** A holder of the pointer [ptr] writes into the value. *)
Definition write_value (h : heap) (ptr : Z) (bs : list Z) : result heap :=
  el ← deref (h !! elem_of_ptr ptr);
  el' ← write_bytes bs el;
  mret (<[elem_of_ptr ptr := el']> h).

Definition is_value_ready (el : elem) : bool :=
  Z.land (ref_count el) DATA_READY_MASK =? 0.

(** Store a new count and free the element when it is 0. *)
Definition store_or_free (h : heap) (e : Z) (el : elem) (rc : Z) : result heap :=
  let h' := <[e := set_ref_count rc el]> h in
  if rc =? 0 then free h' e else mret h'.

Definition mp_release_value_ (h : heap) (e : Z) : result heap :=
  el ← deref (h !! e);
  store_or_free h e el (u64 (Z.land (ref_count el) (not64 DATA_READY_MASK) - 1)).

Definition atomic_release_value_ (h : heap) (e : Z) : result heap :=
  el ← deref (h !! e);
  store_or_free h e el (u64 (ref_count el - 1)).

Definition atomic_release_value (h : heap) (ptr : Z) : result heap :=
  atomic_release_value_ h (elem_of_ptr ptr).

Definition atomic_mark_ready (h : heap) (ptr : Z) : result heap :=
  let e := elem_of_ptr ptr in
  el ← deref (h !! e);
  store_or_free h e el (Z.land (ref_count el) (not64 DATA_READY_MASK)).

(** ** Writes *)

(** The element with other bytes, which are still those of its block. *)
Definition overwritten (bs : list Z) (el : elem) : elem :=
  Elem (key el) (ref_count el) (size el) (bs ++ drop (length bs) (value el)).

Lemma write_bytes_fits bs el :
  (length bs <= length (value el))%nat -> write_bytes bs el = Ok (overwritten bs el).
Proof. intros Hl. unfold write_bytes. by rewrite (proj2 (Z.leb_le _ _)) by lia. Qed.

Lemma write_bytes_past bs el :
  (length (value el) < length bs)%nat -> write_bytes bs el = Fault Undefined.
Proof. intros Hl. unfold write_bytes. by rewrite (proj2 (Z.leb_gt _ _)) by lia. Qed.

Lemma overwritten_room bs el :
  (length bs <= length (value el))%nat -> length (value (overwritten bs el)) = length (value el).
Proof. intros Hl. simpl. rewrite length_app, length_drop. lia. Qed.

(** A write goes through exactly when its bytes lie in the block. *)
Lemma write_value_spec h ptr bs el :
  h !! elem_of_ptr ptr = Some el ->
  write_value h ptr bs =
    if decide (length bs <= length (value el))%nat then Ok (<[elem_of_ptr ptr := overwritten bs el]> h)
    else Fault Undefined.
Proof.
  intros Hel. unfold write_value. rewrite Hel. cbn [deref mbind result_bind]. case_decide as Hl.
  - by rewrite write_bytes_fits.
  - by rewrite write_bytes_past by lia.
Qed.

Lemma write_value_Ok h ptr bs h' :
  write_value h ptr bs = Ok h' -> exists el, h !! elem_of_ptr ptr = Some el /\
    (length bs <= length (value el))%nat /\ h' = <[elem_of_ptr ptr := overwritten bs el]> h.
Proof.
  intros Hw. destruct (h !! elem_of_ptr ptr) as [el|] eqn:Hel.
  - rewrite (write_value_spec h ptr bs el Hel) in Hw. case_decide; [|done]. exists el. by apply Ok_inj in Hw as <-.
  - unfold write_value in Hw. by rewrite Hel in Hw.
Qed.

(** ** The interface a partition expects of [release_value_f]

    Releasing an allocated element always succeeds and touches nothing else:
    [after_release] says what is left of it, nothing or the element with
    another count. *)
Class Releases (release : heap -> Z -> result heap) := {
  after_release : elem -> option elem;
  release_spec : forall h e el, h !! e = Some el ->
    release h e = Ok (partial_alter (fun _ => after_release el) e h);
  after_release_shape : forall el el', after_release el = Some el' ->
    exists rc, el' = set_ref_count rc el
}.

(** The element with a new count, or nothing when the count is 0. *)
Definition with_count (rc : Z) (el : elem) : option elem :=
  if rc =? 0 then None else Some (set_ref_count rc el).

Lemma store_or_free_spec h e el rc :
  store_or_free h e el rc =
    Ok (if rc =? 0 then delete e h else <[e := set_ref_count rc el]> h).
Proof.
  unfold store_or_free, free. case_match; [|done].
  rewrite lookup_insert_eq. simpl. by rewrite delete_insert_eq.
Qed.

Lemma store_or_free_alter h e el rc :
  store_or_free h e el rc = Ok (partial_alter (fun _ => with_count rc el) e h).
Proof. rewrite store_or_free_spec. unfold with_count. by case_match. Qed.

Lemma with_count_shape rc el el' :
  with_count rc el = Some el' -> exists rc', el' = set_ref_count rc' el.
Proof. unfold with_count. case_match; naive_solver. Qed.

#[export] Program Instance mp_release_releases : Releases mp_release_value_ := {
  after_release el := with_count (u64 (Z.land (ref_count el) (not64 DATA_READY_MASK) - 1)) el
}.
Next Obligation.
  intros h e el Hel. unfold mp_release_value_. rewrite Hel. apply store_or_free_alter.
Qed.
Next Obligation. intros el el'. apply with_count_shape. Qed.

#[export] Program Instance atomic_release_releases : Releases atomic_release_value_ := {
  after_release el := with_count (u64 (ref_count el - 1)) el
}.
Next Obligation.
  intros h e el Hel. unfold atomic_release_value_. rewrite Hel. apply store_or_free_alter.
Qed.
Next Obligation. intros el el'. apply with_count_shape. Qed.

(** Whatever a release did, every other element is as it was. *)
Lemma release_other release `{!Releases release} h h' e a :
  release h e = Ok h' -> is_Some (h !! e) -> a <> e -> h' !! a = h !! a.
Proof.
  intros Hr [el Hel] Hne. rewrite (release_spec h e el Hel) in Hr. simplify_eq.
  by rewrite lookup_partial_alter_ne.
Qed.

Lemma release_total release `{!Releases release} h e :
  is_Some (h !! e) -> exists h', release h e = Ok h'.
Proof. intros [el Hel]. rewrite (release_spec h e el Hel). eauto. Qed.

(** ** Who holds an element

    The table that lists it, the client that is still writing its value, and
    the clients that looked it up and have not released it. *)
Record holds := Holds { in_table : bool; writing : bool; readers : Z }.

Definition b2z (b : bool) : Z := if b then 1 else 0.

Definition nobody (s : holds) : bool :=
  negb (in_table s) && negb (writing s) && (readers s =? 0).

(** What happens to a value after its insertion. [Found] is a lookup that
    returns it; only a value in the table whose writer is done can be found. *)
Inductive event := Unlinked | MarkedReady | Found | Dropped.

Definition after (ev : event) (s : holds) : option holds :=
  match ev with
  | Unlinked => if in_table s then Some (Holds false (writing s) (readers s)) else None
  | MarkedReady => if writing s then Some (Holds (in_table s) false (readers s)) else None
  | Found => if in_table s && negb (writing s)
             then Some (Holds true false (readers s + 1)) else None
  | Dropped => if 0 <? readers s
               then Some (Holds (in_table s) (writing s) (readers s - 1)) else None
  end.

Definition inserted : holds := Holds true true 0.

(** The count as message passing keeps it: the writer is counted, and the mark
    goes with the first release of any kind. *)
Definition mp_count (s : holds) : Z :=
  (if in_table s && writing s then DATA_READY_MASK else 0)
  + b2z (in_table s) + b2z (writing s) + readers s.

(** The count as the locking implementation keeps it: the mark is the
    writer's hold. *)
Definition atomic_count (s : holds) : Z :=
  (if writing s then DATA_READY_MASK else 0) + b2z (in_table s) + readers s.

(** A value that is still being written has no readers, and the count does not
    reach the mark. *)
Definition holds_ok (s : holds) : Prop :=
  0 <= readers s < 2 ^ 62 /\ (writing s = true -> readers s = 0) /\ nobody s = false.

Lemma not64_ready : not64 DATA_READY_MASK = Z.ones 63.
Proof. reflexivity. Qed.

Lemma clear_mark c b :
  0 <= c < 2 ^ 63 -> Z.land (b2z b * DATA_READY_MASK + c) (not64 DATA_READY_MASK) = c.
Proof.
  intros Hc. rewrite not64_ready, Z.land_ones by lia.
  change DATA_READY_MASK with (2 ^ 63). rewrite Z.add_comm, Z.mod_add by lia.
  apply Z.mod_small. lia.
Qed.

Lemma marked c b :
  0 <= c < 2 ^ 63 ->
  (Z.land (b2z b * DATA_READY_MASK + c) DATA_READY_MASK =? 0) = negb b.
Proof.
  intros Hc.
  change DATA_READY_MASK with (Z.ldiff (Z.ones 64) (Z.ones 63)) at 2.
  assert ((b2z b * DATA_READY_MASK + c) mod 2 ^ 63 = c) as Hm.
  { change DATA_READY_MASK with (2 ^ 63). rewrite Z.add_comm, Z.mod_add by lia.
    apply Z.mod_small. lia. }
  rewrite land_high, Hm by (destruct b; unfold b2z, DATA_READY_MASK; lia).
  destruct b; unfold b2z, DATA_READY_MASK; apply Z.eqb_neq || apply Z.eqb_eq; lia.
Qed.

(** [e->ref_count++] of the server and its atomic twin of the locking lookup. *)
Definition take_reference (h : heap) (e : Z) : result heap :=
  el ← deref (h !! e);
  mret (<[e := set_ref_count (u64 (ref_count el + 1)) el]> h).

(** What each side runs for each event. A lookup that finds the value not
    ready leaves it alone and answers NULL: it is not a [Found] event. *)
Definition mp_event (ev : event) (h : heap) (e : Z) : result heap :=
  match ev with
  | Found => el ← deref (h !! e);
             _ ← check (is_value_ready el) AssertFailed; take_reference h e
  | _ => mp_release_value_ h e
  end.

Definition atomic_event (ev : event) (h : heap) (e : Z) : result heap :=
  match ev with
  | Found => el ← deref (h !! e);
             _ ← check (is_value_ready el) AssertFailed; take_reference h e
  | MarkedReady => atomic_mark_ready h (value_ptr e)
  | Unlinked => atomic_release_value_ h e
  | Dropped => atomic_release_value h (value_ptr e)
  end.

Fixpoint history (evs : list event) (s : holds) : option holds :=
  match evs with
  | [] => Some s
  | ev :: evs => s' ← after ev s; history evs s'
  end.

Fixpoint run_events (op : event -> heap -> Z -> result heap) (evs : list event)
    (h : heap) (e : Z) : result heap :=
  match evs with
  | [] => mret h
  | ev :: evs => h' ← op ev h e; run_events op evs h' e
  end.

(** What the heap is when [s] hold [e] and [count] counts them. *)
Definition held (count : holds -> Z) (s : holds) (h : heap) (e : Z) (el : elem) : heap :=
  if nobody s then delete e h else <[e := set_ref_count (count s) el]> h.

(** A value nobody holds can see no event. *)
Lemma after_nobody ev s : nobody s = true -> 0 <= readers s -> after ev s = None.
Proof.
  unfold nobody. destruct s as [[] [] r], ev; simpl; try done; intros H Hr.
  apply Z.eqb_eq in H. destruct (Z.ltb_spec 0 r); [lia|done].
Qed.

Lemma after_ok ev s s' :
  holds_ok s -> after ev s = Some s' ->
  0 <= readers s' <= readers s + 1 /\ (writing s' = true -> readers s' = 0).
Proof.
  intros (Hr & Hw & Hn) H. destruct s as [t w r], ev; simpl in *;
    repeat case_match; simplify_eq/=; try (split; [lia | intuition (done || lia)]).
Qed.

Section lifetime.
Context (count : holds -> Z) (op : event -> heap -> Z -> result heap).
Context (addr_ok : Z -> Prop).
Context (op_spec : forall ev s s' h e el,
  addr_ok e -> holds_ok s -> after ev s = Some s' ->
  h !! e = Some el -> ref_count el = count s -> op ev h e = Ok (held count s' h e el)).
Lemma held_lookup s h e el :
  nobody s = false -> held count s h e el !! e = Some (set_ref_count (count s) el).
Proof. intros Hn. unfold held. rewrite Hn. apply lookup_insert_eq. Qed.
Lemma held_held s s' h e el el' :
  nobody s = false -> key el' = key el -> size el' = size el -> value el' = value el ->
  held count s' (held count s h e el) e el' = held count s' h e el.
Proof.
  intros Hn Hk Hs Hv. unfold held. rewrite Hn. case_match.
  - by rewrite delete_insert_eq.
  - rewrite insert_insert_eq. unfold set_ref_count. by rewrite Hk, Hs, Hv.
Qed.
(** Over a whole history the element stays allocated, with the count of its
    holders, until its last holder is gone, and is freed then. *)
Lemma run_events_held evs s s' h e el :
  addr_ok e -> holds_ok s -> readers s + Z.of_nat (length evs) < 2 ^ 62 ->
  history evs s = Some s' -> h !! e = Some el -> ref_count el = count s ->
  run_events op evs h e = Ok (held count s' h e el).
Proof.
  intros Ha. revert s h el. induction evs as [|ev evs IH]; intros s h el Hok Hlen Hh Hel Hc.
  - simpl in *. simplify_eq. unfold held. destruct Hok as (_ & _ & ->).
    rewrite insert_id; [done|]. rewrite Hel. destruct el. simpl in *. by rewrite <- Hc.
  - simpl in Hh. destruct (after ev s) as [s1|] eqn:Hs1; [|done]. simpl in Hh.
    simpl. rewrite (op_spec ev s s1 h e el) by done. simpl.
    destruct (after_ok _ _ _ Hok Hs1) as [Hr Hw].
    destruct (nobody s1) eqn:Hn.
    + destruct evs as [|ev' evs]; [by simplify_eq/=|].
      simpl in Hh. rewrite after_nobody in Hh by (done || lia). done.
    + simpl length in Hlen.
      rewrite (IH s1 _ (set_ref_count (count s1) el)).
      * by rewrite held_held.
      * split; [lia | done].
      * lia.
      * done.
      * by apply held_lookup.
      * done.
Qed.
End lifetime.

(** ** The two implementations *)
Definition addr_ok (e : Z) : Prop := 0 < e /\ e + sizeof_elem < 2 ^ 60.

Lemma elem_of_value_ptr e : addr_ok e -> elem_of_ptr (value_ptr e) = e.
Proof.
  intros [H1 H2]. unfold elem_of_ptr, value_ptr, sizeof_elem in *.
  rewrite u64_sub_l. replace (e + 64 - 64) with e by lia. apply u64_small. lia.
Qed.

Lemma mp_count_split s :
  mp_count s = b2z (in_table s && writing s) * DATA_READY_MASK
               + (b2z (in_table s) + b2z (writing s) + readers s).
Proof. unfold mp_count, b2z. destruct (in_table s && writing s); lia. Qed.

Lemma atomic_count_split s :
  atomic_count s = b2z (writing s) * DATA_READY_MASK + (b2z (in_table s) + readers s).
Proof. unfold atomic_count, b2z. destruct (writing s); lia. Qed.

Lemma nobody_count s :
  0 <= readers s -> nobody s = (b2z (in_table s) + b2z (writing s) + readers s =? 0).
Proof.
  intros. unfold nobody, b2z. destruct (in_table s), (writing s); simpl;
    symmetry; first [apply Z.eqb_neq; lia | reflexivity].
Qed.

Lemma mp_event_spec ev s s' h e el :
  holds_ok s -> after ev s = Some s' ->
  h !! e = Some el -> ref_count el = mp_count s ->
  mp_event ev h e = Ok (held mp_count s' h e el).
Proof.
  intros Hok Hs Hel Hc. destruct (after_ok _ _ _ Hok Hs) as [Hr' Hw'].
  destruct Hok as (Hr & Hw & Hn).
  assert (ev <> Found -> mp_release_value_ h e = Ok (held mp_count s' h e el)) as Hrel.
  { intros Hev. unfold mp_release_value_. rewrite Hel. simpl.
    rewrite store_or_free_spec, Hc, mp_count_split, clear_mark
      by (unfold b2z; repeat case_match; lia).
    assert (u64 (b2z (in_table s) + b2z (writing s) + readers s - 1)
            = b2z (in_table s') + b2z (writing s') + readers s'
            /\ (in_table s' && writing s' = false)) as [-> Hb].
    { clear -Hs Hev Hr Hw Hn. destruct s as [[] [] r], ev; simpl in *; try done;
        try (destruct (Z.ltb_spec 0 r); try done); simplify_eq/=;
        try (specialize (Hw eq_refl); lia);
        (split; [rewrite u64_small; lia | done]). }
    unfold held. rewrite nobody_count by lia. case_match; [done|].
    do 3 f_equal. unfold mp_count. rewrite Hb. lia. }
  destruct ev; try (apply Hrel; done). clear Hrel.
  simpl. rewrite Hel. simpl. unfold is_value_ready.
  rewrite Hc, mp_count_split, marked by (unfold b2z; repeat case_match; lia).
  simpl in Hs. destruct s as [[] [] r]; simpl in *; simplify_eq/=.
  unfold take_reference. rewrite Hel. simpl. rewrite Hc. unfold held, nobody, mp_count. simpl.
  rewrite u64_small; [do 3 f_equal; lia | lia].
Qed.

Lemma atomic_event_spec ev s s' h e el :
  addr_ok e -> holds_ok s -> after ev s = Some s' ->
  h !! e = Some el -> ref_count el = atomic_count s ->
  atomic_event ev h e = Ok (held atomic_count s' h e el).
Proof.
  intros Ha Hok Hs Hel Hc. destruct (after_ok _ _ _ Hok Hs) as [Hr' Hw'].
  destruct Hok as (Hr & Hw & Hn).
  assert (forall rc, rc = atomic_count s' -> store_or_free h e el rc =
            Ok (held atomic_count s' h e el)) as Hst.
  { intros rc ->. rewrite store_or_free_spec. unfold held.
    assert ((atomic_count s' =? 0) = nobody s') as ->; [|done].
    rewrite nobody_count by lia. unfold atomic_count, b2z.
    destruct (in_table s'), (writing s'); unfold DATA_READY_MASK;
      destruct (Z.eqb_spec (readers s') 0); try lia;
      first [apply Z.eqb_neq; lia | apply Z.eqb_eq; lia | idtac]. 
    all: symmetry; apply Z.eqb_neq; lia. }
  assert (atomic_release_value_ h e = store_or_free h e el (u64 (atomic_count s - 1))) as Hrel
    by (unfold atomic_release_value_; by rewrite Hel, <- Hc).
  destruct ev; simpl.
  - rewrite Hrel. apply Hst. destruct s as [[] [] r]; simplify_eq/=;
      rewrite u64_small; unfold atomic_count, DATA_READY_MASK; simpl; lia.
  - unfold atomic_mark_ready. rewrite elem_of_value_ptr, Hel by done. simpl.
    apply Hst. rewrite Hc, atomic_count_split, clear_mark
      by (unfold b2z; repeat case_match; lia).
    destruct s as [t [] r]; simplify_eq/=. unfold atomic_count. simpl. lia.
  - rewrite Hel. simpl. unfold is_value_ready.
    rewrite Hc, atomic_count_split, marked by (unfold b2z; repeat case_match; lia).
    destruct s as [[] [] r]; simplify_eq/=. unfold take_reference. rewrite Hel. simpl.
    rewrite Hc. unfold held, nobody, atomic_count. simpl.
    rewrite u64_small; [do 3 f_equal; lia | lia].
  - unfold atomic_release_value. rewrite elem_of_value_ptr by done. rewrite Hrel.
    apply Hst. destruct s as [t w r]; simpl in *. case_match; simplify_eq/=.
    destruct w; [specialize (Hw eq_refl); lia|].
    rewrite u64_small; unfold atomic_count, b2z; simpl; try case_match; lia.
Qed.

(** ** The interface of reference counting

    What the two implementations have in common: a count that stands for the
    holders, an operation for every event, a release that is the operation of
    [Unlinked], and a mark that tells whether the writer is done. *)
Class RefCounted (release : heap -> Z -> result heap) `{!Releases release} := {
  count : holds -> Z;
  first_count : Z;
  event_op : event -> heap -> Z -> result heap;
  event_op_spec : forall ev s s' h e el,
    addr_ok e -> holds_ok s -> after ev s = Some s' -> h !! e = Some el ->
    ref_count el = count s -> event_op ev h e = Ok (held count s' h e el);
  event_op_unlinked : forall h e, event_op Unlinked h e = release h e;
  event_op_found : forall h e, event_op Found h e =
    (el ← deref (h !! e); _ ← check (is_value_ready el) AssertFailed; take_reference h e);
  count_ready : forall s el, 0 <= readers s < 2 ^ 62 -> in_table s = true ->
    ref_count el = count s -> is_value_ready el = negb (writing s);
  count_inserted : count inserted = first_count
}.
Arguments count : simpl never.
Arguments first_count : simpl never.
Arguments event_op : simpl never.

#[export] Program Instance mp_counted : RefCounted mp_release_value_ := {
  count := mp_count;
  first_count := Z.lor DATA_READY_MASK 2;
  event_op := mp_event
}.
Next Obligation. intros. by eapply mp_event_spec. Qed.
Next Obligation. done. Qed.
Next Obligation. done. Qed.
Next Obligation.
  intros s el Hr Ht Hc. unfold is_value_ready. rewrite Hc, mp_count_split, Ht. apply marked.
  unfold b2z. repeat case_match; lia.
Qed.
Next Obligation. done. Qed.

#[export] Program Instance atomic_counted : RefCounted atomic_release_value_ := {
  count := atomic_count;
  first_count := Z.lor DATA_READY_MASK 1;
  event_op := atomic_event
}.
Next Obligation. intros. by eapply atomic_event_spec. Qed.
Next Obligation. done. Qed.
Next Obligation. done. Qed.
Next Obligation.
  intros s el Hr Ht Hc. unfold is_value_ready. rewrite Hc, atomic_count_split. apply marked.
  unfold b2z. repeat case_match; lia.
Qed.
Next Obligation. done. Qed.

(** C14: message passing. From the count [DATA_READY_MASK | 2] that the server
    stores after an insertion, along every history of unlinking, marking
    ready, lookups that find the value and releases, each operation is defined,
    the element stays allocated with exactly the count of its holders, and it is
    freed by the release of the last holder and by nothing else. *)
Theorem mp_lifetime evs s h e el :
  history evs inserted = Some s -> Z.of_nat (length evs) < 2 ^ 62 ->
  h !! e = Some el -> ref_count el = Z.lor DATA_READY_MASK 2 ->
  run_events mp_event evs h e =
    Ok (if nobody s then delete e h else <[e := set_ref_count (mp_count s) el]> h).
Proof.
  intros Hh Hl Hel Hc.
  apply (run_events_held mp_count mp_event (fun _ => True)) with (s := inserted);
    try done.
  intros. by apply mp_event_spec with (s := s0).
Qed.

(** C15: locking. The same for the count [DATA_READY_MASK | 1] of
    [locking_hash_insert] and the atomic operations, where the mark itself is
    the writer's hold. *)
Theorem atomic_lifetime evs s h e el :
  history evs inserted = Some s -> Z.of_nat (length evs) < 2 ^ 62 -> addr_ok e ->
  h !! e = Some el -> ref_count el = Z.lor DATA_READY_MASK 1 ->
  run_events atomic_event evs h e =
    Ok (if nobody s then delete e h else <[e := set_ref_count (atomic_count s) el]> h).
Proof.
  intros Hh Hl Ha Hel Hc.
  apply (run_events_held atomic_count atomic_event addr_ok) with (s := inserted);
    try done.
  intros. by apply atomic_event_spec with (s := s0).
Qed.

(** Evicted while its writer is still at work, then marked ready: freed. *)
Definition fresh_elem (rc : Z) : elem := Elem 7 rc 128 [].

Lemma mp_lifetime_witness :
  run_events mp_event [Unlinked; MarkedReady] {[ 4096 := fresh_elem (Z.lor DATA_READY_MASK 2) ]} 4096
  = Ok ∅.
Proof.
  rewrite (mp_lifetime _ (Holds false false 0) _ _ (fresh_elem (Z.lor DATA_READY_MASK 2)));
    [reflexivity | reflexivity | reflexivity | reflexivity | reflexivity].
Defined.

(** Marked ready, found twice, evicted, released once: one reader is left. *)
Lemma atomic_lifetime_witness :
  run_events atomic_event [MarkedReady; Found; Found; Unlinked; Dropped]
    {[ 4096 := fresh_elem (Z.lor DATA_READY_MASK 1) ]} 4096
  = Ok {[ 4096 := fresh_elem 1 ]}.
Proof.
  rewrite (atomic_lifetime _ (Holds false false 1) _ _ (fresh_elem (Z.lor DATA_READY_MASK 1)));
    [reflexivity | reflexivity | reflexivity | split; reflexivity | reflexivity | reflexivity].
Defined.
