(* ===== verification/Partition.v ===== *)
(** * Partition: one hash table with its LRU list ([partition.h], [partition.c])

    A partition is an array of buckets, each a tail queue of elements, the
    least-recently-used list through all of them, and the bytes accounted to
    them. The tail queues of [sys/queue.h] are lists of element addresses;
    removing what is not a member is undefined, as it is there. *)
From stdpp Require Import base list gmap.
From Stdlib Require Import ZArith Lia.
From S2P Require Import Prelude Protocol ALock Value.

Local Open Scope Z_scope.

Definition EVICT_LRU : Z := 1.
Definition EVICT_RANDOM : Z := 2.

Definition BUCKET_LOAD : Z := 2 * 128.

(** [struct partition]. *)
Record partition := Partition {
  nservers : Z;
  nhash : Z;
  max_size : Z;
  psize : Z;
  evictalgo : Z;
  table : list (list Z);
  bucketlocks : list alock;
  lru : list Z;
  nhits : Z;
  nlookups : Z;
  ninserts : Z;
  busyclock : Z;
  idleclock : Z;
  plock : alock
}.

(** What the assignments to single fields do. *)
Definition set_size (s : Z) (p : partition) : partition :=
  Partition (nservers p) (nhash p) (max_size p) s (evictalgo p) (table p) (bucketlocks p)
    (lru p) (nhits p) (nlookups p) (ninserts p) (busyclock p) (idleclock p) (plock p).

Definition set_table (t : list (list Z)) (p : partition) : partition :=
  Partition (nservers p) (nhash p) (max_size p) (psize p) (evictalgo p) t (bucketlocks p)
    (lru p) (nhits p) (nlookups p) (ninserts p) (busyclock p) (idleclock p) (plock p).

Definition set_lru (l : list Z) (p : partition) : partition :=
  Partition (nservers p) (nhash p) (max_size p) (psize p) (evictalgo p) (table p)
    (bucketlocks p) l (nhits p) (nlookups p) (ninserts p) (busyclock p) (idleclock p) (plock p).

Definition set_stats (hits lookups inserts : Z) (p : partition) : partition :=
  Partition (nservers p) (nhash p) (max_size p) (psize p) (evictalgo p) (table p)
    (bucketlocks p) (lru p) hits lookups inserts (busyclock p) (idleclock p) (plock p).

(** ** The machine the partition runs on

    [memalign k h align n] is the [k]-th call of the allocator: it may fail,
    and when it succeeds it gives an address that is not in use, and the block
    there with whatever it held: at least [n] bytes, of which the header of the
    element takes the first 64 and the rest are in [value]. [read_tsc k] is the
    [k]-th reading of the time stamp counter. [tick] numbers the calls. *)
Class Machine := {
  memalign : nat -> heap -> Z -> Z -> option (Z * elem);
  read_tsc : nat -> Z;
  memalign_fresh : forall k h align n e raw,
    memalign k h align n = Some (e, raw) -> h !! e = None /\ addr_ok e;
  memalign_gives : forall k h align n e raw,
    memalign k h align n = Some (e, raw) -> n <= sizeof_elem + Z.of_nat (length (value raw))
}.

Record mem := Mem { hp : heap; tick : nat }.

(** ** [init_hash_partition]

    [ceil((double)max(10.0, max_size / BUCKET_LOAD) / nservers) * nservers - 1]:
    [max] takes its arguments as [int]; the quotient of two [int]s is exact
    enough in a [double] for [ceil]; the result is converted to [int]. *)
Definition int_max (a b : Z) : Z := if b <? a then a else b.

Definition ceil_div (a b : Z) : Z := - ((- a) / b).

Definition bucket_count (max_size nservers : Z) : Z :=
  ceil_div (int_max 10 (i32 (max_size / BUCKET_LOAD))) nservers * nservers - 1.

Fixpoint init_locks (raw : list alock) (n : Z) : result (list alock) :=
  match raw with
  | [] => mret []
  | l :: raw => l' ← anderson_init l n; ls ← init_locks raw n; mret (l' :: ls)
  end.

(** [p] is the structure as it lay in memory and [rawlocks] the memory of the
    bucket locks. A conversion of a [double] outside [int] is undefined. *)
Definition init_hash_partition (p : partition) (rawlocks : list alock)
    (max_size nservers evictalgo : Z) : result partition :=
  _ ← check (0 <? nservers) Undefined;
  let n := bucket_count max_size nservers in
  _ ← check (n <? 2 ^ 31) Undefined;
  l ← anderson_init (plock p) nservers;
  _ ← check (Z.of_nat (length rawlocks) =? n) Undefined;
  ls ← init_locks rawlocks nservers;
  mret (Partition nservers n max_size 0 evictalgo (replicate (Z.to_nat n) []) ls
          (if evictalgo =? EVICT_LRU then [] else lru p) 0 0 0 0 0 l).

(** ** Operations *)
Definition hash_get_bucket (p : partition) (key : Z) : Z := i32 (key mod u64 (nhash p)).

(** [TAILQ_REMOVE]. *)
Definition tailq_remove (e : Z) (l : list Z) : result (list Z) := deref (list_remove e l).

Definition hash_remove (h : heap) (p : partition) (e : Z) : result partition :=
  el ← deref (h !! e);
  let b := hash_get_bucket p (key el) in
  eh ← aget (table p) b;
  let s := u64 (psize p - size el) in
  _ ← check (0 <=? s) AssertFailed;
  eh' ← tailq_remove e eh;
  t ← aset (table p) b eh';
  l ← (if evictalgo p =? EVICT_LRU then tailq_remove e (lru p) else mret (lru p));
  mret (set_lru l (set_table t (set_size s p))).

(** [lru(p, e)]: move [e] to the head of the list. *)
Definition lru_touch (p : partition) (e : Z) : result partition :=
  l ← tailq_remove e (lru p);
  mret (set_lru (e :: l) p).

(** The walk along a bucket. *)
Fixpoint chain_find (h : heap) (chain : list Z) (k : Z) : result (option Z) :=
  match chain with
  | [] => mret None
  | e :: chain => el ← deref (h !! e); if key el =? k then mret (Some e) else chain_find h chain k
  end.

Definition hash_lookup (h : heap) (p : partition) (k : Z) : result (option Z * partition) :=
  eh ← aget (table p) (hash_get_bucket p k);
  r ← chain_find h eh k;
  match r with
  | None => mret (None, p)
  | Some e =>
      p' ← (if evictalgo p =? EVICT_LRU then lru_touch p e else mret p);
      mret (Some e, p')
  end.

(** [((sizeof(struct elem) + size) + (CACHELINE - 1)) & ~(CACHELINE - 1)], the
    [int] size converted to [size_t]. *)
Definition elem_size (sz : Z) : Z :=
  Z.land (u64 (u64 (sizeof_elem + u64 sz) + (CACHELINE - 1))) (u64 (Z.lnot (CACHELINE - 1))).

Section machine.
Context `{Machine}.
(** [while (!l) { i = read_tsc() % nhash; l = TAILQ_FIRST(...) }], at most
    [spins] rounds of it. *)
Fixpoint pick_random (spins : nat) (k : nat) (p : partition) : result (Z * nat) :=
  match spins with
  | O => Fault Blocked
  | S spins =>
      ch ← aget (table p) (i32 (u64 (read_tsc k) mod u64 (nhash p)));
      match ch with
      | e :: _ => mret (e, S k)
      | [] => pick_random spins (S k) p
      end
  end.
(** The victim of one round of the eviction loop. *)
Definition pick_victim (spins : nat) (k : nat) (p : partition) : result (Z * nat) :=
  if evictalgo p =? EVICT_LRU then e ← deref (last (lru p)); mret (e, k)
  else if evictalgo p =? EVICT_RANDOM then pick_random spins k p
  else Fault AssertFailed.
(** The rest of a round that did not allocate: the assertion, the victim,
    [hash_remove] and [release]. *)
Definition evict_one (release : heap -> Z -> result heap) (spins : nat)
    (h : heap) (k : nat) (p : partition) (esize : Z) : result (heap * nat * partition) :=
  _ ← check (esize <? psize p) AssertFailed;
  '(e, k') ← pick_victim spins k p;
  p' ← hash_remove h p e;
  h' ← release h e;
  mret (h', k', p').
(** The [while (1)] of [hash_insert]: allocate when the size permits, else
    evict. [fuel] bounds the rounds; [sz] is the [size] argument. *)
Fixpoint make_room (release : heap -> Z -> result heap) (fuel spins : nat)
    (m : mem) (p : partition) (sz esize : Z) : result (Z * elem * mem * partition) :=
  match fuel with
  | O => Fault Blocked
  | S fuel =>
      let fits := psize p <=? max_size p in
      let k := if fits then S (tick m) else tick m in
      match (if fits then memalign (tick m) (hp m) (u64 (sizeof_elem + u64 sz)) CACHELINE
             else None) with
      | Some (e, raw) => mret (e, raw, Mem (hp m) k, p)
      | None =>
          '(h', k', p') ← evict_one release spins (hp m) k p esize;
          make_room release fuel spins (Mem h' k') p' sz esize
      end
  end.
(** [hash_insert]. One round of the loop evicts one element, so one more
    round than there are elements is all the fuel it can use. *)
Definition hash_insert (release : heap -> Z -> result heap) (spins : nat)
    (m : mem) (p : partition) (k sz : Z) : result (Z * mem * partition) :=
  let b := hash_get_bucket p k in
  '(old, p) ← hash_lookup (hp m) p k;
  '(m, p) ← match old with
            | Some e => p' ← hash_remove (hp m) p e;
                        h' ← release (hp m) e; mret (Mem h' (tick m), p')
            | None => mret (m, p)
            end;
  let esize := elem_size sz in
  let p := set_size (u64 (psize p + esize)) p in
  '(e, raw, m, p) ← make_room release (S (length (concat (table p)))) spins m p sz esize;
  let el := Elem k (ref_count raw) esize (value raw) in
  eh ← aget (table p) b;
  t ← aset (table p) b (eh ++ [e]);
  let p := set_table t p in
  let p := if evictalgo p =? EVICT_LRU then set_lru (e :: lru p) p else p in
  mret (e, Mem (<[e := el]> (hp m)) (tick m), p).
End machine.

Arguments hash_remove : simpl never.
Arguments hash_lookup : simpl never.
Arguments evict_one : simpl never.
Arguments make_room : simpl never.
Arguments hash_insert : simpl never.
Arguments elem_size : simpl never.

(** One round of the loop. *)
Lemma make_room_S `{Machine} release fuel spins m p sz esize :
  make_room release (S fuel) spins m p sz esize =
    let fits := psize p <=? max_size p in
    let k := if fits then S (tick m) else tick m in
    match (if fits then memalign (tick m) (hp m) (u64 (sizeof_elem + u64 sz)) CACHELINE
           else None) with
    | Some (e, raw) => mret (e, raw, Mem (hp m) k, p)
    | None =>
        '(h', k', p') ← evict_one release spins (hp m) k p esize;
        make_room release fuel spins (Mem h' k') p' sz esize
    end.
Proof. reflexivity. Qed.

(** [destroy_hash_partition]: release every element, bucket by bucket, and
    check that the bytes add up. *)
Fixpoint destroy_chain (release : heap -> Z -> result heap) (h : heap) (chain : list Z) (dbg : Z)
    : result (heap * Z) :=
  match chain with
  | [] => mret (h, dbg)
  | e :: chain =>
      el ← deref (h !! e);
      h' ← release h e;
      destroy_chain release h' chain (u64 (dbg + size el))
  end.

Fixpoint destroy_table (release : heap -> Z -> result heap) (h : heap) (t : list (list Z)) (dbg : Z)
    : result (heap * Z) :=
  match t with
  | [] => mret (h, dbg)
  | chain :: t => '(h', d) ← destroy_chain release h chain dbg; destroy_table release h' t d
  end.

Definition destroy_hash_partition (release : heap -> Z -> result heap) (h : heap) (p : partition)
    : result heap :=
  '(h', dbg) ← destroy_table release h (table p) 0;
  _ ← check (psize p =? dbg) AssertFailed;
  mret h'.
