(* ===== verification/PartitionInv.v ===== *)
(** * PartitionInv: the invariant of a partition and its preservation

    What a well-formed partition is, and that [hash_lookup], [hash_remove],
    [hash_insert] and [destroy_hash_partition] are defined on one and leave
    one, for either eviction policy. *)
From stdpp Require Import base list gmap.
From Stdlib Require Import ZArith Lia.
From S2P Require Import Prelude Protocol ALock Value Partition.

Local Open Scope Z_scope.

Definition members (p : partition) : list Z := concat (table p).

(** The bytes an element is accounted for. *)
Definition esz (h : heap) (e : Z) : Z :=
  match h !! e with Some el => size el | None => 0 end.

Definition has_key (h : heap) (e k : Z) : Prop :=
  exists el, h !! e = Some el /\ key el = k.

(** [part_ok h p extra]: [p] is well formed in heap [h], with [extra] bytes
    accounted for that no element holds yet. *)
Record part_ok (h : heap) (p : partition) (extra : Z) : Prop := {
  po_nhash : 0 < nhash p < 2 ^ 31;
  po_table : length (table p) = Z.to_nat (nhash p);
  po_nodup : NoDup (members p);
  po_elem : forall i ch e, table p !! i = Some ch -> e ∈ ch ->
    exists el, h !! e = Some el /\ key el mod nhash p = Z.of_nat i /\ sizeof_elem <= size el;
  po_keys : forall e1 e2 k, e1 ∈ members p -> e2 ∈ members p ->
    has_key h e1 k -> has_key h e2 k -> e1 = e2;
  po_lru : evictalgo p = EVICT_LRU -> lru p ≡ₚ members p;
  po_size : psize p = zsum (esz h) (members p) + extra;
  po_bound : 0 <= extra /\ zsum (esz h) (members p) + extra < 2 ^ 64
}.

(** Only the size, the buckets and the LRU list of [p] changed. *)
Definition frame (p p' : partition) : Prop :=
  p' = set_lru (lru p') (set_table (table p') (set_size (psize p') p)).

Lemma frame_refl p : frame p p.
Proof. by destruct p. Qed.

Lemma frame_trans p1 p2 p3 : frame p1 p2 -> frame p2 p3 -> frame p1 p3.
Proof.
  destruct p1, p2, p3. unfold frame, set_lru, set_table, set_size. cbn.
  intros [=] [=]. subst. reflexivity.
Qed.

#[export] Instance frame_preorder : PreOrder frame.
Proof. split; [exact frame_refl | exact frame_trans]. Qed.

Lemma frame_fields p p' :
  frame p p' -> nhash p' = nhash p /\ max_size p' = max_size p /\ evictalgo p' = evictalgo p.
Proof.
  destruct p, p'. unfold frame, set_lru, set_table, set_size. cbn. intros [=]. by subst.
Qed.

Lemma bucket_mod p k : 0 < nhash p < 2 ^ 31 -> hash_get_bucket p k = k mod nhash p.
Proof.
  intros Hn. unfold hash_get_bucket. rewrite u64_small by lia. apply i32_small.
  pose proof (Z.mod_pos_bound k (nhash p)). lia.
Qed.

(** The heap may change wherever no element of [p] lies, and in the fields the
    invariant does not read. *)
Definition same_shape (h h' : heap) (e : Z) : Prop :=
  forall el, h !! e = Some el -> exists el', h' !! e = Some el' /\
    key el' = key el /\ size el' = size el.

Lemma same_shape_eq h h' e : h' !! e = h !! e -> same_shape h h' e.
Proof. intros Heq el Hel. exists el. by rewrite Heq. Qed.

Create HintDb shape.
#[export] Hint Resolve same_shape_eq : shape.

Section invariant.
Implicit Types (h : heap) (p : partition).
Lemma member_elem h p x e :
  part_ok h p x -> e ∈ members p ->
  exists el i ch, h !! e = Some el /\ table p !! i = Some ch /\ e ∈ ch /\
    key el mod nhash p = Z.of_nat i /\ sizeof_elem <= size el.
Proof.
  intros Hok He. apply elem_of_concat in He as (i & ch & Hi & He).
  destruct (po_elem _ _ _ Hok i ch e Hi He) as (el & ? & ? & ?). eauto 10.
Qed.
Lemma member_bucket h p x e k :
  part_ok h p x -> e ∈ members p -> has_key h e k ->
  exists ch, table p !! Z.to_nat (k mod nhash p) = Some ch /\ e ∈ ch.
Proof.
  intros Hok He (el & Hel & <-).
  destruct (member_elem _ _ _ _ Hok He) as (el' & i & ch & Hel' & Hi & Hin & Hk & _).
  simplify_eq. exists ch. rewrite Hk, Nat2Z.id. done.
Qed.
Lemma bucket_exists h p x k :
  part_ok h p x -> exists ch, aget (table p) (hash_get_bucket p k) = Ok ch /\
    table p !! Z.to_nat (k mod nhash p) = Some ch.
Proof.
  intros []. rewrite bucket_mod by done. pose proof (Z.mod_pos_bound k (nhash p)).
  destruct (aget_in (table p) (k mod nhash p)) as [ch Hch]; [lia|].
  exists ch. split; [done|]. by apply aget_Ok in Hch as [_ ?].
Qed.
Lemma part_ok_heap h h' p x :
  (forall e, e ∈ members p -> same_shape h h' e) -> part_ok h p x -> part_ok h' p x.
Proof.
  intros Hs Hok.
  assert (forall e, e ∈ members p -> esz h' e = esz h e) as Hsz.
  { intros e He. destruct (member_elem _ _ _ _ Hok He) as (el & _ & _ & Hel & _).
    destruct (Hs e He el Hel) as (el' & Hel' & _ & Hz). unfold esz. by rewrite Hel, Hel'. }
  assert (forall e k, e ∈ members p -> has_key h' e k -> has_key h e k) as Hky.
  { intros e k He (el' & Hel' & Hk).
    destruct (member_elem _ _ _ _ Hok He) as (el & _ & _ & Hel & _).
    destruct (Hs e He el Hel) as (el2 & Hel2 & Hk2 & _). simplify_eq. exists el. auto. }
  assert (zsum (esz h') (members p) = zsum (esz h) (members p)) as Hsum by (by apply zsum_ext).
  destruct Hok. split; try done.
  - intros i ch e Hi He. destruct (po_elem0 i ch e Hi He) as (el & Hel & Hk & Hz).
    destruct (Hs e) with (el := el) as (el' & Hel' & Hk' & Hz'); [|done|].
    + apply elem_of_concat. eauto.
    + exists el'. by rewrite Hk', Hz'.
  - intros e1 e2 k H1 H2 Hk1 Hk2. eauto.
  - by rewrite Hsum.
  - by rewrite Hsum.
Qed.
(** Changing what the invariant does not read. *)
Lemma part_ok_lru h p x l :
  part_ok h p x -> (evictalgo p = EVICT_LRU -> l ≡ₚ lru p) -> part_ok h (set_lru l p) x.
Proof.
  intros [] Hl. split; try done. simpl. intros He. etrans; [exact (Hl He) | auto].
Qed.
Lemma esz_pos h p x e : part_ok h p x -> e ∈ members p -> sizeof_elem <= esz h e.
Proof.
  intros Hok He. destruct (member_elem _ _ _ _ Hok He) as (el & i & ch & Hel & _ & _ & _ & Hz).
  unfold esz. by rewrite Hel.
Qed.
Lemma zsum_members_pos h p x : part_ok h p x -> 0 <= zsum (esz h) (members p).
Proof.
  intros Hok. apply zsum_nonneg. intros e He. pose proof (esz_pos _ _ _ _ Hok He).
  unfold sizeof_elem in *. lia.
Qed.
(** ** Unlinking an element *)
Lemma hash_remove_ok h p x e :
  part_ok h p x -> e ∈ members p ->
  exists p', hash_remove h p e = Ok p' /\ part_ok h p' x /\ frame p p' /\
    members p ≡ₚ e :: members p' /\ psize p' = psize p - esz h e /\
    (if evictalgo p =? EVICT_LRU then list_remove e (lru p) = Some (lru p')
     else lru p' = lru p).
Proof.
  intros Hok He. unfold hash_remove.
  destruct (member_elem _ _ _ _ Hok He) as (el & i & ch & Hel & Hi & Hin & Hk & Hz).
  rewrite Hel. simpl. pose proof (po_nhash _ _ _ Hok) as Hn.
  rewrite bucket_mod, Hk by done.
  pose proof (lookup_lt_Some _ _ _ Hi) as Hlt.
  assert (aget (table p) (Z.of_nat i) = Ok ch) as -> by (apply aget_Ok; rewrite Nat2Z.id; split; [lia|done]).
  simpl. destruct (list_remove_member e ch Hin) as [ch' Hch'].
  unfold tailq_remove. rewrite Hch'. pose proof (list_remove_perm _ _ _ Hch') as Hperm.
  rewrite (proj2 (Z.leb_le _ _)) by apply u64_range. simpl.
  rewrite aset_in by lia. rewrite Nat2Z.id. simpl.
  pose proof (concat_out (table p) i ch ch' e Hi Hperm) as Hmem.
  assert (zsum (esz h) (members p) = size el + zsum (esz h) (concat (<[i:=ch']> (table p)))) as Hsum.
  { unfold members. rewrite (zsum_perm _ _ _ Hmem), zsum_cons. unfold esz at 1. by rewrite Hel. }
  assert (esz h e = size el) as Hesz by (unfold esz; by rewrite Hel).
  assert (exists l, (if evictalgo p =? EVICT_LRU then deref (list_remove e (lru p)) else mret (lru p)) = Ok l
    /\ (if evictalgo p =? EVICT_LRU then list_remove e (lru p) = Some l else l = lru p)) as (l & -> & Hl).
  { destruct (Z.eqb_spec (evictalgo p) EVICT_LRU) as [Hev|Hev]; [|eauto].
    destruct (list_remove_member e (lru p)) as [l Hl]; [|exists l; by rewrite Hl].
    by rewrite (po_lru _ _ _ Hok Hev). }
  simpl. eexists. split; [done|].
  assert (0 <= zsum (esz h) (concat (<[i:=ch']> (table p)))) as Hnn.
  { apply zsum_nonneg. intros a Ha. assert (a ∈ members p) as Ha'
      by (unfold members; rewrite Hmem; by right).
    pose proof (esz_pos _ _ _ _ Hok Ha'). unfold sizeof_elem in *. lia. }
  assert (u64 (psize p - size el) = psize p - size el) as Hu.
  { pose proof (po_size _ _ _ Hok). pose proof (po_bound _ _ _ Hok).
    apply u64_small. unfold sizeof_elem in *. lia. }
  assert (forall a, a ∈ concat (<[i:=ch']> (table p)) -> a ∈ members p) as Hsub
    by (intros a Ha; unfold members; rewrite Hmem; by right).
  split_and!; try done; [|simpl; lia].
  destruct Hok. split; simpl; try done.
  - by rewrite length_insert.
  - unfold members in *. rewrite Hmem in po_nodup0. by apply NoDup_cons in po_nodup0 as [_ ?].
  - intros j c a Hj Ha. apply list_lookup_insert_Some in Hj as [(-> & <- & _)|[Hne Hj]]; [|eauto].
    apply (po_elem0 j ch); [done|]. rewrite Hperm. by right.
  - intros e1 e2 k H1 H2. apply po_keys0; by apply Hsub.
  - intros Hev. rewrite Hev in Hl. simpl in Hl. apply list_remove_perm in Hl.
    specialize (po_lru0 Hev). unfold members in *. simpl. rewrite Hl, Hmem in po_lru0.
    by apply Permutation_cons_inv in po_lru0.
  - unfold members at 1 in po_size0. unfold members. simpl. unfold members in Hsum. lia.
  - unfold members at 1 in po_bound0. unfold members in *. simpl. unfold sizeof_elem in *. lia.
Qed.
(** What the heap is when the elements that left the table were released
    once and nothing else changed. *)
Definition released release `{!Releases release} (h : heap) (p : partition)
    (h' : heap) (p' : partition) : Prop :=
  forall a, h' !! a = if decide (a ∈ members p /\ a ∉ members p')
                      then h !! a ≫= after_release else h !! a.
Lemma not_member_cons (l l' : list Z) e a : l ≡ₚ e :: l' -> a ∉ l <-> a <> e /\ a ∉ l'.
Proof. intros ->. apply not_elem_of_cons. Qed.
Lemma released_refl release `{!Releases release} h p p' :
  members p' = members p -> released release h p h p'.
Proof. intros Hm a. rewrite decide_False; [done|]. rewrite Hm. tauto. Qed.
Lemma released_trans release `{!Releases release} h1 p1 h2 p2 h3 p3 :
  released release h1 p1 h2 p2 -> released release h2 p2 h3 p3 ->
  (forall a, a ∈ members p2 -> a ∈ members p1) -> (forall a, a ∈ members p3 -> a ∈ members p2) ->
  released release h1 p1 h3 p3.
Proof.
  intros H12 H23 Hs1 Hs2 a. rewrite H23. specialize (H12 a).
  repeat (case_decide; try tauto); rewrite ?H12; try tauto; try done;
    specialize (Hs1 a); specialize (Hs2 a); tauto.
Qed.
(** ... and releasing it. *)
Lemma unlink_ok release `{!Releases release} h p x e :
  part_ok h p x -> e ∈ members p ->
  exists p' h', hash_remove h p e = Ok p' /\ release h e = Ok h' /\
    part_ok h' p' x /\ frame p p' /\ members p ≡ₚ e :: members p' /\
    psize p' = psize p - esz h e /\ (forall a, a <> e -> h' !! a = h !! a) /\
    released release h p h' p' /\
    (if evictalgo p =? EVICT_LRU then list_remove e (lru p) = Some (lru p')
     else lru p' = lru p).
Proof.
  intros Hok He. destruct (hash_remove_ok _ _ _ _ Hok He) as (p' & Hr & Hok' & Hf & Hm & Hs & Hl).
  destruct (member_elem _ _ _ _ Hok He) as (el & _ & _ & Hel & _).
  destruct (release_total release h e) as [h' Hh']; [eauto|].
  exists p', h'. split_and!; try done.
  - apply (part_ok_heap h); [|done]. intros a Ha. apply same_shape_eq.
    eapply release_other; [done | done | eauto |]. intros ->.
    pose proof (po_nodup _ _ _ Hok) as Hnd. rewrite Hm in Hnd. by apply NoDup_cons in Hnd as [? _].
  - intros a Ha. eapply release_other; eauto.
  - intros a. pose proof (po_nodup _ _ _ Hok) as Hnd. rewrite Hm in Hnd.
    apply NoDup_cons in Hnd as [Hnot _]. destruct (decide (a = e)) as [->|Hne].
    + rewrite decide_True by done.
      rewrite (release_spec h e el Hel) in Hh'. injection Hh' as <-.
      by rewrite lookup_partial_alter_eq, Hel.
    + rewrite decide_False by (rewrite Hm; set_solver). eapply release_other; eauto.
Qed.
(** ** Looking a key up *)
Lemma chain_find_ok h ch k :
  (forall e, e ∈ ch -> is_Some (h !! e)) ->
  exists r, chain_find h ch k = Ok r /\
    match r with
    | Some e => e ∈ ch /\ has_key h e k
    | None => forall e, e ∈ ch -> ~ has_key h e k
    end.
Proof.
  induction ch as [|e ch IH]; intros Hal; simpl; [exists None; set_solver|].
  destruct (Hal e) as [el Hel]; [by left|]. rewrite Hel. simpl.
  destruct (Z.eqb_spec (key el) k) as [Hk|Hk].
  - exists (Some e). split; [done|]. split; [by left | by exists el].
  - destruct IH as (r & -> & Hr); [intros; apply Hal; by right|].
    exists r. split; [done|]. destruct r as [a|].
    + destruct Hr. split; [by right | done].
    + intros a [->|Ha]%elem_of_cons; [|by apply Hr]. intros (el' & ? & ?). congruence.
Qed.
(** What a lookup answers, and what it does to the LRU list. *)
Definition found_in (h : heap) (p : partition) (k : Z) (r : option Z) : Prop :=
  match r with
  | Some e => e ∈ members p /\ has_key h e k
  | None => forall e, e ∈ members p -> ~ has_key h e k
  end.
Definition touched (p p' : partition) (r : option Z) : Prop :=
  match r with
  | Some e => if evictalgo p =? EVICT_LRU
              then lru p' = e :: filter (fun a => a <> e) (lru p) else lru p' = lru p
  | None => p' = p
  end.
Lemma hash_lookup_ok h p x k :
  part_ok h p x ->
  exists r p', hash_lookup h p k = Ok (r, p') /\ found_in h p k r /\ touched p p' r /\
    frame p p' /\ table p' = table p /\ psize p' = psize p /\ part_ok h p' x.
Proof.
  intros Hok. unfold hash_lookup.
  destruct (bucket_exists _ _ _ k Hok) as (ch & Hget & Hch). rewrite Hget. simpl.
  destruct (chain_find_ok h ch k) as (r & Hr & Hfound).
  { intros e He. destruct (po_elem _ _ _ Hok _ _ _ Hch He) as (el & ? & _). eauto. }
  rewrite Hr. simpl. destruct r as [e|].
  - destruct Hfound as [He Hk].
    assert (e ∈ members p) as Hm by (apply elem_of_concat; eauto).
    unfold touched. destruct (Z.eqb_spec (evictalgo p) EVICT_LRU) as [Hev|Hev].
    + pose proof (po_lru _ _ _ Hok Hev) as Hperm.
      destruct (list_remove_member e (lru p)) as [l Hl]; [by rewrite Hperm|].
      assert (NoDup (lru p)) as Hnd by (rewrite Hperm; apply (po_nodup _ _ _ Hok)).
      unfold lru_touch, tailq_remove. rewrite Hl. simpl.
      exists (Some e), (set_lru (e :: l) p). split_and!; try done.
      * simpl. f_equal. by apply list_remove_filter.
      * apply part_ok_lru; [done|]. intros _. by rewrite (list_remove_perm _ _ _ Hl).
    + exists (Some e), p. split_and!; done.
  - exists None, p. split_and!; try done.
    intros e He Hk. destruct (member_bucket _ _ _ _ _ Hok He Hk) as (c & Hc & Hin).
    simplify_eq. by apply (Hfound e).
Qed.
Lemma found_unique h p x k e :
  part_ok h p x -> e ∈ members p -> has_key h e k ->
  forall r, found_in h p k r -> r = Some e.
Proof.
  intros Hok He Hk [a|] Hr; simpl in Hr.
  - destruct Hr as [Ha Hka]. f_equal. by eapply (po_keys _ _ _ Hok).
  - by destruct (Hr e).
Qed.
End invariant.

(** ** Insertion *)
Section insert.
Context `{M : Machine} (release : heap -> Z -> result heap) `{!Releases release}.
Implicit Types (h : heap) (p : partition).
(** A size the arithmetic of [hash_insert] can hold. *)
Definition size_fits (p : partition) (esize : Z) : Prop :=
  sizeof_elem <= esize /\ max_size p + esize < 2 ^ 64.
Definition policy_ok (p : partition) : Prop :=
  evictalgo p = EVICT_LRU \/ evictalgo p = EVICT_RANDOM.
Lemma pick_random_ok spins k h p x :
  part_ok h p x ->
  match pick_random spins k p with
  | Ok (e, _) => e ∈ members p
  | Fault f => f = Blocked
  end.
Proof.
  intros Hok. revert k. induction spins as [|spins IH]; intros k; simpl; [done|].
  destruct (bucket_exists _ _ _ (u64 (read_tsc k)) Hok) as (ch & Hget & Hch).
  unfold hash_get_bucket in Hget. rewrite Hget. simpl.
  destruct ch as [|e ch]; [apply IH|]. apply elem_of_concat.
  eexists _, _. split; [done | by left].
Qed.
(** A victim is a member; only the random search can run out of rounds. *)
Lemma pick_victim_ok spins k h p x :
  part_ok h p x -> policy_ok p -> members p <> [] ->
  match pick_victim spins k p with
  | Ok (e, _) => e ∈ members p /\ (evictalgo p = EVICT_LRU -> last (lru p) = Some e)
  | Fault f => f = Blocked /\ evictalgo p = EVICT_RANDOM
  end.
Proof.
  intros Hok Hpol Hne. unfold pick_victim.
  destruct (Z.eqb_spec (evictalgo p) EVICT_LRU) as [Hev|Hev].
  - pose proof (po_lru _ _ _ Hok Hev) as Hperm.
    destruct (last (lru p)) as [e|] eqn:Hl; simpl.
    + split; [|done]. rewrite <- Hperm. apply last_Some in Hl as [l ->]. set_solver.
    + apply last_None in Hl. rewrite Hl in Hperm. symmetry in Hperm.
      by apply Permutation_nil_r in Hperm.
  - destruct Hpol as [?|Hpol]; [done|]. rewrite (proj2 (Z.eqb_eq _ _) Hpol).
    pose proof (pick_random_ok spins k h p x Hok) as Hp.
    destruct (pick_random spins k p) as [[e k']|f]; [|done]. split; [done|].
    intros. congruence.
Qed.
(** The allocator turned a request for [sz] bytes down, with at most [n] elements in
    memory. *)
Definition refused (n : nat) (sz : Z) : Prop :=
  exists k h, (base.size h <= n)%nat /\ memalign k h (u64 (sizeof_elem + u64 sz)) CACHELINE = None.

Lemma refused_more n n' sz : refused n sz -> (n <= n')%nat -> refused n' sz.
Proof. intros (k & h & Hn & Hm) Hle. exists k, h. split; [lia | done]. Qed.

(** Releasing allocates nothing. *)
Lemma released_size h p h' p' : released release h p h' p' -> (base.size h' <= base.size h)%nat.
Proof.
  intros Hr. rewrite <- !size_dom. apply subseteq_size. intros a Ha. apply elem_of_dom in Ha as [el Hel].
  rewrite (Hr a) in Hel. apply elem_of_dom. case_decide; [|by exists el]. destruct (h !! a) as [el0|]; [by exists el0 | done].
Qed.
(** What the eviction loop leaves when it ends. *)
Record room (m : mem) (p : partition) (es : Z) (e : Z) (m' : mem) (p' : partition) : Prop := {
  ro_ok : part_ok (hp m') p' es;
  ro_frame : frame p p';
  ro_fits : psize p' <= max_size p;
  ro_fresh : hp m' !! e = None /\ addr_ok e;
  ro_sub : forall a, a ∈ members p' -> a ∈ members p;
  ro_same : forall a, a ∉ members p \/ a ∈ members p' -> hp m' !! a = hp m !! a;
  ro_heap : released release (hp m) p (hp m') p'
}.
(** Why it can fail: the random search ran out of rounds, or the table is
    empty and the element still does not fit. *)
Definition no_room (n : nat) (p : partition) (sz es : Z) (f : fault) : Prop :=
  (f = Blocked /\ evictalgo p = EVICT_RANDOM) \/
  (f = AssertFailed /\ (max_size p < es \/ refused n sz)).
Lemma evict_one_ok spins n h k p sz es :
  part_ok h p es -> policy_ok p ->
  (max_size p < psize p \/ refused n sz) ->
  match evict_one release spins h k p es with
  | Ok (h', _, p') => exists e,
      part_ok h' p' es /\ frame p p' /\ members p ≡ₚ e :: members p' /\
      (forall a, a <> e -> h' !! a = h !! a) /\
      (evictalgo p = EVICT_LRU ->
         last (lru p) = Some e /\ list_remove e (lru p) = Some (lru p')) /\
      psize p' = psize p - esz h e /\ released release h p h' p'
  | Fault f => no_room n p sz es f
  end.
Proof.
  intros Hok Hpol Hwhy. unfold evict_one.
  pose proof (po_size _ _ _ Hok) as Hs.
  destruct (Z.ltb_spec es (psize p)) as [Hlt|Hge]; simpl.
  2: { right. split; [done|]. pose proof (zsum_members_pos _ _ _ Hok).
       destruct Hwhy; [left; lia | by right]. }
  assert (members p <> []) as Hne by (intros Hn; rewrite Hn, zsum_nil in Hs; lia).
  pose proof (pick_victim_ok spins k h p es Hok Hpol Hne) as Hv.
  destruct (pick_victim spins k p) as [[e k']|f]; [|by left]. destruct Hv as [Hv Hl]. simpl.
  destruct (unlink_ok release h p es e Hok Hv)
    as (p1 & h1 & -> & -> & Hok1 & Hfr & Hm & Hsz & Hsame & Hrl & Hlru). simpl.
  exists e. split_and!; try done. intros Hev. split; [auto|].
  by rewrite (proj2 (Z.eqb_eq _ _) Hev) in Hlru.
Qed.
(** One eviction before a successful rest of the loop. *)
Lemma room_after m p p1 h1 k1 es a e m' p' :
  NoDup (members p) -> frame p p1 -> members p ≡ₚ a :: members p1 ->
  (forall b, b <> a -> h1 !! b = hp m !! b) -> released release (hp m) p h1 p1 ->
  room (Mem h1 k1) p1 es e m' p' -> room m p es e m' p'.
Proof.
  intros Hnd Hfr Hm Hsame Hrl [H1 H2 H3 H4 H5 H6 H7]. simpl in *.
  destruct (frame_fields _ _ Hfr) as (_ & Hmax & _). rewrite Hmax in H3.
  assert (forall b, b ∈ members p' -> b ∈ members p) as Hsub
    by (intros b Hb; rewrite Hm; right; auto).
  rewrite Hm in Hnd. apply NoDup_cons in Hnd as [Hnot _].
  split; try done; [by transitivity p1 | |].
  2: { apply (released_trans release (hp m) p h1 p1); try done.
       intros b Hb. rewrite Hm. by right. }
  intros b Hb. rewrite H6.
  - apply Hsame. intros ->. destruct Hb as [Hb|Hb].
    + apply Hb. rewrite Hm. by left.
    + by apply Hnot, H5.
  - destruct Hb as [Hb|Hb]; [left|by right]. intros Hc. apply Hb. rewrite Hm. by right.
Qed.
Lemma make_room_ok fuel spins n m p sz es :
  part_ok (hp m) p es -> policy_ok p -> (length (members p) < fuel)%nat -> (base.size (hp m) <= n)%nat ->
  match make_room release fuel spins m p sz es with
  | Ok (e, _, m', p') => room m p es e m' p'
  | Fault f => no_room n p sz es f
  end.
Proof.
  revert m p. induction fuel as [|fuel IH]; intros m p Hok Hpol Hf Hn; [lia|].
  rewrite make_room_S. cbv zeta.
  assert (forall k, (max_size p < psize p \/ refused n sz) ->
    match '(h', k', p') ← evict_one release spins (hp m) k p es;
          make_room release fuel spins (Mem h' k') p' sz es with
    | Ok (e, _, m', p') => room m p es e m' p'
    | Fault f => no_room n p sz es f
    end) as Hevict.
  { intros k Hwhy. pose proof (evict_one_ok spins n (hp m) k p sz es Hok Hpol Hwhy) as Hone.
    destruct (evict_one release spins (hp m) k p es) as [[[h1 k1] p1]|f]; [|done].
    destruct Hone as (a & Hok1 & Hfr & Hm & Hsame & _ & _ & Hrl). simpl.
    destruct (frame_fields _ _ Hfr) as (_ & Hmax & Hev).
    assert (length (members p) = S (length (members p1))) as Hlen by (by rewrite Hm).
    specialize (IH (Mem h1 k1) p1 Hok1). unfold policy_ok in IH. rewrite Hev in IH.
    pose proof (released_size _ _ _ _ Hrl). specialize (IH Hpol ltac:(lia) ltac:(simpl; lia)).
    destruct (make_room release fuel spins (Mem h1 k1) p1 sz es) as [[[[e raw] m'] p']|f].
    - eapply room_after; eauto. apply (po_nodup _ _ _ Hok).
    - unfold no_room in *. by rewrite Hev, Hmax in IH. }
  destruct (Z.leb_spec (psize p) (max_size p)) as [Hfit|Hno]; [|apply Hevict; by left].
  destruct (memalign (tick m) (hp m) _ _) as [[e raw]|] eqn:Hal.
  - destruct (memalign_fresh _ _ _ _ _ _ Hal). split; try done. by apply released_refl.
  - apply Hevict. right. by exists (tick m), (hp m).
Qed.
(** ** Linking the new element *)
Lemma link_ok h p k e el :
  part_ok h p (size el) -> sizeof_elem <= size el -> h !! e = None -> key el = k ->
  (forall a, a ∈ members p -> ~ has_key h a k) ->
  exists eh t, aget (table p) (hash_get_bucket p k) = Ok eh /\
    aset (table p) (hash_get_bucket p k) (eh ++ [e]) = Ok t /\
    concat t ≡ₚ e :: members p /\
    (let p' := set_table t p in
     let p' := if evictalgo p' =? EVICT_LRU then set_lru (e :: lru p') p' else p' in
     part_ok (<[e := el]> h) p' 0).
Proof.
  intros Hok Hsz Hfree Hk Hnew.
  destruct (bucket_exists _ _ _ k Hok) as (ch & Hget & Hch). exists ch.
  pose proof (po_nhash _ _ _ Hok) as Hn. rewrite bucket_mod in * by done.
  pose proof (Z.mod_pos_bound k (nhash p)) as Hb.
  pose proof (po_table _ _ _ Hok) as Hlen.
  rewrite aset_in by lia. eexists. split_and!; [done | done | |].
  { apply concat_in. done. }
  set (t := <[Z.to_nat (k mod nhash p) := ch ++ [e]]> (table p)).
  assert (concat t ≡ₚ e :: members p) as Hmem by (by apply concat_in).
  assert (e ∉ members p) as Hnot.
  { intros He. destruct (member_elem _ _ _ _ Hok He) as (? & _ & _ & ? & _). congruence. }
  assert (forall a, a ∈ members p -> <[e := el]> h !! a = h !! a) as Hsame
    by (intros a Ha; apply lookup_insert_ne; intros ->; done).
  assert (zsum (esz (<[e := el]> h)) (members p) = zsum (esz h) (members p)) as Hsum
    by (apply zsum_ext; intros a Ha; unfold esz; by rewrite Hsame).
  assert (esz (<[e := el]> h) e = size el) as He by (unfold esz; by rewrite lookup_insert_eq).
  assert (forall a q, a ∈ members p -> has_key (<[e := el]> h) a q -> has_key h a q) as Hold
    by (intros a q Ha (el' & Hel' & ?); exists el'; by rewrite <- Hsame).
  assert (forall q, has_key (<[e := el]> h) e q -> q = k) as Hkey.
  { intros q (el' & Hel' & <-). rewrite lookup_insert_eq in Hel'. by simplify_eq. }
  simpl. match goal with |- part_ok _ ?q 0 => set (p' := q) end.
  assert (table p' = t /\ nhash p' = nhash p /\ psize p' = psize p /\ evictalgo p' = evictalgo p
          /\ lru p' = if evictalgo p =? EVICT_LRU then e :: lru p else lru p)
    as (Ht & Hnh & Hps & Hev & Hlru) by (subst p'; by destruct (evictalgo p =? EVICT_LRU)).
  clearbody p'.
  assert (members p' ≡ₚ e :: members p) as Hmem' by (unfold members at 1; by rewrite Ht).
  destruct Hok. split; rewrite ?Hnh, ?Hps, ?Hev; try done.
  - rewrite Ht. subst t. by rewrite length_insert.
  - rewrite Hmem'. by constructor.
  - intros i c a Hi Ha. rewrite Ht in Hi.
    destruct (decide (a = e)) as [->|Hne].
    + exists el. rewrite lookup_insert_eq. split_and!; [done| |done].
      apply list_lookup_insert_Some in Hi as [(<- & <- & _)|[Hne Hi]].
      * rewrite Hk, Z2Nat.id; lia.
      * destruct Hnot. apply elem_of_concat. eauto.
    + rewrite lookup_insert_ne by done.
      apply list_lookup_insert_Some in Hi as [(<- & <- & _)|[Hne' Hi]].
      * apply (po_elem0 _ ch); [done | set_solver].
      * eauto.
  - intros e1 e2 q H1 H2 Hk1 Hk2. rewrite Hmem' in H1, H2.
    apply elem_of_cons in H1 as [->|H1], H2 as [->|H2]; try done.
    + apply Hkey in Hk1 as ->. by destruct (Hnew e2 H2); apply Hold.
    + apply Hkey in Hk2 as ->. by destruct (Hnew e1 H1); apply Hold.
    + eauto.
  - intros Hp. rewrite Hmem', Hlru, (proj2 (Z.eqb_eq _ _) Hp). by rewrite po_lru0.
  - rewrite (zsum_perm _ _ _ Hmem'), zsum_cons, Hsum, He. lia.
  - rewrite (zsum_perm _ _ _ Hmem'), zsum_cons, Hsum, He. lia.
Qed.
(** ** [hash_insert]
    The partition between operations: well formed, within its limit, with a
    policy the code knows. *)
Record part_wf (h : heap) (p : partition) : Prop := {
  wf_ok : part_ok h p 0;
  wf_limit : psize p <= max_size p;
  wf_policy : policy_ok p
}.
Record inserted_as (m : mem) (p : partition) (k sz : Z) (e : Z) (m' : mem) (p' : partition)
    : Prop := {
  in_wf : part_wf (hp m') p';
  in_frame : frame p p';
  in_addr : addr_ok e;
  in_member : e ∈ members p';
  in_elem : exists el, hp m' !! e = Some el /\ key el = k /\ size el = elem_size sz;
  in_rest : forall a, a ∈ members p' -> a <> e ->
              a ∈ members p /\ hp m' !! a = hp m !! a /\ ~ has_key (hp m) a k;
  in_outside : forall a, a ∉ members p -> a <> e -> hp m' !! a = hp m !! a;
  in_heap : forall a, delete e (hp m') !! a =
    if decide (a ∈ members p /\ (a ∉ members p' \/ a = e))
    then hp m !! a ≫= after_release else hp m !! a
}.
(** The first part of an insertion: the old element with the key is gone. *)
Lemma drop_old_ok h p k :
  part_ok h p 0 -> policy_ok p -> psize p <= max_size p ->
  exists r p1 h1 p2, hash_lookup h p k = Ok (r, p1) /\ touched p p1 r /\
    found_in h p k r /\
    match r with
    | Some e => hash_remove h p1 e = Ok p2 /\ release h e = Ok h1 /\
        (evictalgo p = EVICT_LRU -> list_remove e (lru p1) = Some (lru p2))
    | None => p2 = p1 /\ h1 = h
    end /\
    part_ok h1 p2 0 /\ frame p p2 /\ psize p2 <= psize p /\
    (forall a, a ∈ members p2 -> a ∈ members p /\ h1 !! a = h !! a /\ ~ has_key h a k) /\
    (forall a, a ∉ members p -> h1 !! a = h !! a) /\ released release h p h1 p2.
Proof.
  intros Hok Hpol Hlim.
  destruct (hash_lookup_ok _ _ _ k Hok) as (r & p1 & Hl & Hf & Ht & Hfr & Htab & Hps & Hok1).
  assert (members p1 = members p) as Hm1 by (unfold members; by rewrite Htab).
  exists r, p1. destruct r as [e|].
  - destruct Hf as [He Hk]. rewrite <- Hm1 in He.
    destruct (unlink_ok release h p1 0 e Hok1 He)
      as (p2 & h1 & Hr & Hrel & Hok2 & Hfr2 & Hm & Hs & Hsame & Hrl & Hlru).
    exists h1, p2. pose proof (esz_pos _ _ _ _ Hok1 He) as Hpos. unfold sizeof_elem in Hpos.
    pose proof (po_nodup _ _ _ Hok1) as Hnd. rewrite Hm in Hnd.
    apply NoDup_cons in Hnd as [Hnot _].
    destruct (frame_fields _ _ Hfr) as (_ & _ & Hev).
    split_and!; try done.
    + split; [by rewrite <- Hm1 | done].
    + intros Hp. rewrite Hev, (proj2 (Z.eqb_eq _ _) Hp) in Hlru. done.
    + by transitivity p1.
    + lia.
    + intros a Ha. assert (a ≠ e) by (intros ->; done).
      assert (a ∈ members p1) as Ha1 by (rewrite Hm; by right). split_and!.
      * by rewrite <- Hm1.
      * by apply Hsame.
      * intros Hka. assert (a = e); [|done]. by apply (po_keys _ _ _ Hok1 a e k).
    + intros a Ha. apply Hsame. intros ->. apply Ha. by rewrite <- Hm1.
    + intros a. rewrite <- Hm1. apply Hrl.
  - exists h, p1. simpl in Ht. subst p1. split_and!; try done; [|by apply released_refl].
    intros a Ha. split_and!; [done | done | by apply Hf].
Qed.
(** An insertion is: drop the old element, make room, link the new one. *)
Definition link (p : partition) (k sz : Z) (out : Z * elem * mem * partition)
    : result (Z * mem * partition) :=
  let '(e, raw, m, p4) := out in
  let el := Elem k (ref_count raw) (elem_size sz) (value raw) in
  eh ← aget (table p4) (hash_get_bucket p k);
  t ← aset (table p4) (hash_get_bucket p k) (eh ++ [e]);
  let p5 := set_table t p4 in
  let p5 := if evictalgo p5 =? EVICT_LRU then set_lru (e :: lru p5) p5 else p5 in
  mret (e, Mem (<[e := el]> (hp m)) (tick m), p5).
Lemma hash_insert_steps spins m p k sz r p1 h1 p2 :
  part_ok h1 p2 0 -> psize p2 <= max_size p2 -> size_fits p2 (elem_size sz) ->
  hash_lookup (hp m) p k = Ok (r, p1) ->
  match r with
  | Some e => hash_remove (hp m) p1 e = Ok p2 /\ release (hp m) e = Ok h1
  | None => p2 = p1 /\ h1 = hp m
  end ->
  let p3 := set_size (psize p2 + elem_size sz) p2 in
  part_ok h1 p3 (elem_size sz) /\
  hash_insert release spins m p k sz =
    (make_room release (S (length (members p3))) spins (Mem h1 (tick m)) p3 sz (elem_size sz)
     ≫= link p k sz).
Proof.
  intros Hok Hlim [Hes1 Hes2] Hl Hrm p3. unfold sizeof_elem in *.
  pose proof (po_size _ _ _ Hok) as Hz. pose proof (zsum_members_pos _ _ _ Hok) as Hnn.
  assert (u64 (psize p2 + elem_size sz) = psize p2 + elem_size sz) as Hu by (apply u64_small; lia).
  split.
  - destruct Hok. split; simpl; try done; change (members p3) with (members p2); lia.
  - unfold hash_insert. rewrite Hl. simpl. destruct r as [e|].
    + destruct Hrm as [-> ->]. simpl. rewrite Hu. done.
    + destruct Hrm as [-> ->]. simpl. rewrite Hu. by destruct m.
Qed.
(** Linking after a successful search for room. *)
Lemma link_room_ok m p p3 h1 k sz e raw m' p4 :
  room (Mem h1 (tick m)) p3 (elem_size sz) e m' p4 -> frame p p3 -> policy_ok p ->
  sizeof_elem <= elem_size sz ->
  (forall a, a ∈ members p3 -> a ∈ members p /\ h1 !! a = hp m !! a /\ ~ has_key (hp m) a k) ->
  (forall a, a ∉ members p -> h1 !! a = hp m !! a) -> released release (hp m) p h1 p3 ->
  exists t, concat t ≡ₚ e :: members p4 /\
    let m5 := Mem (<[e := Elem k (ref_count raw) (elem_size sz) (value raw)]> (hp m')) (tick m') in
    let p5 := set_table t p4 in
    let p5 := if evictalgo p5 =? EVICT_LRU then set_lru (e :: lru p5) p5 else p5 in
    link p k sz (e, raw, m', p4) = Ok (e, m5, p5) /\ inserted_as m p k sz e m5 p5.
Proof.
  intros [Hok4 Hfr4 Hfit [Hfresh Haddr] Hsub Hsame Hrl4] Hfr Hpol Hes Hrest Hout Hrl.
  simpl in Hsame. assert (frame p p4) as Hfr' by (by transitivity p3).
  destruct (frame_fields _ _ Hfr') as (Hnh & Hmx & Hev).
  destruct (frame_fields _ _ Hfr4) as (_ & Hmx4 & _).
  set (el := Elem k (ref_count raw) (elem_size sz) (value raw)).
  destruct (link_ok (hp m') p4 k e el) as (eh & t & Hget & Hset & Hmem & Hfin); try done.
  { intros a Ha (q & Hq & Hkq). destruct (Hrest a) as (_ & Ha1 & Hnk); [by apply Hsub|].
    apply Hnk. exists q. split; [|done]. rewrite <- Ha1, <- Hq. symmetry. apply Hsame. by right. }
  exists t. split; [done|]. cbv zeta in *. unfold link.
  assert (hash_get_bucket p k = hash_get_bucket p4 k) as ->
    by (unfold hash_get_bucket; by rewrite Hnh).
  rewrite Hget. simpl. rewrite Hset. simpl. split; [done|]. simpl in Hfin.
  match goal with |- inserted_as _ _ _ _ _ _ ?q => set (p5 := q) in * end.
  assert (members p5 ≡ₚ e :: members p4 /\ max_size p5 = max_size p /\ psize p5 = psize p4 /\
          evictalgo p5 = evictalgo p /\ frame p4 p5) as (Hm5 & Hmx5 & Hps5 & Hev5 & Hfr5).
  { subst p5. unfold members at 1. destruct (evictalgo p4 =? EVICT_LRU); simpl;
      rewrite Hmx, Hev; split_and!; try done; clear; by destruct p4. }
  clearbody p5. split; try done.
  - split; [exact Hfin | lia |]. unfold policy_ok. by rewrite Hev5.
  - by transitivity p4.
  - rewrite Hm5. by left.
  - exists el. split; [apply lookup_insert_eq | done].
  - intros a Ha Hne. rewrite Hm5 in Ha. apply elem_of_cons in Ha as [?|Ha]; [done|].
    destruct (Hrest a) as (Hap & Hah & Hak); [by apply Hsub|]. split_and!; try done.
    simpl. rewrite lookup_insert_ne by done. rewrite Hsame by (by right). done.
  - intros a Ha Hne. simpl. rewrite lookup_insert_ne by done. rewrite Hsame; [by apply Hout|].
    left. intros Ha'. by destruct (Hrest a Ha').
  - intros a. simpl. rewrite delete_insert_id by done.
    rewrite (released_trans release (hp m) p h1 p3 (hp m') p4 Hrl Hrl4)
      by (done || intros b Hb; by destruct (Hrest b Hb)).
    apply decide_ext. rewrite (not_member_cons _ _ _ a Hm5).
    assert (e ∉ members p4) as He4.
    { intros He. destruct (member_elem _ _ _ _ Hok4 He) as (? & _ & _ & ? & _). congruence. }
    destruct (decide (a = e)) as [->|]; tauto.
Qed.
Lemma hash_insert_ok spins m p k sz :
  part_wf (hp m) p -> size_fits p (elem_size sz) ->
  match hash_insert release spins m p k sz with
  | Ok (e, m', p') => inserted_as m p k sz e m' p'
  | Fault f => no_room (base.size (hp m)) p sz (elem_size sz) f
  end.
Proof.
  intros [Hok Hlim Hpol] Hfits.
  destruct (drop_old_ok _ _ k Hok Hpol Hlim)
    as (r & p1 & h1 & p2 & Hl & _ & _ & Hrm & Hok2 & Hfr & Hps & Hrest & Hout & Hrl).
  destruct (frame_fields _ _ Hfr) as (_ & Hmx & Hev).
  destruct (hash_insert_steps spins m p k sz r p1 h1 p2) as [Hok3 ->]; try done.
  { lia. } { unfold size_fits. by rewrite Hmx. }
  { destruct r; naive_solver. }
  set (p3 := set_size (psize p2 + elem_size sz) p2) in *.
  assert (frame p p3) as Hfr3
    by (transitivity p2; [done|]; subst p3; clear; by destruct p2).
  assert (policy_ok p3) as Hpol3 by (unfold policy_ok in *; simpl; by rewrite Hev).
  pose proof (released_size _ _ _ _ Hrl) as Hsize.
  pose proof (make_room_ok (S (length (members p3))) spins (base.size (hp m)) (Mem h1 (tick m)) p3 sz _
                Hok3 Hpol3 ltac:(lia) Hsize) as Hroom.
  destruct (make_room release _ spins _ p3 sz (elem_size sz)) as [[[[e raw] m'] p4]|f].
  - destruct (link_room_ok m p p3 h1 k sz e raw m' p4) as (t & _ & Hlk & Hin); try done.
    { apply Hfits. }
    cbn [mbind result_bind]. rewrite Hlk. exact Hin.
  - simpl. unfold no_room, p3 in *. simpl in Hroom. by rewrite Hev, Hmx in Hroom.
Qed.
End insert.

(** ** The accounted size *)
Lemma elem_size_val sz :
  0 <= sz < 2 ^ 31 -> elem_size sz = (sz + 127) / 64 * 64.
Proof.
  intros Hsz. unfold elem_size, sizeof_elem, CACHELINE.
  rewrite (u64_small sz), !u64_small by (rewrite ?u64_small; lia).
  replace (64 + sz + (64 - 1)) with (sz + 127) by lia.
  change (u64 (Z.lnot (64 - 1))) with (Z.ldiff (Z.ones 64) (Z.ones 6)).
  rewrite land_high by lia. change (2 ^ 6) with 64. pose proof (Z.div_mod (sz + 127) 64). lia.
Qed.

(** ** Destruction *)
Section destroy.
Context (release : heap -> Z -> result heap) `{!Releases release}.
Lemma destroy_table_chain h t d :
  destroy_table release h t d = destroy_chain release h (concat t) d.
Proof.
  revert h d. induction t as [|ch t IH]; intros h d; [done|]. simpl.
  revert h d. induction ch as [|e ch IHc]; intros h d; simpl; [apply IH|].
  destruct (h !! e) as [el|]; [|done]. simpl. destruct (release h e); [|done]. simpl. apply IHc.
Qed.
Lemma destroy_chain_ok h l d :
  NoDup l -> (forall e, e ∈ l -> is_Some (h !! e)) -> 0 <= d ->
  (forall e, e ∈ l -> 0 <= esz h e) -> d + zsum (esz h) l < 2 ^ 64 ->
  exists h', destroy_chain release h l d = Ok (h', d + zsum (esz h) l) /\
    forall a, h' !! a = if decide (a ∈ l) then h !! a ≫= after_release else h !! a.
Proof.
  revert h d. induction l as [|e l IH]; intros h d Hnd Hal Hd Hpos Hsum.
  - exists h. rewrite zsum_nil, Z.add_0_r. split; [done|]. intros a.
    by rewrite decide_False by set_solver.
  - apply NoDup_cons in Hnd as [Hnot Hnd]. rewrite zsum_cons in *.
    destruct (Hal e) as [el Hel]; [by left|]. simpl. rewrite Hel. simpl.
    rewrite (release_spec h e el Hel). simpl.
    set (h1 := partial_alter (fun _ => after_release el) e h).
    assert (forall a, a ∈ l -> h1 !! a = h !! a) as Hsame.
    { intros a Ha. unfold h1. rewrite lookup_partial_alter_ne; [done|]. intros ->. done. }
    assert (esz h e = size el) as He by (unfold esz; by rewrite Hel).
    assert (zsum (esz h1) l = zsum (esz h) l) as Hz
      by (apply zsum_ext; intros a Ha; unfold esz; by rewrite Hsame).
    pose proof (Hpos e (list_elem_of_here e l)).
    assert (0 <= zsum (esz h) l) by (apply zsum_nonneg; intros; apply Hpos; by right).
    rewrite u64_small by lia.
    destruct (IH h1 (d + size el)) as (h' & Hd' & Hh').
    + done.
    + intros a Ha. rewrite Hsame by done. apply Hal. by right.
    + lia.
    + intros a Ha. unfold esz. rewrite Hsame by done. apply Hpos. by right.
    + lia.
    + exists h'. rewrite Hd', Hz, He. split; [do 2 f_equal; lia|].
      intros a. rewrite Hh'. destruct (decide (a = e)) as [->|Hne].
      * rewrite decide_False, decide_True by set_solver. unfold h1.
        rewrite lookup_partial_alter_eq, Hel. done.
      * assert (h1 !! a = h !! a) as -> by (unfold h1; by rewrite lookup_partial_alter_ne).
        destruct (decide (a ∈ l)); [rewrite decide_True by set_solver |
          rewrite decide_False by set_solver]; done.
Qed.
(** The assertion of [destroy_hash_partition] holds, every element is
    released exactly once, and nothing else is touched. *)
Lemma destroy_ok h p :
  part_ok h p 0 ->
  exists h', destroy_hash_partition release h p = Ok h' /\
    forall a, h' !! a = if decide (a ∈ members p) then h !! a ≫= after_release else h !! a.
Proof.
  intros Hok. unfold destroy_hash_partition. rewrite destroy_table_chain.
  assert (forall e, e ∈ members p -> 0 <= esz h e) as Hpos.
  { intros e He. pose proof (esz_pos _ _ _ _ Hok He). unfold sizeof_elem in *. lia. }
  destruct (destroy_chain_ok h (members p) 0) as (h' & Hd & Hh'); try done.
  - apply Hok.
  - intros e He. destruct (member_elem _ _ _ _ Hok He) as (el & _ & _ & ? & _). eauto.
  - destruct (po_bound _ _ _ Hok). lia.
  - exists h'. unfold members in Hd. rewrite Hd. simpl. pose proof (po_size _ _ _ Hok).
    rewrite (proj2 (Z.eqb_eq _ _)); [done | unfold members in *; lia].
Qed.
End destroy.

(** ** Initialisation *)
Lemma ceil_div_bounds a b : 0 < b -> a <= ceil_div a b * b < a + b.
Proof.
  intros Hb. unfold ceil_div. pose proof (Z.div_mod (- a) b). pose proof (Z.mod_pos_bound (- a) b).
  nia.
Qed.

Lemma bucket_count_bounds ms n :
  0 < n -> 9 <= bucket_count ms n /\
  bucket_count ms n < int_max 10 (i32 (ms / BUCKET_LOAD)) + n.
Proof.
  intros Hn. unfold bucket_count.
  pose proof (ceil_div_bounds (int_max 10 (i32 (ms / BUCKET_LOAD))) n Hn).
  assert (10 <= int_max 10 (i32 (ms / BUCKET_LOAD))).
  { unfold int_max. destruct (Z.ltb_spec (i32 (ms / BUCKET_LOAD)) 10); lia. }
  lia.
Qed.

Lemma init_locks_ok raw n :
  n <= MAX_CLIENTS -> (forall l, l ∈ raw -> has_lock l <> []) ->
  exists ls, init_locks raw n = Ok ls /\ length ls = length raw.
Proof.
  intros Hn. induction raw as [|l raw IH]; intros Hl; [by exists []|].
  simpl. unfold anderson_init. rewrite (proj2 (Z.leb_le _ _)) by done. simpl.
  assert (has_lock l <> []) by (apply Hl; by left).
  rewrite aset_in by (destruct (has_lock l); simpl; [done|lia]). simpl.
  destruct IH as (ls & -> & Hlen); [intros; apply Hl; by right|]. simpl.
  eexists. split; [done|]. simpl. by rewrite Hlen.
Qed.

Lemma concat_replicate_nil {A} n : concat (replicate n (@nil A)) = [].
Proof. induction n; done. Qed.

(** An initialised partition is well formed and empty. *)
Lemma init_ok raw rawlocks ms n ev p h :
  0 <= ms < 2 ^ 64 -> ev = EVICT_LRU \/ ev = EVICT_RANDOM ->
  init_hash_partition raw rawlocks ms n ev = Ok p -> part_wf h p /\ members p = [] /\
    max_size p = ms /\ nservers p = n /\ nhash p = bucket_count ms n.
Proof.
  intros Hms Hev Hp. unfold init_hash_partition in Hp. invb Hp.
  repeat match goal with
  | Hb : (_ <? _) = true |- _ => apply Z.ltb_lt in Hb
  | Hb : (_ =? _) = true |- _ => apply Z.eqb_eq in Hb
  end.
  pose proof (bucket_count_bounds ms n ltac:(done)) as [Hlo _].
  match goal with |- part_wf _ ?q /\ _ =>
    assert (members q = []) as Hmem by apply concat_replicate_nil end.
  split_and!; try done. split; simpl; [|lia|exact Hev].
  split; rewrite ?Hmem; simpl; try done.
  - lia.
  - by rewrite length_replicate.
  - apply NoDup_nil_2.
  - intros i ch e Hi He. apply lookup_replicate in Hi as [-> _]. set_solver.
  - set_solver.
  - intros ->. done.
Qed.
