(* ===== verification/PartitionLru.v ===== *)
(** * PartitionLru: a partition refines a least-recently-used cache

    The abstract cache is a list of entries, the most recently used first. A
    lookup moves its entry to the front; an insertion drops the entry with the
    same key, keeps the longest run of recent entries that leaves room for the
    new one, and puts it in front. Under [EVICT_LRU] a partition is that cache,
    read along its LRU list. *)
From stdpp Require Import base list gmap.
From Stdlib Require Import ZArith Lia.
From S2P Require Import Prelude Protocol ALock Value Partition PartitionInv.

Local Open Scope Z_scope.

Record entry := Entry { e_key : Z; e_addr : Z; e_bytes : Z }.

Module LruSpec.
Definition total (l : list entry) : Z := zsum e_bytes l.
Definition without (k : Z) (l : list entry) : list entry :=
  filter (fun en => e_key en <> k) l.
Definition find (k : Z) (l : list entry) : option entry :=
  head (filter (fun en => e_key en = k) l).
Definition lookup (k : Z) (l : list entry) : option Z * list entry :=
  match find k l with
  | Some en => (Some (e_addr en), en :: without k l)
  | None => (None, l)
  end.
(** The longest prefix whose bytes fit in [budget]. *)
Fixpoint keep (budget : Z) (l : list entry) : list entry :=
  match l with
  | [] => []
  | en :: l => if e_bytes en <=? budget then en :: keep (budget - e_bytes en) l else []
  end.
Definition insert (max k a bytes : Z) (l : list entry) : list entry :=
  Entry k a bytes :: keep (max - bytes) (without k l).
End LruSpec.

(** ** Properties of the abstract cache *)
Lemma keep_all budget l :
  (forall en, en ∈ l -> 0 <= e_bytes en) -> LruSpec.total l <= budget -> LruSpec.keep budget l = l.
Proof.
  unfold LruSpec.total. revert budget. induction l as [|en l IH]; intros budget Hp Ht; [done|].
  rewrite zsum_cons in Ht. simpl.
  assert (0 <= zsum e_bytes l) by (apply zsum_nonneg; intros; apply Hp; by right).
  rewrite (proj2 (Z.leb_le _ _)) by lia. f_equal. apply IH; [|lia]. intros. apply Hp. by right.
Qed.

Lemma keep_snoc budget l en :
  budget < LruSpec.total (l ++ [en]) -> LruSpec.keep budget (l ++ [en]) = LruSpec.keep budget l.
Proof.
  unfold LruSpec.total. revert budget. induction l as [|x l IH]; intros budget Ht; simpl.
  - unfold zsum in Ht. simpl in Ht. rewrite (proj2 (Z.leb_gt _ _)) by lia. done.
  - simpl in Ht. rewrite zsum_cons in Ht. case_match; [|done]. f_equal. apply IH. lia.
Qed.

(** ** Reading a partition as a cache *)
Definition entry_of (h : heap) (e : Z) : entry :=
  match h !! e with
  | Some el => Entry (key el) e (size el)
  | None => Entry 0 e 0
  end.

Definition view (h : heap) (p : partition) : list entry := entry_of h <$> lru p.

Lemma entry_of_some h e el : h !! e = Some el -> entry_of h e = Entry (key el) e (size el).
Proof. unfold entry_of. by intros ->. Qed.

Lemma view_same h h' (l : list Z) :
  (forall a, a ∈ l -> h' !! a = h !! a) -> entry_of h' <$> l = entry_of h <$> l.
Proof.
  intros Hs. apply list_fmap_ext. intros i a Ha. unfold entry_of. rewrite Hs; [done|].
  by eapply list_elem_of_lookup_2.
Qed.

Lemma view_total h (l : list Z) : LruSpec.total (entry_of h <$> l) = zsum (esz h) l.
Proof.
  unfold LruSpec.total. induction l as [|a l IH]; [done|]. csimpl. rewrite !zsum_cons, IH.
  f_equal. unfold entry_of, esz. by destruct (h !! a).
Qed.

Section lookup.
Context (h : heap) (p : partition) (x : Z).
Context (Hok : part_ok h p x) (Hlru : evictalgo p = EVICT_LRU).
Lemma lru_member a : a ∈ lru p <-> a ∈ members p.
Proof. by rewrite (po_lru _ _ _ Hok Hlru). Qed.
Lemma lru_nodup : NoDup (lru p).
Proof. rewrite (po_lru _ _ _ Hok Hlru). apply (po_nodup _ _ _ Hok). Qed.
Lemma entry_key a k : a ∈ lru p -> e_key (entry_of h a) = k <-> has_key h a k.
Proof.
  intros Ha%lru_member. destruct (member_elem _ _ _ _ Hok Ha) as (el & _ & _ & Hel & _).
  rewrite (entry_of_some _ _ _ Hel). simpl. unfold has_key. split; [eauto|].
  intros (el' & ? & ?). by simplify_eq.
Qed.
(** Dropping a key is dropping the element that has it. *)
Lemma filter_key_none k (l : list Z) :
  (forall a, a ∈ l -> a ∈ lru p /\ ~ has_key h a k) ->
  LruSpec.without k (entry_of h <$> l) = entry_of h <$> l /\
  LruSpec.find k (entry_of h <$> l) = None.
Proof.
  induction l as [|a l IH]; intros Hl; [done|].
  destruct IH as [IH1 IH2]; [intros; apply Hl; by right|].
  destruct (Hl a) as [Ha Hk]; [by left|]. rewrite <- entry_key in Hk by done.
  unfold LruSpec.without, LruSpec.find in *. csimpl. rewrite !filter_cons.
  rewrite decide_True, decide_False by done. by rewrite IH1.
Qed.
Lemma filter_key_some k e (l : list Z) :
  has_key h e k -> e ∈ l -> NoDup l -> (forall a, a ∈ l -> a ∈ lru p) ->
  LruSpec.without k (entry_of h <$> l) = entry_of h <$> filter (fun a => a <> e) l /\
  LruSpec.find k (entry_of h <$> l) = Some (entry_of h e).
Proof.
  intros Hk. induction l as [|a l IH]; intros He Hnd Hl; [set_solver|].
  apply NoDup_cons in Hnd as [Hnot Hnd].
  assert (forall b, b ∈ lru p -> has_key h b k -> b = e) as Huniq.
  { intros b Hb Hkb. rewrite lru_member in Hb.
    assert (e ∈ members p) by (rewrite <- lru_member; by apply Hl).
    by apply (po_keys _ _ _ Hok b e k). }
  unfold LruSpec.without, LruSpec.find in *. csimpl. rewrite !filter_cons.
  destruct (decide (a = e)) as [->|Hne].
  - assert (e_key (entry_of h e) = k) as Hke by (apply entry_key; [apply Hl; by left | done]).
    repeat (case_decide; try tauto). simpl. split; [|done].
    destruct (filter_key_none k l) as [Hw _].
    + intros b Hb. split; [apply Hl; by right|]. intros Hkb.
      assert (b = e) by (apply Huniq; [apply Hl; by right|done]). by subst.
    + unfold LruSpec.without in Hw. rewrite Hw. f_equal. symmetry. apply filter_all.
      intros b Hb ->. done.
  - assert (~ has_key h a k) by (intros Hka; apply Hne, Huniq; [apply Hl; by left|done]).
    assert (e_key (entry_of h a) <> k) as Hka by (rewrite entry_key; [done | apply Hl; by left]).
    repeat (case_decide; try tauto).
    destruct IH as [-> ->]; [set_solver | done | intros; apply Hl; by right | done].
Qed.
Lemma found_view k r :
  found_in h p k r ->
  LruSpec.find k (view h p) = entry_of h <$> r /\
  LruSpec.without k (view h p) =
    entry_of h <$> match r with Some e => filter (fun a => a <> e) (lru p) | None => lru p end.
Proof.
  intros Hr. unfold view. destruct r as [e|]; simpl in Hr.
  - destruct Hr as [He Hk]. rewrite <- lru_member in He.
    destruct (filter_key_some k e (lru p) Hk He lru_nodup) as [-> ->]; done.
  - destruct (filter_key_none k (lru p)) as [-> ->]; [|done].
    intros a Ha. split; [done|]. apply Hr. by rewrite <- lru_member.
Qed.
(** [hash_lookup] is the lookup of the cache. *)
Lemma hash_lookup_refines k :
  exists r p', hash_lookup h p k = Ok (r, p') /\
    (r, view h p') = LruSpec.lookup k (view h p).
Proof.
  destruct (hash_lookup_ok h p x k Hok) as (r & p' & Hl & Hf & Ht & _).
  exists r, p'. split; [done|]. destruct (found_view k r Hf) as [Hfind Hwo].
  unfold LruSpec.lookup. rewrite Hfind, Hwo. unfold touched in Ht.
  rewrite (proj2 (Z.eqb_eq _ _) Hlru) in Ht. destruct r as [e|]; simpl.
  - unfold view. rewrite Ht. csimpl.
    destruct Hf as [_ (el & Hel & _)]. by rewrite (entry_of_some _ _ _ Hel).
  - by subst p'.
Qed.
End lookup.

(** The heap has no more elements when nothing was added to it. *)
Lemma heap_shrinks (h h' : heap) :
  (forall a, h !! a = None -> h' !! a = None) -> (base.size h' <= base.size h)%nat.
Proof.
  intros Hs. rewrite <- !size_dom. apply subseteq_size. intros a Ha.
  apply elem_of_dom in Ha as [el Hel]. apply elem_of_dom.
  destruct (h !! a) eqn:Hh; [eauto|]. rewrite Hs in Hel; done.
Qed.

Lemma heap_grows (h h' : heap) e :
  (forall a, a <> e -> h !! a = None -> h' !! a = None) ->
  (base.size h' <= S (base.size h))%nat.
Proof.
  intros Hs. assert (base.size (delete e h') <= base.size h)%nat.
  { apply heap_shrinks. intros a Ha. destruct (decide (a = e)) as [->|Hne].
    - apply lookup_delete_eq.
    - rewrite lookup_delete_ne by done. by apply Hs. }
  rewrite map_size_delete in *. destruct (h' !! e); simpl in *; lia.
Qed.

(** ** Insertion while the allocator grants the requests

    [granted]: a request is granted while fewer than [capacity] elements are
    allocated. *)
Section insert.
Context `{M : Machine} (release : heap -> Z -> result heap) `{!Releases release}.
Context (capacity : nat).
Context (granted : forall k h a n, (base.size h < capacity)%nat -> memalign k h a n <> None).
Lemma view_bytes h p x en :
  part_ok h p x -> evictalgo p = EVICT_LRU -> en ∈ view h p -> 0 <= e_bytes en.
Proof.
  intros Hok Hlru Hen. apply list_elem_of_fmap in Hen as (a & -> & Ha).
  rewrite (lru_member h p x Hok Hlru) in Ha.
  destruct (member_elem _ _ _ _ Hok Ha) as (el & _ & _ & Hel & _ & _ & _ & Hs).
  rewrite (entry_of_some _ _ _ Hel). unfold sizeof_elem in Hs. simpl. lia.
Qed.
Lemma view_zsum h p x :
  part_ok h p x -> evictalgo p = EVICT_LRU -> LruSpec.total (view h p) = psize p - x.
Proof.
  intros Hok Hlru. unfold view. rewrite view_total, (zsum_perm _ _ _ (po_lru _ _ _ Hok Hlru)).
  pose proof (po_size _ _ _ Hok). lia.
Qed.
(** One eviction under LRU: the last of the list goes. *)
Lemma evict_lru_ok spins h k p es :
  part_ok h p es -> evictalgo p = EVICT_LRU -> es <= max_size p < psize p ->
  exists b h1 k1 p1, evict_one release spins h k p es = Ok (h1, k1, p1) /\
    part_ok h1 p1 es /\ frame p p1 /\ lru p = lru p1 ++ [b] /\
    (forall a, a <> b -> h1 !! a = h !! a) /\ (base.size h1 <= base.size h)%nat.
Proof.
  intros Hok Hlru Hno.
  destruct (last (lru p)) as [e|] eqn:Hlast.
  2: { apply last_None in Hlast. pose proof (view_zsum h p es Hok Hlru) as Hz.
       unfold view in Hz. rewrite Hlast in Hz. unfold LruSpec.total in Hz.
       simpl in Hz. rewrite zsum_nil in Hz. lia. }
  pose proof Hlast as Hl. apply last_Some in Hl as [l Hl].
  pose proof (lru_nodup _ _ _ Hok Hlru) as Hnd. rewrite Hl in Hnd.
  apply NoDup_app in Hnd as (_ & Hnot & _).
  assert (e ∈ members p) as He by (rewrite <- lru_member by done; rewrite Hl; set_solver).
  destruct (unlink_ok release h p es e Hok He)
    as (p1 & h1 & Hr1 & Hr2 & Hok1 & Hfr & Hm & Hsz & Hsame & _ & Hrm).
  rewrite (proj2 (Z.eqb_eq _ _) Hlru), Hl, list_remove_app, app_nil_r in Hrm
    by (intros Hb; by destruct (Hnot e Hb); left).
  exists e, h1, k, p1. split_and!; try done; [|by injection Hrm as <-|].
  - unfold evict_one, pick_victim. rewrite (proj2 (Z.ltb_lt _ _)) by lia. simpl.
    rewrite (proj2 (Z.eqb_eq _ _) Hlru), Hlast. simpl. rewrite Hr1. simpl. by rewrite Hr2.
  - apply heap_shrinks. intros a Ha. destruct (decide (a = e)) as [->|Hne].
    + destruct (member_elem h p es e Hok He) as (el & _ & _ & Hel & _). congruence.
    + by rewrite Hsame.
Qed.
(** The eviction loop ends, and keeps the longest recent run that fits. *)
Lemma make_room_view fuel spins m p sz es :
  part_ok (hp m) p es -> evictalgo p = EVICT_LRU -> es <= max_size p ->
  (base.size (hp m) < capacity)%nat -> (length (lru p) < fuel)%nat ->
  exists e raw m' p', make_room release fuel spins m p sz es = Ok (e, raw, m', p') /\
    view (hp m') p' = LruSpec.keep (max_size p - es) (view (hp m) p) /\ hp m' !! e = None.
Proof.
  revert m p. induction fuel as [|fuel IH]; intros m p Hok Hlru Hmax Hcap Hfuel; [lia|].
  rewrite make_room_S. cbv zeta.
  destruct (Z.leb_spec (psize p) (max_size p)) as [Hfit|Hno].
  - destruct (memalign (tick m) (hp m) _ _) as [[a raw']|] eqn:Hal;
      [|by destruct (granted _ _ _ _ Hcap Hal)].
    eexists _, _, _, _. split; [done|]. simpl. split; [|by destruct (memalign_fresh _ _ _ _ _ _ Hal)].
    rewrite keep_all; [done | |].
    + intros en. by apply (view_bytes _ _ es).
    + rewrite (view_zsum _ _ es) by done. lia.
  - destruct (evict_lru_ok spins (hp m) (tick m) p es)
      as (b & h1 & k1 & p1 & -> & Hok1 & Hfr & Hl & Hsame & Hcap1); [done..|lia|]. simpl.
    destruct (frame_fields _ _ Hfr) as (_ & Hmx & Hev).
    rewrite Hl, length_app in Hfuel. simpl in Hfuel.
    destruct (IH (Mem h1 k1) p1) as (e & raw & m' & p' & Hrun & Hv & Hf); simpl;
      rewrite ?Hev, ?Hmx; try done; try lia.
    eexists _, _, _, _. split; [exact Hrun|]. split; [|done]. rewrite Hv, Hmx. simpl.
    assert (b ∉ lru p1) as Hnot.
    { pose proof (lru_nodup _ _ _ Hok Hlru) as Hnd. rewrite Hl in Hnd.
      apply NoDup_app in Hnd as (_ & Hnot & _). intros Hb. by destruct (Hnot b Hb); left. }
    assert (LruSpec.total (view (hp m) p) = psize p - es) as Htot by (by apply view_zsum).
    unfold view in *. rewrite (view_same (hp m) h1 (lru p1))
      by (intros a Ha; apply Hsame; intros ->; done).
    rewrite Hl, fmap_app in Htot |- *. csimpl in Htot. csimpl. symmetry. apply keep_snoc. lia.
Qed.
(** [hash_insert] is the insertion of the cache, and always succeeds for an
    element that fits the partition. *)
Lemma hash_insert_refines spins m p k sz :
  part_wf (hp m) p -> evictalgo p = EVICT_LRU -> size_fits p (elem_size sz) ->
  elem_size sz <= max_size p -> (base.size (hp m) < capacity)%nat ->
  exists e m' p', hash_insert release spins m p k sz = Ok (e, m', p') /\
    inserted_as release m p k sz e m' p' /\
    view (hp m') p' = LruSpec.insert (max_size p) k e (elem_size sz) (view (hp m) p).
Proof.
  intros Hwf Hlru Hfits Hmax Hcap. destruct Hwf as [Hok Hlim Hpol].
  destruct (drop_old_ok release _ _ k Hok Hpol Hlim)
    as (r & p1 & h1 & p2 & Hl & Ht & Hfd & Hrm & Hok2 & Hfr & Hps & Hrest & Hout & Hrl).
  destruct (frame_fields _ _ Hfr) as (_ & Hmx & Hev).
  destruct (hash_insert_steps release spins m p k sz r p1 h1 p2) as [Hok3 ->]; try done.
  { lia. } { unfold size_fits. by rewrite Hmx. } { destruct r; naive_solver. }
  set (p3 := set_size (psize p2 + elem_size sz) p2) in *.
  assert (frame p p3) as Hfr3 by (transitivity p2; [done|]; subst p3; clear; by destruct p2).
  assert (evictalgo p3 = EVICT_LRU) as Hlru3 by (simpl; congruence).
  assert (base.size h1 < capacity)%nat as Hcap1.
  { enough (base.size h1 <= base.size (hp m))%nat by lia. apply heap_shrinks. intros a Ha.
    rewrite Hout; [done|]. intros Hm.
    destruct (member_elem _ _ _ _ Hok Hm) as (el & _ & _ & Hel & _). congruence. }
  assert (length (lru p3) = length (members p3)) as Hlen
    by (by rewrite (po_lru _ _ _ Hok3 Hlru3)).
  destruct (make_room_view (S (length (members p3))) spins (Mem h1 (tick m)) p3 sz (elem_size sz))
    as (e & raw & m' & p4 & Hmr & Hview & Hfresh); try done;
    [simpl; by rewrite Hmx | simpl in *; lia |].
  pose proof (make_room_ok release (S (length (members p3))) spins (base.size h1) (Mem h1 (tick m)) p3 sz _
                Hok3 (or_introl Hlru3) ltac:(lia) ltac:(done)) as Hroom.
  rewrite Hmr in Hroom |- *.
  destruct (link_room_ok release m p p3 h1 k sz e raw m' p4) as (t & _ & Hlk & Hin); try done.
  { apply Hfits. }
  cbn [mbind result_bind]. eexists _, _, _. split; [exact Hlk|]. split; [exact Hin|].
  assert (evictalgo p4 = EVICT_LRU) as Hlru4.
  { destruct Hroom as [_ Hfr4 _ _ _ _ _]. destruct (frame_fields _ _ Hfr4) as (_ & _ & He). congruence. }
  assert (lru p2 = match r with Some e => filter (fun a => a <> e) (lru p) | None => lru p end)
    as Hl2.
  { destruct r as [a|]; simpl in Ht.
    - rewrite (proj2 (Z.eqb_eq _ _) Hlru) in Ht. destruct Hrm as (_ & _ & Hrm).
      specialize (Hrm Hlru). rewrite Ht in Hrm. simpl in Hrm.
      rewrite decide_True in Hrm by done. by injection Hrm.
    - destruct Hrm as [-> _]. by subst p1. }
  assert (view h1 p3 = LruSpec.without k (view (hp m) p)) as Hv3.
  { destruct (found_view _ _ _ Hok Hlru k r Hfd) as [_ ->]. unfold view. simpl. rewrite Hl2.
    apply view_same. intros a Ha. rewrite <- Hl2 in Ha.
    apply Hrest. change (members p2) with (members p3).
    by apply (lru_member h1 p3 (elem_size sz)). }
  simpl in Hview. rewrite Hv3, Hmx in Hview. unfold LruSpec.insert. rewrite <- Hview.
  unfold view at 1. simpl. rewrite (proj2 (Z.eqb_eq _ _) Hlru4). csimpl. f_equal.
  - by rewrite (entry_of_some _ _ _ (lookup_insert_eq _ _ _)).
  - unfold view. apply view_same. intros a Ha. apply lookup_insert_ne. intros <-.
    destruct Hroom as [Hok4 _ _ _ _ _ _].
    rewrite (lru_member _ _ _ Hok4 Hlru4) in Ha.
    destruct (member_elem _ _ _ _ Hok4 Ha) as (el & _ & _ & Hel & _). congruence.
Qed.
End insert.

(** ** Sequences of operations *)
Inductive cache_op := CLookup (k : Z) | CInsert (k sz : Z).

(** What the abstract cache does for a sequence. An insertion answers with the
    address it was given. *)
Inductive cache_exec (max : Z) :
    list cache_op -> list (option Z) -> list entry -> list entry -> Prop :=
  | exec_done c : cache_exec max [] [] c c
  | exec_lookup k ops answers c c' :
      cache_exec max ops answers (snd (LruSpec.lookup k c)) c' ->
      cache_exec max (CLookup k :: ops) (fst (LruSpec.lookup k c) :: answers) c c'
  | exec_insert k sz e ops answers c c' :
      cache_exec max ops answers (LruSpec.insert max k e (elem_size sz) c) c' ->
      cache_exec max (CInsert k sz :: ops) (Some e :: answers) c c'.

(** What the partition does for it. *)
Fixpoint run_ops `{Machine} (release : heap -> Z -> result heap) (spins : nat)
    (ops : list cache_op) (m : mem) (p : partition) : result (list (option Z) * mem * partition) :=
  match ops with
  | [] => mret ([], m, p)
  | CLookup k :: ops =>
      '(r, p) ← hash_lookup (hp m) p k;
      '(rs, m, p) ← run_ops release spins ops m p;
      mret (r :: rs, m, p)
  | CInsert k sz :: ops =>
      '(e, m, p) ← hash_insert release spins m p k sz;
      '(rs, m, p) ← run_ops release spins ops m p;
      mret (Some e :: rs, m, p)
  end.

(** An insertion that a partition of [max] bytes can hold. *)
Definition op_fits (max : Z) (op : cache_op) : Prop :=
  match op with
  | CLookup _ => True
  | CInsert _ sz => 0 <= sz < 2 ^ 31 /\ elem_size sz <= max
  end.

Lemma elem_size_bounds sz : 0 <= sz < 2 ^ 31 -> sizeof_elem + sz <= elem_size sz < sz + 128.
Proof.
  intros Hsz. rewrite elem_size_val by done. unfold sizeof_elem.
  pose proof (Z.div_mod (sz + 127) 64). pose proof (Z.mod_pos_bound (sz + 127) 64). lia.
Qed.

Lemma fits_size p sz :
  0 <= sz < 2 ^ 31 -> max_size p < 2 ^ 63 -> size_fits p (elem_size sz).
Proof.
  intros Hsz Hmax. pose proof (elem_size_bounds sz Hsz). unfold size_fits, sizeof_elem in *. lia.
Qed.

Lemma run_ops_refines `{M : Machine} release `{!Releases release} capacity spins ops m p :
  (forall k h a n, (base.size h < capacity)%nat -> memalign k h a n <> None) ->
  part_wf (hp m) p -> evictalgo p = EVICT_LRU -> max_size p < 2 ^ 63 ->
  Forall (op_fits (max_size p)) ops -> (base.size (hp m) + length ops <= capacity)%nat ->
  exists answers m' p', run_ops release spins ops m p = Ok (answers, m', p') /\
    cache_exec (max_size p) ops answers (view (hp m) p) (view (hp m') p') /\
    part_wf (hp m') p' /\ max_size p' = max_size p.
Proof.
  intros Hgr. revert m p. induction ops as [|[k|k sz] ops IH]; intros m p Hwf Hlru Hmax Hfit Hcap.
  - exists [], m, p. split_and!; try done. constructor.
  - apply Forall_cons in Hfit as [_ Hfit]. simpl in Hcap |- *. destruct Hwf as [Hok Hlim Hpol].
    destruct (hash_lookup_ok _ _ _ k Hok) as (r & p1 & Hl & _ & _ & Hfr & _ & Hps & Hok1).
    destruct (hash_lookup_refines _ _ _ Hok Hlru k) as (r2 & p2 & Hl2 & Hv).
    rewrite Hl in Hl2. injection Hl2 as <- <-. rewrite Hl. simpl.
    destruct (frame_fields _ _ Hfr) as (_ & Hmx & Hev).
    destruct (IH m p1) as (answers & m' & p' & -> & Hex & Hwf' & Hmx'); rewrite ?Hmx, ?Hev; try done.
    { split; [done | lia | by unfold policy_ok; rewrite Hev]. }
    { lia. }
    simpl. eexists _, _, _. split; [done|]. rewrite Hmx in Hex. split_and!; [|done|congruence].
    destruct (LruSpec.lookup k (view (hp m) p)) as [r' c'] eqn:Hlk. injection Hv as -> Hv.
    change r' with (fst (r', c')). rewrite <- Hlk. constructor. rewrite Hlk. simpl. by rewrite <- Hv.
  - apply Forall_cons in Hfit as [[Hsz Hes] Hfit]. simpl in Hcap |- *.
    destruct (hash_insert_refines release capacity Hgr spins m p k sz)
      as (e & m1 & p1 & Hins & Hin & Hv); try done; [by apply fits_size | lia |].
    rewrite Hins. simpl. destruct Hin as [Hwf1 Hfr _ _ _ _ Hout _].
    destruct (frame_fields _ _ Hfr) as (_ & Hmx & Hev).
    assert (base.size (hp m1) <= S (base.size (hp m)))%nat as Hgrow.
    { apply (heap_grows _ _ e). intros a Hne Ha. rewrite Hout; [done | | done]. intros Hm.
      destruct Hwf as [Hok _ _].
      destruct (member_elem _ _ _ _ Hok Hm) as (el & _ & _ & Hel & _). congruence. }
    destruct (IH m1 p1) as (answers & m' & p' & -> & Hex & Hwf' & Hmx');
      rewrite ?Hmx, ?Hev; try done; [lia|].
    simpl. eexists _, _, _. split; [done|]. rewrite Hmx in Hex. split_and!; [|done|congruence].
    constructor. by rewrite <- Hv.
Qed.
