(* ===== verification/PartitionThms.v ===== *)
(** * PartitionThms: what the partition guarantees

    The properties of [partition.c] over the model of [Partition], with a
    concrete machine on which they are exercised. *)
From stdpp Require Import base list gmap.
From Stdlib Require Import ZArith Lia.
From S2P Require Import Prelude Protocol ALock Value Partition PartitionInv PartitionLru.

Local Open Scope Z_scope.

(** ** A machine: a pool of [pool_size] pages, the first free one first *)
Definition pool_size : nat := 32.

Definition page (i : nat) : Z := 4096 * (Z.of_nat i + 1).

Definition first_free (h : heap) : option Z :=
  page <$> head (filter (fun i => h !! page i = None) (seq 0 pool_size)).

Lemma page_inj i j : page i = page j -> i = j.
Proof. unfold page. lia. Qed.

Lemma first_free_fresh h e : first_free h = Some e -> h !! e = None /\ addr_ok e.
Proof.
  unfold first_free. destruct (filter _ _) as [|i l] eqn:Hf; [done|]. intros [= <-].
  assert (i ∈ filter (fun i => h !! page i = None) (seq 0 pool_size)) as Hi
    by (rewrite Hf; by left).
  apply list_elem_of_filter in Hi as [Hi Hlt]. apply elem_of_seq in Hlt. split; [done|].
  unfold addr_ok, page, sizeof_elem, pool_size in *. lia.
Qed.

Lemma first_free_granted h : (base.size h < pool_size)%nat -> first_free h <> None.
Proof.
  intros Hsz. unfold first_free. destruct (filter _ _) as [|i l] eqn:Hf; [|done]. exfalso.
  assert (list_to_set (page <$> seq 0 pool_size) ⊆ dom h) as Hsub.
  { intros a Ha. apply elem_of_list_to_set, list_elem_of_fmap in Ha as (i & -> & Hi).
    apply elem_of_dom. destruct (h !! page i) eqn:Hh; [eauto|].
    assert (i ∈ filter (fun i => h !! page i = None) (seq 0 pool_size)) as Hin
      by (by apply list_elem_of_filter).
    rewrite Hf in Hin. set_solver. }
  apply subseteq_size in Hsub. rewrite size_dom, size_list_to_set, length_fmap, length_seq in Hsub.
  - lia.
  - apply NoDup_fmap_2, NoDup_seq. intros i j. apply page_inj.
Qed.

(** The bytes behind the header of a block for [n] bytes: 64 more than asked for, when
    one cache line is asked for. *)
Definition pool_spare (n : Z) : list Z := replicate (Z.to_nat (Z.max 64 (n - sizeof_elem))) 0.

Lemma pool_spare_enough n : n <= sizeof_elem + Z.of_nat (length (pool_spare n)).
Proof. unfold pool_spare, sizeof_elem. rewrite length_replicate. lia. Qed.

#[export] Program Instance pool_machine : Machine := {
  memalign k h align n := (fun e => (e, Elem 0 0 0 (pool_spare n))) <$> first_free h;
  read_tsc k := 7 * Z.of_nat k
}.
Next Obligation.
  intros k h align n e raw H. simpl in H. destruct (first_free h) as [a|] eqn:Hf; [|done].
  injection H as <- _. by apply first_free_fresh.
Qed.
Next Obligation.
  intros k h align n e raw H. simpl in H. destruct (first_free h) as [a|] eqn:Hf; [|done].
  injection H as _ <-. apply pool_spare_enough.
Qed.

Lemma pool_granted k h al n : (base.size h < pool_size)%nat -> memalign k h al n <> None.
Proof.
  intros Hsz. simpl. pose proof (first_free_granted h Hsz). by destruct (first_free h).
Qed.

(** ** Initialisation *)

(** Memory of the right extent for a lock. *)
Definition lock_memory : alock := ALock (replicate (Z.to_nat MAX_CLIENTS) 0) 0 0.
Definition raw_partition : partition :=
  Partition 0 0 0 0 0 [] [] [] 0 0 0 0 0 lock_memory.

(** [init_hash_partition] returns for every size and number of servers
    the locks can serve, and leaves an empty well-formed partition with its
    limit, one bucket per [nhash] and clear counters. *)
Theorem init_partition_total raw rawlocks ms n ev h :
  0 <= ms < 2 ^ 64 -> 0 < n <= MAX_CLIENTS -> ev = EVICT_LRU \/ ev = EVICT_RANDOM ->
  bucket_count ms n < 2 ^ 31 -> Z.of_nat (length rawlocks) = bucket_count ms n ->
  has_lock (plock raw) <> [] -> (forall l, l ∈ rawlocks -> has_lock l <> []) ->
  exists p, init_hash_partition raw rawlocks ms n ev = Ok p /\
    part_wf h p /\ members p = [] /\ max_size p = ms /\ evictalgo p = ev /\
    nhash p = bucket_count ms n /\ length (table p) = Z.to_nat (nhash p) /\
    nhits p = 0 /\ nlookups p = 0 /\ ninserts p = 0.
Proof.
  intros Hms [Hn Hn'] Hev Hb Hlen Hl Hls.
  destruct (init_locks_ok [plock raw] n) as (ls1 & Hl1 & _); [done | set_solver |].
  simpl in Hl1. destruct (anderson_init (plock raw) n) as [l1|] eqn:Hinit; [|done].
  destruct (init_locks_ok rawlocks n) as (ls & Hls' & _); [done..|].
  assert (exists p, init_hash_partition raw rawlocks ms n ev = Ok p) as [p Hp].
  { unfold init_hash_partition. rewrite (proj2 (Z.ltb_lt _ _)) by done. simpl.
    rewrite (proj2 (Z.ltb_lt _ _)) by done. simpl. rewrite Hinit. simpl.
    rewrite Hlen, Z.eqb_refl. simpl. rewrite Hls'. simpl. eauto. }
  exists p. split; [done|]. destruct (init_ok _ _ _ _ _ _ h Hms Hev Hp) as (Hwf & Hm & Hmx & _ & Hnh).
  assert (evictalgo p = ev /\ nhits p = 0 /\ nlookups p = 0 /\ ninserts p = 0) as (? & ? & ? & ?)
    by (unfold init_hash_partition in Hp; invb Hp; by rewrite <- Hp).
  split_and!; try done. apply (po_table _ _ _ (wf_ok _ _ Hwf)).
Qed.

(** The number of buckets and the number of servers have no common divisor. *)
Lemma bucket_count_coprime ms n : 0 < n -> exists c, bucket_count ms n + 1 = c * n.
Proof. intros Hn. unfold bucket_count. eexists. rewrite Z.sub_add. reflexivity. Qed.

(** Routing is unbiased, as the comment of [init_hash_partition] says:
    over a period of [nservers * nhash] keys every pair of a server and a
    bucket of it is hit by exactly one key. *)
Theorem server_bucket_unbiased raw rawlocks ms n ev p s b :
  init_hash_partition raw rawlocks ms n ev = Ok p -> n < 2 ^ 31 ->
  0 <= s < n -> 0 <= b < nhash p ->
  exists! k, 0 <= k < n * nhash p /\ hash_get_server n k = s /\ hash_get_bucket p k = b.
Proof.
  intros Hp Hn31 Hs Hb.
  assert (nhash p = bucket_count ms n /\ nhash p < 2 ^ 31) as [Hnh Hnb]
    by (unfold init_hash_partition in Hp; invb Hp; simpl in *; lia).
  destruct (bucket_count_coprime ms n) as [c Hc]; [lia|].
  set (m := nhash p) in *. assert (0 < m < 2 ^ 31) as Hm by lia.
  assert (forall k, hash_get_server n k = k mod n) as Hsrv by (intros; apply hash_get_server_mod; lia).
  assert (forall k, hash_get_bucket p k = k mod m) as Hbkt by (intros; by apply bucket_mod).
  assert (m + 1 = c * n) as Hcm by lia.
  assert (forall y, y mod (n * m) mod n = y mod n /\ y mod (n * m) mod m = y mod m)
    as Hmm by (intros y; split; apply Z.mod_mod_divide; [exists m; lia | exists n; lia]).
  exists ((b * (n * c) - s * m) mod (n * m)). split.
  - rewrite Hsrv, Hbkt. destruct (Hmm (b * (n * c) - s * m)) as [-> ->]. split_and!.
    + apply Z.mod_pos_bound. nia.
    + apply Z.mod_pos_bound. nia.
    + replace (b * (n * c) - s * m) with (s + (b * c - s * c) * n) by nia.
      rewrite Z.mod_add by lia. apply Z.mod_small. lia.
    + replace (b * (n * c) - s * m) with (b + (b - s) * m) by nia.
      rewrite Z.mod_add by lia. apply Z.mod_small. lia.
  - intros k (Hk & Hks & Hkb). rewrite Hsrv in Hks. rewrite Hbkt in Hkb.
    assert (k = s + n * (k / n)) as Hk1 by (pose proof (Z.div_mod k n); lia).
    assert (k = b + m * (k / m)) as Hk2 by (pose proof (Z.div_mod k m); lia).
    assert (b * (n * c) - s * m = k + (k / n - c * (k / m)) * (n * m)) as ->.
    { replace b with (k - m * (k / m)) by lia. replace s with (k - n * (k / n)) by lia.
      replace (n * c) with (m + 1) by lia. nia. }
    rewrite Z.mod_add by nia. apply Z.mod_small. lia.
Qed.

(** ** Lookup and insertion under either policy *)

(** On a well-formed partition a lookup never faults, finds exactly the
    element of the table that has the key, and leaves the partition well formed
    with the same buckets. *)
Theorem lookup_finds h p k :
  part_wf h p ->
  exists r p', hash_lookup h p k = Ok (r, p') /\ part_wf h p' /\ table p' = table p /\
    forall e, r = Some e <-> e ∈ members p /\ has_key h e k.
Proof.
  intros [Hok Hlim Hpol].
  destruct (hash_lookup_ok h p 0 k Hok) as (r & p' & Hl & Hf & _ & Hfr & Ht & Hps & Hok').
  destruct (frame_fields _ _ Hfr) as (_ & Hmx & Hev).
  exists r, p'. split_and!; try done.
  - split; [done | lia | unfold policy_ok; by rewrite Hev].
  - intros e. split; [intros ->; exact Hf|]. intros [He Hk]. exact (found_unique _ _ _ _ _ Hok He Hk _ Hf).
Qed.

Section insertion.
Context `{M : Machine} (release : heap -> Z -> result heap) `{!Releases release}.
(** C30: whatever the policy, the allocator, the clock and the release
    function do, an insertion ends in one of three ways: the table is well
    formed again, within its byte limit, holds the new element under its key
    and otherwise only elements it had; or the random search for a victim was
    cut short; or the assertion of the loop failed, which needs an element
    larger than the partition or an allocator that refused with no more elements
    in memory than there were. Nothing is undefined. *)
Theorem insert_outcome spins m p k sz :
  part_wf (hp m) p -> 0 <= sz < 2 ^ 31 -> max_size p < 2 ^ 63 ->
  match hash_insert release spins m p k sz with
  | Ok (e, m', p') =>
      part_wf (hp m') p' /\ psize p' <= max_size p /\ e ∈ members p' /\ has_key (hp m') e k /\
      (forall a, a ∈ members p' -> a <> e -> a ∈ members p /\ ~ has_key (hp m) a k) /\
      (forall a, a ∉ members p -> a <> e -> hp m' !! a = hp m !! a)
  | Fault Blocked => evictalgo p = EVICT_RANDOM
  | Fault AssertFailed => max_size p < elem_size sz \/ refused (base.size (hp m)) sz
  | Fault Undefined => False
  end.
Proof.
  intros Hwf Hsz Hmax.
  pose proof (hash_insert_ok release spins m p k sz Hwf (fits_size p sz Hsz Hmax)) as Hi.
  destruct (hash_insert release spins m p k sz) as [[[e m'] p']|f].
  - destruct Hi as [Hwf' Hfr _ Hm (el & Hel & Hk & _) Hrest Hout _].
    destruct (frame_fields _ _ Hfr) as (_ & Hmx & _).
    split_and!; try done.
    + rewrite <- Hmx. apply Hwf'.
    + by exists el.
    + intros a Ha Hne. by destruct (Hrest a Ha Hne) as (? & _ & ?).
  - unfold no_room in Hi. destruct f; naive_solver.
Qed.
(** An element larger than the partition is never inserted: the call
    faults, it does not return NULL. *)
Theorem insert_too_big spins m p k sz :
  part_wf (hp m) p -> 0 <= sz < 2 ^ 31 -> max_size p < 2 ^ 63 -> max_size p < elem_size sz ->
  exists f, hash_insert release spins m p k sz = Fault f /\
    (evictalgo p = EVICT_LRU -> f = AssertFailed).
Proof.
  intros Hwf Hsz Hmax Hbig.
  pose proof (hash_insert_ok release spins m p k sz Hwf (fits_size p sz Hsz Hmax)) as Hi.
  destruct (hash_insert release spins m p k sz) as [[[e m'] p']|f].
  - exfalso. destruct Hi as [[Hok Hlim _] Hfr _ Hm (el & Hel & _ & Hs) _ _ _].
    destruct (frame_fields _ _ Hfr) as (_ & Hmx & _).
    pose proof (po_size _ _ _ Hok) as Hz.
    enough (esz (hp m') e <= zsum (esz (hp m')) (members p')).
    { unfold esz at 1 in H. rewrite Hel in H. lia. }
    apply zsum_member; [|done]. intros a Ha. pose proof (esz_pos _ _ _ _ Hok Ha).
    unfold sizeof_elem in *. lia.
  - exists f. split; [done|]. intros Hev. destruct Hi as [[_ Hr]|[? _]]; [|done].
    rewrite Hev in Hr. done.
Qed.
(** A lookup of the key just inserted finds the new element; a lookup of
    another key finds what it would have found before, or nothing when the
    insertion evicted it. *)
Theorem insert_then_lookup spins m p k sz e m' p' k' :
  part_wf (hp m) p -> 0 <= sz < 2 ^ 31 -> max_size p < 2 ^ 63 ->
  hash_insert release spins m p k sz = Ok (e, m', p') ->
  exists r p'', hash_lookup (hp m') p' k' = Ok (r, p'') /\
    if decide (k' = k) then r = Some e
    else r = None \/ exists p0, hash_lookup (hp m) p k' = Ok (r, p0).
Proof.
  intros Hwf Hsz Hmax Hins.
  pose proof (hash_insert_ok release spins m p k sz Hwf (fits_size p sz Hsz Hmax)) as Hi.
  rewrite Hins in Hi. destruct Hi as [[Hok' _ _] _ _ Hm (el & Hel & Hk & _) Hrest _ _].
  destruct (hash_lookup_ok _ _ _ k' Hok') as (r & p'' & Hl & Hf & _). exists r, p''.
  split; [done|]. case_decide as Hkk.
  - apply (found_unique _ _ _ k' _ Hok' Hm); [|exact Hf]. exists el. by subst.
  - destruct r as [a|]; [right | by left]. destruct Hf as [Ha Hka].
    assert (a <> e) as Hne.
    { intros ->. destruct Hka as (el' & Hel' & Hk'). congruence. }
    destruct (Hrest a Ha Hne) as (Ha0 & Heq & _).
    assert (has_key (hp m) a k') as Hka0 by (unfold has_key in *; by rewrite <- Heq).
    destruct Hwf as [Hok _ _].
    destruct (hash_lookup_ok _ _ _ k' Hok) as (r0 & p0 & Hl0 & Hf0 & _). exists p0.
    rewrite Hl0. do 2 f_equal. exact (found_unique _ _ _ _ _ Hok Ha0 Hka0 _ Hf0).
Qed.
(** The request that made room. *)
Lemma make_room_request fuel spins m p sz es e raw m' p' :
  make_room release fuel spins m p sz es = Ok (e, raw, m', p') ->
  exists k h, memalign k h (u64 (sizeof_elem + u64 sz)) CACHELINE = Some (e, raw).
Proof.
  revert m p. induction fuel as [|fuel IH]; intros m p Hrun; [done|].
  rewrite make_room_S in Hrun. cbv zeta in Hrun.
  destruct (if psize p <=? max_size p then _ else None) as [[a raw']|] eqn:Hal.
  - injection Hrun as -> -> _ _. destruct (psize p <=? max_size p); [eauto | done].
  - destruct (evict_one release spins (hp m) _ p es) as [[[h1 k1] p1]|]; [|done]. eauto.
Qed.
End insertion.

(** ** The partition as a cache *)

(** C13: under [EVICT_LRU] and with an allocator that grants what it is asked
    for, every sequence of lookups and insertions from an initialised partition
    runs to the end, gives the answers of the abstract least-recently-used
    cache, and leaves the partition reading as that cache. *)
Theorem partition_is_lru_cache `{M : Machine} release `{!Releases release}
    capacity spins raw rawlocks ms n p ops m :
  (forall k h a b, (base.size h < capacity)%nat -> memalign k h a b <> None) ->
  0 <= ms < 2 ^ 63 -> init_hash_partition raw rawlocks ms n EVICT_LRU = Ok p ->
  Forall (op_fits ms) ops -> (base.size (hp m) + length ops <= capacity)%nat ->
  exists answers m' p', run_ops release spins ops m p = Ok (answers, m', p') /\
    cache_exec ms ops answers [] (view (hp m') p') /\ part_wf (hp m') p'.
Proof.
  intros Hgr Hms Hp Hops Hcap.
  assert (0 <= ms < 2 ^ 64) as Hms' by lia.
  destruct (init_ok _ _ _ _ _ _ (hp m) Hms' (or_introl eq_refl) Hp)
    as (Hwf & Hmem & Hmx & _).
  assert (evictalgo p = EVICT_LRU) as Hlru
    by (unfold init_hash_partition in Hp; invb Hp; by rewrite <- Hp).
  assert (view (hp m) p = []) as Hview.
  { unfold view. destruct (lru p) as [|a l] eqn:Hl; [done|].
    assert (a ∈ members p) as Ha
      by (rewrite <- (lru_member (hp m) p 0 (wf_ok _ _ Hwf) Hlru); rewrite Hl; by left).
    rewrite Hmem in Ha. set_solver. }
  destruct (run_ops_refines release capacity spins ops m p) as (answers & m' & p' & Hr & Hex & Hwf' & _);
    rewrite ?Hmx; try done; [lia|].
  rewrite Hmx, Hview in Hex. eauto 10.
Qed.

(** ** Destruction *)

(** Destroying a well-formed partition never trips the byte count
    assertion, releases every element of the table exactly once and touches
    nothing else. *)
Theorem destroy_releases_all release `{!Releases release} h p :
  part_wf h p ->
  exists h', destroy_hash_partition release h p = Ok h' /\
    forall a, h' !! a = if decide (a ∈ members p) then h !! a ≫= after_release else h !! a.
Proof. intros [Hok _ _]. by apply destroy_ok. Qed.

(** ** Instances

    A partition of 512 bytes for two servers, with nine buckets; two elements
    of 192 bytes fit. *)
Definition demo_locks : list alock := replicate 9 lock_memory.

Definition demo (ev : Z) : partition :=
  match init_hash_partition raw_partition demo_locks 512 2 ev with
  | Ok p => p
  | Fault _ => raw_partition
  end.

Definition demo_insert (ev : Z) : option (Z * mem * partition) :=
  match hash_insert mp_release_value_ 8 (Mem ∅ 0) (demo ev) 5 100 with
  | Ok r => Some r
  | Fault _ => None
  end.

Lemma demo_init ev :
  ev = EVICT_LRU \/ ev = EVICT_RANDOM ->
  init_hash_partition raw_partition demo_locks 512 2 ev = Ok (demo ev).
Proof. intros [-> | ->]; reflexivity. Qed.

Lemma demo_wf ev h : ev = EVICT_LRU \/ ev = EVICT_RANDOM -> part_wf h (demo ev).
Proof.
  intros Hev. assert (0 <= 512 < 2 ^ 64) as Hms by done.
  by apply (init_ok _ _ _ _ _ _ h Hms Hev (demo_init ev Hev)).
Qed.

Lemma demo_insert_wf ev e m p :
  ev = EVICT_LRU \/ ev = EVICT_RANDOM -> demo_insert ev = Some (e, m, p) -> part_wf (hp m) p.
Proof.
  intros Hev Hd. unfold demo_insert in Hd.
  pose proof (hash_insert_ok mp_release_value_ 8 (Mem ∅ 0) (demo ev) 5 100
                (demo_wf ev _ Hev)) as Hi.
  destruct (hash_insert _ _ _ _ _ _) as [[[e' m'] p']|]; [|done]. injection Hd as -> -> ->.
  apply in_wf in Hi; [done|]. destruct Hev as [-> | ->]; split; done.
Qed.

(** The first page holds key 5. *)
Definition demo_mem : mem := Mem {[ 4096 := Elem 5 0 192 (pool_spare 64) ]} 1.
Definition demo_one (ev : Z) : partition :=
  match demo_insert ev with Some (_, _, p) => p | None => demo ev end.

Lemma demo_one_wf : part_wf (hp demo_mem) (demo_one EVICT_LRU).
Proof. apply (demo_insert_wf EVICT_LRU 4096 demo_mem); [by left | by vm_compute]. Qed.

Lemma init_partition_total_witness :
  exists p, init_hash_partition raw_partition demo_locks 512 2 EVICT_LRU = Ok p /\
    members p = [] /\ nhash p = 9.
Proof.
  destruct (init_partition_total raw_partition demo_locks 512 2 EVICT_LRU ∅)
    as (p & Hp & _ & Hm & _ & _ & Hn & _).
  - split; reflexivity || discriminate.
  - split; reflexivity || discriminate.
  - left. reflexivity.
  - reflexivity.
  - reflexivity.
  - discriminate.
  - intros l Hl. apply elem_of_replicate in Hl as [-> _]. discriminate.
  - exists p. split; [exact Hp|]. split; [exact Hm | exact Hn].
Defined.

Lemma server_bucket_unbiased_witness :
  exists! k, 0 <= k < 2 * nhash (demo EVICT_LRU) /\ hash_get_server 2 k = 1 /\
    hash_get_bucket (demo EVICT_LRU) k = 4.
Proof.
  apply (server_bucket_unbiased raw_partition demo_locks 512 2 EVICT_LRU).
  - reflexivity.
  - reflexivity.
  - split; reflexivity || discriminate.
  - split; reflexivity || discriminate.
Defined.

Lemma lookup_finds_witness :
  exists r p', hash_lookup (hp demo_mem) (demo_one EVICT_LRU) 5 = Ok (r, p') /\ r = Some 4096.
Proof.
  destruct (lookup_finds (hp demo_mem) (demo_one EVICT_LRU) 5 demo_one_wf)
    as (r & p' & Hl & _ & _ & Hr).
  exists r, p'. split; [exact Hl|]. apply Hr. split; [vm_compute; constructor|].
  eexists. split; [reflexivity | reflexivity].
Defined.

(** Inserting 200 bytes after 100 evicts the older element. *)
Lemma insert_outcome_witness :
  match hash_insert mp_release_value_ 8 demo_mem (demo_one EVICT_LRU) 6 260 with
  | Ok (e, m', p') => psize p' <= 512 /\ length (members p') = 1%nat
  | Fault _ => False
  end.
Proof.
  pose proof (insert_outcome mp_release_value_ 8 demo_mem (demo_one EVICT_LRU) 6 260
                demo_one_wf ltac:(split; reflexivity || discriminate) ltac:(reflexivity)) as H.
  destruct (hash_insert _ _ _ _ _ _) as [[[e m'] p']|f] eqn:Hi.
  - vm_compute in Hi. injection Hi as <- <- <-. destruct H as (_ & H & _).
    split; [exact H | reflexivity].
  - vm_compute in Hi. discriminate.
Defined.

Lemma insert_too_big_witness :
  exists f, hash_insert mp_release_value_ 8 demo_mem (demo_one EVICT_LRU) 6 1000 = Fault f /\
    f = AssertFailed.
Proof.
  destruct (insert_too_big mp_release_value_ 8 demo_mem (demo_one EVICT_LRU) 6 1000 demo_one_wf)
    as (f & Hf & Hl).
  - split; reflexivity || discriminate.
  - reflexivity.
  - reflexivity.
  - exists f. split; [exact Hf | apply Hl; reflexivity].
Defined.

Lemma insert_then_lookup_witness :
  exists r p'', hash_lookup (hp demo_mem) (demo_one EVICT_LRU) 5 = Ok (r, p'') /\ r = Some 4096.
Proof.
  exact (insert_then_lookup mp_release_value_ 8 (Mem ∅ 0) (demo EVICT_LRU) 5 100 4096 demo_mem
           (demo_one EVICT_LRU) 5 (demo_wf EVICT_LRU ∅ (or_introl eq_refl))
           ltac:(split; reflexivity || discriminate) ltac:(reflexivity) ltac:(vm_compute; reflexivity)).
Defined.

(** Two elements fit; the third evicts the one not looked up. *)
Definition demo_ops : list cache_op :=
  [CInsert 1 100; CInsert 2 100; CLookup 1; CInsert 3 100; CLookup 2; CLookup 1].

Lemma partition_is_lru_cache_witness :
  exists answers m' p', run_ops mp_release_value_ 8 demo_ops (Mem ∅ 0) (demo EVICT_LRU)
      = Ok (answers, m', p') /\
    cache_exec 512 demo_ops answers [] (view (hp m') p') /\ part_wf (hp m') p'.
Proof.
  apply (partition_is_lru_cache mp_release_value_ pool_size 8 raw_partition demo_locks 512 2).
  - exact pool_granted.
  - split; reflexivity || discriminate.
  - reflexivity.
  - repeat constructor; discriminate.
  - vm_compute. repeat constructor.
Defined.

Lemma destroy_releases_all_witness :
  exists h', destroy_hash_partition atomic_release_value_
               {[ 4096 := Elem 5 1 192 []; 8192 := Elem 6 1 128 [] ]} (demo_one EVICT_LRU) = Ok h' /\
    h' !! 4096 = None /\ h' !! 8192 = Some (Elem 6 1 128 []).
Proof.
  destruct (destroy_releases_all atomic_release_value_
              {[ 4096 := Elem 5 1 192 []; 8192 := Elem 6 1 128 [] ]} (demo_one EVICT_LRU))
    as (h' & Hd & Hh).
  - destruct demo_one_wf as [Hok Hlim Hpol]. split; [|exact Hlim|exact Hpol].
    apply (part_ok_heap (hp demo_mem)); [|exact Hok].
    intros e He. vm_compute in He. apply list_elem_of_singleton in He as ->.
    intros el Hel. vm_compute in Hel. injection Hel as <-. eexists. split; [reflexivity|].
    split; reflexivity.
  - exists h'. split; [exact Hd|]. split; rewrite Hh; vm_compute; reflexivity.
Defined.
