(* ===== verification/TableOps.v ===== *)
(** * TableOps: what both implementations do on a partition

    The lookups and insertions of [hash_table_server], [locking_hash_lookup] and
    [locking_hash_insert] ([smphashtable.c]) differ in how they release elements
    and in the count they start with; the rest is here. *)
From stdpp Require Import base list gmap.
From Stdlib Require Import ZArith Lia.
From S2P Require Import Prelude Protocol ALock Value Partition.

Local Open Scope Z_scope.

(** [p->nlookups++], [p->nhits++] and [p->ninserts++] on [int]s. *)
Definition count_lookup (p : partition) : partition :=
  set_stats (nhits p) (i32 (nlookups p + 1)) (ninserts p) p.
Definition count_hit (p : partition) : partition :=
  set_stats (i32 (nhits p + 1)) (nlookups p) (ninserts p) p.
Definition count_insert (p : partition) : partition :=
  set_stats (nhits p) (nlookups p) (i32 (ninserts p + 1)) p.

(** [e->ref_count = rc]. *)
Definition store_ref_count (h : heap) (e rc : Z) : result heap :=
  el ← deref (h !! e); mret (<[e := set_ref_count rc el]> h).

(** A lookup up to the test [e != NULL && is_value_ready(e)]: the element that
    passed it. *)
Definition find_value (m : mem) (p : partition) (k : Z) : result (option Z * partition) :=
  let p := count_lookup p in
  '(r, p) ← hash_lookup (hp m) p k;
  match r with
  | None => mret (None, p)
  | Some e => el ← deref (hp m !! e); mret (if is_value_ready el then Some e else None, p)
  end.

(** What is done with an element that passed: the hit is counted and a
    reference taken. *)
Definition hit_value (m : mem) (p : partition) (e : Z) : result (Z * mem * partition) :=
  h ← take_reference (hp m) e;
  mret (value_ptr e, Mem h (tick m), count_hit p).

(** A lookup: the answer, NULL being 0, and what changed. *)
Definition lookup_value (m : mem) (p : partition) (k : Z) : result (Z * mem * partition) :=
  '(r, p) ← find_value m p k;
  match r with
  | Some e => hit_value m p e
  | None => mret (0, m, p)
  end.

(** An insertion with the count [rc]; [hash_insert] never returns NULL. *)
Definition insert_value `{Machine} (release : heap -> Z -> result heap) (rc : Z) (spins : nat)
    (m : mem) (p : partition) (k sz : Z) : result (Z * mem * partition) :=
  let p := count_insert p in
  '(e, m, p) ← hash_insert release spins m p k sz;
  h ← store_ref_count (hp m) e rc;
  mret (value_ptr e, Mem h (tick m), p).

Arguments find_value : simpl never.
Arguments hit_value : simpl never.
Arguments lookup_value : simpl never.
Arguments insert_value : simpl never.
