(* ===== verification/Ownership.v ===== *)
(** * Ownership: a partition and the holders of its elements

    [own] maps every element that is allocated for a partition to who holds
    it. Each operation changes [own] in a way that is fixed by the operation and
    its answer, and the reference counts in the heap follow it, for any
    implementation of [RefCounted]. *)
From stdpp Require Import base list gmap relations.
From Stdlib Require Import ZArith Lia.
From S2P Require Import Prelude Protocol ALock Value Partition PartitionInv PartitionLru.
From S2P Require Import TableOps.

Local Open Scope Z_scope.

Abbreviation ownership := (gmap Z holds).

(** [n] bounds the readers of a value: the lookups served so far. *)
Definition own_ok (n : Z) (s : holds) : Prop :=
  0 <= readers s <= n /\ (writing s = true -> readers s = 0) /\ nobody s = false.

(** ** How operations change the ownership *)

(** What is left of an element that [s] hold. *)
Definition hold (s : holds) : option holds := if nobody s then None else Some s.

Definition own_event (ev : event) (e : Z) (own : ownership) : option ownership :=
  s ← own !! e; s' ← after ev s; Some (partial_alter (fun _ => hold s') e own).

(** A release message stands for the writer that is done or for a reader. *)
Definition release_event (s : holds) : event := if writing s then MarkedReady else Dropped.

Definition own_release (e : Z) (own : ownership) : option ownership :=
  s ← own !! e; own_event (release_event s) e own.

(** What an insertion that returned [e] leaves of the element [a]: out of the
    table unless [p'] lists it. *)
Definition after_insert (p' : partition) (a : Z) (s : holds) : option holds :=
  if in_table s && negb (bool_decide (a ∈ members p'))
  then hold (Holds false (writing s) (readers s)) else Some s.

Definition own_insert (e : Z) (p' : partition) (own : ownership) : ownership :=
  <[e := inserted]> (map_imap (after_insert p') own).

(** A request touches the memory of the elements it takes or gives up, and what
    nobody holds any more is freed. *)
Definition footprint (own : ownership) (h : heap) (own' : ownership) (h' : heap) : Prop :=
  forall a, match own !! a, own' !! a with
            | None, None => h' !! a = h !! a
            | Some _, None => h' !! a = None
            | None, Some _ => h !! a = None
            | Some _, Some _ => True
            end.

(** The ownership after [r] answered with [a] and left the partition [p']. *)
Definition own_next (r : request) (a : list Z) (p' : partition) (own : ownership)
    : option ownership :=
  match r, a with
  | Lookup _, [v] => if v =? 0 then Some own else own_event Found (elem_of_ptr v) own
  | Insert _ _, [v] => Some (own_insert (elem_of_ptr v) p' own)
  | Release e, [] => own_release e own
  | _, _ => None
  end.

(** A client may release what it holds, and insert what the partition can
    take. *)
Definition disciplined (own : ownership) (max : Z) (r : request) : Prop :=
  request_ok r /\
  match r with
  | Lookup _ => True
  | Insert _ sz => elem_size sz <= max
  | Release e => exists s, own !! e = Some s /\ is_Some (after (release_event s) s)
  end.

Lemma footprint_refl own h : footprint own h own h.
Proof. intros a. by destruct (own !! a). Qed.

Section counting.
Context (release : heap -> Z -> result heap) `{!Releases release} `{!RefCounted release}.

Record owned (n : Z) (own : ownership) (m : mem) (p : partition) : Prop := {
  si_wf : part_wf (hp m) p;
  si_members : forall a, a ∈ members p <-> exists s, own !! a = Some s /\ in_table s = true;
  si_held : forall a s, own !! a = Some s -> own_ok n s /\ addr_ok a /\
              exists el, hp m !! a = Some el /\ ref_count el = count s
}.

(** ** Parts of the invariant *)
Lemma part_wf_stats h p a b c : part_wf h p -> part_wf h (set_stats a b c p).
Proof. intros [[] Hl Hp]. by split. Qed.

Lemma own_ok_holds n s : n < 2 ^ 62 -> own_ok n s -> holds_ok s.
Proof. intros Hn (Hr & Hw & Hnb). split; [lia | done]. Qed.

Lemma own_ok_more n s : own_ok n s -> own_ok (n + 1) s.
Proof. intros (Hr & Hw & Hnb). split; [lia | done]. Qed.

Lemma own_ok_after n ev s s' :
  n < 2 ^ 62 -> own_ok n s -> after ev s = Some s' -> nobody s' = false -> own_ok (n + 1) s'.
Proof.
  intros Hn Hok Hs Hnb. destruct (after_ok ev s s' (own_ok_holds n s Hn Hok) Hs) as [Hr Hw].
  destruct Hok as ([Hr1 Hr2] & _). split_and!; [lia | lia | done | done].
Qed.

Lemma after_in_table ev s s' : ev <> Unlinked -> after ev s = Some s' -> in_table s' = in_table s.
Proof.
  intros Hev Hs. destruct ev, s as [[] [] r]; simpl in Hs; try done;
    repeat case_match; simplify_eq/=; done.
Qed.

Lemma nobody_out s : in_table s = true -> nobody s = false.
Proof. destruct s as [[] w r]; done. Qed.

Section events.
Context (n : Z) (own : ownership) (m : mem) (p : partition).
Context (Hn : n < 2 ^ 62) (Hinv : owned n own m p).

(** An element with holders is allocated and not at address 0. *)
Lemma owned_elem a s :
  own !! a = Some s -> exists el, hp m !! a = Some el /\ ref_count el = count s.
Proof. intros Ha. by destruct (si_held _ _ _ _ Hinv a s Ha) as (_ & _ & ?). Qed.

Lemma table_owned a : a ∈ members p -> exists s, own !! a = Some s /\ in_table s = true.
Proof. apply Hinv. Qed.

(** One event other than an eviction. *)
Lemma inv_event ev e own' t :
  ev <> Unlinked -> own_event ev e own = Some own' ->
  exists h', event_op ev (hp m) e = Ok h' /\ owned (n + 1) own' (Mem h' t) p /\
    footprint own (hp m) own' h'.
Proof.
  intros Hev Ho. unfold own_event in Ho.
  destruct (own !! e) as [s|] eqn:He; [|done]. simpl in Ho.
  destruct (after ev s) as [s'|] eqn:Hs; [|done]. simpl in Ho. injection Ho as <-.
  destruct (si_held _ _ _ _ Hinv e s He) as (Hok & Haddr & el & Hel & Hrc).
  pose proof (own_ok_holds n s Hn Hok) as Hh.
  exists (held count s' (hp m) e el).
  split; [by apply (event_op_spec ev s)|].
  pose proof (after_in_table ev s s' Hev Hs) as Htab.
  assert (forall a, held count s' (hp m) e el !! a =
    if decide (a = e) then (fun s => set_ref_count (count s) el) <$> hold s' else hp m !! a) as Hlook.
  { intros a. unfold held, hold. case_decide as Ha; [subst a|]; case_match; simpl.
    - apply lookup_delete_eq.
    - apply lookup_insert_eq.
    - by apply lookup_delete_ne.
    - by apply lookup_insert_ne. }
  set (own' := partial_alter _ e own).
  assert (forall a, own' !! a = if decide (a = e) then hold s' else own !! a) as Hown.
  { intros a. subst own'. case_decide as Ha; [subst a; apply lookup_partial_alter_eq|].
    by apply lookup_partial_alter_ne. }
  clearbody own'. split; [split; simpl|].
  - destruct Hinv as [[Hp Hl Hpol] Hm _]. split; [|done..].
    apply (part_ok_heap (hp m)); [|done]. intros a Ha elx Helx. rewrite Hlook.
    case_decide as Hae; [subst a | by exists elx].
    apply Hm in Ha as (s0 & Hs0 & Ht0). simplify_eq.
    unfold hold. rewrite nobody_out by congruence. simpl. by eexists.
  - intros a. rewrite (si_members _ _ _ _ Hinv). destruct (decide (a = e)) as [->|Hae].
    + specialize (Hown e). rewrite decide_True in Hown by done. rewrite Hown, He.
      unfold hold. split.
      * intros (s0 & Hs0 & Ht). simplify_eq. exists s'. rewrite nobody_out; [|congruence].
        split; [done | congruence].
      * case_match; [naive_solver|]. intros (s0 & Hs0 & Ht). simplify_eq. exists s.
        split; [done | congruence].
    + specialize (Hown a). rewrite decide_False in Hown by done. by rewrite Hown.
  - intros a s0. rewrite Hown, Hlook. case_decide as Hae; [subst a|].
    + unfold hold. case_match eqn:Hnb; [done|]. intros [= <-].
      split; [by eapply own_ok_after|]. split; [done|]. simpl. by eexists.
    + intros Ha. destruct (si_held _ _ _ _ Hinv a s0 Ha) as (Hok0 & Haddr0 & Hel0).
      split; [by apply own_ok_more | done].
  - intros a. rewrite Hown, Hlook. case_decide as Hae; [subst a; rewrite He|].
    + by destruct (hold s').
    + by destruct (own !! a).
Qed.
End events.

(** ** One request *)
Lemma inv_partition n own m p p' :
  owned n own m p -> part_wf (hp m) p' -> members p' = members p -> owned n own m p'.
Proof. intros [Hwf Hm Hh] Hwf' Heq. split; [done | by rewrite Heq | done]. Qed.

Lemma inv_more n own m p : owned n own m p -> owned (n + 1) own m p.
Proof.
  intros [Hwf Hm Hh]. split; [done..|]. intros a s Ha. destruct (Hh a s Ha) as (Hok & Hrest).
  split; [by apply own_ok_more | done].
Qed.

Lemma value_ptr_nonzero e : addr_ok e -> value_ptr e <> 0.
Proof. intros [H1 H2]. unfold value_ptr, sizeof_elem in *. rewrite u64_small; lia. Qed.

Lemma ready_count n s el :
  n < 2 ^ 62 -> own_ok n s -> in_table s = true -> ref_count el = count s ->
  is_value_ready el = negb (writing s).
Proof. intros Hn ([Hr1 Hr2] & _) Ht Hc. apply count_ready; [lia | done..]. Qed.

(** The answer of a lookup: the value of the element in the table that has the
    key and whose writer is done; NULL when there is none. *)
Definition lookup_answer (own : ownership) (h : heap) (k v : Z) : Prop :=
  match decide (v = 0) with
  | left _ => forall e s, own !! e = Some s -> in_table s = true -> has_key h e k ->
                writing s = true
  | right _ => exists e s, v = value_ptr e /\ own !! e = Some s /\ in_table s = true /\
                writing s = false /\ has_key h e k
  end.

(** The element [e] is in the table under the key [k] and ready. *)
Definition visible (own : ownership) (e : Z) : Prop :=
  exists s, own !! e = Some s /\ in_table s = true /\ writing s = false.

Lemma count_lookup_inv n own m p : owned n own m p -> owned n own m (count_lookup p).
Proof. intros Hinv. by apply (inv_partition n own m p); [|apply part_wf_stats, Hinv|]. Qed.

Lemma find_value_ok n own m p k :
  n < 2 ^ 62 -> owned n own m p ->
  exists r p', find_value m p k = Ok (r, p') /\ owned n own m p' /\
    match r with
    | Some e => visible own e /\ has_key (hp m) e k
    | None => lookup_answer own (hp m) k 0
    end /\
    max_size p' = max_size p /\ evictalgo p' = evictalgo p /\ plock p' = plock p.
Proof.
  intros Hn Hinv. pose proof (count_lookup_inv _ _ _ _ Hinv) as Hinv0.
  destruct (si_wf _ _ _ _ Hinv0) as [Hok Hlim Hpol]. unfold find_value.
  destruct (hash_lookup_ok _ _ _ k Hok) as (r & p1 & Hl & Hf & _ & Hfr & Ht & Hps & Hok1).
  destruct (frame_fields _ _ Hfr) as (_ & Hmx & Hev).
  assert (plock p1 = plock p) as Hpl by (by rewrite Hfr).
  assert (owned n own m p1) as Hinv1.
  { apply (inv_partition n own m (count_lookup p)); [done | | unfold members; by rewrite Ht].
    split; [done | simpl in *; lia | unfold policy_ok in *; by rewrite Hev]. }
  rewrite Hl. cbn [mbind result_bind].
  assert (forall a s, own !! a = Some s -> in_table s = true -> a ∈ members (count_lookup p)) as Hin
    by (intros a s Ha Hta; apply (si_members _ _ _ _ Hinv0); eauto).
  destruct r as [e|]; simpl in Hf.
  2: { eexists _, _. split; [done|]. split; [done|]. split; [|done].
       unfold lookup_answer. rewrite decide_True by done. intros a s Ha Hta Hka.
       by destruct (Hf a (Hin a s Ha Hta)). }
  destruct Hf as [He Hk]. pose proof He as He'. apply (table_owned _ _ _ _ Hinv0) in He' as (s & Hs & Htab).
  destruct (si_held _ _ _ _ Hinv e s Hs) as (Hown & Haddr & el & Hel & Hrc).
  rewrite Hel. cbn [deref mbind result_bind]. eexists _, _. split; [done|]. split; [done|].
  rewrite (ready_count n s el Hn Hown Htab Hrc). split; [|done].
  destruct (writing s) eqn:Hw; simpl; [|split; [by exists s | done]].
  unfold lookup_answer. rewrite decide_True by done. intros a s2 Ha Hta Hka.
  assert (a = e) as -> by (by apply (po_keys _ _ _ Hok a e k); [apply (Hin a s2)|..]).
  congruence.
Qed.

Lemma hit_value_ok n own m p e :
  n < 2 ^ 62 -> owned n own m p -> visible own e ->
  exists m' own', hit_value m p e = Ok (value_ptr e, m', count_hit p) /\
    own_event Found e own = Some own' /\ owned (n + 1) own' m' (count_hit p) /\
    footprint own (hp m) own' (hp m').
Proof.
  intros Hn Hinv (s & Hs & Htab & Hw). unfold hit_value.
  destruct (si_held _ _ _ _ Hinv e s Hs) as (Hown & Haddr & el & Hel & Hrc).
  assert (own_event Found e own =
    Some (partial_alter (fun _ => hold (Holds true false (readers s + 1))) e own)) as Hev.
  { unfold own_event. rewrite Hs. simpl. by rewrite Htab, Hw. }
  assert (owned n own m (count_hit p)) as Hinv'
    by (by apply (inv_partition n own m p); [|apply part_wf_stats, Hinv|]).
  destruct (inv_event n own m (count_hit p) Hn Hinv' Found e _ (tick m) ltac:(done) Hev)
    as (h' & Hh' & Hi' & Hfp).
  rewrite event_op_found, Hel in Hh'. simpl in Hh'.
  rewrite (ready_count n s el Hn Hown Htab Hrc), Hw in Hh'. simpl in Hh'.
  rewrite Hh'. eexists _, _. split; [done|]. split; [exact Hev|]. done.
Qed.

Lemma lookup_value_ok n own m p k :
  n < 2 ^ 62 -> owned n own m p ->
  exists v m' p' own', lookup_value m p k = Ok (v, m', p') /\
    own_next (Lookup k) [v] p' own = Some own' /\ owned (n + 1) own' m' p' /\
    lookup_answer own (hp m) k v /\ footprint own (hp m) own' (hp m') /\
    max_size p' = max_size p /\ evictalgo p' = evictalgo p.
Proof.
  intros Hn Hinv. unfold lookup_value.
  destruct (find_value_ok n own m p k Hn Hinv) as (r & p1 & -> & Hinv1 & Hr & Hmx & Hev & _).
  cbn [mbind result_bind]. destruct r as [e|].
  - destruct Hr as [Hv Hk].
    destruct (hit_value_ok n own m p1 e Hn Hinv1 Hv) as (m' & own' & -> & Ho & Hi & Hfp).
    destruct Hv as (s & Hs & Ht & Hw). destruct (si_held _ _ _ _ Hinv e s Hs) as (_ & Haddr & _).
    pose proof (value_ptr_nonzero e Haddr) as Hnz.
    eexists _, _, _, own'. split; [done|]. simpl. rewrite (proj2 (Z.eqb_neq _ _)) by done.
    rewrite elem_of_value_ptr by done. do 2 (split; [done|]). split; [|done].
    unfold lookup_answer. rewrite decide_False by done. by exists e, s.
  - eexists _, _, _, own. split; [done|]. split; [done|]. split; [by apply inv_more|].
    split; [done|]. by split; [apply footprint_refl|].
Qed.

(** ** Insertion: evictions and the new element *)
Section insertion.
Context `{M : Machine} (n : Z) (own : ownership) (m : mem) (p : partition).
Context (Hn : 0 <= n < 2 ^ 62) (Hinv : owned n own m p).
Context (k sz e : Z) (m' : mem) (p' : partition).
Context (Hins : inserted_as release m (count_insert p) k sz e m' p').

(** An element that leaves the table loses that hold and no other. *)
Lemma released_held a s el :
  own !! a = Some s -> in_table s = true -> hp m !! a = Some el -> ref_count el = count s ->
  let s' := Holds false (writing s) (readers s) in
  after_release (release := release) el = (fun s => set_ref_count (count s) el) <$> hold s'.
Proof.
  intros Ha Ht Hel Hrc s'.
  destruct (si_held _ _ _ _ Hinv a s Ha) as (Hok & Haddr & _).
  assert (after Unlinked s = Some s') as Hs' by (simpl; by rewrite Ht).
  pose proof (event_op_spec Unlinked s s' (hp m) a el Haddr (own_ok_holds n s (proj2 Hn) Hok)
                Hs' Hel Hrc) as He.
  rewrite event_op_unlinked, (release_spec _ _ _ Hel) in He. injection He as He.
  apply (f_equal (lookup a)) in He. rewrite lookup_partial_alter_eq in He.
  etrans; [exact He|].
  unfold held, hold. case_match; simpl; [apply lookup_delete_eq | apply lookup_insert_eq].
Qed.

(** The element whose memory was reused, if any, was freed first. *)
Lemma inserted_fresh s : own !! e = Some s -> in_table s = true.
Proof.
  intros He. destruct (in_table s) eqn:Ht; [done|]. exfalso.
  destruct (owned_elem n own m p Hinv e s He) as (el & Hel & _).
  pose proof (in_heap _ _ _ _ _ _ _ _ Hins e) as Hh. rewrite lookup_delete_eq in Hh.
  rewrite decide_False in Hh; [congruence|]. intros [Hm _].
  apply (si_members _ _ _ _ Hinv) in Hm as (s2 & Hs2 & Ht2). congruence.
Qed.

(** Every element but the new one, after the insertion. *)
Lemma other_after a s :
  own !! a = Some s -> a <> e ->
  exists el, hp m !! a = Some el /\ hp m' !! a =
    (fun s' => if in_table s && negb (bool_decide (a ∈ members p'))
               then set_ref_count (count s') el else el) <$> after_insert p' a s.
Proof.
  intros Ha Hne. destruct (owned_elem n own m p Hinv a s Ha) as (el & Hel & Hrc).
  exists el. split; [done|].
  pose proof (in_heap _ _ _ _ _ _ _ _ Hins a) as Hh. rewrite lookup_delete_ne in Hh by done.
  rewrite Hh. unfold after_insert.
  assert (a ∈ members (count_insert p) <-> in_table s = true) as Hm.
  { change (members (count_insert p)) with (members p). rewrite (si_members _ _ _ _ Hinv). split.
    - intros (s2 & Hs2 & Ht). congruence.
    - eauto. }
  destruct (in_table s) eqn:Ht; simpl.
  - case_bool_decide as Hin; simpl.
    + rewrite decide_False by tauto. done.
    + rewrite decide_True by tauto. rewrite Hel. simpl. by apply (released_held a s).
  - rewrite decide_False by (rewrite Hm; naive_solver). done.
Qed.

Lemma table_after a s s' :
  own !! a = Some s -> a <> e -> after_insert p' a s = Some s' ->
  own_ok n s' /\ (in_table s' = true <-> a ∈ members p').
Proof.
  intros Ha Hne Hs'. destruct (si_held _ _ _ _ Hinv a s Ha) as (Hok & _).
  unfold after_insert in Hs'. destruct (in_table s) eqn:Ht; simpl in Hs'.
  - case_bool_decide as Hin; simpl in Hs'.
    + by injection Hs' as <-.
    + unfold hold in Hs'. case_match eqn:Hnb; [done|]. injection Hs' as <-. simpl.
      split; [|done]. destruct Hok as (Hr & Hw & _). done.
  - injection Hs' as <-. split; [done|]. split; [congruence|]. intros Hin.
    destruct (in_rest _ _ _ _ _ _ _ _ Hins a Hin Hne) as (Hm & _).
    change (members (count_insert p)) with (members p) in Hm.
    apply (si_members _ _ _ _ Hinv) in Hm as (s2 & Hs2 & Ht2). congruence.
Qed.

Lemma own_insert_lookup a :
  own_insert e p' own !! a = if decide (a = e) then Some inserted else own !! a ≫= after_insert p' a.
Proof.
  unfold own_insert. case_decide as Ha; [subst a; apply lookup_insert_eq|].
  by rewrite lookup_insert_ne, map_lookup_imap by done.
Qed.

Lemma inserted_inv el :
  hp m' !! e = Some el ->
  owned (n + 1) (own_insert e p' own)
    (Mem (<[e := set_ref_count first_count el]> (hp m')) (tick m')) p'.
Proof.
  intros Hel.
  split; simpl.
  - destruct (in_wf _ _ _ _ _ _ _ _ Hins) as [Hok Hlim Hpol]. split; [|done..].
    apply (part_ok_heap (hp m')); [|done]. intros a _ elx Helx.
    destruct (decide (a = e)) as [->|Hne].
    + rewrite lookup_insert_eq. eexists. split; [done|]. simplify_eq. done.
    + rewrite lookup_insert_ne by done. eauto.
  - intros a. setoid_rewrite own_insert_lookup. case_decide as Hne; [subst a|].
    + split; [by exists inserted|]. intros _. apply Hins.
    + split.
      * intros Hin. destruct (in_rest _ _ _ _ _ _ _ _ Hins a Hin Hne) as (Hm & _).
        change (members (count_insert p)) with (members p) in Hm.
        apply (si_members _ _ _ _ Hinv) in Hm as (s & Hs & Ht). exists s. rewrite Hs. simpl.
        unfold after_insert. rewrite Ht. by rewrite bool_decide_eq_true_2.
      * intros (s' & Hs' & Ht'). destruct (own !! a) as [s|] eqn:Ha; [|done]. simpl in Hs'.
        by apply (table_after a s s' Ha Hne Hs').
  - intros a s'. rewrite own_insert_lookup. case_decide as Hne; [subst a|].
    + intros [= <-]. split; [split; simpl; [lia | done]|]. split; [apply Hins|].
      eexists. split; [apply lookup_insert_eq | symmetry; apply count_inserted].
    + intros Hs'. destruct (own !! a) as [s|] eqn:Ha; [|done]. simpl in Hs'.
      destruct (table_after a s s' Ha Hne Hs') as [Hok _].
      destruct (other_after a s Ha Hne) as (elx & Helx & Hm'). rewrite Hs' in Hm'. simpl in Hm'.
      destruct (si_held _ _ _ _ Hinv a s Ha) as (_ & Haddr & el2 & Hel2 & Hrc).
      split; [by apply own_ok_more|]. split; [done|]. eexists. rewrite lookup_insert_ne by done.
      split; [exact Hm'|].
      case_match eqn:Hc; [done|]. unfold after_insert in Hs'. rewrite Hc in Hs'. congruence.
Qed.
Lemma inserted_footprint el :
  footprint own (hp m) (own_insert e p' own) (<[e := el]> (hp m')).
Proof.
  intros a. rewrite own_insert_lookup. case_decide as Hne; [subst a|].
  - destruct (own !! e) as [s|] eqn:He; [done|].
    pose proof (in_heap _ _ _ _ _ _ _ _ Hins e) as Hh. rewrite lookup_delete_eq in Hh.
    rewrite decide_False in Hh; [done|]. intros [Hm _].
    apply (si_members _ _ _ _ Hinv) in Hm as (s2 & Hs2 & _). congruence.
  - rewrite lookup_insert_ne by done. destruct (own !! a) as [s|] eqn:Ha; simpl.
    + destruct (other_after a s Ha Hne) as (elx & _ & ->). by destruct (after_insert p' a s).
    + pose proof (in_outside _ _ _ _ _ _ _ _ Hins a) as Ho. apply Ho; [|done]. intros Hm.
      apply (si_members _ _ _ _ Hinv) in Hm as (s2 & Hs2 & _). congruence.
Qed.
End insertion.

Lemma insert_value_ok `{M : Machine} spins n own m p k sz :
  0 <= n < 2 ^ 62 -> owned n own m p -> 0 <= sz < 2 ^ 31 -> max_size p < 2 ^ 63 ->
  match insert_value release first_count spins m p k sz with
  | Ok (v, m', p') => exists own', own_next (Insert k sz) [v] p' own = Some own' /\
      owned (n + 1) own' m' p' /\ footprint own (hp m) own' (hp m') /\
      max_size p' = max_size p /\ evictalgo p' = evictalgo p /\
      exists e, v = value_ptr e /\ v <> 0 /\ own' !! e = Some inserted /\ has_key (hp m') e k
  | Fault f => no_room (base.size (hp m)) p sz (elem_size sz) f
  end.
Proof.
  intros Hn Hinv Hsz Hmax. unfold insert_value.
  pose proof (part_wf_stats _ _ (nhits p) (nlookups p) (i32 (ninserts p + 1))
                (si_wf _ _ _ _ Hinv)) as Hwf. fold (count_insert p) in Hwf.
  pose proof (hash_insert_ok release spins m (count_insert p) k sz Hwf
                (fits_size _ _ Hsz Hmax)) as Hi.
  destruct (hash_insert release spins m (count_insert p) k sz) as [[[e m'] p']|f];
    [|exact Hi].
  pose proof (in_elem _ _ _ _ _ _ _ _ Hi) as (el & Hel & Hk & _).
  pose proof (in_addr _ _ _ _ _ _ _ _ Hi) as Haddr.
  destruct (frame_fields _ _ (in_frame _ _ _ _ _ _ _ _ Hi)) as (_ & Hmx & Hev).
  cbn [mbind result_bind]. unfold store_ref_count. rewrite Hel.
  cbn [deref mbind result_bind mret result_ret]. simpl.
  rewrite elem_of_value_ptr by done. eexists. split; [done|]. split; [by eapply inserted_inv|].
  split; [by eapply inserted_footprint|]. split; [done|]. split; [done|].
  exists e. split; [done|]. split; [by apply value_ptr_nonzero|].
  split; [apply lookup_insert_eq|]. eexists. split; [apply lookup_insert_eq | done].
Qed.

(** An insertion that succeeds, as what [hash_insert] did and the count that
    was stored. *)
Lemma insert_value_inserted `{M : Machine} spins n own m p k sz v m' p' :
  owned n own m p -> 0 <= sz < 2 ^ 31 -> max_size p < 2 ^ 63 ->
  insert_value release first_count spins m p k sz = Ok (v, m', p') ->
  exists e m1 el, inserted_as release m (count_insert p) k sz e m1 p' /\ v = value_ptr e /\
    hp m1 !! e = Some el /\ m' = Mem (<[e := set_ref_count first_count el]> (hp m1)) (tick m1).
Proof.
  intros Hinv Hsz Hmax. unfold insert_value.
  pose proof (part_wf_stats _ _ (nhits p) (nlookups p) (i32 (ninserts p + 1))
                (si_wf _ _ _ _ Hinv)) as Hwf. fold (count_insert p) in Hwf.
  pose proof (hash_insert_ok release spins m (count_insert p) k sz Hwf
                (fits_size _ _ Hsz Hmax)) as Hi.
  destruct (hash_insert release spins m (count_insert p) k sz) as [[[e m1] p1]|]; [|done].
  destruct (in_elem _ _ _ _ _ _ _ _ Hi) as (el & Hel & _).
  cbn [mbind result_bind]. unfold store_ref_count. rewrite Hel. cbn [deref mbind result_bind mret result_ret].
  intros Hs. injection Hs as <- <- <-. exists e, m1, el. done.
Qed.

Lemma insert_value_plock `{M : Machine} spins n own m p k sz v m' p' :
  owned n own m p -> 0 <= sz < 2 ^ 31 -> max_size p < 2 ^ 63 ->
  insert_value release first_count spins m p k sz = Ok (v, m', p') -> plock p' = plock p.
Proof.
  intros Hinv Hsz Hmax Hs.
  destruct (insert_value_inserted spins n own m p k sz v m' p' Hinv Hsz Hmax Hs) as (e & m1 & el & Hi & _).
  by rewrite (in_frame _ _ _ _ _ _ _ _ Hi).
Qed.
End counting.

Arguments si_wf {release _ _} n own m p _.
Arguments si_members {release _ _} n own m p _.
Arguments si_held {release _ _} n own m p _.
Arguments inv_event {release _ _} n own m p.
Arguments find_value_ok {release _ _} n own m p k.
Arguments hit_value_ok {release _ _} n own m p e.
Arguments inv_partition {release _ _} n own m p p'.
Arguments lookup_value_ok {release _ _} n own m p k.
Arguments insert_value_plock {release _ _ _} spins n own m p k sz v m' p'.
Arguments insert_value_ok {release _ _ _} spins n own m p k sz.
Arguments insert_value_inserted {release _ _ _} spins n own m p k sz v m' p'.
