(* ===== verification/Server.v ===== *)
(** * Server: the batch loop of [hash_table_server] ([smphashtable.c])

    One request at a time, and the loop over a batch that writes its answers
    into the same buffer it reads the requests from. *)
From stdpp Require Import base list gmap relations.
From Stdlib Require Import ZArith Lia.
From S2P Require Import Prelude Protocol ALock Value Partition PartitionInv PartitionLru.
From S2P Require Import TableOps.

Local Open Scope Z_scope.

Section machine.
Context `{Machine}.

(** The three cases of the switch. The lookup is [lookup_value]; [localbuf[k +
    1]] becomes the [int] argument of [hash_insert]. *)
Definition serve_insert (spins : nat) (m : mem) (p : partition) (k sz : Z)
    : result (Z * mem * partition) :=
  insert_value mp_release_value_ (Z.lor DATA_READY_MASK 2) spins m p k (i32 sz).

Definition serve_release (m : mem) (e : Z) : result mem :=
  h ← mp_release_value_ (hp m) e; mret (Mem h (tick m)).

(** [while (k < count)]: requests are read at [k], answers written at [j]. A
    batch has at most as many rounds as words. *)
Fixpoint serve_batch (fuel spins : nat) (count k j : Z) (buf : list Z) (m : mem) (p : partition)
    : result (Z * list Z * mem * partition) :=
  if k <? count then
    match fuel with
    | O => Fault Blocked
    | S fuel =>
        w ← aget buf k;
        if op_of w =? HASHOP_LOOKUP then
          '(v, m, p) ← lookup_value m p (arg_of w);
          buf ← aset buf j v;
          serve_batch fuel spins count (k + 1) (j + 1) buf m p
        else if op_of w =? HASHOP_INSERT then
          sz ← aget buf (k + 1);
          '(v, m, p) ← serve_insert spins m p (arg_of w) sz;
          buf ← aset buf j v;
          serve_batch fuel spins count (k + INSERT_MSG_LENGTH) (j + 1) buf m p
        else if op_of w =? HASHOP_RELEASE then
          m ← serve_release m (arg_of w);
          serve_batch fuel spins count (k + 1) j buf m p
        else Fault AssertFailed
    end
  else mret (j, buf, m, p).

(** ** The reference: requests as data, answers as a list *)
Definition serve (spins : nat) (r : request) (m : mem) (p : partition)
    : result (list Z * mem * partition) :=
  match r with
  | Lookup k => '(v, m, p) ← lookup_value m p k; mret ([v], m, p)
  | Insert k sz => '(v, m, p) ← serve_insert spins m p k sz; mret ([v], m, p)
  | Release e => m ← serve_release m e; mret ([], m, p)
  end.

Fixpoint serve_all (spins : nat) (rs : list request) (m : mem) (p : partition)
    : result (list Z * mem * partition) :=
  match rs with
  | [] => mret ([], m, p)
  | r :: rs =>
      '(a, m, p) ← serve spins r m p;
      '(b, m, p) ← serve_all spins rs m p;
      mret (a ++ b, m, p)
  end.
End machine.

Arguments serve_insert : simpl never.
Arguments serve_release : simpl never.

(** The words of a sequence of requests. *)
Definition encode_all (rs : list request) : list Z := concat (encode <$> rs).

Section in_place.
Context `{Machine}.

Lemma serve_lookup_step fuel spins count k j buf m p key :
  k < count -> arg_ok key -> aget buf k = Ok (lookup_word key) ->
  serve_batch (S fuel) spins count k j buf m p =
    ('(v, m, p) ← lookup_value m p key; buf ← aset buf j v;
     serve_batch fuel spins count (k + 1) (j + 1) buf m p).
Proof.
  intros Hk Hkey Hw. cbn [serve_batch]. rewrite (proj2 (Z.ltb_lt _ _)), Hw by done.
  destruct (lookup_word_split key Hkey) as [Ho Ha]. simpl. by rewrite Ho, Ha.
Qed.

Lemma serve_insert_step fuel spins count k j buf m p key sz :
  k < count -> arg_ok key -> aget buf k = Ok (Z.lor key HASHOP_INSERT) ->
  aget buf (k + 1) = Ok sz ->
  serve_batch (S fuel) spins count k j buf m p =
    ('(v, m, p) ← serve_insert spins m p key sz; buf ← aset buf j v;
     serve_batch fuel spins count (k + INSERT_MSG_LENGTH) (j + 1) buf m p).
Proof.
  intros Hk Hkey Hw Hsz. cbn [serve_batch]. rewrite (proj2 (Z.ltb_lt _ _)), Hw by done.
  destruct (insert_word_split key Hkey) as [Ho Ha]. simpl. by rewrite Ho, Ha, Hsz.
Qed.

Lemma serve_release_step fuel spins count k j buf m p e :
  k < count -> arg_ok e -> aget buf k = Ok (release_word e) ->
  serve_batch (S fuel) spins count k j buf m p =
    (m ← serve_release m e; serve_batch fuel spins count (k + 1) j buf m p).
Proof.
  intros Hk He Hw. cbn [serve_batch]. rewrite (proj2 (Z.ltb_lt _ _)), Hw by done.
  destruct (release_word_split e He) as [Ho Ha]. simpl. by rewrite Ho, Ha.
Qed.
(** Where the loop stands: [done] answers written over the first words of
    [orig], the requests still to be read at [k]. *)
Lemma buffer_read (done orig rest : list Z) k w :
  (length done <= k)%nat -> drop k orig = w :: rest ->
  aget (done ++ drop (length done) orig) (Z.of_nat k) = Ok w.
Proof.
  intros Hk Hd. apply aget_Ok. rewrite Nat2Z.id, lookup_app_r, lookup_drop by done.
  split; [lia|]. replace (length done + (k - length done))%nat with (k + 0)%nat by lia.
  by rewrite <- lookup_drop, Hd.
Qed.

Lemma buffer_write (done orig : list Z) v :
  (length done < length orig)%nat ->
  aset (done ++ drop (length done) orig) (Z.of_nat (length done)) v =
    Ok ((done ++ [v]) ++ drop (length (done ++ [v])) orig).
Proof.
  intros Hl. rewrite aset_in by (rewrite length_app, length_drop; lia).
  rewrite Nat2Z.id, insert_app_r_alt, Nat.sub_diag by done. f_equal.
  rewrite <- app_assoc, length_app. f_equal. simpl. rewrite Nat.add_1_r.
  destruct (lookup_lt_is_Some_2 orig (length done)) as [w Hw]; [done|].
  by rewrite (drop_S _ _ _ Hw).
Qed.

Lemma drop_more {A} (orig : list A) k w rest : drop k orig = w :: rest -> drop (S k) orig = rest.
Proof. intros Hd. rewrite <- Nat.add_1_r, <- drop_drop, Hd. done. Qed.

Lemma drop_short {A} (orig : list A) k w rest : drop k orig = w :: rest -> (k < length orig)%nat.
Proof. intros Hd. apply (f_equal length) in Hd. rewrite length_drop in Hd. simpl in Hd. lia. Qed.

(** Serving the request at [k], whatever it is, and going on behind it. *)
Lemma serve_batch_request r fuel spins count (done orig rest : list Z) k m p :
  request_ok r -> (k < count)%nat -> (length done <= k)%nat -> drop k orig = encode r ++ rest ->
  serve_batch (S fuel) spins (Z.of_nat count) (Z.of_nat k)
    (Z.of_nat (length done)) (done ++ drop (length done) orig) m p =
    ('(a, m, p) ← serve spins r m p;
     serve_batch fuel spins (Z.of_nat count) (Z.of_nat (k + length (encode r)))
       (Z.of_nat (length (done ++ a))) ((done ++ a) ++ drop (length (done ++ a)) orig) m p).
Proof.
  intros Hr Hlt Hk Hd. destruct r as [key|key sz|e]; simpl in Hr, Hd.
  - pose proof (drop_short _ _ _ _ Hd). pose proof (buffer_read _ _ _ _ _ Hk Hd) as Hw.
    rewrite (serve_lookup_step _ _ _ _ _ _ _ _ key) by (done || lia). simpl.
    destruct (lookup_value m p key) as [[[v m1] p1]|]; [|done]. cbn [mbind result_bind].
    rewrite buffer_write by lia. cbn [mbind result_bind mret result_ret].
    f_equal; rewrite ?length_app; simpl; lia.
  - destruct Hr as [Hkey _]. pose proof (drop_short _ _ _ _ Hd).
    pose proof (buffer_read _ _ _ _ _ Hk Hd) as Hw. pose proof (drop_more _ _ _ _ Hd) as Hd2.
    assert (length done <= S k)%nat as Hk' by lia.
    pose proof (buffer_read _ _ _ _ _ Hk' Hd2) as Hw2. rewrite Nat2Z.inj_succ in Hw2.
    rewrite (serve_insert_step _ _ _ _ _ _ _ _ key (u64 sz)) by (done || lia). simpl.
    assert (serve_insert spins m p key (u64 sz) = serve_insert spins m p key sz) as ->
      by (unfold serve_insert; by rewrite i32_u64).
    destruct (serve_insert spins m p key sz) as [[[v m1] p1]|]; [|done]. cbn [mbind result_bind].
    rewrite buffer_write by lia. cbn [mbind result_bind mret result_ret].
    change INSERT_MSG_LENGTH with 2. f_equal; rewrite ?length_app; simpl; lia.
  - pose proof (drop_short _ _ _ _ Hd). pose proof (buffer_read _ _ _ _ _ Hk Hd) as Hw.
    rewrite (serve_release_step _ _ _ _ _ _ _ _ e) by (done || lia). simpl.
    destruct (serve_release m e) as [m1|]; [|done]. cbn [mbind result_bind mret result_ret].
    rewrite app_nil_r. f_equal; simpl; lia.
Qed.

Lemma serve_answers spins r m p a m' p' :
  serve spins r m p = Ok (a, m', p') -> (length a <= length (encode r))%nat.
Proof.
  destruct r; simpl; intros Hs; apply bind_Ok in Hs as (x & _ & Hs);
    try (destruct x as [[x m1] p1]); simpl in Hs; injection Hs as <- _ _; simpl; lia.
Qed.

Lemma serve_batch_in_place rs spins fuel (done orig rest : list Z) k m p :
  Forall request_ok rs -> (length rs <= fuel)%nat -> (length done <= k)%nat ->
  drop k orig = encode_all rs ++ rest ->
  serve_batch fuel spins (Z.of_nat (k + length (encode_all rs))) (Z.of_nat k)
    (Z.of_nat (length done)) (done ++ drop (length done) orig) m p =
    ('(b, m, p) ← serve_all spins rs m p;
     mret (Z.of_nat (length (done ++ b)), (done ++ b) ++ drop (length (done ++ b)) orig, m, p)).
Proof.
  revert fuel done k m p. induction rs as [|r rs IH]; intros fuel done k m p Hok Hfuel Hk Hd.
  - simpl. rewrite Nat.add_0_r, app_nil_r.
    destruct fuel; cbn [serve_batch]; by rewrite Z.ltb_irrefl.
  - apply Forall_cons in Hok as [Hr Hok]. destruct fuel as [|fuel]; simpl in Hfuel; [lia|].
    change (encode_all (r :: rs)) with (encode r ++ encode_all rs) in *.
    assert (1 <= length (encode r))%nat by (destruct r; simpl; lia).
    rewrite length_app, <- app_assoc in *.
    rewrite (serve_batch_request r _ _ _ _ _ (encode_all rs ++ rest)) by (done || lia).
    cbn [serve_all]. destruct (serve spins r m p) as [[[a m1] p1]|] eqn:Hs; [|done].
    cbn [mbind result_bind]. apply serve_answers in Hs.
    rewrite Nat.add_assoc, IH; [| done | lia | rewrite length_app; lia |].
    2: { by rewrite <- drop_drop, Hd, drop_app_length. }
    destruct (serve_all spins rs m1 p1) as [[[b m'] p']|]; [|done].
    cbn [mbind result_bind mret result_ret]. by rewrite <- app_assoc.
Qed.
End in_place.
