(* ===== verification/ServerThms.v ===== *)
(** * ServerThms: what a server guarantees its clients

    The batch loop against the reference, and the life of the elements of one
    server under any sequence of requests in which clients release only what
    they hold. *)
From stdpp Require Import base list gmap relations.
From Stdlib Require Import ZArith Lia.
From S2P Require Import Prelude Protocol ALock MPBuffers Value Partition PartitionInv.
From S2P Require Import PartitionLru PartitionThms TableOps Ownership Server.

Local Open Scope Z_scope.

(** The invariant of a server: the counts are those of message passing. *)
Abbreviation server_inv := (owned mp_release_value_).

Lemma serve_release_ok n own m p e own' :
  n < 2 ^ 62 -> server_inv n own m p -> own_release e own = Some own' ->
  exists m', serve_release m e = Ok m' /\ server_inv (n + 1) own' m' p /\
    footprint own (hp m) own' (hp m').
Proof.
  intros Hn Hinv Ho. unfold own_release in Ho. destruct (own !! e) as [s|] eqn:He; [|done].
  simpl in Ho. unfold serve_release.
  destruct (inv_event n own m p Hn Hinv (release_event s) e own' (tick m)) as (h' & Hh' & Hinv' & Hfp);
    [unfold release_event; by case_match | done |].
  exists (Mem h' (tick m)). split; [|done].
  change (event_op (release_event s) (hp m) e) with (mp_event (release_event s) (hp m) e) in Hh'.
  unfold release_event in Hh'. destruct (writing s); simpl in Hh'; by rewrite Hh'.
Qed.

Lemma serve_insert_ok `{M : Machine} spins n own m p k sz :
  0 <= n < 2 ^ 62 -> server_inv n own m p -> 0 <= sz < 2 ^ 31 -> max_size p < 2 ^ 63 ->
  match serve_insert spins m p k sz with
  | Ok (v, m', p') => exists own', own_next (Insert k sz) [v] p' own = Some own' /\
      server_inv (n + 1) own' m' p' /\ footprint own (hp m) own' (hp m') /\
      max_size p' = max_size p /\ evictalgo p' = evictalgo p /\
      exists e, v = value_ptr e /\ v <> 0 /\ own' !! e = Some inserted /\ has_key (hp m') e k
  | Fault f => no_room (base.size (hp m)) p sz (elem_size sz) f
  end.
Proof.
  intros Hn Hinv Hsz Hmax. unfold serve_insert. rewrite i32_small by lia.
  change (Z.lor DATA_READY_MASK 2) with (first_count (release := mp_release_value_)).
  by apply insert_value_ok.
Qed.

Section server.
Context `{M : Machine} (spins : nat).

(** What serving one request does, faults included. *)
Lemma serve_ok n own m p r :
  0 <= n < 2 ^ 62 -> server_inv n own m p -> max_size p < 2 ^ 63 ->
  disciplined own (max_size p) r ->
  match serve spins r m p with
  | Ok (a, m', p') => exists own', own_next r a p' own = Some own' /\
      server_inv (n + 1) own' m' p' /\ footprint own (hp m) own' (hp m') /\
      max_size p' = max_size p /\ evictalgo p' = evictalgo p
  | Fault Undefined => False
  | Fault Blocked => evictalgo p = EVICT_RANDOM
  | Fault AssertFailed => exists k sz, r = Insert k sz /\ refused (base.size (hp m)) sz
  end.
Proof.
  intros Hn Hinv Hmax [Hr Hd]. destruct r as [k|k sz|e]; simpl.
  - destruct (lookup_value_ok n own m p k (proj2 Hn) Hinv)
      as (v & m' & p' & own' & -> & Ho & Hi & _ & Hfp & Hmx & Hev).
    cbn [mbind result_bind mret result_ret]. exists own'. done.
  - simpl in Hr. pose proof (serve_insert_ok spins n own m p k sz Hn Hinv ltac:(lia) Hmax) as Hi.
    destruct (serve_insert spins m p k sz) as [[[v m'] p']|f]; cbn [mbind result_bind].
    + destruct Hi as (own' & Ho & Hi & Hfp & Hmx & Hev & _). exists own'. done.
    + destruct Hi as [[-> Hr']|[-> [Hr'|Hr']]]; [done | lia | eauto].
  - destruct Hd as (s & Hs & s' & Hs').
    assert (exists own', own_release e own = Some own') as [own' Ho].
    { unfold own_release, own_event. rewrite Hs. cbn [mbind option_bind]. rewrite Hs'. eauto. }
    destruct (serve_release_ok n own m p e own' (proj2 Hn) Hinv Ho) as (m' & -> & Hi & Hfp).
    cbn [mbind result_bind mret result_ret]. exists own'. done.
Qed.

(** Sequences of requests, each allowed when it is made. *)
Inductive served : list request -> ownership * mem * partition ->
    ownership * mem * partition -> Prop :=
  | served_none x : served [] x x
  | served_more rs own m p r a own1 m1 p1 x :
      disciplined own (max_size p) r -> serve spins r m p = Ok (a, m1, p1) ->
      own_next r a p1 own = Some own1 -> served rs (own1, m1, p1) x ->
      served (r :: rs) (own, m, p) x.

Lemma footprint_trans (own1 own2 : ownership) (h1 h2 h0 : heap) :
  footprint own1 h1 own2 h2 ->
  (forall a, own1 !! a = None -> h1 !! a = h0 !! a) -> (forall a, is_Some (own1 !! a) -> h0 !! a = None) ->
  (forall a, own2 !! a = None -> h2 !! a = h0 !! a) /\
  (forall a, is_Some (own2 !! a) -> h0 !! a = None).
Proof.
  intros Hf Hn Hs. split; intros a Ha; specialize (Hf a); specialize (Hn a); specialize (Hs a).
  - rewrite Ha in Hf. destruct (own1 !! a); [|by rewrite Hf, Hn]. rewrite Hf, Hs; [done|eauto].
  - destruct Ha as [s Ha]. rewrite Ha in Hf. destruct (own1 !! a); [apply Hs; eauto|].
    by rewrite <- Hn.
Qed.

Lemma served_inv (h0 : heap) rs x y n :
  served rs x y -> 0 <= n -> n + Z.of_nat (length rs) < 2 ^ 62 ->
  server_inv n x.1.1 x.1.2 x.2 -> max_size x.2 < 2 ^ 63 ->
  (forall a, x.1.1 !! a = None -> hp x.1.2 !! a = h0 !! a) ->
  (forall a, is_Some (x.1.1 !! a) -> h0 !! a = None) ->
  server_inv (n + Z.of_nat (length rs)) y.1.1 y.1.2 y.2 /\ max_size y.2 = max_size x.2 /\
  evictalgo y.2 = evictalgo x.2 /\
  (forall a, y.1.1 !! a = None -> hp y.1.2 !! a = h0 !! a) /\
  (forall a, is_Some (y.1.1 !! a) -> h0 !! a = None).
Proof.
  intros Hs. revert n. induction Hs as [x|rs own m p r a own1 m1 p1 x Hd Hr Ho Hs IH];
    intros n Hn Hlen Hinv Hmax Hout Hin; simpl in *.
  - rewrite Z.add_0_r. done.
  - pose proof (serve_ok n own m p r ltac:(lia) Hinv Hmax Hd) as Hok. rewrite Hr in Hok.
    destruct Hok as (own1' & Ho' & Hinv1 & Hfp & Hmx & Hev). rewrite Ho in Ho'. injection Ho' as <-.
    destruct (footprint_trans _ _ _ _ h0 Hfp Hout Hin) as [Hout1 Hin1].
    destruct (IH (n + 1)) as (Hi & Hmx' & Hev' & Hrest); try done; try lia.
    split_and!; [| congruence | congruence | apply Hrest | apply Hrest].
    replace (n + Z.of_nat (S (length rs))) with (n + 1 + Z.of_nat (length rs)) by lia.
    done.
Qed.

(** C10: from an initialised partition, after any sequence of requests in
    which clients release only what they hold, the next such request is served
    without touching freed or foreign memory; it can only fail in the random
    search for a victim or for want of memory. Whatever somebody holds is
    allocated and counted, and what nobody holds is as it was before the server
    started: freed, and freed once. *)
Theorem server_run_safe raw rawlocks ms n ev p0 h0 t0 rs own m p :
  init_hash_partition raw rawlocks ms n ev = Ok p0 -> ev = EVICT_LRU \/ ev = EVICT_RANDOM ->
  0 <= ms < 2 ^ 63 -> Z.of_nat (length rs) < 2 ^ 62 ->
  served rs (∅, Mem h0 t0, p0) (own, m, p) ->
  (forall a s, own !! a = Some s -> nobody s = false /\ h0 !! a = None /\
     exists el, hp m !! a = Some el /\ ref_count el = mp_count s) /\
  (forall a, own !! a = None -> hp m !! a = h0 !! a) /\
  (forall r, disciplined own ms r ->
     match serve spins r m p with
     | Ok (a, m', p') => is_Some (own_next r a p' own)
     | Fault Undefined => False
     | Fault Blocked => ev = EVICT_RANDOM
     | Fault AssertFailed => exists k sz, r = Insert k sz /\ refused (base.size (hp m)) sz
     end).
Proof.
  intros Hp Hev Hms Hlen Hs. assert (0 <= ms < 2 ^ 64) as Hms' by lia.
  destruct (init_ok _ _ _ _ _ _ h0 Hms' Hev Hp) as (Hwf & Hmem & Hmx & _).
  assert (evictalgo p0 = ev) as Hev0 by (unfold init_hash_partition in Hp; invb Hp; by rewrite <- Hp).
  destruct (served_inv h0 rs _ _ 0 Hs) as (Hinv & Hmx' & Hev' & Hout & Hin); simpl in *;
    try done; try lia.
  { split; simpl; [done | | by intros a s]. rewrite Hmem. intros a.
    split; [set_solver | naive_solver]. }
  { intros a [s Ha]. done. }
  split_and!; [|done|].
  - intros a s Ha. destruct (si_held _ _ _ _ Hinv a s Ha) as ((_ & _ & Hnb) & _ & Hel).
    split_and!; [done | apply Hin; eauto | done].
  - intros r Hd.
    pose proof (serve_ok (0 + Z.of_nat (length rs)) own m p r ltac:(lia) Hinv) as Hok.
    rewrite Hmx', Hmx, Hev', Hev0 in Hok. specialize (Hok ltac:(lia) Hd).
    destruct (serve spins r m p) as [[[a m'] p']|[]]; naive_solver.
Qed.

(** C26: a lookup answers the value of the element that is in the table under
    the key and ready; it answers NULL exactly when there is none. *)
Theorem server_lookup_answer n own m p k :
  0 <= n < 2 ^ 62 -> server_inv n own m p ->
  exists v m' p', serve spins (Lookup k) m p = Ok ([v], m', p') /\
    if decide (v = 0)
    then forall e s, own !! e = Some s -> in_table s = true -> has_key (hp m) e k -> writing s = true
    else exists e s, v = value_ptr e /\ own !! e = Some s /\ in_table s = true /\
           writing s = false /\ has_key (hp m) e k.
Proof.
  intros Hn Hinv.
  destruct (lookup_value_ok n own m p k (proj2 Hn) Hinv) as (v & m' & p' & own' & Hl & _ & _ & Ha & _).
  exists v, m', p'. simpl. rewrite Hl. split; [done|]. exact Ha.
Qed.

(** C27: a value is invisible until its writer marks it ready and visible from
    then on: after an insertion of [k] a lookup of [k] answers NULL, and after
    the release message of the writer it answers the inserted value. *)
Theorem ready_makes_visible n own m p k sz v m1 p1 :
  0 <= n < 2 ^ 60 -> server_inv n own m p -> 0 < sz < 2 ^ 31 -> max_size p < 2 ^ 63 ->
  serve spins (Insert k sz) m p = Ok ([v], m1, p1) ->
  (exists m2 p2, serve spins (Lookup k) m1 p1 = Ok ([0], m2, p2)) /\
  (exists m2, serve spins (Release (elem_of_ptr v)) m1 p1 = Ok ([], m2, p1) /\
     exists m3 p3, serve spins (Lookup k) m2 p1 = Ok ([v], m3, p3)).
Proof.
  intros Hn Hinv Hsz Hmax Hs. simpl in Hs.
  pose proof (serve_insert_ok spins n own m p k sz ltac:(lia) Hinv ltac:(lia) Hmax) as Hi.
  destruct (serve_insert spins m p k sz) as [[[v' m1'] p1']|]; [|done].
  cbn [mbind result_bind mret result_ret] in Hs. injection Hs as -> -> ->.
  destruct Hi as (own1 & _ & Hinv1 & _ & _ & _ & e & Hv & Hnz & He & Hk).
  destruct (si_held _ _ _ _ Hinv1 e inserted He) as (_ & Haddr & _).
  pose proof (po_keys _ _ _ (wf_ok _ _ (si_wf _ _ _ _ Hinv1))) as Hkeys.
  assert (e ∈ members p1) as Hme by (apply (si_members _ _ _ _ Hinv1); eauto).
  split.
  - destruct (lookup_value_ok (n + 1) own1 m1 p1 k ltac:(lia) Hinv1)
      as (w & m2 & p2 & own2 & Hl & _ & _ & Ha & _).
    exists m2, p2. simpl. rewrite Hl. unfold lookup_answer in Ha. case_decide as Hw; [by subst|].
    destruct Ha as (e2 & s2 & _ & He2 & Ht2 & Hw2 & Hk2).
    assert (e2 = e) as ->.
    { apply (Hkeys e2 e k); try done. apply (si_members _ _ _ _ Hinv1). eauto. }
    rewrite He in He2. by injection He2 as <-.
  - assert (own_release e own1 = Some (partial_alter (fun _ => Some (Holds true false 0)) e own1)) as Ho
      by (unfold own_release, own_event; by rewrite He).
    destruct (serve_release_ok (n + 1) own1 m1 p1 e _ ltac:(lia) Hinv1 Ho) as (m2 & Hr & Hinv2 & _).
    exists m2. rewrite Hv, elem_of_value_ptr by done. simpl. rewrite Hr. split; [done|].
    destruct (lookup_value_ok (n + 1 + 1) _ m2 p1 k ltac:(lia) Hinv2)
      as (w & m3 & p3 & own3 & Hl & _ & _ & Ha & _).
    exists m3, p3. rewrite Hl. unfold lookup_answer in Ha.
    assert (has_key (hp m2) e k) as Hk2.
    { unfold serve_release in Hr. destruct (mp_release_value_ (hp m1) e) as [h2|] eqn:Hh; [|done].
      injection Hr as <-. destruct Hk as (el & Hel & <-).
      destruct (si_held _ _ _ _ Hinv1 e inserted He) as (_ & _ & el1 & Hel1 & Hc). simplify_eq.
      unfold mp_release_value_ in Hh. rewrite Hel in Hh. simpl in Hh. rewrite Hc in Hh.
      rewrite store_or_free_spec in Hh. injection Hh as <-.
      eexists. split; [apply lookup_insert_eq | done]. }
    assert (partial_alter (fun _ => Some (Holds true false 0)) e own1 !! e
            = Some (Holds true false 0)) as He2 by (by rewrite lookup_partial_alter_eq).
    case_decide as Hw; [by specialize (Ha e _ He2 eq_refl Hk2)|].
    destruct Ha as (e2 & s2 & -> & He3 & Ht3 & _ & Hk3). simpl. do 3 f_equal.
    assert (e2 = e) as ->; [|done].
    apply (po_keys _ _ _ (wf_ok _ _ (si_wf _ _ _ _ Hinv2)) e2 e k); try done.
    apply (si_members _ _ _ _ Hinv2). eauto.
Qed.

(** C21: the loop over a batch, which overwrites the requests with the answers
    while it reads them, gives what serving the requests one by one gives: for
    every batch of well-formed requests the answers in order, the rest of the
    buffer as it was, the same table and memory, and the same fault if there is
    one. *)
Theorem batch_in_place rs buf rest m p :
  Forall request_ok rs -> buf = encode_all rs ++ rest -> (length rs <= 8)%nat ->
  serve_batch 8 spins (Z.of_nat (length (encode_all rs))) 0 0 buf m p =
    ('(answers, m, p) ← serve_all spins rs m p;
     mret (Z.of_nat (length answers), answers ++ drop (length answers) buf, m, p)).
Proof.
  intros Hok -> Hlen.
  exact (serve_batch_in_place rs spins 8 [] (encode_all rs ++ rest) rest 0 m p Hok Hlen
           (le_n 0) eq_refl).
Qed.
End server.

(** ** Instances, on the partition and the machine of [PartitionThms] *)
Definition after_one : option (list Z * mem * partition) :=
  match serve 8 (Insert 5 100) (Mem ∅ 0) (demo EVICT_LRU) with
  | Ok r => Some r
  | Fault _ => None
  end.
Definition one_mem : mem := match after_one with Some (_, m, _) => m | None => Mem ∅ 0 end.
Definition one_part : partition := match after_one with Some (_, _, p) => p | None => demo EVICT_LRU end.
Definition one_own : ownership := own_insert 4096 one_part ∅.

Lemma empty_inv : server_inv 0 ∅ (Mem ∅ 0) (demo EVICT_LRU).
Proof.
  split; [apply demo_wf; by left | | by intros a s].
  intros a. split; [|naive_solver]. intros Ha. vm_compute in Ha. set_solver.
Qed.

Lemma one_served : served 8 [Insert 5 100] (∅, Mem ∅ 0, demo EVICT_LRU) (one_own, one_mem, one_part).
Proof.
  apply (served_more 8 [] ∅ (Mem ∅ 0) (demo EVICT_LRU) (Insert 5 100) [value_ptr 4096]
           one_own one_mem one_part); [| by vm_compute | done | constructor].
  split; [split; split; done | by vm_compute].
Qed.

Lemma one_inv : server_inv 1 one_own one_mem one_part.
Proof.
  destruct (served_inv 8 ∅ _ _ _ 0 one_served) as (Hi & _); try done.
  apply empty_inv.
Qed.

Lemma server_run_safe_witness :
  exists el, hp one_mem !! 4096 = Some el /\ ref_count el = Z.lor DATA_READY_MASK 2.
Proof.
  destruct (server_run_safe 8 raw_partition demo_locks 512 2 EVICT_LRU (demo EVICT_LRU) ∅ 0
              [Insert 5 100] one_own one_mem one_part) as (H & _).
  - reflexivity.
  - left. reflexivity.
  - split; reflexivity || discriminate.
  - reflexivity.
  - exact one_served.
  - destruct (H 4096 inserted eq_refl) as (_ & _ & Hel). exact Hel.
Defined.

Lemma server_lookup_answer_witness :
  exists v m' p', serve 8 (Lookup 5) one_mem one_part = Ok ([v], m', p') /\ v = 0.
Proof.
  destruct (server_lookup_answer 8 1 one_own one_mem one_part 5) as (v & m' & p' & Hs & _).
  - split; reflexivity || discriminate.
  - exact one_inv.
  - exists v, m', p'. split; [exact Hs|]. vm_compute in Hs. injection Hs as <- _ _. reflexivity.
Defined.

Lemma ready_makes_visible_witness :
  exists m2 p2, serve 8 (Lookup 5) one_mem one_part = Ok ([0], m2, p2).
Proof.
  exact (proj1 (ready_makes_visible 8 0 ∅ (Mem ∅ 0) (demo EVICT_LRU) 5 100 (value_ptr 4096)
           one_mem one_part ltac:(split; reflexivity || discriminate) empty_inv
           ltac:(split; reflexivity) ltac:(reflexivity) ltac:(vm_compute; reflexivity))).
Defined.

Lemma batch_in_place_witness :
  exists m p, serve_batch 8 8 4 0 0
    [Z.lor 5 HASHOP_INSERT; 100; release_word 4096; lookup_word 5; 77; 77; 77; 77]
    (Mem ∅ 0) (demo EVICT_LRU)
  = Ok (2, [4160; 4160; release_word 4096; lookup_word 5; 77; 77; 77; 77], m, p).
Proof.
  pose proof (batch_in_place 8 [Insert 5 100; Release 4096; Lookup 5]
    [Z.lor 5 HASHOP_INSERT; 100; release_word 4096; lookup_word 5; 77; 77; 77; 77]
    [77; 77; 77; 77] (Mem ∅ 0) (demo EVICT_LRU)) as H.
  eexists _, _. etransitivity.
  - apply H; [repeat constructor; try discriminate; try reflexivity | reflexivity |].
    simpl. repeat constructor.
  - vm_compute. reflexivity.
Defined.
