(* ===== verification/HashTable.v ===== *)
(** * HashTable: the table of partitions, its servers and clients ([smphashtable.c])

    [struct hash_table] with its partitions, the boxes and the pending data of
    its clients; creation and destruction, the creation of clients, and the loop
    of a server thread with its start and stop. *)
From stdpp Require Import base list gmap.
From Stdlib Require Import ZArith Lia.
From S2P Require Import Prelude Protocol ALock MPBuffers Value Partition PartitionInv Server.

Local Open Scope Z_scope.

(** [struct box]. *)
Record box := Box { bin : inputbuffer; bout : outputbuffer }.

(** [struct pending_data]: the two arrays of [MAX_PENDING_SIZE] cells hold
    nothing until they are written. *)
Record pending_data := PendingData {
  pending_values : gmap Z Z;
  pending_servers : gmap Z Z;
  rd_index : Z;
  pd_wr_index : Z;
  pending_index : Z;
  pending_count : list Z
}.

(** [struct hash_table]. [None] is a pointer that was not assigned. *)
Record hash_table := HashTable {
  ht_nservers : Z;
  nclients : Z;
  ht_max_size : Z;
  quitting : Z;
  partitions : list partition;
  pending : list (option pending_data);
  boxes : list (option (list box));
  track_cpu_usage : Z
}.

Definition set_partitions (ps : list partition) (t : hash_table) : hash_table :=
  HashTable (ht_nservers t) (nclients t) (ht_max_size t) (quitting t) ps (pending t) (boxes t)
    (track_cpu_usage t).

Definition set_boxes (bs : list (option (list box))) (t : hash_table) : hash_table :=
  HashTable (ht_nservers t) (nclients t) (ht_max_size t) (quitting t) (partitions t) (pending t)
    bs (track_cpu_usage t).

Definition set_quitting (q : Z) (t : hash_table) : hash_table :=
  HashTable (ht_nservers t) (nclients t) (ht_max_size t) q (partitions t) (pending t) (boxes t)
    (track_cpu_usage t).

(** ** Creation and destruction *)
Fixpoint init_partitions (raws : list (partition * list alock)) (ms n ev : Z)
    : result (list partition) :=
  match raws with
  | [] => mret []
  | (raw, locks) :: raws =>
      p ← init_hash_partition raw locks ms n ev;
      ps ← init_partitions raws ms n ev;
      mret (p :: ps)
  end.

(** [raw] is the structure as [malloc] gave it, [raws] the memory of the
    partitions and of their bucket locks; [quitting] and [track_cpu_usage] are
    left as they were. *)
Definition create_hash_table (raw : hash_table) (raws : list (partition * list alock))
    (max_size nservers evictalgo : Z) : result hash_table :=
  _ ← check ((0 <? nservers) && (Z.of_nat (length raws) =? nservers)) Undefined;
  ps ← init_partitions raws (max_size / u64 nservers) nservers evictalgo;
  mret (HashTable nservers 0 max_size (quitting raw) ps
          (replicate (Z.to_nat MAX_CLIENTS) None) (replicate (Z.to_nat MAX_CLIENTS) None)
          (track_cpu_usage raw)).

Fixpoint destroy_partitions (h : heap) (ps : list partition) : result heap :=
  match ps with
  | [] => mret h
  | p :: ps => h' ← destroy_hash_partition atomic_release_value_ h p; destroy_partitions h' ps
  end.

(** The second loop: the pointers it follows must have been assigned. *)
Fixpoint free_clients (cs : list nat) (t : hash_table) : result unit :=
  match cs with
  | [] => mret tt
  | i :: cs =>
      o ← aget (pending t) (Z.of_nat i); _ ← deref o;
      o ← aget (boxes t) (Z.of_nat i); _ ← deref o;
      free_clients cs t
  end.

Definition destroy_hash_table (h : heap) (t : hash_table) : result heap :=
  h' ← destroy_partitions h (partitions t);
  _ ← free_clients (seq 0 (Z.to_nat (nclients t))) t;
  mret h'.

Definition pending_zero (values servers : gmap Z Z) (n : Z) : pending_data :=
  PendingData values servers 0 0 0 (replicate (Z.to_nat n) 0).

(** The new client's number and the table. The assertion lets [MAX_CLIENTS]
    pass. *)
Definition create_hash_table_client (t : hash_table) : result (Z * hash_table) :=
  let client := nclients t in
  _ ← check (nclients t <=? MAX_CLIENTS) AssertFailed;
  bs ← aset (boxes t) client
         (Some (replicate (Z.to_nat (ht_nservers t)) (Box inputbuffer_zero outputbuffer_zero)));
  pd ← aset (pending t) client (Some (pending_zero ∅ ∅ (ht_nservers t)));
  mret (client, HashTable (ht_nservers t) (i32 (nclients t + 1)) (ht_max_size t) (quitting t)
                  (partitions t) pd bs (track_cpu_usage t)).

(** ** The server thread *)

(** [boxes[i].boxes[s]]. *)
Definition get_box (t : hash_table) (i s : Z) : result box :=
  o ← aget (boxes t) i; bs ← deref o; aget bs s.

Definition put_box (t : hash_table) (i s : Z) (b : box) : result hash_table :=
  o ← aget (boxes t) i; bs ← deref o; bs' ← aset bs s b; bt ← aset (boxes t) i (Some bs');
  mret (set_boxes bt t).

(** The local variables that live through the loop. *)
Record locals := Locals {
  localbuf : list Z;
  idle : Z;
  busy : Z;
  tmpt0 : Z;
  tmpt1 : Z
}.

Section server.
Context `{M : Machine} (spins : nat).

(** [if (TRACK_CPU_USAGE) v = read_tsc()]. *)
Definition stamp (track : bool) (m : mem) (v : Z) : Z * mem :=
  if track then (read_tsc (tick m), Mem (hp m) (S (tick m))) else (v, m).

(** The body of the inner loop: server [s] looks at the box of client [i]. *)
Definition server_visit (track : bool) (s i : Z) (t : hash_table) (m : mem) (l : locals)
    : result (hash_table * mem * locals) :=
  let '(t1, m) := stamp track m (tmpt1 l) in
  b ← get_box t i s;
  '(count, buf, ib) ← inpb_read (bin b) (localbuf l);
  t ← put_box t i s (Box ib (bout b));
  if count =? 0 then mret (t, m, Locals buf (idle l) (busy l) (tmpt0 l) t1) else
  let idle' := if track then u64 (idle l + u64 (t1 - tmpt0 l)) else idle l in
  p ← aget (partitions t) s;
  '(j, buf, m, p) ← serve_batch (Z.to_nat INPB_SIZE) spins count 0 0 buf m p;
  ps ← aset (partitions t) s p;
  let t := set_partitions ps t in
  b ← get_box t i s;
  ob ← outb_write (bout b) j buf;
  t ← put_box t i s (Box (bin b) ob);
  let '(t0, m) := stamp track m (tmpt0 l) in
  let busy' := if track then u64 (busy l + u64 (t0 - t1)) else busy l in
  mret (t, m, Locals buf idle' busy' t0 t1).

(** [for (int i = 0; i < nclients; i++)]. *)
Fixpoint server_visits (track : bool) (s : Z) (cs : list nat) (t : hash_table) (m : mem) (l : locals)
    : result (hash_table * mem * locals) :=
  match cs with
  | [] => mret (t, m, l)
  | i :: cs =>
      '(t, m, l) ← server_visit track s (Z.of_nat i) t m l;
      server_visits track s cs t m l
  end.

Definition server_round (track : bool) (s : Z) (t : hash_table) (m : mem) (l : locals)
    : result (hash_table * mem * locals) :=
  server_visits track s (seq 0 (Z.to_nat (nclients t))) t m l.

(** The whole thread, alone: [env] is what the other threads do between two
    rounds, and [fuel] bounds the rounds. The flag is read before the round, so
    the round that follows its being set is the last. *)
Fixpoint server_loop (fuel : nat) (env : nat -> hash_table -> hash_table) (track : bool) (s : Z)
    (t : hash_table) (m : mem) (l : locals) : result (hash_table * mem * locals) :=
  match fuel with
  | O => Fault Blocked
  | S fuel =>
      let t := env fuel t in
      let q := quitting t in
      '(t, m, l) ← server_round track s t m l;
      if q =? 0 then server_loop fuel env track s t m l else mret (t, m, l)
  end.

Definition hash_table_server (fuel : nat) (env : nat -> hash_table -> hash_table) (s : Z)
    (buf : list Z) (t : hash_table) (m : mem) : result (hash_table * mem) :=
  let track := negb (track_cpu_usage t =? 0) in
  let '(t0, m) := stamp track m 0 in
  '(t, m, l) ← server_loop fuel env track s t m (Locals buf 0 0 t0 0);
  if track then
    p ← aget (partitions t) s;
    ps ← aset (partitions t) s
           (Partition (nservers p) (nhash p) (max_size p) (psize p) (evictalgo p) (table p)
              (bucketlocks p) (lru p) (nhits p) (nlookups p) (ninserts p) (busy l) (idle l)
              (plock p));
    mret (set_partitions ps t, m)
  else mret (t, m).
End server.

(** [start_hash_table_servers] and [stop_hash_table_servers] without the thread
    calls: the flag, and the flushes of every client's buffers. *)
Definition start_hash_table_servers (t : hash_table) : hash_table := set_quitting 0 t.

Fixpoint flush_boxes (cs : list (nat * nat)) (t : hash_table) : result hash_table :=
  match cs with
  | [] => mret t
  | (s, k) :: cs =>
      b ← get_box t (Z.of_nat k) (Z.of_nat s);
      ib ← inpb_flush (bin b);
      t ← put_box t (Z.of_nat k) (Z.of_nat s) (Box ib (bout b));
      flush_boxes cs t
  end.

Definition stop_hash_table_servers (t : hash_table) : result hash_table :=
  t ← flush_boxes (s ← seq 0 (Z.to_nat (ht_nservers t));
                   k ← seq 0 (Z.to_nat (nclients t)); [(s, k)]) t;
  mret (set_quitting 1 t).
