(* ===== verification/Estates.v ===== *)
(** * Estates: the elements of all partitions of a table

    One heap, a list of partitions and for each the books of [Ownership]: the books
    of two partitions share no element, whatever one of them holds was not in use
    before the table was made, and what none of them holds is as it was then. An
    operation on one partition keeps all of that. *)
From stdpp Require Import base list gmap.
From Stdlib Require Import ZArith Lia.
From S2P Require Import Prelude Protocol ALock Value Partition PartitionInv PartitionLru.
From S2P Require Import PartitionThms TableOps Ownership HashTable.

Local Open Scope Z_scope.

Section estates.
Context (release : heap -> Z -> result heap) `{!Releases release} `{!RefCounted release}.

(** [h0] is the memory before the table was made, [ms] and [ev] the size and
    the policy of every partition. *)
Record estates (h0 : heap) (ms ev k : Z) (m : mem) (ps : list partition) (owns : list ownership)
    : Prop := {
  es_len : length owns = length ps;
  es_part : forall s p own, ps !! s = Some p -> owns !! s = Some own ->
    owned release k own m p /\ max_size p = ms /\ evictalgo p = ev;
  es_apart : forall s1 s2 own1 own2 a, owns !! s1 = Some own1 -> owns !! s2 = Some own2 ->
    s1 <> s2 -> is_Some (own1 !! a) -> own2 !! a = None;
  es_out : forall a, (forall s own, owns !! s = Some own -> own !! a = None) -> hp m !! a = h0 !! a;
  es_in : forall s own a, owns !! s = Some own -> is_Some (own !! a) -> h0 !! a = None
}.

(** ** Partitions that did not act *)
Lemma owned_elsewhere k own1 m own1' m' own2 p :
  owned release k own2 m p -> footprint own1 (hp m) own1' (hp m') ->
  (forall a, is_Some (own1 !! a) -> own2 !! a = None) ->
  owned release (k + 1) own2 m' p /\ (forall a, is_Some (own1' !! a) -> own2 !! a = None).
Proof.
  intros Hinv Hfp Hap.
  assert (forall a s, own2 !! a = Some s -> own1 !! a = None /\ own1' !! a = None /\ hp m' !! a = hp m !! a)
    as Hsame.
  { intros a s Ha. destruct (si_held _ _ _ _ Hinv a s Ha) as (_ & _ & el & Hel & _).
    specialize (Hfp a).
    destruct (own1 !! a) as [s1|] eqn:H1; [rewrite Hap in Ha by eauto; done|].
    destruct (own1' !! a) as [s1'|]; [congruence | done]. }
  split.
  - split; simpl.
    + destruct (si_wf _ _ _ _ Hinv) as [Hok Hlim Hpol]. split; [|done..].
      apply (part_ok_heap (hp m)); [|done]. intros a Ha elx Helx.
      apply (si_members _ _ _ _ Hinv) in Ha as (s & Hs & _).
      destruct (Hsame a s Hs) as (_ & _ & Heq). exists elx. by rewrite Heq.
    + apply Hinv.
    + intros a s Ha. destruct (Hsame a s Ha) as (_ & _ & Heq). rewrite Heq.
      destruct (si_held _ _ _ _ Hinv a s Ha) as (Hok & Haddr & Hel).
      split; [by apply own_ok_more | done].
  - intros a Ha. destruct (own2 !! a) as [s|] eqn:H2; [|done].
    destruct (Hsame a s H2) as (_ & H1' & _). rewrite H1' in Ha. by destruct Ha.
Qed.

Section one.
Context (h0 : heap) (ms ev k : Z) (m : mem) (ps : list partition) (owns : list ownership).
Context (Hes : estates h0 ms ev k m ps owns).

Lemma es_partition s own : owns !! s = Some own -> exists p, ps !! s = Some p.
Proof. intros Ho. apply lookup_lt_is_Some_2. rewrite <- (es_len _ _ _ _ _ _ _ Hes). by eapply lookup_lt_Some. Qed.

Lemma es_books s p : ps !! s = Some p -> exists own, owns !! s = Some own.
Proof. intros Ho. apply lookup_lt_is_Some_2. rewrite (es_len _ _ _ _ _ _ _ Hes). by eapply lookup_lt_Some. Qed.

(** What somebody holds is allocated. *)
Lemma es_elem s own a x :
  owns !! s = Some own -> own !! a = Some x ->
  own_ok k x /\ addr_ok a /\ exists el, hp m !! a = Some el /\ ref_count el = count x.
Proof.
  intros Ho Ha. destruct (es_partition s own Ho) as [p Hp].
  destruct (es_part _ _ _ _ _ _ _ Hes s p own Hp Ho) as (Hpo & _). apply (si_held _ _ _ _ Hpo a x Ha).
Qed.

Section update.
Context (sx : nat) (p : partition) (own : ownership) (m' : mem) (p' : partition) (own' : ownership).
Context (Hp : ps !! sx = Some p) (Hown : owns !! sx = Some own).
Context (Hfp : footprint own (hp m) own' (hp m')).

(** Memory that nobody holds, before and after a partition acted. *)
Lemma outside_update a :
  (forall s own2, <[sx := own']> owns !! s = Some own2 -> own2 !! a = None) -> hp m' !! a = h0 !! a.
Proof.
  intros Ha. specialize (Hfp a).
  rewrite (Ha sx own') in Hfp by (apply list_lookup_insert_eq; by eapply lookup_lt_Some).
  destruct (own !! a) as [x|] eqn:Hx.
  - rewrite Hfp. symmetry. apply (es_in _ _ _ _ _ _ _ Hes sx own); eauto.
  - rewrite Hfp. apply (es_out _ _ _ _ _ _ _ Hes). intros s own2 Ho2.
    destruct (decide (s = sx)) as [->|Hs]; [by rewrite Hown in Ho2; injection Ho2 as <-|].
    apply (Ha s). by rewrite list_lookup_insert_ne.
Qed.

Lemma inside_update s own2 a :
  <[sx := own']> owns !! s = Some own2 -> is_Some (own2 !! a) -> h0 !! a = None.
Proof.
  intros Ho2 Ha. pose proof (lookup_lt_Some _ _ _ Hown) as Hlt.
  destruct (decide (s = sx)) as [->|Hs].
  2: { rewrite list_lookup_insert_ne in Ho2 by done. by apply (es_in _ _ _ _ _ _ _ Hes s own2). }
  rewrite list_lookup_insert_eq in Ho2 by done. injection Ho2 as <-.
  specialize (Hfp a). destruct Ha as [x Hx]. rewrite Hx in Hfp.
  destruct (own !! a) as [y|] eqn:Hy; [apply (es_in _ _ _ _ _ _ _ Hes sx own); eauto|].
  rewrite <- Hfp. symmetry. apply (es_out _ _ _ _ _ _ _ Hes). intros s own2 Ho2.
  destruct (own2 !! a) as [z|] eqn:Hz; [|done].
  destruct (es_elem s own2 a z Ho2 Hz) as (_ & _ & el & Hel & _). congruence.
Qed.

(** One partition acted. *)
Lemma estates_update :
  owned release (k + 1) own' m' p' -> max_size p' = max_size p -> evictalgo p' = evictalgo p ->
  estates h0 ms ev (k + 1) m' (<[sx := p']> ps) (<[sx := own']> owns).
Proof.
  intros Hinv' Hmx Hev.
  pose proof (lookup_lt_Some _ _ _ Hp) as Hlt. pose proof (lookup_lt_Some _ _ _ Hown) as Hlt2.
  destruct (es_part _ _ _ _ _ _ _ Hes sx p own Hp Hown) as (Hpo & Hms & Hpev).
  assert (forall s own2 p2, s <> sx -> owns !! s = Some own2 -> ps !! s = Some p2 ->
    owned release (k + 1) own2 m' p2 /\ (forall a, is_Some (own' !! a) -> own2 !! a = None)) as Helse.
  { intros s own2 p2 Hs Ho2 Hp2.
    apply (owned_elsewhere k own m own' m' own2 p2); [|done|].
    - by destruct (es_part _ _ _ _ _ _ _ Hes s p2 own2 Hp2 Ho2).
    - intros a. by apply (es_apart _ _ _ _ _ _ _ Hes sx s). }
  split.
  - rewrite !length_insert. apply Hes.
  - intros s p0 own0 Hp0 Ho0. destruct (decide (s = sx)) as [->|Hs].
    + rewrite list_lookup_insert_eq in Hp0 by done. rewrite list_lookup_insert_eq in Ho0 by done.
      simplify_eq. by rewrite Hmx, Hev.
    + rewrite list_lookup_insert_ne in Hp0 by done. rewrite list_lookup_insert_ne in Ho0 by done.
      destruct (es_part _ _ _ _ _ _ _ Hes s p0 own0 Hp0 Ho0) as (_ & Hr).
      split; [by apply (Helse s own0 p0) | done].
  - intros s1 s2 own1 own2 a H1 H2 Hne Ha.
    destruct (decide (s1 = sx)) as [->|Hs1].
    + rewrite list_lookup_insert_eq in H1 by done. rewrite list_lookup_insert_ne in H2 by done.
      injection H1 as <-. destruct (es_partition s2 own2 H2) as [p2 Hp2].
      by apply (proj2 (Helse s2 own2 p2 (not_eq_sym Hne) H2 Hp2)).
    + rewrite list_lookup_insert_ne in H1 by done. destruct (decide (s2 = sx)) as [->|Hs2].
      * rewrite list_lookup_insert_eq in H2 by done. injection H2 as <-.
        destruct (es_partition s1 own1 H1) as [p1 Hp1].
        destruct (own' !! a) as [x|] eqn:Hx; [|done].
        rewrite (proj2 (Helse s1 own1 p1 Hs1 H1 Hp1) a) in Ha by eauto. by destruct Ha.
      * rewrite list_lookup_insert_ne in H2 by done. by apply (es_apart _ _ _ _ _ _ _ Hes s1 s2 own1).
  - apply outside_update.
  - apply inside_update.
Qed.
End update.

Lemma estates_more : estates h0 ms ev (k + 1) m ps owns.
Proof.
  destruct Hes as [Hl Hp Ha Ho Hi]. split; try done. intros s p own H1 H2.
  destruct (Hp s p own H1 H2) as (Hpo & Hr). split; [by apply inv_more | done].
Qed.
End one.

(** ** Writing into values

    The memory of values may change as long as keys, counts and sizes stay. *)
Definition same_head (h h' : heap) (a : Z) : Prop :=
  h' !! a = h !! a \/
  exists el el', h !! a = Some el /\ h' !! a = Some el' /\
    key el' = key el /\ ref_count el' = ref_count el /\ size el' = size el.

Lemma owned_rewrite k own m p m' :
  owned release k own m p -> (forall a, same_head (hp m) (hp m') a) -> owned release k own m' p.
Proof.
  intros [[Hok Hlim Hpol] Hm Hh] Hs.
  assert (forall a el, hp m !! a = Some el -> exists el', hp m' !! a = Some el' /\
    key el' = key el /\ ref_count el' = ref_count el /\ size el' = size el) as Hsame.
  { intros a el Hel. destruct (Hs a) as [Heq|(x & y & Hx & Hy & Hr)]; [exists el; by rewrite Heq|].
    exists y. by simplify_eq. }
  split; [split; [|done..] | done |].
  - apply (part_ok_heap (hp m)); [|done]. intros a _ el Hel. destruct (Hsame a el Hel) as (el' & ? & ? & _ & ?).
    by exists el'.
  - intros a s Ha. destruct (Hh a s Ha) as (Ho & Haddr & el & Hel & Hrc). split; [done|]. split; [done|].
    destruct (Hsame a el Hel) as (el' & Hel' & _ & Hrc' & _). exists el'. split; [done | congruence].
Qed.

Lemma estates_rewrite h0 ms ev k m ps owns m' :
  estates h0 ms ev k m ps owns -> (forall a, same_head (hp m) (hp m') a) ->
  (forall a, (forall s own, owns !! s = Some own -> own !! a = None) -> hp m' !! a = hp m !! a) ->
  estates h0 ms ev k m' ps owns.
Proof.
  intros [Hl Hp Ha Ho Hi] Hs Hout. split; try done.
  - intros s p own H1 H2. destruct (Hp s p own H1 H2) as (Hpo & Hr).
    split; [by apply (owned_rewrite k own m) | done].
  - intros a H. by rewrite (Hout a H), (Ho a H).
Qed.

Lemma estates_le h0 ms ev k k' m ps owns :
  k <= k' -> estates h0 ms ev k m ps owns -> estates h0 ms ev k' m ps owns.
Proof.
  intros Hk. replace k' with (k + Z.of_nat (Z.to_nat (k' - k))) by lia.
  clear Hk. induction (Z.to_nat (k' - k)) as [|j IH]; intros Hes; [by rewrite Z.add_0_r|].
  rewrite Nat2Z.inj_succ, <- Z.add_1_r, Z.add_assoc. by apply estates_more, IH.
Qed.

(** ** Creation *)
Lemma init_plock raw rawlocks ms n ev p :
  init_hash_partition raw rawlocks ms n ev = Ok p ->
  0 < n /\ anderson_init (plock raw) n = Ok (plock p) /\ evictalgo p = ev.
Proof.
  intros Hp. unfold init_hash_partition in Hp. invb Hp.
  repeat match goal with Hb : (_ <? _) = true |- _ => apply Z.ltb_lt in Hb end. done.
Qed.

Lemma init_partitions_each raws ms n ev ps :
  init_partitions raws ms n ev = Ok ps ->
  length ps = length raws /\ forall s p, ps !! s = Some p -> exists raw locks,
    raws !! s = Some (raw, locks) /\ init_hash_partition raw locks ms n ev = Ok p.
Proof.
  revert ps. induction raws as [|[raw locks] raws IH]; simpl; intros ps Hps.
  - injection Hps as <-. split; [done|]. intros s p Hs. by rewrite lookup_nil in Hs.
  - apply bind_Ok in Hps as (p & Hp & Hps). apply bind_Ok in Hps as (ps1 & Hps1 & Hps).
    injection Hps as <-. destruct (IH ps1 Hps1) as [Hl Hall]. split; [simpl; by rewrite Hl|].
    intros [|s] q Hq; simpl in Hq; [|by apply Hall]. injection Hq as <-. eauto.
Qed.

(** Nobody holds anything. *)
Definition no_holders (ps : list partition) : list ownership := replicate (length ps) ∅.

Section created.
Context (raw : hash_table) (raws : list (partition * list alock)) (total n ev : Z) (ht : hash_table).
Context (Hht : create_hash_table raw raws total n ev = Ok ht).
Context (Hev : ev = EVICT_LRU \/ ev = EVICT_RANDOM) (Htotal : 0 <= total < 2 ^ 63).

Lemma created_parts :
  0 < n /\ Z.of_nat (length (partitions ht)) = n /\
  init_partitions raws (total / u64 n) n ev = Ok (partitions ht).
Proof.
  unfold create_hash_table in Hht. apply bind_Ok in Hht as (x & Hx & Hps).
  apply bind_Ok in Hps as (ps & Hps & Ht). injection Ht as <-. simpl.
  destruct (0 <? n) eqn:H1; [|done]. simpl in Hx. destruct (_ =? n) eqn:H2; [|done].
  apply Z.ltb_lt in H1. apply Z.eqb_eq in H2.
  split; [done|]. split; [|done]. destruct (init_partitions_each _ _ _ _ _ Hps) as [Hl _]. lia.
Qed.

Lemma share_bound : n <= MAX_CLIENTS -> 0 <= total / u64 n < 2 ^ 63.
Proof.
  intros Hn. destruct created_parts as (Hpos & _). unfold MAX_CLIENTS in Hn.
  rewrite u64_small by lia. split; [apply Z.div_pos; lia|].
  apply Z.le_lt_trans with total; [|lia]. apply Z.div_le_upper_bound; nia.
Qed.

Lemma created_bound : n <= MAX_CLIENTS.
Proof.
  destruct created_parts as (Hpos & Hlen & Hps). destruct (init_partitions_each _ _ _ _ _ Hps) as [_ Hall].
  destruct (partitions ht) as [|p ps]; simpl in Hlen; [lia|].
  destruct (Hall 0%nat p eq_refl) as (r & locks & _ & Hp).
  destruct (init_plock _ _ _ _ _ _ Hp) as (_ & Hl & _). unfold anderson_init in Hl. invb Hl.
  by apply Z.leb_le.
Qed.

Lemma estates_created m :
  estates (hp m) (total / u64 n) ev 0 m (partitions ht) (no_holders (partitions ht)).
Proof.
  destruct created_parts as (Hpos & Hlen & Hps). destruct (init_partitions_each _ _ _ _ _ Hps) as [_ Hall].
  pose proof (share_bound created_bound) as Hshare. unfold no_holders.
  split; simpl.
  - by rewrite length_replicate.
  - intros s p own Hp Ho. apply lookup_replicate in Ho as [-> _].
    destruct (Hall s p Hp) as (r & locks & _ & Hpi).
    assert (0 <= total / u64 n < 2 ^ 64) as Hsh by lia.
    destruct (init_ok _ _ _ _ _ _ (hp m) Hsh Hev Hpi) as (Hwf & Hmem & Hmx & _).
    destruct (init_plock _ _ _ _ _ _ Hpi) as (_ & _ & Hpev).
    split; [|done]. split; [done| |by intros a x].
    rewrite Hmem. intros a. split; [set_solver | naive_solver].
  - intros s1 s2 own1 own2 a H1 _ _ [x Hx]. apply lookup_replicate in H1 as [-> _]. done.
  - done.
  - intros s own a Ho [x Hx]. apply lookup_replicate in Ho as [-> _]. done.
Qed.
End created.
End estates.

Arguments es_len {release _ _ h0 ms ev k m ps owns} _.
Arguments es_part {release _ _ h0 ms ev k m ps owns} _.
Arguments es_apart {release _ _ h0 ms ev k m ps owns} _.
Arguments es_out {release _ _ h0 ms ev k m ps owns} _.
Arguments es_in {release _ _ h0 ms ev k m ps owns} _.
Arguments es_partition {release _ _ h0 ms ev k m ps owns} _.
Arguments es_books {release _ _ h0 ms ev k m ps owns} _.
Arguments es_elem {release _ _ h0 ms ev k m ps owns} _.
