(* ===== verification/Holders.v ===== *)
(** * Holders: who holds the values of a table, and what they rely on

    A thread that holds a value has a share in it: the writer one, every lookup
    one. For either counting scheme: how the events of a value and an insertion change
    the shares, that they leave the values of other holders alone, and how the
    books of all partitions add up. *)
From stdpp Require Import base list gmap relations.
From Stdlib Require Import ZArith Lia.
From S2P Require Import Prelude Protocol ALock Value Partition PartitionInv PartitionLru.
From S2P Require Import PartitionThms TableOps Ownership HashTable Estates.

Local Open Scope Z_scope.

Definition shares (s : holds) : Z := b2z (writing s) + readers s.

Definition shares_of (own : ownership) (e : Z) : Z :=
  match own !! e with Some s => shares s | None => 0 end.

(** Answers are NULL or point to elements. *)
Definition value_like (v : Z) : Prop := v = 0 \/ exists e, addr_ok e /\ v = value_ptr e.

(** Only counts have changed, apart from the element at [but]. *)
Definition recounted (but : Z -> Prop) (h h' : heap) : Prop :=
  forall a el', h' !! a = Some el' -> but a \/ exists el rc, h !! a = Some el /\ el' = set_ref_count rc el.

Lemma recounted_size (X : gset Z) (P : Z -> Prop) h h' :
  recounted P h h' -> (forall e, P e -> e ∈ X) -> (base.size h' <= base.size X + base.size h)%nat.
Proof.
  intros Hr HX. rewrite <- !size_dom.
  assert (dom h' ⊆ X ∪ dom h) as Hsub.
  { intros a Ha. apply elem_of_dom in Ha as [el Hel]. apply elem_of_union. destruct (Hr a el Hel) as [Hp|(el0 & rc & H0 & _)].
    - left. by apply HX.
    - right. apply elem_of_dom. by exists el0. }
  apply subseteq_size in Hsub. rewrite size_union_alt in Hsub.
  assert (base.size (dom h ∖ X) <= base.size (dom h))%nat by (apply subseteq_size; set_solver). lia.
Qed.

Lemma value_ptr_inj e1 e2 : addr_ok e1 -> addr_ok e2 -> value_ptr e1 = value_ptr e2 -> e1 = e2.
Proof. intros H1 H2 H. by rewrite <- (elem_of_value_ptr e1), <- (elem_of_value_ptr e2), H. Qed.

Lemma occurs_value e1 e2 :
  addr_ok e1 -> addr_ok e2 -> occurs (value_ptr e1) [value_ptr e2] = if e2 =? e1 then 1 else 0.
Proof.
  intros H1 H2. autorewrite with smp. destruct (Z.eqb_spec e2 e1) as [->|Hne]; [by rewrite Z.eqb_refl|].
  rewrite (proj2 (Z.eqb_neq _ _)); [done|]. intros H. by apply Hne, value_ptr_inj.
Qed.

Lemma occurs_null e : addr_ok e -> occurs (value_ptr e) [0] = 0.
Proof.
  intros H. autorewrite with smp. rewrite (proj2 (Z.eqb_neq _ _)); [done|].
  pose proof (value_ptr_nonzero e H). congruence.
Qed.

(** ** Events *)
Lemma hold_shares s : 0 <= readers s -> match hold s with Some s' => shares s' | None => 0 end = shares s.
Proof.
  intros Hr. unfold hold. destruct (nobody s) eqn:Hn; [|done].
  rewrite nobody_count in Hn by done. apply Z.eqb_eq in Hn. unfold shares, b2z in *.
  destruct (in_table s), (writing s); lia.
Qed.

Lemma shares_event ev e own own' s s' a :
  own !! e = Some s -> after ev s = Some s' -> 0 <= readers s' -> own_event ev e own = Some own' ->
  shares_of own' a = shares_of own a + (if e =? a then shares s' - shares s else 0).
Proof.
  intros He Hs Hr Ho. unfold own_event in Ho. rewrite He in Ho. cbn [mbind option_bind] in Ho.
  rewrite Hs in Ho. injection Ho as <-. unfold shares_of. destruct (Z.eqb_spec e a) as [<-|Hne].
  - rewrite lookup_partial_alter_eq, He, hold_shares by done. lia.
  - rewrite lookup_partial_alter_ne by done. lia.
Qed.

Lemma recounted_refl but h : recounted but h h.
Proof. intros a el Ha. right. exists el, (ref_count el). split; [done|]. by destruct el. Qed.

Lemma recounted_insert but h e el rc :
  h !! e = Some el -> recounted but h (<[e := set_ref_count rc el]> h).
Proof.
  intros He a el' Ha. destruct (decide (a = e)) as [->|Hne].
  - rewrite lookup_insert_eq in Ha. injection Ha as <-. right. eauto.
  - rewrite lookup_insert_ne in Ha by done. by apply recounted_refl.
Qed.

Lemma lookup_recounts but m p k v m' p' :
  lookup_value m p k = Ok (v, m', p') -> recounted but (hp m) (hp m').
Proof.
  unfold lookup_value. intros Hl. apply bind_Ok in Hl as ([[e|] p1] & _ & Hl).
  - unfold hit_value in Hl. apply bind_Ok in Hl as (h & Hh & Hl). injection Hl as _ <- _. simpl.
    unfold take_reference in Hh. destruct (hp m !! e) as [el|] eqn:He; [|done]. injection Hh as <-.
    by apply recounted_insert.
  - injection Hl as _ <- _. apply recounted_refl.
Qed.

(** ** What the holders of a value rely on

    An element that somebody holds all the time keeps its key, its size and its
    bytes, and remains with its writer or without one. *)
Definition survives (own own' : ownership) (h h' : heap) (e : Z) : Prop :=
  exists hs hs' el rc, own !! e = Some hs /\ own' !! e = Some hs' /\ writing hs' = writing hs /\
    h !! e = Some el /\ h' !! e = Some (set_ref_count rc el).

(** Between two memories, only the count of the element may have changed. *)
Definition kept (h h' : heap) (e : Z) : Prop :=
  exists el rc, h !! e = Some el /\ h' !! e = Some (set_ref_count rc el).

(** What [v] is as the answer to [r]: NULL, or an element with the key of the
    request; that of an insertion has room for the value and is still to be
    written, that of a lookup is not written any more. *)
Definition answered_by (own : ownership) (h : heap) (r : request) (v : Z) : Prop :=
  v = 0 \/ exists e hs el, addr_ok e /\ v = value_ptr e /\ own !! e = Some hs /\ h !! e = Some el /\
    match r with
    | Lookup k => key el = k /\ writing hs = false
    | Insert k sz => key el = k /\ size el = elem_size sz /\ writing hs = true
    | Release _ => False
    end.

Lemma answered_survives own own' h h' r v :
  (forall e, addr_ok e -> v = value_ptr e -> survives own own' h h' e) ->
  answered_by own h r v -> answered_by own' h' r v.
Proof.
  intros Hs [->|(e & hs & el & Haddr & -> & Ho & Hel & Hr)]; [by left|]. right.
  destruct (Hs e Haddr eq_refl) as (hs0 & hs' & el0 & rc & Ho0 & Ho' & Hw & Hel0 & Hel'). simplify_eq.
  exists e, hs', (set_ref_count rc el). rewrite Hw. by destruct r.
Qed.

Lemma survives_trans own1 own2 own3 h1 h2 h3 e :
  survives own1 own2 h1 h2 e -> survives own2 own3 h2 h3 e -> survives own1 own3 h1 h3 e.
Proof.
  intros (s1 & s2 & el & rc & H1 & H2 & Hw & He & He2) (s2' & s3 & el2 & rc2 & H2' & H3 & Hw2 & He2' & He3).
  simplify_eq. exists s1, s3, el, rc2. by rewrite Hw2.
Qed.

Lemma event_writing ev e own own' a hs hs' :
  ev <> MarkedReady -> own_event ev e own = Some own' -> own !! a = Some hs -> own' !! a = Some hs' ->
  writing hs' = writing hs.
Proof.
  intros Hev Ho Ha Ha'. unfold own_event in Ho. destruct (own !! e) as [s|] eqn:He; [|done].
  cbn [mbind option_bind] in Ho. destruct (after ev s) as [s'|] eqn:Hs; [|done]. injection Ho as <-.
  destruct (decide (e = a)) as [<-|Hne].
  - rewrite lookup_partial_alter_eq in Ha'. unfold hold in Ha'. destruct (nobody s'); [done|]. injection Ha' as <-.
    rewrite Ha in He. injection He as <-.
    destruct hs as [[] [] x], ev; simpl in Hs; try done; repeat case_match; by simplify_eq/=.
  - rewrite lookup_partial_alter_ne in Ha' by done. by simplify_eq.
Qed.

Section counting.
Context (release : heap -> Z -> result heap) `{!Releases release} `{!RefCounted release}.

Lemma release_recounts but h e h' : release h e = Ok h' -> is_Some (h !! e) -> recounted but h h'.
Proof.
  intros Hr [el Hel]. rewrite (release_spec h e el Hel) in Hr. injection Hr as <-. intros a el' Ha.
  destruct (decide (a = e)) as [->|Hne].
  - rewrite lookup_partial_alter_eq in Ha. apply after_release_shape in Ha as [rc ->]. right. eauto.
  - rewrite lookup_partial_alter_ne in Ha by done. by apply (recounted_refl but).
Qed.

(** ** One event *)
Section event.
Context (n : Z) (own : ownership) (m : mem) (p : partition).
Context (Hn : n < 2 ^ 62) (Hinv : owned release n own m p).
Context (ev : event) (e : Z) (own' : ownership) (Ho : own_event ev e own = Some own').

Lemma event_holds : exists s s', own !! e = Some s /\ own_ok n s /\ addr_ok e /\ after ev s = Some s' /\
  0 <= readers s' /\ own' = partial_alter (fun _ => hold s') e own.
Proof.
  unfold own_event in Ho. destruct (own !! e) as [s|] eqn:He; [|done]. cbn [mbind option_bind] in Ho.
  destruct (after ev s) as [s'|] eqn:Hs; [|done]. injection Ho as <-.
  destruct (si_held _ _ _ _ Hinv e s He) as (Hok & Haddr & _). exists s, s'.
  destruct (after_ok ev s s' (own_ok_holds n s Hn Hok) Hs) as [Hr _]. split_and!; try done; lia.
Qed.

(** A lookup takes a share; a mark or a release gives one up. *)
Lemma event_shares a :
  shares_of own' a = shares_of own a +
    (if e =? a then match ev with Found => 1 | Unlinked => 0 | MarkedReady | Dropped => -1 end else 0).
Proof.
  destruct event_holds as (s & s' & He & (Hr & Hw & _) & _ & Hs & Hr' & _).
  rewrite (shares_event ev e own own' s s' a He Hs Hr' Ho). case_match; [|done]. f_equal.
  destruct s as [[] [] x], ev; simpl in Hs; repeat case_match; simplify_eq/=; unfold shares, b2z; simpl; lia.
Qed.

(** Whatever is still there has changed in its count at most. *)
Lemma event_kept h' a :
  event_op ev (hp m) e = Ok h' -> is_Some (own !! a) -> is_Some (own' !! a) -> kept (hp m) h' a.
Proof.
  intros Hh [hs Hhs] [hs' Hhs']. destruct event_holds as (s & s' & He & Hok & Haddr & Hs & _ & Hown').
  destruct (owned_elem release n own m p Hinv e s He) as (el & Hel & Hrc).
  rewrite (event_op_spec ev s s' (hp m) e el Haddr (own_ok_holds n s Hn Hok) Hs Hel Hrc) in Hh.
  injection Hh as <-. destruct (owned_elem release n own m p Hinv a hs Hhs) as (ela & Hela & _).
  exists ela. unfold held. rewrite Hown' in Hhs'. destruct (decide (a = e)) as [->|Hae].
  - rewrite lookup_partial_alter_eq in Hhs'. unfold hold in Hhs'. destruct (nobody s'); [done|].
    exists (count s'). rewrite lookup_insert_eq. by simplify_eq.
  - exists (ref_count ela). split; [done|].
    destruct (nobody s'); [rewrite lookup_delete_ne by done|rewrite lookup_insert_ne by done];
      rewrite Hela; by destruct ela.
Qed.

(** What has other holders remains with its writer or without one. *)
Lemma event_survives h' a :
  event_op ev (hp m) e = Ok h' -> 0 < shares_of own a -> 0 < shares_of own' a ->
  survives own own' (hp m) h' a.
Proof.
  intros Hh Ha Ha'. unfold shares_of in Ha, Ha'.
  destruct (own !! a) as [hs|] eqn:Hhs; [|lia]. destruct (own' !! a) as [hs'|] eqn:Hhs'; [|lia].
  destruct (event_kept h' a Hh ltac:(by eexists) ltac:(by eexists)) as (el & rc & Hel & Hel').
  exists hs, hs', el, rc. split; [done|]. split; [done|]. split; [|done].
  assert (ev = MarkedReady \/ ev <> MarkedReady) as [Hev|Hne] by (destruct ev; auto);
    [|by apply (event_writing ev e own own' a)].
  pose proof event_holds as (s & s' & He & (_ & Hz & _) & _ & Hs & _ & Hown').
  rewrite Hev in Hs. rewrite Hown' in Hhs'. destruct (decide (a = e)) as [->|Hae].
  - exfalso. rewrite lookup_partial_alter_eq in Hhs'. unfold hold in Hhs'. destruct (nobody s'); [done|].
    rewrite He in Hhs. injection Hhs as <-. injection Hhs' as <-.
    simpl in Hs. destruct (writing s) eqn:Hws; [|done]. injection Hs as <-.
    unfold shares in Ha'. simpl in Ha'. rewrite (Hz eq_refl) in Ha'. lia.
  - rewrite lookup_partial_alter_ne in Hhs' by done. by simplify_eq.
Qed.
End event.

Lemma held_survives n own m p e : owned release n own m p -> 0 < shares_of own e -> survives own own (hp m) (hp m) e.
Proof.
  unfold shares_of. intros Hinv He. destruct (own !! e) as [hs|] eqn:Ho; [|lia].
  destruct (si_held _ _ _ _ Hinv e hs Ho) as (_ & _ & el & Hel & _).
  exists hs, hs, el, (ref_count el). do 4 (split; [done|]). rewrite Hel. by destruct el.
Qed.

(** A lookup, in one piece or in its two halves. *)
Lemma hit_event n own m p e v m' p' :
  n < 2 ^ 62 -> owned release n own m p -> visible own e -> hit_value m p e = Ok (v, m', p') ->
  event_op Found (hp m) e = Ok (hp m').
Proof.
  intros Hn Hinv (s & He & Ht & Hw) Hh.
  unfold hit_value in Hh. apply bind_Ok in Hh as (h & Hh & Hm). injection Hm as _ <- _.
  destruct (si_held _ _ _ _ Hinv e s He) as (Hok & _ & el & Hel & Hrc).
  rewrite event_op_found, Hel. cbn [deref mbind result_bind].
  by rewrite (ready_count release n s el Hn Hok Ht Hrc), Hw.
Qed.

Lemma hit_survives n own m p e own' v m' p' a :
  n < 2 ^ 62 -> owned release n own m p -> visible own e -> hit_value m p e = Ok (v, m', p') ->
  own_event Found e own = Some own' -> 0 < shares_of own a -> 0 < shares_of own' a ->
  survives own own' (hp m) (hp m') a.
Proof.
  intros Hn Hinv Hv Hh Ho. apply (event_survives n own m p Hn Hinv Found e own' Ho).
  by apply (hit_event n own m p e v m' p').
Qed.

Lemma lookup_survives n own m p k own' v m' p' a :
  n < 2 ^ 62 -> owned release n own m p -> lookup_value m p k = Ok (v, m', p') ->
  own_next (Lookup k) [v] p' own = Some own' -> 0 < shares_of own a -> 0 < shares_of own' a ->
  survives own own' (hp m) (hp m') a.
Proof.
  intros Hn Hinv Hl Ho Ha Ha'. unfold lookup_value in Hl.
  destruct (find_value_ok n own m p k Hn Hinv) as (r & p1 & Hf & Hinv1 & Hr & _). rewrite Hf in Hl.
  cbn [mbind result_bind] in Hl. simpl in Ho. destruct r as [e|].
  - destruct Hr as [Hv _]. apply (hit_survives n own m p1 e own' v m' p'); try done.
    pose proof Hv as (s & He & _). destruct (si_held _ _ _ _ Hinv e s He) as (_ & Haddr & _).
    unfold hit_value in Hl. apply bind_Ok in Hl as (h & _ & Hl). injection Hl as <- _ _.
    pose proof (value_ptr_nonzero e Haddr). rewrite (proj2 (Z.eqb_neq _ _)), elem_of_value_ptr in Ho; done.
  - injection Hl as <- <- <-. injection Ho as <-. by apply (held_survives n own m p).
Qed.

(** ** An insertion *)
Section insertion.
Context (n : Z) (own : ownership) (m : mem) (p : partition) (k sz e : Z) (m' : mem) (p' : partition).
Context (Hn : 0 <= n < 2 ^ 62) (Hinv : owned release n own m p).
Context (Hins : inserted_as release m (count_insert p) k sz e m' p').

(** An element that leaves the table keeps its other holders. *)
Lemma after_insert_shares a s :
  own !! a = Some s -> match after_insert p' a s with Some s' => shares s' | None => 0 end = shares s.
Proof.
  intros Ha. destruct (si_held _ _ _ _ Hinv a s Ha) as ((Hr & _) & _). unfold after_insert.
  destruct (in_table s && _); [|done]. by rewrite hold_shares by (simpl; lia).
Qed.

(** Memory that was reused had no holder outside the table. *)
Lemma reused_unshared : shares_of own e = 0.
Proof.
  unfold shares_of. destruct (own !! e) as [s|] eqn:He; [|done].
  pose proof (inserted_fresh release n own m p Hinv k sz e m' p' Hins s He) as Ht.
  destruct (si_held _ _ _ _ Hinv e s He) as ((Hr & _) & _ & el & Hel & Hrc).
  pose proof (released_held release n own m p Hn Hinv e s el He Ht Hel Hrc) as Hrl.
  pose proof (in_heap _ _ _ _ _ _ _ _ Hins e) as Hh. rewrite lookup_delete_eq, decide_True in Hh.
  - rewrite Hel in Hh. cbn [mbind option_bind] in Hh. rewrite Hrl in Hh.
    rewrite <- (hold_shares s) by lia. unfold hold in *. unfold nobody in *. rewrite Ht. simpl in *.
    destruct (writing s) eqn:Hw; simpl in *; [done|]. destruct (Z.eqb_spec (readers s) 0); [|done].
    unfold shares, b2z. rewrite Hw. lia.
  - split; [|by right]. apply (si_members _ _ _ _ Hinv). eauto.
Qed.

Lemma insert_shares a : shares_of (own_insert e p' own) a = shares_of own a + (if e =? a then 1 else 0).
Proof.
  unfold shares_of at 1. rewrite own_insert_lookup. destruct (Z.eqb_spec e a) as [<-|Hne].
  - rewrite decide_True by done. rewrite reused_unshared. done.
  - rewrite decide_False by done. unfold shares_of. destruct (own !! a) as [s|] eqn:Ha; [|done].
    cbn [mbind option_bind]. rewrite (after_insert_shares a s Ha). lia.
Qed.

Lemma insert_recounts el rc :
  recounted (eq e) (hp m) (<[e := set_ref_count rc el]> (hp m')).
Proof.
  intros a el' Ha. destruct (decide (e = a)) as [<-|Hne]; [by left|]. right.
  rewrite lookup_insert_ne in Ha by done.
  pose proof (in_heap _ _ _ _ _ _ _ _ Hins a) as Hh. rewrite lookup_delete_ne, Ha in Hh by done.
  case_decide.
  - destruct (hp m !! a) as [x|] eqn:Hx; [|done]. cbn [mbind option_bind] in Hh. symmetry in Hh.
    apply after_release_shape in Hh as [rc' ->]. eauto.
  - exists el', (ref_count el'). split; [done|]. by destruct el'.
Qed.

(** Every other element that is still there has changed in its count at most. *)
Lemma insert_kept el rc a s' :
  a <> e -> own_insert e p' own !! a = Some s' ->
  exists s, own !! a = Some s /\ writing s' = writing s /\ kept (hp m) (<[e := set_ref_count rc el]> (hp m')) a.
Proof.
  intros Hne Ha. rewrite own_insert_lookup, decide_False in Ha by done.
  destruct (own !! a) as [s|] eqn:Hs; [|done]. cbn [mbind option_bind] in Ha.
  destruct (other_after release n own m p Hn Hinv k sz e m' p' Hins a s Hs Hne) as (ela & Hela & Hm').
  rewrite Ha in Hm'. exists s. split; [done|]. split.
  { unfold after_insert, hold in Ha. repeat case_match; by simplify_eq/=. }
  exists ela, (if in_table s && negb (bool_decide (a ∈ members p')) then count s' else ref_count ela).
  split; [done|]. rewrite lookup_insert_ne by done. rewrite Hm'. simpl. case_match; [done | by destruct ela].
Qed.

Lemma insert_survives el rc a :
  0 < shares_of own a -> survives own (own_insert e p' own) (hp m) (<[e := set_ref_count rc el]> (hp m')) a.
Proof.
  intros Ha. destruct (decide (a = e)) as [->|Hne]; [rewrite reused_unshared in Ha; lia|].
  pose proof (insert_shares a) as Hsh. unfold shares_of in Ha, Hsh at 1.
  destruct (own_insert e p' own !! a) as [s'|] eqn:Hs'.
  - destruct (insert_kept el rc a s' Hne Hs') as (s & Hs & Hw & ela & rc' & H1 & H2).
    exists s, s', ela, rc'. done.
  - unfold shares_of in Hsh. case_match; [|lia]. rewrite (proj2 (Z.eqb_neq e a)) in Hsh by done. lia.
Qed.
End insertion.
End counting.

Arguments held_survives {release _ _} n own m p e.
Arguments hit_event {release _ _} n own m p e v m' p'.
Arguments hit_survives {release _ _} n own m p e own' v m' p' a.
Arguments lookup_survives {release _ _} n own m p k own' v m' p' a.
Arguments event_shares {release _ _} n own m p.
Arguments event_kept {release _ _} n own m p.
Arguments event_survives {release _ _} n own m p.
Arguments insert_shares {release _ _} n own m p.
Arguments insert_recounts {release _} m p.
Arguments insert_kept {release _ _} n own m p.
Arguments insert_survives {release _ _} n own m p.

Definition all_shares (owns : list ownership) (e : Z) : Z := zsum (fun own => shares_of own e) owns.

Definition is_value (v : Z) : Prop := exists e, addr_ok e /\ v = value_ptr e.

Lemma is_value_addr v : is_value v -> addr_ok (elem_of_ptr v) /\ v = value_ptr (elem_of_ptr v).
Proof. intros (e & He & ->). by rewrite elem_of_value_ptr. Qed.

(** The element [e] belongs to server [s]. *)
Definition home (owns : list ownership) (s : nat) (e : Z) : Prop :=
  exists own, owns !! s = Some own /\ is_Some (own !! e).

(** What the answer [x] is, by the books of the servers. *)
Definition answered_in (owns : list ownership) (h : heap) (x : request * Z) : Prop :=
  x.2 = 0 \/ exists s own, owns !! s = Some own /\ answered_by own h x.1 x.2.

(** ** Writes *)
Lemma write_heads h ptr bs h' :
  write_value h ptr bs = Ok h' ->
  (forall a, same_head h h' a) /\ (forall a, a <> elem_of_ptr ptr -> h' !! a = h !! a) /\
  is_Some (h !! elem_of_ptr ptr).
Proof.
  intros (el & Hel & _ & ->)%write_value_Ok. split; [|split; [intros a Ha; by apply lookup_insert_ne | by eexists]].
  intros a. destruct (decide (a = elem_of_ptr ptr)) as [->|Hne]; [right|left; by apply lookup_insert_ne].
  exists el, (overwritten bs el). by rewrite lookup_insert_eq.
Qed.

Lemma answered_rewrite owns h h' x :
  (forall a, same_head h h' a) -> answered_in owns h x -> answered_in owns h' x.
Proof.
  intros Hs [?|(s & own & Ho & [?|(e & hs & el & Haddr & Hv & He & Hel & Hr)])]; [by left | by left |].
  right. exists s, own. split; [done|]. right.
  destruct (Hs e) as [Heq|(el1 & el2 & H1 & H2 & Hk & _ & Hz)].
  - exists e, hs, el. by rewrite Heq.
  - exists e, hs, el2. rewrite Hel in H1. injection H1 as <-. rewrite Hk, Hz. by destruct x.1.
Qed.

(** ** Where an element belongs *)
Section homes.
Context (release : heap -> Z -> result heap) `{!Releases release} `{!RefCounted release}.
Context (h0 : heap) (ms ev k : Z) (m : mem) (ps : list partition) (owns : list ownership).
Context (Hes : estates release h0 ms ev k m ps owns).

Lemma home_addr s e : home owns s e -> addr_ok e.
Proof. intros (own & Ho & x & Hx). by destruct (es_elem Hes s own e x Ho Hx) as (_ & ? & _). Qed.

Lemma home_unique s1 s2 e : home owns s1 e -> home owns s2 e -> s1 = s2.
Proof.
  intros (own1 & H1 & Ha) (own2 & H2 & [x Hx]). destruct (decide (s1 = s2)) as [|Hne]; [done|].
  rewrite (es_apart Hes s1 s2 own1 own2 e H1 H2 Hne Ha) in Hx. done.
Qed.

Lemma shares_home e : 0 < all_shares owns e -> exists s, home owns s e.
Proof.
  intros H. apply zsum_pos_inv in H as (own & Hin & Hp). apply list_elem_of_lookup in Hin as [s Hs].
  exists s, own. split; [done|]. unfold shares_of in Hp. destruct (own !! e); [by eexists | lia].
Qed.

Lemma shares_at_home s own e :
  owns !! s = Some own -> is_Some (own !! e) -> all_shares owns e = shares_of own e.
Proof.
  intros Ho He. pose proof (zsum_insert (fun own => shares_of own e) owns s own ∅ Ho) as Hi.
  rewrite (zsum_ext _ (fun _ => 0)) in Hi.
  - assert (forall l : list ownership, zsum (fun _ => 0) l = 0) as Hz.
    { intros l. induction l as [|x l IH]; [done|]. autorewrite with smp. lia. }
    rewrite Hz in Hi. unfold all_shares. unfold shares_of in Hi at 3. rewrite lookup_empty in Hi. lia.
  - intros own2 Hin. apply list_elem_of_lookup in Hin as [s2 Hs2].
    apply list_lookup_insert_Some in Hs2 as [(_ & <- & _)|[Hne Hs2]].
    + unfold shares_of. by rewrite lookup_empty.
    + unfold shares_of. by rewrite (es_apart Hes s s2 own own2 e Ho Hs2 Hne He).
Qed.

(** Server [s0] acted: what still has shares stays where it was. *)
Lemma still_home s0 own0' s e :
  home owns s e -> 0 < all_shares (<[s0 := own0']> owns) e -> home (<[s0 := own0']> owns) s e.
Proof.
  intros Hh Hp. apply zsum_pos_inv in Hp as (own2 & Hin & Hp).
  apply list_elem_of_lookup in Hin as [s2 Hs2].
  assert (is_Some (own2 !! e)) as He by (unfold shares_of in Hp; destruct (own2 !! e); [by eexists | lia]).
  destruct (decide (s2 = s)) as [->|Hne]; [by exists own2|].
  destruct Hh as (own & Ho & Hown). destruct (decide (s = s0)) as [->|Hne0].
  - rewrite list_lookup_insert_ne in Hs2 by done.
    destruct Hne. apply (home_unique s2 s0 e); [by exists own2 | by exists own].
  - exists own. by rewrite list_lookup_insert_ne by done.
Qed.

(** ** The members of the partitions are the elements that the books put in a table *)
Lemma member_books a :
  a ∈ concat (members <$> ps) ->
  exists s own hs, owns !! s = Some own /\ own !! a = Some hs /\ in_table hs = true.
Proof.
  intros Hin. apply list_elem_of_In, in_concat in Hin as (l & Hl & Ha).
  rewrite <- list_elem_of_In in Hl. rewrite <- list_elem_of_In in Ha. apply list_elem_of_fmap in Hl as (p & -> & Hp).
  apply list_elem_of_lookup in Hp as [s Hp].
  destruct (es_books Hes s p Hp) as [own Ho].
  destruct (es_part Hes s p own Hp Ho) as (Hpo & _). destruct (proj1 (si_members _ _ _ _ Hpo a) Ha) as (hs & Hhs & Ht).
  by exists s, own, hs.
Qed.

Lemma books_member s own a hs :
  owns !! s = Some own -> own !! a = Some hs ->
  in_table hs = true -> a ∈ concat (members <$> ps).
Proof.
  intros Ho Ha Ht. destruct (es_partition Hes s own Ho) as [p Hp].
  destruct (es_part Hes s p own Hp Ho) as (Hpo & _). apply list_elem_of_In, in_concat.
  exists (members p). rewrite <- !list_elem_of_In.
  split; [apply list_elem_of_fmap_2; by eapply list_elem_of_lookup_2|]. apply (si_members _ _ _ _ Hpo). eauto.
Qed.

Lemma members_apart :
  NoDup (concat (members <$> ps)).
Proof.
  apply NoDup_concat_apart.
  - intros s l Hl. apply list_lookup_fmap_Some in Hl as (p & -> & Hp). destruct (es_books Hes s p Hp) as [own Ho].
    destruct (es_part Hes s p own Hp Ho) as (Hpo & _). apply (po_nodup _ _ _ (wf_ok _ _ (si_wf _ _ _ _ Hpo))).
  - intros s1 s2 l1 l2 a H1 H2 Ha1 Ha2. destruct (decide (s1 = s2)) as [|Hne]; [done|]. exfalso.
    apply list_lookup_fmap_Some in H1 as (p1 & -> & H1). apply list_lookup_fmap_Some in H2 as (p2 & -> & H2).
    destruct (es_books Hes s1 p1 H1) as [own1 Ho1]. destruct (es_books Hes s2 p2 H2) as [own2 Ho2].
    destruct (es_part Hes s1 p1 own1 H1 Ho1) as (Hp1 & _). destruct (es_part Hes s2 p2 own2 H2 Ho2) as (Hp2 & _).
    destruct (proj1 (si_members _ _ _ _ Hp1 a) Ha1) as (x & Hx & _). destruct (proj1 (si_members _ _ _ _ Hp2 a) Ha2) as (y & Hy & _).
    rewrite (es_apart Hes s1 s2 own1 own2 a Ho1 Ho2 Hne ltac:(by eexists)) in Hy. done.
Qed.

(** The partition [sx] acted: what its holders rely on survives everywhere. *)
Section moved.
Context (sx : nat) (own own' : ownership) (h' : heap).
Context (Hown : owns !! sx = Some own) (Hfp : footprint own (hp m) own' h').

Lemma books_survive s own2 e :
  owns !! s = Some own2 -> is_Some (own2 !! e) -> (s = sx -> survives own own' (hp m) h' e) ->
  exists own3, <[sx := own']> owns !! s = Some own3 /\ survives own2 own3 (hp m) h' e.
Proof.
  intros Ho2 [hs He] Hs. destruct (es_elem Hes s own2 e hs Ho2 He) as (_ & Haddr & el & Hel & _).
  destruct (decide (s = sx)) as [->|Hne].
  - exists own'. rewrite list_lookup_insert_eq by (by eapply lookup_lt_Some). split; [done|].
    rewrite Hown in Ho2. injection Ho2 as <-. by apply Hs.
  - exists own2. rewrite list_lookup_insert_ne by done. split; [done|].
    exists hs, hs, el, (ref_count el). do 4 (split; [done|]).
    pose proof (es_apart Hes s sx own2 own e Ho2 Hown Hne ltac:(by eexists)) as Ho.
    specialize (Hfp e). rewrite Ho in Hfp. destruct (own' !! e) as [x|]; [congruence|].
    rewrite Hfp, Hel. by destruct el.
Qed.

Lemma answered_moved x :
  (forall e, addr_ok e -> x.2 = value_ptr e -> is_Some (own !! e) -> survives own own' (hp m) h' e) ->
  answered_in owns (hp m) x -> answered_in (<[sx := own']> owns) h' x.
Proof.
  intros Hs [?|(s & own2 & Ho2 & [?|Ha])]; [by left..|]. right.
  pose proof Ha as (e & hs & el & Haddr & Hv & He & _).
  destruct (books_survive s own2 e Ho2 ltac:(by eexists)) as (own3 & Ho3 & Hs3).
  { intros ->. apply Hs; [done..|]. rewrite Hown in Ho2. injection Ho2 as ->. by eexists. }
  exists s, own3. split; [done|]. apply (answered_survives own2 own3 (hp m)); [|by right].
  intros e2 Haddr2 Hv2. rewrite Hv in Hv2. apply value_ptr_inj in Hv2 as <-; done.
Qed.
End moved.

(** ** How much memory there is in use *)
Lemma members_bound s p : ps !! s = Some p -> (length (members p) <= Z.to_nat (ms / sizeof_elem))%nat.
Proof.
  intros Hp. destruct (es_books Hes s p Hp) as [own Ho]. destruct (es_part Hes s p own Hp Ho) as (Hpo & Hmx & _).
  destruct (si_wf _ _ _ _ Hpo) as [Hok Hlim _]. pose proof (po_size _ _ _ Hok) as Hz.
  assert (sizeof_elem * Z.of_nat (length (members p)) <= zsum (esz (hp m)) (members p)) as Hle.
  { assert (forall e, e ∈ members p -> sizeof_elem <= esz (hp m) e) as H by (intros e; by apply esz_pos with (x := 0)).
    clear -H. induction (members p) as [|e l IH]; [done|]. rewrite zsum_cons. simpl length.
    pose proof (H e ltac:(left)). specialize (IH ltac:(intros; apply H; by right)). lia. }
  rewrite Hmx in Hlim. unfold sizeof_elem in *.
  assert (Z.of_nat (length (members p)) <= ms / 64) by (apply Z.div_le_lower_bound; lia). lia.
Qed.

(** Besides what was there before, every element is in a table or somebody holds it. *)
Lemma estates_size l :
  (forall s own e hs, owns !! s = Some own -> own !! e = Some hs -> 0 < shares hs -> e ∈ l) ->
  (base.size (hp m) <= base.size h0 + length ps * Z.to_nat (ms / sizeof_elem) + length l)%nat.
Proof.
  intros Hl.
  pose proof (map_size_le (hp m) (elements (dom h0) ++ concat (members <$> ps) ++ l)) as Hsz.
  rewrite !length_app in Hsz.
  assert (length (concat (members <$> ps)) <= length (members <$> ps) * Z.to_nat (ms / sizeof_elem))%nat as Hm.
  { apply length_concat_le. intros x Hx. apply list_elem_of_fmap in Hx as (p & -> & Hp).
    apply list_elem_of_lookup in Hp as [s Hp]. by apply (members_bound s). }
  rewrite length_fmap in Hm. change (length (elements (dom h0))) with (base.size (dom h0)) in Hsz. rewrite size_dom in Hsz.
  etransitivity; [apply Hsz; clear Hsz Hm | lia]. intros a [el Ha]. rewrite !elem_of_app.
  destruct (decide (Exists (fun own : ownership => is_Some (own !! a)) owns)) as [He|He].
  - apply Exists_exists in He as (own & Hin & hs & Hhs). apply list_elem_of_lookup in Hin as [s Ho]. right.
    destruct (es_partition Hes s own Ho) as [p Hp]. destruct (es_part Hes s p own Hp Ho) as (Hpo & _).
    destruct (si_held _ _ _ _ Hpo a hs Hhs) as ((Hr & Hw & Hnb) & _).
    destruct (in_table hs) eqn:Ht.
    + left. apply elem_of_concat. exists s, (members p). rewrite list_lookup_fmap, Hp. split; [done|].
      apply (si_members _ _ _ _ Hpo). by exists hs.
    + right. apply (Hl s own a hs Ho Hhs). unfold nobody in Hnb. rewrite Ht in Hnb. unfold shares, b2z.
      destruct (writing hs); simpl in Hnb; [lia|]. apply Z.eqb_neq in Hnb. lia.
  - left. apply elem_of_elements, elem_of_dom. exists el. rewrite <- Ha. symmetry. apply (es_out Hes).
    intros s own Ho. destruct (own !! a) eqn:Hx; [|done]. destruct He. apply Exists_exists. exists own.
    split; [by eapply list_elem_of_lookup_2 | by eexists].
Qed.
End homes.

Arguments member_books {release _ _ h0 ms ev k m ps owns}.
Arguments books_member {release _ _ h0 ms ev k m ps owns}.
Arguments members_apart {release _ _ h0 ms ev k m ps owns}.
Arguments home_addr {release _ _ h0 ms ev k m ps owns}.
Arguments home_unique {release _ _ h0 ms ev k m ps owns}.
Arguments shares_at_home {release _ _ h0 ms ev k m ps owns}.
Arguments still_home {release _ _ h0 ms ev k m ps owns}.
Arguments books_survive {release _ _ h0 ms ev k m ps owns}.
Arguments answered_moved {release _ _ h0 ms ev k m ps owns}.
Arguments estates_size {release _ _ h0 ms ev k m ps owns}.
