(* ===== verification/Shares.v ===== *)
(** * Shares: who holds the values of a server, and how many hold them

    A client that holds a value has a share in it: the writer one, every lookup
    one. Serving a request gives out a share with every value it answers with and
    takes one back with a release, and it changes nothing else of that kind; so over a
    batch the shares change by what was answered and what was released. *)
From stdpp Require Import base list gmap relations.
From Stdlib Require Import ZArith Lia.
From S2P Require Import Prelude Protocol ALock Value Partition PartitionInv PartitionLru.
From S2P Require Import PartitionThms TableOps Ownership Server ServerThms HashTable Estates Holders.

Local Open Scope Z_scope.

(** The shares that a request gives up. *)
Definition given_up (e : Z) (r : request) : Z :=
  match r with Release e' => if e' =? e then 1 else 0 | _ => 0 end.

Definition all_given_up (e : Z) (rs : list request) : Z := zsum (given_up e) rs.

Arguments all_given_up : simpl never.

Lemma all_given_up_nil e : all_given_up e [] = 0.
Proof. reflexivity. Qed.

Lemma all_given_up_cons e r rs : all_given_up e (r :: rs) = given_up e r + all_given_up e rs.
Proof. reflexivity. Qed.

Lemma all_given_up_app e rs1 rs2 : all_given_up e (rs1 ++ rs2) = all_given_up e rs1 + all_given_up e rs2.
Proof. apply zsum_app. Qed.

#[export] Hint Rewrite all_given_up_nil all_given_up_cons all_given_up_app : smp.

Lemma given_up_nonneg e r : 0 <= given_up e r.
Proof. destruct r; simpl; try case_match; lia. Qed.

Lemma all_given_up_nonneg e rs : 0 <= all_given_up e rs.
Proof. apply zsum_nonneg. intros r _. apply given_up_nonneg. Qed.

Lemma all_given_up_pos e rs : 0 < all_given_up e rs <-> Release e ∈ rs.
Proof.
  split.
  - intros H. apply zsum_pos_inv in H as (r & Hr & Hp). destruct r as [| |e']; simpl in Hp; try lia.
    destruct (Z.eqb_spec e' e); [by subst | lia].
  - intros H. pose proof (zsum_member (given_up e) rs (Release e) (fun r _ => given_up_nonneg e r) H) as Hm.
    simpl in Hm. rewrite Z.eqb_refl in Hm. unfold all_given_up. lia.
Qed.

Lemma after_release_event s s' :
  0 <= readers s -> after (release_event s) s = Some s' -> 0 <= readers s' /\ shares s' = shares s - 1.
Proof.
  intros Hr H. destruct s as [t [] r]; unfold release_event in H; simpl in H, Hr.
  - injection H as <-. unfold shares, b2z. simpl. lia.
  - destruct (Z.ltb_spec 0 r); [|done]. injection H as <-. unfold shares, b2z. simpl. lia.
Qed.

Lemma can_release s : 0 < shares s -> is_Some (after (release_event s) s).
Proof.
  destruct s as [t [] r]; unfold shares, release_event, b2z; simpl; [by eexists|]. intros H.
  rewrite (proj2 (Z.ltb_lt _ _)) by lia. by eexists.
Qed.

(** ** One request *)
Section server.
Context `{M : Machine} (spins : nat).

(** What a request does to the shares, to the keys of the elements, and what it
    answers. *)
Definition new_at (r : request) (a : list Z) (e : Z) : Prop :=
  match r with Insert _ _ => a = [value_ptr e] | _ => False end.

Lemma serve_shares n own m p r a m' p' own' :
  0 <= n < 2 ^ 62 -> server_inv n own m p -> max_size p < 2 ^ 63 -> request_ok r ->
  serve spins r m p = Ok (a, m', p') -> own_next r a p' own = Some own' ->
  (forall e, addr_ok e -> shares_of own' e = shares_of own e + occurs (value_ptr e) a - given_up e r) /\
  Forall value_like a /\ recounted (new_at r a) (hp m) (hp m').
Proof.
  intros Hn Hinv Hmax Hr Hs Ho. destruct r as [k|k sz|e0]; simpl in Hs.
  - destruct (lookup_value_ok n own m p k (proj2 Hn) Hinv)
      as (v & m1 & p1 & own1 & Hl & Ho1 & _ & Ha & _).
    rewrite Hl in Hs. cbn [mbind result_bind mret result_ret] in Hs. injection Hs as <- <- <-.
    pose proof (lookup_recounts (new_at (Lookup k) [v]) _ _ _ _ _ _ Hl) as Hrec.
    simpl in Ho. unfold lookup_answer in Ha. destruct (Z.eqb_spec v 0) as [->|Hv].
    + injection Ho as <-. split; [|split; [|done]].
      * intros e He. rewrite occurs_null by done. simpl. lia.
      * constructor; [by left | done].
    + rewrite decide_False in Ha by done. destruct Ha as (e1 & s & -> & He1 & Ht & Hw & _).
      destruct (si_held _ _ _ _ Hinv e1 s He1) as ((Hrd & _) & Haddr & _).
      rewrite elem_of_value_ptr in Ho by done.
      split; [|split; [|done]].
      * intros e He. rewrite occurs_value by done. simpl.
        assert (after Found s = Some (Holds true false (readers s + 1))) as Haf
          by (simpl; by rewrite Ht, Hw).
        rewrite (shares_event Found e1 own own' s _ e He1 Haf); [|simpl; lia|done].
        unfold shares, b2z. simpl. rewrite Hw. case_match; lia.
      * constructor; [right; eauto | done].
  - simpl in Hr. apply bind_Ok in Hs as ([[v m1] p1] & Hi & Hs). injection Hs as <- <- <-.
    unfold serve_insert in Hi. rewrite i32_small in Hi by lia.
    change (Z.lor DATA_READY_MASK 2) with (first_count (release := mp_release_value_)) in Hi.
    destruct (insert_value_inserted spins n own m p k sz v m1 p1 Hinv ltac:(lia) Hmax Hi)
      as (e1 & m2 & el & Hins & -> & Hel & ->).
    pose proof (in_addr _ _ _ _ _ _ _ _ Hins) as Haddr. simpl in Ho.
    rewrite elem_of_value_ptr in Ho by done. injection Ho as <-. split; [|split].
    + intros e He. rewrite occurs_value by done.
      rewrite (insert_shares n own m p k sz e1 m2 p1 Hn Hinv Hins). simpl. lia.
    + constructor; [right; eauto | done].
    + intros b el' Hb. destruct (insert_recounts m p k sz e1 m2 p1 Hins el _ b el' Hb) as [<-|?]; [by left|auto].
  - apply bind_Ok in Hs as (m1 & Hi & Hs). injection Hs as <- <- <-.
    simpl in Ho. unfold own_release in Ho. destruct (own !! e0) as [s|] eqn:He0; [|done].
    cbn [mbind option_bind] in Ho.
    destruct (si_held _ _ _ _ Hinv e0 s He0) as ((Hrd & _) & Haddr & el0 & Hel0 & _).
    destruct (after (release_event s) s) as [s'|] eqn:Hs'.
    2: { unfold own_event in Ho. rewrite He0 in Ho. cbn [mbind option_bind] in Ho. by rewrite Hs' in Ho. }
    destruct (after_release_event s s' (proj1 Hrd) Hs') as [Hr' Hsh]. split; [|split; [done|]].
    + intros e He. rewrite (shares_event _ e0 own own' s s' e He0 Hs' Hr' Ho). autorewrite with smp. simpl.
      case_match; lia.
    + unfold serve_release in Hi. apply bind_Ok in Hi as (h & Hh & Hi). injection Hi as <-. simpl.
      apply (release_recounts mp_release_value_ _ _ e0 _ Hh). by rewrite Hel0.
Qed.

(** One request adds one element to the memory at most. *)
Lemma serve_size n own m p r a m' p' own' :
  0 <= n < 2 ^ 62 -> server_inv n own m p -> max_size p < 2 ^ 63 -> request_ok r ->
  serve spins r m p = Ok (a, m', p') -> own_next r a p' own = Some own' ->
  (base.size (hp m') <= S (base.size (hp m)))%nat.
Proof.
  intros Hn Hinv Hmax Hr Hs Ho. destruct (serve_shares n own m p r a m' p' own' Hn Hinv Hmax Hr Hs Ho) as (_ & _ & Hrec).
  destruct r as [k|k sz|e0]; [| |].
  1,3: pose proof (recounted_size ∅ _ _ _ Hrec ltac:(done)) as Hsz; rewrite size_empty in Hsz; lia.
  simpl in Hr. simpl in Hs. apply bind_Ok in Hs as ([[v m1] p1] & Hi & Hs). injection Hs as <- <- <-.
  unfold serve_insert in Hi. rewrite i32_small in Hi by lia.
  destruct (insert_value_inserted spins n own m p k sz v m1 p1 Hinv ltac:(lia) Hmax Hi)
    as (e1 & m2 & el & Hins & -> & Hel & ->).
  pose proof (recounted_size {[e1]} _ _ _ (insert_recounts m p k sz e1 m2 p1 Hins el (first_count (release := mp_release_value_)))
    ltac:(intros e <-; set_solver)) as Hsz.
  rewrite size_singleton in Hsz. exact Hsz.
Qed.


(** The keys of the elements that somebody holds. *)
Definition keys_in (P : Z -> Prop) (own : ownership) (h : heap) : Prop :=
  forall a el, is_Some (own !! a) -> h !! a = Some el -> P (key el).

Definition inserts_in (P : Z -> Prop) (r : request) : Prop :=
  match r with Insert k _ => P k | _ => True end.

Lemma serve_keys P n own m p r a m' p' own' :
  0 <= n < 2 ^ 62 -> server_inv n own m p -> max_size p < 2 ^ 63 -> disciplined own (max_size p) r ->
  serve spins r m p = Ok (a, m', p') -> own_next r a p' own = Some own' ->
  inserts_in P r -> keys_in P own (hp m) -> keys_in P own' (hp m').
Proof.
  intros Hn Hinv Hmax Hd Hs Ho HP Hk b el' Hb Hel.
  pose proof (serve_ok spins n own m p r Hn Hinv Hmax Hd) as Hok. rewrite Hs in Hok.
  destruct Hok as (own2 & Ho2 & Hinv' & Hfp & _). rewrite Ho in Ho2. injection Ho2 as <-.
  destruct (serve_shares n own m p r a m' p' own' Hn Hinv Hmax (proj1 Hd) Hs Ho) as (_ & _ & Hrec).
  destruct (Hrec b el' Hel) as [Hnew|(el & rc & Hold & ->)].
  - destruct r as [|k sz|]; try done. simpl in Hnew, HP. subst a. destruct Hd as [Hr _]. simpl in Hr, Hs.
    pose proof (serve_insert_ok spins n own m p k sz Hn Hinv ltac:(lia) Hmax) as Hi.
    destruct (serve_insert spins m p k sz) as [[[v m1] p1]|]; [|done].
    cbn [mbind result_bind mret result_ret] in Hs. injection Hs as -> -> ->.
    destruct Hi as (own3 & Ho3 & _ & _ & _ & _ & e & Hv & _ & He & el2 & Hel2 & Hkey).
    rewrite Ho in Ho3. injection Ho3 as <-. destruct Hb as [x Hx].
    destruct (si_held _ _ _ _ Hinv' b x Hx) as (_ & Hab & _).
    destruct (si_held _ _ _ _ Hinv' e _ He) as (_ & Hae & _).
    apply value_ptr_inj in Hv; [|done..]. subst e. by simplify_eq.
  - simpl. apply (Hk b); [|done]. destruct (own !! b) as [x|] eqn:Hx; [by eexists|].
    destruct Hb as [y Hy]. specialize (Hfp b). rewrite Hx, Hy in Hfp. congruence.
Qed.

Section one_request.
Context (n : Z) (own : ownership) (m : mem) (p : partition) (r : request) (a : list Z) (m' : mem)
  (p' : partition) (own' : ownership).
Context (Hn : 0 <= n < 2 ^ 62) (Hinv : server_inv n own m p) (Hmax : max_size p < 2 ^ 63).
Context (Hd : disciplined own (max_size p) r).
Context (Hs : serve spins r m p = Ok (a, m', p')) (Ho : own_next r a p' own = Some own').

Lemma next_inv : server_inv (n + 1) own' m' p'.
Proof.
  pose proof (serve_ok spins n own m p r Hn Hinv Hmax Hd) as Hok. rewrite Hs in Hok.
  destruct Hok as (own2 & Ho2 & Hinv' & _). rewrite Ho in Ho2. by injection Ho2 as <-.
Qed.

(** What an insertion answers. *)
Lemma insert_answer k sz :
  r = Insert k sz -> exists e el, a = [value_ptr e] /\ addr_ok e /\ own' !! e = Some inserted /\
    hp m' !! e = Some el /\ key el = k /\ size el = elem_size sz.
Proof.
  intros Hr. rewrite Hr in Hs, Ho, Hd. destruct Hd as [Hok _]. simpl in Hs, Hok, Ho.
  apply bind_Ok in Hs as ([[v m1] p1] & Hi & Hv). injection Hv as <- <- <-. unfold serve_insert in Hi.
  rewrite i32_small in Hi by lia.
  change (Z.lor DATA_READY_MASK 2) with (first_count (release := mp_release_value_)) in Hi.
  destruct (insert_value_inserted spins n own m p k sz v m1 p1 Hinv ltac:(lia) Hmax Hi)
    as (e & m2 & el & Hins & -> & Hel & ->). pose proof (in_addr _ _ _ _ _ _ _ _ Hins) as Haddr.
  rewrite elem_of_value_ptr in Ho by done. injection Ho as <-.
  destruct (in_elem _ _ _ _ _ _ _ _ Hins) as (el2 & Hel2 & Hk & Hz). rewrite Hel in Hel2. injection Hel2 as <-.
  eexists e, _. split; [done|]. split; [done|]. split; [rewrite own_insert_lookup; by rewrite decide_True|].
  simpl. split; [apply lookup_insert_eq | done].
Qed.

(** What has holders before and after survives. *)
Lemma next_survives e : 0 < shares_of own e -> 0 < shares_of own' e -> survives own own' (hp m) (hp m') e.
Proof.
  intros He He'. destruct r as [k|k sz|e0] eqn:Hreq; simpl in Hs.
  - apply bind_Ok in Hs as ([[v m1] p1] & Hl & Hv). injection Hv as <- <- <-.
    by apply (lookup_survives n own m p k own' v m1 p1 e (proj2 Hn) Hinv).
  - destruct Hd as [Hok _]. simpl in Hok.
    apply bind_Ok in Hs as ([[v m1] p1] & Hi & Hv). injection Hv as <- <- <-. unfold serve_insert in Hi.
    rewrite i32_small in Hi by lia.
    change (Z.lor DATA_READY_MASK 2) with (first_count (release := mp_release_value_)) in Hi.
    destruct (insert_value_inserted spins n own m p k sz v m1 p1 Hinv ltac:(lia) Hmax Hi)
      as (e1 & m2 & el & Hins & -> & Hel & ->). simpl in Ho.
    rewrite elem_of_value_ptr in Ho by apply (in_addr _ _ _ _ _ _ _ _ Hins). injection Ho as <-.
    by apply (insert_survives n own m p k sz e1 m2 p1 Hn Hinv Hins).
  - apply bind_Ok in Hs as (m1 & Hi & Hv). injection Hv as <- <- <-. simpl in Ho. unfold own_release in Ho.
    unfold serve_release in Hi. apply bind_Ok in Hi as (h & Hh & Hm). injection Hm as <-.
    destruct (own !! e0) as [s0|] eqn:He0; [|done]. cbn [mbind option_bind] in Ho.
    apply (event_survives n own m p (proj2 Hn) Hinv (release_event s0) e0 own' Ho); [|done..].
    unfold release_event. by destruct (writing s0).
Qed.

Lemma next_answered : Forall2 (answered_by own' (hp m')) (filter answering [r]) a.
Proof.
  rewrite filter_cons, filter_nil. pose proof insert_answer as Hia. destruct r as [k|k sz|e0] eqn:Hreq; simpl.
  - destruct (lookup_value_ok n own m p k (proj2 Hn) Hinv) as (v & m1 & p1 & own1 & Hl & Ho1 & Hi1 & Ha & _).
    simpl in Hs. rewrite Hl in Hs. cbn [mbind result_bind mret result_ret] in Hs. injection Hs as <- <- <-.
    rewrite Ho in Ho1. injection Ho1 as <-. constructor; [|constructor]. unfold lookup_answer in Ha.
    case_decide as Hv; [by left|]. destruct Ha as (e & s & -> & He & Ht & Hw & el & Hel & Hk). right.
    destruct (si_held _ _ _ _ Hinv e s He) as ((Hrd & _) & Haddr & _).
    simpl in Ho. rewrite (proj2 (Z.eqb_neq _ _) Hv), elem_of_value_ptr in Ho by done.
    assert (own' !! e = Some (Holds true false (readers s + 1))) as He'.
    { unfold own_event in Ho. rewrite He in Ho. simpl in Ho. rewrite Ht, Hw in Ho. injection Ho as <-.
      by rewrite lookup_partial_alter_eq. }
    destruct (si_held _ _ _ _ Hi1 e _ He') as (_ & _ & el' & Hel' & _).
    destruct (lookup_recounts (fun _ => False) _ _ _ _ _ _ Hl e el' Hel') as [[]|(el0 & rc & Hel0 & ->)].
    rewrite Hel in Hel0. injection Hel0 as <-. eexists e, _, _. do 2 (split; [done|]).
    split; [exact He'|]. split; [exact Hel' | done].
  - destruct (Hia k sz eq_refl) as (e & el & -> & Haddr & He & Hel & Hk & Hz).
    constructor; [|constructor]. right. by exists e, inserted, el.
  - destruct a; [constructor | done].
Qed.
End one_request.

Lemma footprint_chain (own1 own2 own3 : ownership) (h1 h2 h3 : heap) :
  footprint own1 h1 own2 h2 -> footprint own2 h2 own3 h3 -> footprint own1 h1 own3 h3.
Proof.
  intros H1 H2 a. specialize (H1 a). specialize (H2 a).
  destruct (own1 !! a), (own2 !! a), (own3 !! a); congruence || done.
Qed.

(** ** A batch *)

(** The releases of a batch are backed by shares. *)
Definition backed (own : ownership) (rs : list request) : Prop :=
  forall e, Release e ∈ rs -> all_given_up e rs <= shares_of own e.

Definition fits (max : Z) (r : request) : Prop :=
  match r with Insert _ sz => elem_size sz <= max | _ => True end.

Lemma backed_disciplined own max r rs :
  request_ok r -> fits max r -> backed own (r :: rs) -> disciplined own max r.
Proof.
  intros Hr Hf Hb. split; [done|]. destruct r as [k|k sz|e]; [done | done|].
  specialize (Hb e ltac:(by left)). autorewrite with smp in Hb. simpl in Hb. rewrite Z.eqb_refl in Hb.
  pose proof (all_given_up_nonneg e rs). unfold shares_of in Hb.
  destruct (own !! e) as [s|] eqn:He; [|lia]. exists s. split; [done|]. apply can_release. lia.
Qed.

Lemma backed_addr n own m p rs e : server_inv n own m p -> backed own rs -> Release e ∈ rs -> addr_ok e.
Proof.
  intros Hinv Hb He. specialize (Hb e He). apply all_given_up_pos in He. unfold shares_of in Hb.
  destruct (own !! e) as [s|] eqn:Hs; [|lia]. apply (si_held _ _ _ _ Hinv e s Hs).
Qed.

(** One request and the rest of a batch. *)
Lemma survive_more n own m p r rs a m1 p1 own1 own2 h2 b :
  0 <= n < 2 ^ 62 -> server_inv n own m p -> max_size p < 2 ^ 63 -> disciplined own (max_size p) r ->
  serve spins r m p = Ok (a, m1, p1) -> own_next r a p1 own = Some own1 -> backed own (r :: rs) ->
  (forall e, all_given_up e rs < shares_of own1 e -> survives own1 own2 (hp m1) h2 e) ->
  Forall2 (answered_by own2 h2) (filter answering rs) b ->
  (forall e, all_given_up e (r :: rs) < shares_of own e -> survives own own2 (hp m) h2 e) /\
  Forall2 (answered_by own2 h2) (filter answering (r :: rs)) (a ++ b).
Proof.
  intros Hn Hinv Hmax Hd Hs Ho Hb Hsv Hab.
  destruct (serve_shares n own m p r a m1 p1 own1 Hn Hinv Hmax (proj1 Hd) Hs Ho) as (Hsh & _). split.
  - intros e He. autorewrite with smp in He. pose proof (given_up_nonneg e r). pose proof (all_given_up_nonneg e rs).
    assert (addr_ok e) as Haddr.
    { unfold shares_of in He. destruct (own !! e) as [x|] eqn:Hx; [apply (si_held _ _ _ _ Hinv e x Hx) | lia]. }
    specialize (Hsh e Haddr). pose proof (occurs_nonneg (value_ptr e) a).
    apply (survives_trans _ own1 _ _ (hp m1)); [|apply Hsv; lia].
    apply (next_survives n own m p r a m1 p1 own1); try done; lia.
  - change (r :: rs) with ([r] ++ rs). rewrite filter_app. apply Forall2_app; [|done].
    pose proof (next_answered n own m p r a m1 p1 own1 Hn Hinv Hmax Hd Hs Ho) as Ha.
    apply Forall2_same_length_lookup. split; [by eapply Forall2_length|]. intros i q v Hq Hv.
    apply (answered_survives own1 own2 (hp m1)); [|by apply (Forall2_lookup_lr _ _ _ _ _ _ Ha Hq Hv)].
    intros e Haddr ->. apply Hsv. rewrite (Hsh e Haddr). assert (0 < occurs (value_ptr e) a) by (apply occurs_pos; by eapply list_elem_of_lookup_2).
    pose proof (all_given_up_nonneg e rs). pose proof (given_up_nonneg e r).
    destruct (decide (Release e ∈ r :: rs)) as [Hin|Hout].
    + specialize (Hb e Hin). autorewrite with smp in Hb. lia.
    + assert (~ 0 < all_given_up e (r :: rs)) as Hz by (by rewrite all_given_up_pos).
      autorewrite with smp in Hz. assert (0 <= shares_of own e); [|lia].
      unfold shares_of. destruct (own !! e) as [x|] eqn:Hx; [|done].
      destruct (si_held _ _ _ _ Hinv e x Hx) as ((? & _) & _). unfold shares, b2z. case_match; lia.
Qed.

(** Serving a batch: like one request that answers all the answers. *)
Lemma serve_all_ok P ms rs n own m p :
  0 <= n -> n + Z.of_nat (length rs) < 2 ^ 62 -> server_inv n own m p -> ms < 2 ^ 63 -> max_size p = ms ->
  Forall request_ok rs -> Forall (fits ms) rs -> Forall (inserts_in P) rs ->
  backed own rs -> keys_in P own (hp m) ->
  match serve_all spins rs m p with
  | Ok (vs, m', p') => exists own', server_inv (n + Z.of_nat (length rs)) own' m' p' /\
      footprint own (hp m) own' (hp m') /\ max_size p' = max_size p /\ evictalgo p' = evictalgo p /\
      (forall e, addr_ok e ->
         shares_of own' e = shares_of own e + occurs (value_ptr e) vs - all_given_up e rs) /\
      Forall value_like vs /\ keys_in P own' (hp m') /\
      (forall e, all_given_up e rs < shares_of own e -> survives own own' (hp m) (hp m') e) /\
      Forall2 (answered_by own' (hp m')) (filter answering rs) vs
  | Fault Undefined => False
  | Fault Blocked => evictalgo p = EVICT_RANDOM
  | Fault AssertFailed => exists k sz, Insert k sz ∈ rs /\ refused (base.size (hp m) + length rs) sz
  end.
Proof.
  intros Hn Hlen Hinv Hms. revert n own m p Hn Hlen Hinv.
  induction rs as [|r rs IH]; intros n own m p Hn Hlen Hinv Hmax Hok Hfit HP Hb Hk; cbn [serve_all].
  - cbn [mret result_ret]. exists own. rewrite Z.add_0_r. split_and!; try done; [apply footprint_refl| |].
    + intros e _. autorewrite with smp. lia.
    + intros e He. by apply (held_survives n own m p e Hinv).
  - apply Forall_cons in Hok as [Hr Hok]. apply Forall_cons in Hfit as [Hf Hfit].
    apply Forall_cons in HP as [HPr HP].
    pose proof (backed_disciplined own ms r rs Hr Hf Hb) as Hd. rewrite <- Hmax in Hd.
    simpl length in Hlen.
    pose proof (serve_ok spins n own m p r ltac:(lia) Hinv ltac:(lia) Hd) as Hs.
    destruct (serve spins r m p) as [[[a m1] p1]|f] eqn:Hserve; cbn [mbind result_bind].
    2: { destruct f; try done. destruct Hs as (k & sz & -> & Href). exists k, sz. split; [by left|]. apply (refused_more _ _ _ Href). simpl. lia. }
    destruct Hs as (own1 & Ho & Hinv1 & Hfp & Hmx & Hev).
    destruct (serve_shares n own m p r a m1 p1 own1 ltac:(lia) Hinv ltac:(lia) Hr Hserve Ho) as (Hsh & Hva & _).
    assert (keys_in P own1 (hp m1)) as Hk1
      by (by apply (serve_keys P n own m p r a m1 p1 own1); first [lia | done]).
    assert (backed own1 rs) as Hb1.
    { intros e He. assert (Release e ∈ r :: rs) as He' by (by right).
      rewrite (Hsh e (backed_addr n own m p _ e Hinv Hb He')). specialize (Hb e He').
      autorewrite with smp in Hb. pose proof (occurs_nonneg (value_ptr e) a). lia. }
    specialize (IH (n + 1) own1 m1 p1 ltac:(lia) ltac:(lia) Hinv1 ltac:(congruence) Hok Hfit HP Hb1 Hk1).
    destruct (serve_all spins rs m1 p1) as [[[b m2] p2]|f]; cbn [mbind result_bind mret result_ret].
    + destruct IH as (own2 & Hinv2 & Hfp2 & Hmx2 & Hev2 & Hsh2 & Hvb & Hk2 & Hsv2 & Hab2). exists own2.
      split; [replace (n + Z.of_nat (length (r :: rs))) with (n + 1 + Z.of_nat (length rs)) by (simpl; lia); done|].
      split; [by eapply footprint_chain|]. split; [congruence|]. split; [congruence|].
      split; [intros e He; rewrite (Hsh2 e He), (Hsh e He); autorewrite with smp; lia|].
      split; [by apply Forall_app|]. split; [done|].
      apply (survive_more n own m p r rs a m1 p1 own1); try done; lia.
    + destruct f; [|done | congruence]. destruct IH as (k & sz & Hin & Href). exists k, sz.
      split; [by right|]. apply (refused_more _ _ _ Href). simpl.
      pose proof (serve_size n own m p r a m1 p1 own1 ltac:(lia) Hinv ltac:(lia) Hr Hserve Ho). lia.
Qed.
End server.
