(* ===== verification/Stats.v ===== *)
(** * Stats: the counters of the table ([smphashtable.c])

    [stats_reset] and the [stats_get_*] functions: loops over the partitions of
    a table that other threads may be using; here between two of their actions. *)
From stdpp Require Import base list gmap.
From Stdlib Require Import ZArith QArith Lia.
From S2P Require Import Prelude Protocol ALock Value Partition PartitionInv PartitionThms.
From S2P Require Import TableOps Server HashTable.

Local Open Scope Z_scope.

(** [for (int i = 0; i < hash_table->nservers; i++)]. *)
Definition servers (t : hash_table) : list nat := seq 0 (Z.to_nat (ht_nservers t)).

Fixpoint for_partitions {A} (cs : list nat) (f : A -> partition -> A) (a : A) (t : hash_table)
    : result A :=
  match cs with
  | [] => mret a
  | i :: cs => p ← aget (partitions t) (Z.of_nat i); for_partitions cs f (f a p) t
  end.

Fixpoint reset_from (cs : list nat) (t : hash_table) : result hash_table :=
  match cs with
  | [] => mret t
  | i :: cs =>
      p ← aget (partitions t) (Z.of_nat i);
      ps ← aset (partitions t) (Z.of_nat i) (set_stats 0 0 0 p);
      reset_from cs (set_partitions ps t)
  end.

Definition stats_reset (t : hash_table) : result hash_table := reset_from (servers t) t.

Definition stats_get_nhits (t : hash_table) : result Z :=
  for_partitions (servers t) (fun n p => i32 (n + nhits p)) 0 t.

Definition stats_get_nlookups (t : hash_table) : result Z :=
  for_partitions (servers t) (fun n p => i32 (n + nlookups p)) 0 t.

Definition stats_get_ninserts (t : hash_table) : result Z :=
  for_partitions (servers t) (fun n p => i32 (n + ninserts p)) 0 t.

(** [*used] and [*total]. *)
Definition stats_get_mem (t : hash_table) : result (Z * Z) :=
  for_partitions (servers t)
    (fun '(u, m) p => (u64 (u + psize p), u64 (m + max_size p))) (0, 0) t.

Definition stats_set_track_cpu_usage (t : hash_table) (track : Z) : hash_table :=
  HashTable (ht_nservers t) (nclients t) (ht_max_size t) (quitting t) (partitions t) (pending t)
    (boxes t) track.

(** The two operands of the division, before they become [double]s. *)
Definition stats_get_cpu_usage (t : hash_table) : result (Z * Z) :=
  '(busy, idle) ← for_partitions (servers t)
    (fun '(b, i) p => (u64 (b + busyclock p), u64 (i + idleclock p))) (0, 0) t;
  mret (busy, u64 (busy + idle)).

(** [*avg], and the two operands of the division under the square root, with
    rationals for the [double]s. *)
Definition stats_get_buckets (t : hash_table) (server : Z) : result (Q * Q * Z) :=
  p ← aget (partitions t) server;
  _ ← check (0 <? nhash p) Undefined;
  let lengths := (fun ch => Z.of_nat (length ch)) <$> table p in
  let nelems := foldl Z.add 0 lengths in
  let avg := Qmake nelems (Z.to_pos (nhash p)) in
  let sq := foldl (fun s l => s + (avg - inject_Z l) * (avg - inject_Z l))%Q 0%Q lengths in
  mret (avg, sq, nelems - 1).

(** ** Loops over all partitions *)
Lemma for_partitions_all {A} (f : A -> partition -> A) a t :
  Z.of_nat (length (partitions t)) = ht_nservers t ->
  for_partitions (servers t) f a t = Ok (foldl f a (partitions t)).
Proof.
  intros Hl. unfold servers. rewrite <- Hl, Nat2Z.id.
  assert (forall ps k a, drop k (partitions t) = ps ->
    for_partitions (seq k (length ps)) f a t = Ok (foldl f a ps)) as Hgen.
  { induction ps as [|p ps IH]; intros k b Hd; [done|]. simpl.
    assert (partitions t !! k = Some p) as Hk.
    { rewrite <- (Nat.add_0_r k), <- lookup_drop, Hd. done. }
    rewrite (proj2 (aget_Ok _ _ p)) by (split; [lia | by rewrite Nat2Z.id]).
    cbn [mbind result_bind]. apply IH. by rewrite <- Nat.add_1_r, <- drop_drop, Hd. }
  by apply (Hgen (partitions t) 0%nat).
Qed.

Lemma reset_all t :
  Z.of_nat (length (partitions t)) = ht_nservers t ->
  stats_reset t = Ok (set_partitions (set_stats 0 0 0 <$> partitions t) t).
Proof.
  intros Hl. unfold stats_reset, servers. rewrite <- Hl, Nat2Z.id.
  assert (forall ps k t0, partitions t0 = (set_stats 0 0 0 <$> take k (partitions t)) ++ ps ->
    drop k (partitions t) = ps -> (k <= length (partitions t))%nat ->
    set_partitions (partitions t) t0 = t ->
    reset_from (seq k (length ps)) t0 =
      Ok (set_partitions (set_stats 0 0 0 <$> partitions t) t)) as Hgen.
  { induction ps as [|p ps IH]; intros k t0 Ht0 Hd Hk Hsame.
    - simpl. rewrite app_nil_r in Ht0.
      assert (take k (partitions t) = partitions t) as Htk.
      { rewrite <- (take_drop k (partitions t)) at 2. by rewrite Hd, app_nil_r. }
      rewrite Htk in Ht0. rewrite <- Ht0, <- Hsame. by destruct t0.
    - assert (length (set_stats 0 0 0 <$> take k (partitions t)) = k) as Hlen
        by (rewrite length_fmap, length_take; lia).
      assert (k < length (partitions t))%nat.
      { apply (f_equal length) in Hd. rewrite length_drop in Hd. simpl in Hd. lia. }
      assert (partitions t !! k = Some p) as Hkp
        by (rewrite <- (Nat.add_0_r k), <- lookup_drop, Hd; done).
      cbn [reset_from seq length]. rewrite Ht0.
      rewrite (proj2 (aget_Ok _ _ p)).
      2: { split; [lia|]. rewrite Nat2Z.id, lookup_app_r, Hlen, Nat.sub_diag by lia. done. }
      cbn [mbind result_bind]. rewrite aset_in by (rewrite length_app, Hlen; simpl; lia).
      cbn [mbind result_bind]. rewrite Nat2Z.id, insert_app_r_alt, Hlen, Nat.sub_diag by lia.
      apply IH; simpl.
      + rewrite (take_S_r _ _ p) by done. by rewrite fmap_app, <- app_assoc.
      + by rewrite <- Nat.add_1_r, <- drop_drop, Hd.
      + lia.
      + rewrite <- Hsame. by destruct t0. }
  apply (Hgen (partitions t) 0%nat t); [done | done | lia | by destruct t].
Qed.

Lemma sum_zero (f : partition -> Z) ps :
  (forall p, p ∈ ps -> f p = 0) -> foldl (fun n p => i32 (n + f p)) 0 ps = 0.
Proof.
  induction ps as [|p ps IH]; intros Hf; [done|]. simpl. rewrite (Hf p) by (by left).
  apply IH. intros q Hq. apply Hf. by right.
Qed.

(** ** What the operations count *)
Definition same_stats (p p' : partition) : Prop :=
  nhits p' = nhits p /\ nlookups p' = nlookups p /\ ninserts p' = ninserts p.

Lemma hash_remove_stats h p e p' : hash_remove h p e = Ok p' -> same_stats p p'.
Proof. unfold hash_remove. intros H. invb H. done. Qed.

Lemma hash_lookup_stats h p k r p' : hash_lookup h p k = Ok (r, p') -> same_stats p p'.
Proof.
  unfold hash_lookup. intros H. apply bind_Ok in H as (eh & _ & H). apply bind_Ok in H as (o & _ & H).
  destruct o; [|by injection H as _ <-]. apply bind_Ok in H as (p1 & Hp1 & H). injection H as _ <-.
  case_match; [|by injection Hp1 as <-]. unfold lru_touch in Hp1. by invb Hp1.
Qed.

Lemma same_stats_refl p : same_stats p p.
Proof. done. Qed.

Lemma same_stats_trans p1 p2 p3 : same_stats p1 p2 -> same_stats p2 p3 -> same_stats p1 p3.
Proof. unfold same_stats. intuition congruence. Qed.

Section counted.
Context `{Machine}.
Lemma make_room_stats release fuel spins m p sz es e raw m' p' :
  make_room release fuel spins m p sz es = Ok (e, raw, m', p') -> same_stats p p'.
Proof.
  revert m p. induction fuel as [|fuel IH]; intros m p Hr; [done|].
  rewrite make_room_S in Hr. cbn zeta in Hr.
  destruct (if psize p <=? max_size p then _ else _) as [[e0 raw0]|]; [by injection Hr as _ _ _ <-|].
  apply bind_Ok in Hr as ([[h1 k1] p1] & He & Hr). apply IH in Hr.
  apply (same_stats_trans _ p1); [|done]. unfold evict_one in He.
  apply bind_Ok in He as (x & _ & He). apply bind_Ok in He as ([v k2] & _ & He).
  apply bind_Ok in He as (p2 & Hp & He). apply bind_Ok in He as (h2 & _ & He).
  injection He as _ _ <-. by eapply hash_remove_stats.
Qed.
Lemma hash_insert_stats release spins m p k sz e m' p' :
  hash_insert release spins m p k sz = Ok (e, m', p') -> same_stats p p'.
Proof.
  unfold hash_insert. intros Hi. cbn zeta in Hi.
  apply bind_Ok in Hi as ([r p1] & Hl & Hi). apply bind_Ok in Hi as ([m2 p2] & Ho & Hi).
  apply bind_Ok in Hi as ([[[e0 raw] m3] p3] & Hr & Hi).
  apply bind_Ok in Hi as (ch & _ & Hi). apply bind_Ok in Hi as (t & _ & Hi).
  injection Hi as _ _ <-.
  apply hash_lookup_stats in Hl. apply make_room_stats in Hr.
  assert (same_stats p1 p2) as H2.
  { destruct r as [o|]; [|by injection Ho as _ <-].
    apply bind_Ok in Ho as (p4 & Hp & Ho). apply bind_Ok in Ho as (h4 & _ & Ho).
    injection Ho as _ <-. by eapply hash_remove_stats. }
  apply (same_stats_trans _ p1); [done|]. apply (same_stats_trans _ p2); [done|].
  by destruct (evictalgo p3 =? EVICT_LRU); exact Hr.
Qed.
Lemma insert_value_stats release rc spins m p k sz v m' p' :
  insert_value release rc spins m p k sz = Ok (v, m', p') -> same_stats (count_insert p) p'.
Proof.
  unfold insert_value. intros Hi. apply bind_Ok in Hi as ([[e m1] p1] & Hh & Hi).
  apply bind_Ok in Hi as (h & _ & Hi). injection Hi as _ _ <-. by apply hash_insert_stats in Hh.
Qed.
End counted.

Lemma lookup_value_stats m p k v m' p' :
  lookup_value m p k = Ok (v, m', p') ->
  same_stats (count_lookup p) p' \/ same_stats (count_hit (count_lookup p)) p'.
Proof.
  unfold lookup_value, find_value. intros Hl. apply bind_Ok in Hl as ([r p1] & Hf & Hl).
  assert (same_stats (count_lookup p) p1) as Hs.
  { apply bind_Ok in Hf as ([r2 p2] & Hh & Hf). apply hash_lookup_stats in Hh.
    destruct r2 as [e|]; [|by injection Hf as _ <-].
    apply bind_Ok in Hf as (el & _ & Hf). by injection Hf as _ <-. }
  destruct r as [e|]; [|injection Hl as _ _ <-; by left]. right.
  apply bind_Ok in Hl as (h & _ & Hl). injection Hl as _ _ <-.
  destruct Hs as (H1 & H2 & H3). unfold same_stats. simpl. rewrite H1. done.
Qed.

Definition is_lookup (r : request) : bool := match r with Lookup _ => true | _ => false end.
Definition is_insert (r : request) : bool := match r with Insert _ _ => true | _ => false end.

Definition count_of (f : request -> bool) (rs : list request) : Z := zsum (fun r => b2z (f r)) rs.

Lemma count_of_range f rs : 0 <= count_of f rs <= Z.of_nat (length rs).
Proof.
  unfold count_of. split.
  - apply zsum_nonneg. intros r _. unfold b2z. case_match; lia.
  - rewrite <- (Z.mul_1_l (Z.of_nat _)). apply zsum_bound. intros r _. unfold b2z. case_match; lia.
Qed.

Lemma i32_add_l x y : i32 (i32 x + y) = i32 (x + y).
Proof.
  unfold i32. f_equal. replace ((x + 2 ^ 31) mod 2 ^ 32 - 2 ^ 31 + y + 2 ^ 31)
    with ((x + 2 ^ 31) mod 2 ^ 32 + y) by lia.
  rewrite Zplus_mod_idemp_l. f_equal. lia.
Qed.

(** The counters of a partition: serving any sequence of requests adds to
    [nlookups] and [ninserts] exactly the lookups and insertions among them, and
    to [nhits] no more than the lookups, modulo the width of [int]. *)
Theorem stats_count_requests `{M : Machine} spins rs m p a m' p' :
  - 2 ^ 31 <= nhits p < 2 ^ 31 -> - 2 ^ 31 <= nlookups p < 2 ^ 31 ->
  - 2 ^ 31 <= ninserts p < 2 ^ 31 -> serve_all spins rs m p = Ok (a, m', p') ->
  nlookups p' = i32 (nlookups p + count_of is_lookup rs) /\
  ninserts p' = i32 (ninserts p + count_of is_insert rs) /\
  exists hits, 0 <= hits <= count_of is_lookup rs /\ nhits p' = i32 (nhits p + hits).
Proof.
  revert m p a. induction rs as [|r rs IH]; intros m p a Hh Hl Hi Hs.
  - injection Hs as _ _ <-. rewrite !Z.add_0_r, !i32_small by done.
    split; [done|]. split; [done|]. exists 0. rewrite Z.add_0_r, i32_small by done. done.
  - cbn [serve_all] in Hs. apply bind_Ok in Hs as ([[a1 m1] p1] & Hr & Hs).
    apply bind_Ok in Hs as ([[a2 m2] p2] & Hs2 & Hs). injection Hs as _ -> ->.
    assert (exists h, 0 <= h <= b2z (is_lookup r) /\ nhits p1 = i32 (nhits p + h) /\
      nlookups p1 = i32 (nlookups p + b2z (is_lookup r)) /\
      ninserts p1 = i32 (ninserts p + b2z (is_insert r))) as (h & Hhr & H1 & H2 & H3).
    { destruct r as [k|k sz|e]; cbn [serve] in Hr.
      - apply bind_Ok in Hr as ([[v mv] pv] & Hv & Hr). injection Hr as _ _ <-.
        apply lookup_value_stats in Hv as [(-> & -> & ->)|(-> & -> & ->)]; simpl;
          [exists 0 | exists 1]; rewrite ?Z.add_0_r, ?(i32_small (nhits p)),
            ?(i32_small (ninserts p)) by done; simpl; done.
      - apply bind_Ok in Hr as ([[v mv] pv] & Hv & Hr). injection Hr as _ _ <-.
        apply insert_value_stats in Hv as (-> & -> & ->). exists 0. simpl.
        by rewrite !Z.add_0_r, (i32_small (nhits p)), (i32_small (nlookups p)).
      - apply bind_Ok in Hr as (mv & _ & Hr). injection Hr as _ _ <-. exists 0. simpl.
        by rewrite !Z.add_0_r, !i32_small. }
    destruct (IH m1 p1 a2) as (Hlk & Hin & hits & Hhits & Hht); try done;
      rewrite ?H1, ?H2, ?H3; try apply i32_range.
    unfold count_of in *. rewrite !zsum_cons, Hlk, Hin, Hht, H1, H2, H3, !i32_add_l.
    split; [f_equal; lia|]. split; [f_equal; lia|]. exists (h + hits).
    split; [lia | f_equal; lia].
Qed.

(** The statistics of a table: after [stats_reset] every counter is 0 and
    nothing else has changed; the memory figures are the exact sums, they do
    not overflow, and what is used is within the total, which is within the
    size the table was created with. *)
Theorem stats_of_table t h ms :
  Z.of_nat (length (partitions t)) = ht_nservers t -> 0 <= ms ->
  ht_nservers t * ms <= ht_max_size t < 2 ^ 64 ->
  (forall p, p ∈ partitions t -> part_wf h p /\ max_size p = ms) ->
  (exists t', stats_reset t = Ok t' /\ set_partitions (partitions t) t' = t /\
     stats_get_nhits t' = Ok 0 /\ stats_get_nlookups t' = Ok 0 /\ stats_get_ninserts t' = Ok 0 /\
     stats_get_mem t' = stats_get_mem t) /\
  exists used total, stats_get_mem t = Ok (used, total) /\
    used = zsum psize (partitions t) /\ total = ht_nservers t * ms /\
    0 <= used <= total /\ total <= ht_max_size t.
Proof.
  intros Hl Hms Hmax Hp. split.
  - exists (set_partitions (set_stats 0 0 0 <$> partitions t) t).
    assert (Z.of_nat (length (set_stats 0 0 0 <$> partitions t)) = ht_nservers t) as Hl'
      by (by rewrite length_fmap).
    split; [by apply reset_all|]. split; [by destruct t|].
    unfold stats_get_nhits, stats_get_nlookups, stats_get_ninserts, stats_get_mem.
    rewrite !for_partitions_all by done. cbn [partitions set_partitions].
    rewrite !sum_zero by (by intros p (q & -> & _)%list_elem_of_fmap).
    do 3 (split; [done|]). f_equal. clear. generalize (0, 0).
    induction (partitions t) as [|p ps IH]; intros [u m]; [done|]. simpl. apply IH.
  - exists (zsum psize (partitions t)), (ht_nservers t * ms).
    unfold stats_get_mem. rewrite for_partitions_all by done.
    assert (forall ps u m, 0 <= u -> 0 <= m ->
      (forall p, p ∈ ps -> part_wf h p /\ max_size p = ms) ->
      u <= m -> m + Z.of_nat (length ps) * ms < 2 ^ 64 ->
      foldl (fun '(u, m) p => (u64 (u + psize p), u64 (m + max_size p))) (u, m) ps =
        (u + zsum psize ps, m + Z.of_nat (length ps) * ms) /\
      0 <= zsum psize ps <= Z.of_nat (length ps) * ms) as Hgen.
    { clear. induction ps as [|p ps IH]; intros u m Hu Hm Hps Hle Hlt.
      - simpl. rewrite zsum_nil, !Z.add_0_r. done.
      - destruct (Hps p ltac:(by left)) as [Hwf Hmx]. rewrite zsum_cons. simpl in Hlt |- *.
        pose proof (wf_limit _ _ Hwf) as Hlim. pose proof (zsum_members_pos _ _ _ (wf_ok _ _ Hwf)) as Hpos.
        pose proof (po_size _ _ _ (wf_ok _ _ Hwf)) as Hsz.
        rewrite Hmx, !u64_small by nia.
        destruct (IH (u + psize p) (m + ms)) as [Hf Hz]; try lia.
        { intros q Hq. apply Hps. by right. }
        rewrite Hf. split; [f_equal; lia | nia]. }
    destruct (Hgen (partitions t) 0 0) as [Hf Hz]; [lia | lia | done | lia | lia |].
    rewrite Hf, Hl in *. simpl. split; [done|]. lia.
Qed.

(** ** Instances, on the partition and the machine of [PartitionThms] *)
Lemma stats_count_requests_witness :
  exists a m p, serve_all 8 [Insert 5 100; Lookup 5; Release 4096; Lookup 5; Lookup 6]
      (Mem ∅ 0) (demo EVICT_LRU) = Ok (a, m, p) /\
    nlookups p = 3 /\ ninserts p = 1.
Proof.
  destruct (serve_all 8 [Insert 5 100; Lookup 5; Release 4096; Lookup 5; Lookup 6]
              (Mem ∅ 0) (demo EVICT_LRU)) as [[[a m] p]|] eqn:Hs; [|vm_compute in Hs; discriminate].
  exists a, m, p. split; [reflexivity|].
  destruct (stats_count_requests 8 [Insert 5 100; Lookup 5; Release 4096; Lookup 5; Lookup 6]
    (Mem ∅ 0) (demo EVICT_LRU) a m p ltac:(vm_compute; split; reflexivity || discriminate)
    ltac:(vm_compute; split; reflexivity || discriminate) ltac:(vm_compute; split; reflexivity || discriminate) Hs)
    as (Hl & Hi & _).
  vm_compute in Hl, Hi. split; [exact Hl | exact Hi].
Defined.

Definition two_partitions : hash_table :=
  HashTable 2 0 1024 0 [demo EVICT_LRU; demo EVICT_LRU] [] [] 0.

Lemma stats_of_table_witness :
  exists used total, stats_get_mem two_partitions = Ok (used, total) /\ total = 1024.
Proof.
  destruct (stats_of_table two_partitions ∅ 512) as (_ & used & total & Hm & _ & Ht & _).
  - reflexivity.
  - discriminate.
  - split; [discriminate | reflexivity].
  - intros p Hp. assert (p = demo EVICT_LRU) as ->
      by (apply elem_of_cons in Hp as [Hp|Hp]; [exact Hp|]; apply list_elem_of_singleton in Hp; exact Hp).
    split; [apply demo_wf; left; reflexivity | vm_compute; reflexivity].
  - exists used, total. split; [exact Hm | exact Ht].
Defined.
