(* ===== verification/Locking.v ===== *)
(** * Locking: the locking implementation ([smphashtable.c])

    [locking_hash_lookup] and [locking_hash_insert] as the actions of a thread:
    those of [anderson_acquire] on the partition lock, the work on the
    partition, and [anderson_release]. Any number of calls interleave, together
    with the lock-free [atomic_mark_ready] and [atomic_release_value].

    A lookup's test and its [__sync_add_and_fetch] are two actions, between
    which the lock-free operations may run. An insertion's work is one action:
    it excludes other insertions and lookups by the lock, and what a lock-free
    operation does to a count commutes with its atomic releases. *)
From stdpp Require Import base list gmap relations.
From Stdlib Require Import ZArith Lia.
From S2P Require Import Prelude Protocol ALock Value Partition PartitionInv TableOps.
From S2P Require Import Ownership.

Local Open Scope Z_scope.

Inductive table_call := LLookup (key : Z) | LInsert (key size : Z).

(** Where a call stands. [extra] is the local variable of that name; [Hitting]
    has found [e] ready; [Leaving] has its answer and still holds the lock. *)
Inductive phase :=
  | Entering (p : pc)
  | Inside (extra : Z)
  | Hitting (extra e : Z)
  | Leaving (extra v : Z).

Record lcall := LCall { lc_server : Z; lc_op : table_call; lc_phase : phase }.

Definition locking_hash_lookup (nservers key : Z) : lcall :=
  LCall (hash_get_server nservers key) (LLookup key) (Entering Idle).

Definition locking_hash_insert (nservers key size : Z) : lcall :=
  LCall (hash_get_server nservers key) (LInsert key size) (Entering Idle).

(** [p->lock]. *)
Definition set_lock (l : alock) (p : partition) : partition :=
  Partition (nservers p) (nhash p) (max_size p) (psize p) (evictalgo p) (table p) (bucketlocks p)
    (lru p) (nhits p) (nlookups p) (ninserts p) (busyclock p) (idleclock p) l.

(** The point after an action of [anderson_acquire]. *)
Definition entered (q : pc) : phase :=
  match q with Critical extra => Inside extra | _ => Entering q end.

Definition lock_pc (ph : phase) : pc :=
  match ph with
  | Entering q => q
  | Inside extra | Hitting extra _ | Leaving extra _ => Critical extra
  end.

Section machine.
Context `{Machine} (spins : nat).

(** The next action of a call on its partition: the phase it leads to, or the
    answer. *)
Definition locking_act (op : table_call) (ph : phase) (m : mem) (p : partition)
    : result (mem * partition * (phase + Z)) :=
  match ph with
  | Entering q =>
      '(l, q') ← anderson_step (plock p) q;
      mret (m, set_lock l p, inl (entered q'))
  | Inside extra =>
      match op with
      | LLookup k =>
          '(r, p) ← find_value m p k;
          mret (m, p, inl (match r with
                           | Some e => Hitting extra e
                           | None => Leaving extra 0
                           end))
      | LInsert k sz =>
          '(v, m, p) ← insert_value atomic_release_value_ (Z.lor DATA_READY_MASK 1) spins m p k sz;
          mret (m, p, inl (Leaving extra v))
      end
  | Hitting extra e => '(v, m, p) ← hit_value m p e; mret (m, p, inl (Leaving extra v))
  | Leaving extra v =>
      '(l, _) ← anderson_step (plock p) (Critical extra);
      mret (m, set_lock l p, inr v)
  end.

(** ** Threads on a shared table *)
Record lstate := LState {
  parts : list partition;
  lmem : mem;
  calls : list (option lcall)
}.

Definition call_after (c : lcall) (r : phase + Z) : option lcall :=
  match r with
  | inl ph => Some (LCall (lc_server c) (lc_op c) ph)
  | inr _ => None
  end.

Definition returned (r : phase + Z) : option Z :=
  match r with inl _ => None | inr v => Some v end.

(** An action of thread [t], with the answer when its call returns. *)
Definition locking_step (t : nat) (st : lstate) : result (lstate * option Z) :=
  o ← deref (calls st !! t);
  c ← deref o;
  p ← aget (parts st) (lc_server c);
  '(m, p, r) ← locking_act (lc_op c) (lc_phase c) (lmem st) p;
  ps ← aset (parts st) (lc_server c) p;
  mret (LState ps m (<[t := call_after c r]> (calls st)), returned r).

(** ** The specification of a call: what it does when it has the table to itself *)
Definition call_spec (op : table_call) (m : mem) (p : partition) : result (Z * mem * partition) :=
  match op with
  | LLookup k => lookup_value m p k
  | LInsert k sz => insert_value atomic_release_value_ (Z.lor DATA_READY_MASK 1) spins m p k sz
  end.

Fixpoint locking_run (ts : list nat) (st : lstate) : result (lstate * list Z) :=
  match ts with
  | [] => mret (st, [])
  | t :: ts =>
      '(st, o) ← locking_step t st;
      '(st, vs) ← locking_run ts st;
      mret (st, from_option (fun v => v :: vs) vs o)
  end.
End machine.

Arguments locking_act : simpl never.

(** ** Who may do what

    The books of every partition, as its threads change them. *)
Definition own_act (op : table_call) (ph : phase) (p' : partition) (r : phase + Z)
    (own : ownership) : option ownership :=
  match ph, r with
  | Hitting _ e, _ => own_event Found e own
  | Inside _, inl (Leaving _ v) =>
      match op with
      | LLookup _ => Some own
      | LInsert _ _ => Some (own_insert (elem_of_ptr v) p' own)
      end
  | _, _ => Some own
  end.

Definition op_ok (op : table_call) : Prop :=
  match op with LLookup _ => True | LInsert _ sz => 0 <= sz < 2 ^ 31 end.

(** The steps of the system. A thread without a call begins one; a thread with
    one makes its next action; and whoever holds a value, as its writer or as a
    reader, gives it up without any lock. *)
Inductive lstep `{Machine} (spins : nat) (n : Z) : lstate * list ownership ->
    lstate * list ownership -> Prop :=
  | lstep_begin st owns t op :
      calls st !! t = Some None -> op_ok op ->
      lstep spins n (st, owns)
        (LState (parts st) (lmem st)
           (<[t := Some (match op with
                         | LLookup k => locking_hash_lookup n k
                         | LInsert k sz => locking_hash_insert n k sz
                         end)]> (calls st)), owns)
  | lstep_act st owns t c p own m' p' r own' st' o :
      calls st !! t = Some (Some c) ->
      parts st !! Z.to_nat (lc_server c) = Some p ->
      owns !! Z.to_nat (lc_server c) = Some own ->
      locking_act spins (lc_op c) (lc_phase c) (lmem st) p = Ok (m', p', r) ->
      own_act (lc_op c) (lc_phase c) p' r own = Some own' ->
      locking_step spins t st = Ok (st', o) ->
      lstep spins n (st, owns) (st', <[Z.to_nat (lc_server c) := own']> owns)
  | lstep_give st owns s own ev e own' h' :
      owns !! s = Some own -> ev = MarkedReady \/ ev = Dropped ->
      own_event ev e own = Some own' -> atomic_event ev (hp (lmem st)) e = Ok h' ->
      lstep spins n (st, owns)
        (LState (parts st) (Mem h' (tick (lmem st))) (calls st), <[s := own']> owns).
