(* ===== verification/LockingThms.v ===== *)
(** * LockingThms: what the locking implementation guarantees

    The invariant of the interleaved system: every partition lock is in order,
    every partition agrees with its books, the books of two partitions share no
    element, and what a lookup has found stays there until it takes its
    reference. *)
From stdpp Require Import base list gmap relations.
From Stdlib Require Import ZArith Lia.
From S2P Require Import Prelude Protocol ALock Value Partition PartitionInv PartitionLru.
From S2P Require Import PartitionThms TableOps Ownership HashTable Estates Locking.

Local Open Scope Z_scope.

Abbreviation lk_owned := (owned atomic_release_value_).

(** Where a thread stands with the lock of partition [s]. *)
Definition pc_at (s : nat) (o : option lcall) : pc :=
  match o with
  | Some c => if decide (lc_server c = Z.of_nat s) then lock_pc (lc_phase c) else Idle
  | None => Idle
  end.

Definition lock_view (s : nat) (p : partition) (cs : list (option lcall)) : config :=
  Config (plock p) (pc_at s <$> cs).

Definition call_ok (n : Z) (owns : list ownership) (c : lcall) : Prop :=
  0 <= lc_server c < n /\ op_ok (lc_op c) /\
  match lc_phase c with
  | Hitting _ e => exists own, owns !! Z.to_nat (lc_server c) = Some own /\ visible own e
  | _ => True
  end.

(** The estates of the partitions, their locks, and the calls. *)
Record linv (h0 : heap) (n ms ev : Z) (k : Z) (st : lstate) (owns : list ownership) : Prop := {
  lv_estates : estates atomic_release_value_ h0 ms ev k (lmem st) (parts st) owns;
  lv_n : Z.of_nat (length (parts st)) = n;
  lv_lock : forall s p, parts st !! s = Some p ->
    exists R q free, lock_inv n (lock_view s p (calls st)) R q free;
  lv_calls : forall t c, calls st !! t = Some (Some c) -> call_ok n owns c
}.

Lemma owned_lock k own m p l : lk_owned k own m p -> lk_owned k own m (set_lock l p).
Proof.
  intros Hinv. apply (inv_partition k own m p); [done | | done].
  destruct (si_wf _ _ _ _ Hinv) as [[] Hl Hp]. by split.
Qed.

(** ** Threads and locks *)
Lemma view_lookup s p cs t o :
  cs !! t = Some o -> threads (lock_view s p cs) !! t = Some (pc_at s o).
Proof. intros Ht. simpl. rewrite list_lookup_fmap, Ht. done. Qed.

Lemma view_update s p cs t o o' :
  cs !! t = Some o -> pc_at s o' = pc_at s o ->
  lock_view s p (<[t := o']> cs) = lock_view s p cs.
Proof.
  intros Ht Hpc. unfold lock_view. f_equal. rewrite list_fmap_insert, Hpc.
  apply list_insert_id. by rewrite list_lookup_fmap, Ht.
Qed.

Lemma pc_at_self c : 0 <= lc_server c -> pc_at (Z.to_nat (lc_server c)) (Some c) = lock_pc (lc_phase c).
Proof. intros Hc. simpl. rewrite decide_True; [done|]. lia. Qed.

Lemma pc_at_other c s : 0 <= lc_server c -> s <> Z.to_nat (lc_server c) -> pc_at s (Some c) = Idle.
Proof. intros Hc Hs. simpl. rewrite decide_False; [done|]. lia. Qed.

Lemma entered_pc q : lock_pc (entered q) = q.
Proof. by destruct q. Qed.

(** The lock lets one thread past [anderson_acquire]. *)
Lemma one_inside n s p cs R q free t1 t2 e1 e2 :
  lock_inv n (lock_view s p cs) R q free ->
  threads (lock_view s p cs) !! t1 = Some (Critical e1) ->
  threads (lock_view s p cs) !! t2 = Some (Critical e2) -> t1 = t2.
Proof.
  intros Hi H1 H2.
  destruct (past_spin_head _ _ _ _ _ _ _ Hi H1) as [q1 ->]; [done | by intros [] |].
  by destruct (past_spin_head _ _ _ _ _ _ _ Hi H2) as [q2 [=]]; [done | by intros [] |].
Qed.

(** What [lock_inv] says of one thread's next lock action. *)
Lemma lock_act n s p cs R q free t c pc :
  lock_inv n (lock_view s p cs) R q free -> cs !! t = Some (Some c) ->
  0 <= lc_server c -> s = Z.to_nat (lc_server c) -> lock_pc (lc_phase c) = pc ->
  exists l pc', anderson_step (plock p) pc = Ok (l, pc') /\
    forall o, pc_at s o = pc' ->
    exists R' q' free', lock_inv n (lock_view s (set_lock l p) (<[t := o]> cs)) R' q' free'.
Proof.
  intros Hi Ht Hc -> <-. pose proof (view_lookup (Z.to_nat (lc_server c)) p cs t _ Ht) as Hp.
  rewrite pc_at_self in Hp by done.
  destruct (inv_step _ _ _ _ _ _ _ Hi Hp) as (c' & R' & q' & free' & Hs & Hi').
  unfold cstep in Hs. rewrite Hp in Hs. cbn [deref mbind result_bind lock lock_view] in Hs.
  destruct (anderson_step (plock p) (lock_pc (lc_phase c))) as [[l pc']|]; [|done].
  cbn [mbind result_bind mret result_ret] in Hs. injection Hs as <-.
  exists l, pc'. split; [done|]. intros o Ho. exists R', q', free'.
  unfold lock_view. rewrite list_fmap_insert, Ho. exact Hi'.
Qed.

Lemma release_idle l e l' pc' : anderson_step l (Critical e) = Ok (l', pc') -> pc' = Idle.
Proof. simpl. intros Hs. by invb Hs. Qed.

(** ** Preservation *)
Section preservation.
Context (h0 : heap) (n ms ev : Z).

(** One partition acted, and with it perhaps a call. *)
Lemma linv_update k st owns sx p own m' p' own' cs' :
  linv h0 n ms ev k st owns -> parts st !! sx = Some p -> owns !! sx = Some own ->
  lk_owned (k + 1) own' m' p' -> max_size p' = max_size p -> evictalgo p' = evictalgo p ->
  footprint own (hp (lmem st)) own' (hp m') ->
  (exists R q free, lock_inv n (lock_view sx p' cs') R q free) ->
  (forall s p0, s <> sx -> lock_view s p0 cs' = lock_view s p0 (calls st)) ->
  (forall t c, cs' !! t = Some (Some c) -> call_ok n (<[sx := own']> owns) c) ->
  linv h0 n ms ev (k + 1) (LState (<[sx := p']> (parts st)) m' cs') (<[sx := own']> owns).
Proof.
  intros Hinv Hp Hown Hinv' Hmx Hev Hfp Hlock Hview Hcalls. split; simpl.
  - by apply (estates_update _ _ _ _ _ _ _ _ (lv_estates _ _ _ _ _ _ _ Hinv) sx p own).
  - rewrite length_insert. apply Hinv.
  - intros s p0 Hp0. destruct (decide (s = sx)) as [->|Hs].
    + rewrite list_lookup_insert_eq in Hp0 by (by eapply lookup_lt_Some). by injection Hp0 as <-.
    + rewrite list_lookup_insert_ne in Hp0 by done. rewrite Hview by done.
      by apply (lv_lock _ _ _ _ _ _ _ Hinv).
  - done.
Qed.

(** A call of thread [t] on partition [sx], replaced by [o]: the other threads'
    calls keep what they found if [own'] keeps it. *)
Lemma calls_update k st owns sx own own' t o :
  linv h0 n ms ev k st owns -> owns !! sx = Some own ->
  (forall c, o = Some c -> call_ok n (<[sx := own']> owns) c) ->
  (forall t' c x e, t' <> t -> calls st !! t' = Some (Some c) -> Z.to_nat (lc_server c) = sx ->
     lc_phase c = Hitting x e -> visible own e -> visible own' e) ->
  forall t' c, <[t := o]> (calls st) !! t' = Some (Some c) -> call_ok n (<[sx := own']> owns) c.
Proof.
  intros Hinv Hown Ho Hkeep t' c Hc.
  apply list_lookup_insert_Some in Hc as [(-> & -> & _)|[Hne Hc]]; [by apply Ho|].
  destruct (lv_calls _ _ _ _ _ _ _ Hinv t' c Hc) as (Hs & Hop & Hph). split; [done|]. split; [done|].
  destruct (lc_phase c) eqn:Hphase; try done. destruct Hph as (own0 & Ho0 & Hv).
  destruct (decide (Z.to_nat (lc_server c) = sx)) as [Heq|Hne2].
  - subst sx. rewrite Hown in Ho0. injection Ho0 as <-. exists own'.
    rewrite list_lookup_insert_eq by (by eapply lookup_lt_Some).
    split; [done|]. by apply (Hkeep t' c extra e).
  - exists own0. by rewrite list_lookup_insert_ne by done.
Qed.

(** An event of somebody else leaves a ready value in the table as it is. *)
Lemma visible_event evt e own own' a :
  evt <> Unlinked -> own_event evt e own = Some own' -> visible own a -> visible own' a.
Proof.
  unfold own_event. intros Hev Ho (s & Hs & Ht & Hw).
  destruct (own !! e) as [se|] eqn:He; [|done]. cbn [mbind option_bind] in Ho.
  destruct (after evt se) as [s'|] eqn:Hs'; [|done]. injection Ho as <-.
  destruct (decide (a = e)) as [->|Hne].
  - assert (se = s) as -> by congruence. pose proof (after_in_table _ _ _ Hev Hs') as Ht'.
    exists s'. rewrite lookup_partial_alter_eq. unfold hold.
    rewrite nobody_out by congruence. split; [done|]. split; [congruence|].
    destruct evt, s as [[] [] r]; simpl in *; repeat case_match; simplify_eq/=; done.
  - exists s. by rewrite lookup_partial_alter_ne.
Qed.

Lemma view_other k st owns s p0 t c o :
  linv h0 n ms ev k st owns -> calls st !! t = Some (Some c) -> s <> Z.to_nat (lc_server c) ->
  o = None \/ (exists ph, o = Some (LCall (lc_server c) (lc_op c) ph)) ->
  lock_view s p0 (<[t := o]> (calls st)) = lock_view s p0 (calls st).
Proof.
  intros Hinv Ht Hs Ho. destruct (lv_calls _ _ _ _ _ _ _ Hinv t c Ht) as (Hc & _).
  apply (view_update _ _ _ _ _ _ Ht). rewrite (pc_at_other c) by lia.
  destruct Ho as [->|[ph ->]]; [done|]. apply pc_at_other; simpl; lia.
Qed.

(** ** One action of a call *)
Section action.
Context `{M : Machine} (spins : nat) (k : Z) (st : lstate) (owns : list ownership).
Context (Hk : 0 <= k < 2 ^ 62) (Hms : ms < 2 ^ 63) (Hinv : linv h0 n ms ev k st owns).
Context (t : nat) (c : lcall) (p : partition) (own : ownership).
Context (Ht : calls st !! t = Some (Some c)).
Context (Hp : parts st !! Z.to_nat (lc_server c) = Some p).
Context (Hown : owns !! Z.to_nat (lc_server c) = Some own).

(** The action ended with [r] and the books with [own']. *)
Definition acted (own' : ownership) (m' : mem) (p' : partition) (r : phase + Z) : Prop :=
  own_act (lc_op c) (lc_phase c) p' r own = Some own' /\
  linv h0 n ms ev (k + 1)
    (LState (<[Z.to_nat (lc_server c) := p']> (parts st)) m' (<[t := call_after c r]> (calls st)))
    (<[Z.to_nat (lc_server c) := own']> owns).

Lemma call_here : 0 <= lc_server c < n /\ op_ok (lc_op c) /\ lk_owned k own (lmem st) p /\
  max_size p = ms /\ evictalgo p = ev.
Proof.
  destruct (lv_calls _ _ _ _ _ _ _ Hinv t c Ht) as (Hs & Hop & _).
  by destruct (es_part (lv_estates _ _ _ _ _ _ _ Hinv) _ p own Hp Hown) as (Ho & Hm & He).
Qed.

Lemma call_after_shape r :
  call_after c r = None \/ exists ph, call_after c r = Some (LCall (lc_server c) (lc_op c) ph).
Proof. destruct r; simpl; eauto. Qed.

Lemma keep_here (own' : ownership) r :
  (forall x e, r = inl (Hitting x e) -> visible own' e) ->
  (forall t' c' x e, t' <> t -> calls st !! t' = Some (Some c') ->
     Z.to_nat (lc_server c') = Z.to_nat (lc_server c) ->
     lc_phase c' = Hitting x e -> visible own e -> visible own' e) ->
  forall t' c', <[t := call_after c r]> (calls st) !! t' = Some (Some c') ->
    call_ok n (<[Z.to_nat (lc_server c) := own']> owns) c'.
Proof.
  intros Hr Hkeep. apply (calls_update k st owns _ own); [done..| |done].
  intros c0 Hc0. destruct call_here as (Hs & Hop & _).
  destruct r as [ph|]; simpl in Hc0; [|done]. injection Hc0 as <-.
  split; [done|]. split; [done|]. simpl. destruct ph; try done.
  exists own'. split; [apply list_lookup_insert_eq; by eapply lookup_lt_Some|]. by eapply Hr.
Qed.

(** An action on the lock alone. *)
Lemma act_on_lock l pc' r :
  (forall o, pc_at (Z.to_nat (lc_server c)) o = pc' ->
     exists R q free, lock_inv n (lock_view (Z.to_nat (lc_server c)) (set_lock l p)
                                    (<[t := o]> (calls st))) R q free) ->
  pc_at (Z.to_nat (lc_server c)) (call_after c r) = pc' ->
  (forall x e, r <> inl (Hitting x e)) ->
  own_act (lc_op c) (lc_phase c) (set_lock l p) r own = Some own ->
  acted own (lmem st) (set_lock l p) r.
Proof.
  intros Hlock Hpc Hr Ho. destruct call_here as (Hs & Hop & Hpo & Hmx & Hev).
  split; [done|]. apply (linv_update k st owns _ p own); try done.
  - by apply owned_lock, inv_more.
  - apply footprint_refl.
  - by apply Hlock.
  - intros s p0 Hne. apply (view_other k st owns s p0 t c); [done..|]. apply call_after_shape.
  - apply keep_here; [|done]. intros x e ->. by destruct (Hr x e).
Qed.

(** An action inside the lock, on the partition. *)
Lemma act_inside extra own' m' p' ph' :
  lock_pc (lc_phase c) = Critical extra -> lock_pc ph' = Critical extra ->
  own_act (lc_op c) (lc_phase c) p' (inl ph') own = Some own' ->
  lk_owned (k + 1) own' m' p' -> footprint own (hp (lmem st)) own' (hp m') ->
  max_size p' = max_size p -> evictalgo p' = evictalgo p -> plock p' = plock p ->
  (forall x e, ph' = Hitting x e -> visible own' e) ->
  acted own' m' p' (inl ph').
Proof.
  intros Hpc Hpc' Ho Hinv' Hfp Hmx Hev Hpl Hv. destruct call_here as (Hs & Hop & Hpo & _).
  destruct (lv_lock _ _ _ _ _ _ _ Hinv _ p Hp) as (R & q & free & Hl).
  pose proof (view_lookup (Z.to_nat (lc_server c)) p _ t _ Ht) as Hpt.
  rewrite pc_at_self, Hpc in Hpt by lia.
  split; [done|]. apply (linv_update k st owns _ p own); try done.
  - exists R, q, free. unfold lock_view. rewrite Hpl.
    change (lock_inv n (lock_view (Z.to_nat (lc_server c)) p (<[t := call_after c (inl ph')]> (calls st)))
              R q free).
    rewrite (view_update _ _ _ t (Some c)); [done|done|].
    rewrite (pc_at_self c), Hpc by lia. simpl. rewrite decide_True by lia. done.
  - intros s p0 Hne. apply (view_other k st owns s p0 t c); [done..|]. apply call_after_shape.
  - apply keep_here; [intros x e [= ->]; by apply (Hv x e)|].
    intros t' c' x e Hne Hc' Hsame Hph _. destruct Hne.
    destruct (lv_calls _ _ _ _ _ _ _ Hinv t' c' Hc') as (Hs' & _).
    pose proof (view_lookup (Z.to_nat (lc_server c)) p _ t' _ Hc') as Hpt'.
    rewrite <- Hsame, pc_at_self, Hph in Hpt' by lia. rewrite Hsame in Hpt'. simpl in Hpt'.
    by apply (one_inside _ _ _ _ _ _ _ _ _ _ _ Hl Hpt' Hpt).
Qed.

(** How an action may fail, with [size] elements in memory. *)
Definition may_fail (size : nat) (op : table_call) (f : fault) : Prop :=
  match f with
  | Undefined => False
  | Blocked => ev = EVICT_RANDOM
  | AssertFailed => exists key sz, op = LInsert key sz /\ (refused size sz \/ ms < elem_size sz)
  end.

Lemma find_action extra key :
  lc_phase c = Inside extra -> lc_op c = LLookup key ->
  exists p' ph', locking_act spins (lc_op c) (lc_phase c) (lmem st) p = Ok (lmem st, p', inl ph') /\
    acted own (lmem st) p' (inl ph') /\
    match ph' with
    | Hitting _ e => visible own e /\ has_key (hp (lmem st)) e key
    | _ => ph' = Leaving extra 0 /\ lookup_answer own (hp (lmem st)) key 0
    end.
Proof.
  intros Hph Hop. destruct call_here as (Hs & _ & Hpo & Hmx & Hev). rewrite Hph, Hop.
  destruct (find_value_ok k own (lmem st) p key (proj2 Hk) Hpo)
    as (r & p' & Hf & Hi & Hr & Hmx' & Hev' & Hpl).
  unfold locking_act. rewrite Hf. cbn [mbind result_bind mret result_ret].
  eexists p', _. split; [done|]. split; [|by destruct r].
  apply (act_inside extra); try done.
  - by rewrite Hph.
  - by destruct r.
  - rewrite Hph, Hop. by destruct r.
  - by apply inv_more.
  - apply footprint_refl.
  - intros x e Hx. destruct r; [|done]. injection Hx as _ <-. apply Hr.
Qed.

Lemma insert_action extra key sz :
  lc_phase c = Inside extra -> lc_op c = LInsert key sz ->
  match locking_act spins (lc_op c) (lc_phase c) (lmem st) p with
  | Ok (m', p', r) => exists own', acted own' m' p' r
  | Fault f => may_fail (base.size (hp (lmem st))) (lc_op c) f
  end.
Proof.
  intros Hph Hop. destruct call_here as (Hs & Hok & Hpo & Hmx & Hev). rewrite Hph, Hop.
  rewrite Hop in Hok. simpl in Hok.
  assert (max_size p < 2 ^ 63) as Hmax by (by rewrite Hmx).
  pose proof (insert_value_ok spins k own (lmem st) p key sz Hk Hpo Hok Hmax) as Hi.
  pose proof (fun v m' p' => insert_value_plock spins k own (lmem st) p key sz v m' p' Hpo Hok Hmax) as Hpl.
  unfold locking_act. change (Z.lor DATA_READY_MASK 1) with (first_count (release := atomic_release_value_)).
  destruct (insert_value _ _ _ _ _ _ _) as [[[v m'] p']|f]; cbn [mbind result_bind mret result_ret].
  - specialize (Hpl v m' p' eq_refl).
    destruct Hi as (own' & Ho & Hi & Hfp & Hmx' & Hev' & _).
    exists own'. apply (act_inside extra); rewrite ?Hph, ?Hop; done.
  - destruct Hi as [[-> Hr]|[-> Hr]]; simpl; [congruence|].
    exists key, sz. split; [done|]. rewrite Hmx in Hr. tauto.
Qed.

Lemma hit_action extra e :
  lc_phase c = Hitting extra e ->
  exists m' p' own', locking_act spins (lc_op c) (lc_phase c) (lmem st) p =
      Ok (m', p', inl (Leaving extra (value_ptr e))) /\
    acted own' m' p' (inl (Leaving extra (value_ptr e))).
Proof.
  intros Hph. destruct call_here as (Hs & _ & Hpo & Hmx & Hev).
  destruct (lv_calls _ _ _ _ _ _ _ Hinv t c Ht) as (_ & _ & Hv). rewrite Hph in Hv.
  destruct Hv as (own0 & Ho0 & Hv). rewrite Hown in Ho0. injection Ho0 as <-.
  destruct (hit_value_ok k own (lmem st) p e (proj2 Hk) Hpo Hv) as (m' & own' & Hh & Ho & Hi & Hfp).
  exists m', (count_hit p), own'. unfold locking_act. rewrite Hph, Hh. split; [done|].
  apply (act_inside extra); rewrite ?Hph; done.
Qed.

Lemma lock_action :
  (exists q, lc_phase c = Entering q) \/ (exists extra v, lc_phase c = Leaving extra v) ->
  exists p' r, locking_act spins (lc_op c) (lc_phase c) (lmem st) p = Ok (lmem st, p', r) /\
    acted own (lmem st) p' r.
Proof.
  intros Hph. destruct call_here as (Hs & _ & Hpo & _).
  destruct (lv_lock _ _ _ _ _ _ _ Hinv _ p Hp) as (R & q & free & Hl).
  destruct (lock_act n _ p _ R q free t c _ Hl Ht (proj1 Hs) eq_refl eq_refl) as (l & pc' & Ha & Hnext).
  exists (set_lock l p). destruct Hph as [[q0 Hph]|(extra & v & Hph)]; rewrite Hph in Ha |- *;
    simpl in Ha; unfold locking_act; [rewrite Ha|simpl; rewrite Ha]; eexists; (split; [done|]).
  - apply (act_on_lock l pc'); [done| |by destruct pc'|by rewrite Hph].
    simpl. rewrite decide_True by lia. apply entered_pc.
  - apply (act_on_lock l pc'); [done| |done|by rewrite Hph].
    symmetry. by apply (release_idle _ extra _ _ Ha).
Qed.

Lemma action_ok :
  match locking_act spins (lc_op c) (lc_phase c) (lmem st) p with
  | Ok (m', p', r) => exists own', acted own' m' p' r
  | Fault f => may_fail (base.size (hp (lmem st))) (lc_op c) f
  end.
Proof.
  destruct (lc_phase c) as [q|extra|extra e|extra v] eqn:Hph; rewrite <- Hph.
  - destruct lock_action as (p' & r & -> & Ha); eauto.
  - destruct (lc_op c) as [key|key sz] eqn:Hop; rewrite <- Hop.
    + destruct (find_action extra key Hph Hop) as (p' & ph' & -> & Ha & _). eauto.
    + by apply (insert_action extra key sz).
  - destruct (hit_action extra e Hph) as (m' & p' & own' & -> & Ha). eauto.
  - destruct lock_action as (p' & r & -> & Ha); eauto.
Qed.
End action.

(** ** Reachable states *)
Lemma linv_more k st owns : linv h0 n ms ev k st owns -> linv h0 n ms ev (k + 1) st owns.
Proof. intros [He Hn Hlk Hc]. split; try done. by apply estates_more. Qed.

Lemma linv_begin k st owns t op :
  0 < n < 2 ^ 31 -> linv h0 n ms ev k st owns -> calls st !! t = Some None -> op_ok op ->
  linv h0 n ms ev k (LState (parts st) (lmem st)
    (<[t := Some (match op with
                  | LLookup k => locking_hash_lookup n k
                  | LInsert k sz => locking_hash_insert n k sz
                  end)]> (calls st))) owns.
Proof.
  intros Hn Hinv Ht Hop. set (o := Some _).
  assert (forall s, pc_at s o = Idle) as Hidle by (intros s; destruct op; simpl; by case_match).
  destruct Hinv as [He Hl Hlk Hc]. split; simpl; try done.
  - intros s p Hs. rewrite (view_update s p (calls st) t None o Ht) by (by rewrite Hidle). eauto.
  - intros t' c Ht'. apply list_lookup_insert_Some in Ht' as [(-> & Heq & _)|[_ Ht']]; [|eauto].
    subst o. injection Heq as <-. destruct op as [key|key sz]; (split; [|done]);
      by apply hash_get_server_range.
Qed.

Lemma linv_give k st owns s own evt e own' h' :
  0 <= k < 2 ^ 62 -> linv h0 n ms ev k st owns -> owns !! s = Some own ->
  evt = MarkedReady \/ evt = Dropped -> own_event evt e own = Some own' ->
  atomic_event evt (hp (lmem st)) e = Ok h' ->
  linv h0 n ms ev (k + 1) (LState (parts st) (Mem h' (tick (lmem st))) (calls st)) (<[s := own']> owns).
Proof.
  intros Hk Hinv Hown Hevt Ho Hh.
  assert (evt <> Unlinked) as Hne by (by destruct Hevt; subst).
  destruct (es_partition (lv_estates _ _ _ _ _ _ _ Hinv) s own Hown) as [p Hp].
  destruct (es_part (lv_estates _ _ _ _ _ _ _ Hinv) s p own Hp Hown) as (Hpo & _).
  destruct (inv_event k own (lmem st) p (proj2 Hk) Hpo evt e own' (tick (lmem st)) Hne Ho)
    as (h2 & Hh2 & Hi & Hfp).
  change (event_op evt (hp (lmem st)) e) with (atomic_event evt (hp (lmem st)) e) in Hh2.
  rewrite Hh in Hh2. injection Hh2 as <-.
  rewrite <- (list_insert_id (parts st) s p Hp).
  apply (linv_update k st owns s p own); try done.
  - by apply (lv_lock _ _ _ _ _ _ _ Hinv).
  - intros t c Hc. destruct (lv_calls _ _ _ _ _ _ _ Hinv t c Hc) as (Hs & Hop & Hph).
    split; [done|]. split; [done|]. destruct (lc_phase c); try done. destruct Hph as (own0 & Ho0 & Hv).
    destruct (decide (Z.to_nat (lc_server c) = s)) as [Hd|Hd].
    + rewrite Hd in Ho0 |- *. rewrite Hown in Ho0. injection Ho0 as <-. exists own'. split.
      * apply list_lookup_insert_eq. by eapply lookup_lt_Some.
      * by eapply visible_event.
    + exists own0. by rewrite list_lookup_insert_ne by done.
Qed.
End preservation.

(** ** A call that has its lock to itself *)

(** A lock nobody waits for: the five actions of a thread alone. *)
Lemma quiet_lock n cfg R q free :
  lock_inv n cfg R q free -> (forall t p, threads cfg !! t = Some p -> p = Idle) ->
  exists i l1 l2 l3 l4,
    anderson_step (lock cfg) Idle = Ok (l1, Fetched (next_slot (lock cfg))) /\
    anderson_step l1 (Fetched (next_slot (lock cfg))) = Ok (l2, Spinning i) /\
    anderson_step l2 (Spinning i) = Ok (l2, Clearing i) /\
    anderson_step l2 (Clearing i) = Ok (l3, Critical i) /\
    anderson_step l3 (Critical i) = Ok (l4, Idle).
Proof.
  intros Hi Hidle. destruct q as [|t q].
  2: { assert (t < length (threads cfg))%nat as Hlt by (apply (li_live _ _ _ _ _ Hi); by left).
       destruct (lookup_lt_is_Some_2 _ _ Hlt) as [p Hp]. pose proof (Hidle t p Hp) as ->.
       assert (t ∈ t :: q) as Hin by (by left). by apply (li_active _ _ _ _ _ Hi t Idle Hp) in Hin. }
  destruct free; [|by destruct (li_held _ _ _ _ _ Hi eq_refl) as (? & ? & ? & ? & _)].
  pose proof (li_n _ _ _ _ _ Hi) as Hn. pose proof (li_len _ _ _ _ _ Hi) as Hlen.
  pose proof (li_next _ _ _ _ _ Hi) as Hnext. simpl in Hnext. rewrite Z.add_0_r in Hnext.
  pose proof (Z.mod_pos_bound R n ltac:(lia)) as Hr.
  destruct (li_token _ _ _ _ _ Hi (R mod n) Hr) as (x & Hx & Hiff).
  assert ((x =? 0) = false) as Hx0 by (apply Z.eqb_neq; by apply Hiff).
  assert ((n =? 0) = false) as Hn0 by (apply Z.eqb_neq; lia).
  pose proof (li_nonneg _ _ _ _ _ Hi) as Hns.
  assert (aget (has_lock (lock cfg)) (R mod n) = Ok x) as Hget by (apply aget_Ok; split; [lia|done]).
  pose proof (li_nthread _ _ _ _ _ Hi) as Hnt. pose proof (Z.rem_bound_pos (R mod n + 1) n) as Hrem.
  unfold MAX_CLIENTS in *.
  eexists (R mod n), _, _, _, _. split; [reflexivity|]. simpl. rewrite Hnt, Hn0. simpl.
  rewrite Z.rem_mod_nonneg, Hnext by lia. split; [reflexivity|]. simpl. rewrite Hget. simpl.
  rewrite Hx0. split; [reflexivity|]. rewrite aset_in by (rewrite Hlen; lia). simpl.
  split; [reflexivity|]. cbn. rewrite ?Hnt, Hn0. cbn -[aset].
  rewrite aset_in by (rewrite length_insert, Hlen; lia). reflexivity.
Qed.

Section alone.
Context `{M : Machine} (spins : nat) (t : nat).

(** One step of [t] when the action is known. *)
Lemma alone_step st c p m' p' r k :
  calls st !! t = Some (Some c) -> 0 <= lc_server c ->
  parts st !! Z.to_nat (lc_server c) = Some p ->
  locking_act spins (lc_op c) (lc_phase c) (lmem st) p = Ok (m', p', r) ->
  locking_run spins (replicate (S k) t) st =
    ('(st', vs) ← locking_run spins (replicate k t)
       (LState (<[Z.to_nat (lc_server c) := p']> (parts st)) m' (<[t := call_after c r]> (calls st)));
     mret (st', from_option (fun v => v :: vs) vs (returned r))).
Proof.
  intros Ht Hc Hp Ha. cbn [replicate locking_run]. unfold locking_step. rewrite Ht.
  cbn [deref mbind result_bind]. rewrite (proj2 (aget_Ok _ _ p)) by done.
  cbn [mbind result_bind]. rewrite Ha. cbn [mbind result_bind].
  rewrite aset_in by (apply lookup_lt_Some in Hp; lia). done.
Qed.

Lemma alone_fault st c p f k :
  calls st !! t = Some (Some c) -> 0 <= lc_server c ->
  parts st !! Z.to_nat (lc_server c) = Some p ->
  locking_act spins (lc_op c) (lc_phase c) (lmem st) p = Fault f ->
  locking_run spins (replicate (S k) t) st = Fault f.
Proof.
  intros Ht Hc Hp Ha. cbn [replicate locking_run]. unfold locking_step. rewrite Ht.
  cbn [deref mbind result_bind]. rewrite (proj2 (aget_Ok _ _ p)) by done.
  cbn [mbind result_bind]. by rewrite Ha.
Qed.

Lemma bind_pair {A B} (x : result (A * B)) : ('(a, b) ← x; mret (a, b)) = x.
Proof. by destruct x as [[a b]|]. Qed.

(** A step that does not return, in a state described by its update. *)
Lemma alone_inner c st p p' m' ph ph' k :
  0 <= lc_server c -> is_Some (calls st !! t) -> is_Some (parts st !! Z.to_nat (lc_server c)) ->
  locking_act spins (lc_op c) ph (lmem st) p = Ok (m', p', inl ph') ->
  locking_run spins (replicate (S k) t)
    (LState (<[Z.to_nat (lc_server c) := p]> (parts st)) (lmem st)
       (<[t := Some (LCall (lc_server c) (lc_op c) ph)]> (calls st))) =
  locking_run spins (replicate k t)
    (LState (<[Z.to_nat (lc_server c) := p']> (parts st)) m'
       (<[t := Some (LCall (lc_server c) (lc_op c) ph')]> (calls st))).
Proof.
  intros Hc [o Ho] [q Hq] Ha. pose proof (lookup_lt_Some _ _ _ Ho). pose proof (lookup_lt_Some _ _ _ Hq).
  rewrite (alone_step _ (LCall (lc_server c) (lc_op c) ph) p m' p' (inl ph')); try done.
  - simpl. rewrite bind_pair, !list_insert_insert_eq. done.
  - simpl. by apply list_lookup_insert_eq.
  - simpl. by apply list_lookup_insert_eq.
Qed.
End alone.

(** ** From creation on *)

(** The memory of a partition lock whose slots are clear. *)
Definition clear_lock (n : Z) (l : alock) : Prop :=
  length (has_lock l) = Z.to_nat MAX_CLIENTS /\
  forall i, 0 < i < n -> has_lock l !! Z.to_nat i = Some 0.

Definition idle_state (t : hash_table) (m : mem) (nt : nat) : lstate :=
  LState (partitions t) m (replicate nt None).

Section created.
Context (raw : hash_table) (raws : list (partition * list alock)) (total n ev : Z) (ht : hash_table).
Context (Hht : create_hash_table raw raws total n ev = Ok ht).
Context (Hev : ev = EVICT_LRU \/ ev = EVICT_RANDOM) (Htotal : 0 <= total < 2 ^ 63).
Context (Hclear : Forall (fun r => clear_lock n (plock r.1)) raws).
Context (nt : nat) (Hnt : Z.of_nat nt <= n).
Lemma linv_created m :
  linv (hp m) n (total / u64 n) ev 0 (idle_state ht m nt) (no_holders (partitions ht)).
Proof.
  destruct (created_parts _ _ _ _ _ _ Hht) as (Hpos & Hlen & Hps).
  destruct (init_partitions_each _ _ _ _ _ Hps) as [_ Hall].
  split; simpl.
  - by apply (estates_created _ raw raws total n ev ht).
  - done.
  - intros s p Hp. destruct (Hall s p Hp) as (r & locks & Hr & Hpi).
    destruct (init_plock _ _ _ _ _ _ Hpi) as (_ & Hl & _).
    destruct (proj1 (Forall_lookup _ _) Hclear s _ Hr) as [Hlk Hz].
    exists 0, [], true. unfold lock_view. rewrite fmap_replicate.
    apply (inv_initial n (plock r)); [lia|done..].
  - intros t c Hc. by apply lookup_replicate in Hc as [? _].
Qed.

Section reached.
Context `{M : Machine} (spins : nat) (m : mem) (j : nat) (st : lstate) (owns : list ownership).
Context (Hj : Z.of_nat j < 2 ^ 62).
Context (Hsteps : nsteps (lstep spins n) j (idle_state ht m nt, no_holders (partitions ht)) (st, owns)).
Lemma reached_inv : linv (hp m) n (total / u64 n) ev (Z.of_nat j) st owns.
Proof.
  destruct (created_parts _ _ _ _ _ _ Hht) as (Hpos & _). pose proof (created_bound _ _ _ _ _ _ Hht) as Hb. unfold MAX_CLIENTS in Hb.
  pose proof (share_bound _ _ _ _ _ _ Hht Htotal (created_bound _ _ _ _ _ _ Hht)) as Hshare.
  assert (forall i x y, nsteps (lstep spins n) i x y -> forall k, 0 <= k -> k + Z.of_nat i < 2 ^ 62 ->
    linv (hp m) n (total / u64 n) ev k x.1 x.2 ->
    linv (hp m) n (total / u64 n) ev (k + Z.of_nat i) y.1 y.2) as Hgen.
  { clear Hsteps Hj. intros i x y Hs. induction Hs as [x|i x y z Hxy Hs IH]; intros k Hk Hlt Hinv.
    - by rewrite Z.add_0_r.
    - replace (k + Z.of_nat (S i)) with (k + 1 + Z.of_nat i) by lia.
      apply IH; [lia | lia |]. assert (0 <= k < 2 ^ 62) as Hk' by lia.
      destruct Hxy as [st0 ow t op Ht Hop|st0 ow t c p own m' p' r own' st' o Ht Hp Hown Ha Ho Hst
        |st0 ow s own e1 e own' h' Hown He1 Ho Hh]; simpl in *.
      + apply linv_more. apply linv_begin; [lia | done..].
      + pose proof (action_ok (hp m) n _ ev spins k st0 ow Hk' (proj2 Hshare) Hinv t c p own Ht Hp Hown) as Hok.
        rewrite Ha in Hok. destruct Hok as (own2 & Ho2 & Hinv2). rewrite Ho in Ho2. injection Ho2 as <-.
        assert (0 <= lc_server c) by apply (lv_calls _ _ _ _ _ _ _ Hinv t c Ht).
        unfold locking_step in Hst. rewrite Ht in Hst. cbn [deref mbind result_bind] in Hst.
        rewrite (proj2 (aget_Ok _ _ p)) in Hst by done. cbn [mbind result_bind] in Hst.
        rewrite Ha in Hst. cbn [mbind result_bind] in Hst.
        rewrite aset_in in Hst by (apply lookup_lt_Some in Hp; lia). simpl in Hst.
        injection Hst as <- _. exact Hinv2.
      + by apply (linv_give (hp m) n _ ev k st0 ow s own e1 e own' h'). }
  specialize (Hgen _ _ _ Hsteps 0 ltac:(lia) ltac:(lia) (linv_created m)). by rewrite Z.add_0_l in Hgen.
Qed.

(** C12: the locking implementation under every interleaving of calls by at most
    [nservers] threads and of lock-free releases and marks by whoever holds the
    values. Two threads are never inside the same partition; the next action of
    every call is defined, and can only fail in the random search for a victim
    or for want of memory; whatever somebody holds is allocated and counted, and
    everything else is as it was before the table was used. *)
Theorem locking_safe :
  (forall s t1 t2 c1 c2 x1 x2, calls st !! t1 = Some (Some c1) -> calls st !! t2 = Some (Some c2) ->
     lc_server c1 = s -> lc_server c2 = s ->
     lock_pc (lc_phase c1) = Critical x1 -> lock_pc (lc_phase c2) = Critical x2 -> t1 = t2) /\
  (forall t c, calls st !! t = Some (Some c) ->
     match locking_step spins t st with
     | Ok _ => True
     | Fault f => may_fail (total / u64 n) ev (base.size (hp (lmem st))) (lc_op c) f
     end) /\
  (forall s own e hs, owns !! s = Some own -> own !! e = Some hs ->
     hp m !! e = None /\ exists el, hp (lmem st) !! e = Some el /\ ref_count el = atomic_count hs) /\
  (forall e, (forall s own, owns !! s = Some own -> own !! e = None) ->
     hp (lmem st) !! e = hp m !! e).
Proof.
  pose proof reached_inv as Hinv. destruct (created_parts _ _ _ _ _ _ Hht) as (Hpos & Hlen & _).
  pose proof (share_bound _ _ _ _ _ _ Hht Htotal (created_bound _ _ _ _ _ _ Hht)) as Hshare.
  assert (forall t c, calls st !! t = Some (Some c) -> 0 <= lc_server c /\ exists p own,
    parts st !! Z.to_nat (lc_server c) = Some p /\ owns !! Z.to_nat (lc_server c) = Some own) as Hat.
  { intros t c Ht. destruct (lv_calls _ _ _ _ _ _ _ Hinv t c Ht) as (Hs & _).
    pose proof (es_len (lv_estates _ _ _ _ _ _ _ Hinv)) as H1. pose proof (lv_n _ _ _ _ _ _ _ Hinv) as H2. split; [lia|].
    destruct (lookup_lt_is_Some_2 (parts st) (Z.to_nat (lc_server c))) as [p Hp]; [lia|].
    destruct (lookup_lt_is_Some_2 owns (Z.to_nat (lc_server c))) as [own Ho]; [lia|]. eauto. }
  split_and!.
  - intros s t1 t2 c1 c2 x1 x2 H1 H2 <- Hs Hx1 Hx2. destruct (Hat t1 c1 H1) as (H0 & p & _ & Hp & _).
    destruct (lv_lock _ _ _ _ _ _ _ Hinv _ p Hp) as (R & q & free & Hl).
    apply (one_inside n _ p _ R q free t1 t2 x1 x2 Hl).
    + rewrite (view_lookup _ _ _ _ _ H1), pc_at_self by done. by rewrite Hx1.
    + rewrite (view_lookup _ _ _ _ _ H2), <- Hs, pc_at_self by lia. by rewrite Hx2.
  - intros t c Ht. destruct (Hat t c Ht) as (H0 & p & own & Hp & Hown).
    assert (0 <= Z.of_nat j < 2 ^ 62) as Hj' by lia.
    pose proof (action_ok _ n _ ev spins _ st owns Hj' (proj2 Hshare) Hinv t c p own Ht Hp Hown) as Hok.
    unfold locking_step. rewrite Ht. cbn [deref mbind result_bind].
    rewrite (proj2 (aget_Ok _ _ p)) by done. cbn [mbind result_bind].
    destruct (locking_act spins (lc_op c) (lc_phase c) (lmem st) p) as [[[m' p'] r]|f]; [|exact Hok].
    cbn [mbind result_bind]. rewrite aset_in by (apply lookup_lt_Some in Hp; lia). done.
  - intros s own e hs Ho He. pose proof (lv_estates _ _ _ _ _ _ _ Hinv) as Hes.
    split; [by apply (es_in Hes s own e Ho); eauto|].
    by destruct (es_elem Hes s own e hs Ho He) as (_ & _ & Hel).
  - apply (es_out (lv_estates _ _ _ _ _ _ _ Hinv)).
Qed.

(** A lookup answers what is in the table. When it looks, it either finds
    the element that has the key, is in the table and ready, or there is none
    and it answers NULL; and whatever the other threads do until it takes its
    reference, the element it found is still there and it answers its value. *)
Theorem locking_lookup_answer t c key p own :
  calls st !! t = Some (Some c) -> lc_op c = LLookup key ->
  parts st !! Z.to_nat (lc_server c) = Some p -> owns !! Z.to_nat (lc_server c) = Some own ->
  match lc_phase c with
  | Inside extra => exists p' ph,
      locking_act spins (lc_op c) (lc_phase c) (lmem st) p = Ok (lmem st, p', inl ph) /\
      match ph with
      | Hitting _ e => visible own e /\ has_key (hp (lmem st)) e key
      | _ => ph = Leaving extra 0 /\ forall e hs, own !! e = Some hs -> in_table hs = true ->
               has_key (hp (lmem st)) e key -> writing hs = true
      end
  | Hitting extra e => visible own e /\ exists m' p',
      locking_act spins (lc_op c) (lc_phase c) (lmem st) p =
        Ok (m', p', inl (Leaving extra (value_ptr e))) /\
      own_event Found e own <> None
  | _ => True
  end.
Proof.
  intros Ht Hop Hp Hown. pose proof reached_inv as Hinv.
  assert (0 <= Z.of_nat j < 2 ^ 62) as Hj' by lia.
  pose proof (share_bound _ _ _ _ _ _ Hht Htotal (created_bound _ _ _ _ _ _ Hht)) as Hshare.
  destruct (lc_phase c) as [q|extra|extra e|extra v] eqn:Hph; try done; rewrite <- Hph.
  - destruct (find_action _ n _ ev spins _ st owns Hj' Hinv t c p own Ht Hp Hown extra key Hph Hop)
      as (p' & ph' & Ha & _ & Hr).
    exists p', ph'. split; [exact Ha|]. by destruct ph'.
  - destruct (hit_action _ n _ ev spins _ st owns Hj' Hinv t c p own Ht Hp Hown extra e Hph)
      as (m' & p' & own' & Ha & Ho & _).
    destruct (lv_calls _ _ _ _ _ _ _ Hinv t c Ht) as (_ & _ & Hv). rewrite Hph in Hv, Ho.
    destruct Hv as (own0 & Ho0 & Hv). rewrite Hown in Ho0. injection Ho0 as <-.
    split; [done|]. exists m', p'. split; [done|]. simpl in Ho. by rewrite Ho.
Qed.

Lemma others_idle t c p :
  calls st !! t = Some (Some c) -> lc_phase c = Entering Idle ->
  parts st !! Z.to_nat (lc_server c) = Some p ->
  (forall t' c', t' <> t -> calls st !! t' = Some (Some c') -> lc_server c' <> lc_server c) ->
  forall t' q, threads (lock_view (Z.to_nat (lc_server c)) p (calls st)) !! t' = Some q -> q = Idle.
Proof.
  intros Ht Hph Hp Hother t' q Hq. simpl in Hq. apply list_lookup_fmap_Some in Hq as (o & -> & Ho).
  destruct o as [c'|]; [|done]. simpl. case_decide as Hs; [|done].
  destruct (lv_calls _ _ _ _ _ _ _ reached_inv t c Ht) as (Hc & _).
  destruct (decide (t' = t)) as [->|Hne].
  - assert (c' = c) as -> by congruence. by rewrite Hph.
  - destruct (Hother t' c' Hne Ho). lia.
Qed.

(** Past the lock, the rest of a call: the specification, then the release. *)
Lemma body_alone c l p l' x :
  0 <= lc_server c -> op_ok (lc_op c) -> (exists own, lk_owned (Z.of_nat j) own (lmem st) p) ->
  max_size p < 2 ^ 63 -> forall t,
  is_Some (calls st !! t) -> is_Some (parts st !! Z.to_nat (lc_server c)) ->
  plock p = l -> anderson_step l (Critical x) = Ok (l', Idle) ->
  let here := LState (<[Z.to_nat (lc_server c) := p]> (parts st)) (lmem st)
                (<[t := Some (LCall (lc_server c) (lc_op c) (Inside x))]> (calls st)) in
  match call_spec spins (lc_op c) (lmem st) p with
  | Ok (v, m', p') => exists k, (k <= 3)%nat /\ locking_run spins (replicate k t) here =
      Ok (LState (<[Z.to_nat (lc_server c) := set_lock l' p']> (parts st)) m'
            (<[t := None]> (calls st)), [v])
  | Fault f => exists k, (k <= 3)%nat /\ locking_run spins (replicate k t) here = Fault f
  end.
Proof.
  intros Hc Hop [own Hpo] Hmax t Ht Hp Hpl Hrel here.
  assert (Z.of_nat j < 2 ^ 62) as Hj' by done.
  assert (forall v m' p', plock p' = l ->
    locking_run spins (replicate 1 t)
      (LState (<[Z.to_nat (lc_server c) := p']> (parts st)) m'
         (<[t := Some (LCall (lc_server c) (lc_op c) (Leaving x v))]> (calls st))) =
    Ok (LState (<[Z.to_nat (lc_server c) := set_lock l' p']> (parts st)) m'
            (<[t := None]> (calls st)), [v])) as Hleave.
  { intros v m' p' Hpl'. destruct Ht as [o Ho], Hp as [q Hq].
    pose proof (lookup_lt_Some _ _ _ Ho). pose proof (lookup_lt_Some _ _ _ Hq).
    rewrite (alone_step spins t _ (LCall (lc_server c) (lc_op c) (Leaving x v)) p' m'
               (set_lock l' p') (inr v)); simpl; rewrite ?list_insert_insert_eq; try done.
    - by apply list_lookup_insert_eq.
    - by apply list_lookup_insert_eq.
    - unfold locking_act. by rewrite Hpl', Hrel. }
  destruct (lc_op c) as [key|key sz] eqn:Hopc; simpl.
  - destruct (find_value_ok (Z.of_nat j) own (lmem st) p key Hj' Hpo)
      as (r & p1 & Hf & Hi & Hr & _ & _ & Hpl1).
    unfold lookup_value. rewrite Hf. cbn [mbind result_bind]. destruct r as [e|].
    + destruct Hr as [Hv _].
      destruct (hit_value_ok (Z.of_nat j) own (lmem st) p1 e Hj' Hi Hv) as (m' & own' & Hh & _).
      rewrite Hh. exists 3%nat. split; [done|]. subst here. rewrite <- Hopc.
      rewrite (alone_inner spins t c _ p p1 (lmem st) (Inside x) (Hitting x e)); try done.
      2: { unfold locking_act. rewrite Hopc, Hf. done. }
      rewrite (alone_inner spins t c st p1 (count_hit p1) m' (Hitting x e) (Leaving x (value_ptr e)));
        try done.
      2: { unfold locking_act. by rewrite Hh. }
      rewrite Hopc. apply Hleave. simpl. congruence.
    + exists 2%nat. split; [lia|]. subst here. rewrite <- Hopc.
      rewrite (alone_inner spins t c _ p p1 (lmem st) (Inside x) (Leaving x 0)); try done.
      2: { unfold locking_act. rewrite Hopc, Hf. done. }
      rewrite Hopc. apply Hleave. congruence.
  - pose proof (insert_value_plock spins (Z.of_nat j) own (lmem st) p key sz) as Hpl1.
    change (Z.lor DATA_READY_MASK 1) with (first_count (release := atomic_release_value_)).
    destruct (insert_value atomic_release_value_ first_count spins (lmem st) p key sz)
      as [[[v m'] p1]|f] eqn:Hins.
    + exists 2%nat. split; [lia|]. subst here. rewrite <- Hopc.
      rewrite (alone_inner spins t c st p p1 m' (Inside x) (Leaving x v)); try done.
      2: { unfold locking_act. rewrite Hopc.
           change (Z.lor DATA_READY_MASK 1) with (first_count (release := atomic_release_value_)).
           by rewrite Hins. }
      rewrite Hopc. apply Hleave. rewrite (Hpl1 v m' p1); done.
    + exists 1%nat. split; [lia|]. subst here. destruct Ht as [o Ho], Hp as [q Hq].
      apply (alone_fault spins t _ (LCall (lc_server c) (LInsert key sz) (Inside x)) p); simpl; try done.
      * apply list_lookup_insert_eq. by eapply lookup_lt_Some.
      * apply list_lookup_insert_eq. by eapply lookup_lt_Some.
      * unfold locking_act.
        change (Z.lor DATA_READY_MASK 1) with (first_count (release := atomic_release_value_)).
        by rewrite Hins.
Qed.

(** C25: what a call computes. A call on a partition that no other call is using
    takes the lock, does exactly what the lookup or the insertion does on the
    partition, gives the lock back and returns the answer, within seven actions
    of its own; it fails just when that operation fails. *)
Theorem locking_call_refines t c p :
  calls st !! t = Some (Some c) -> lc_phase c = Entering Idle ->
  parts st !! Z.to_nat (lc_server c) = Some p ->
  (forall t' c', t' <> t -> calls st !! t' = Some (Some c') -> lc_server c' <> lc_server c) ->
  exists l l', match call_spec spins (lc_op c) (lmem st) (set_lock l p) with
  | Ok (v, m', p') => exists k, (k <= 7)%nat /\ locking_run spins (replicate k t) st =
      Ok (LState (<[Z.to_nat (lc_server c) := set_lock l' p']> (parts st)) m'
            (<[t := None]> (calls st)), [v])
  | Fault f => exists k, (k <= 7)%nat /\ locking_run spins (replicate k t) st = Fault f
  end.
Proof.
  intros Ht Hph Hp Hother. pose proof reached_inv as Hinv.
  pose proof (share_bound _ _ _ _ _ _ Hht Htotal (created_bound _ _ _ _ _ _ Hht)) as Hshare.
  destruct (lv_calls _ _ _ _ _ _ _ Hinv t c Ht) as (Hc & Hop & _).
  destruct (lv_lock _ _ _ _ _ _ _ Hinv _ p Hp) as (R & q & free & Hl).
  destruct (quiet_lock n _ R q free Hl (others_idle t c p Ht Hph Hp Hother))
    as (i & l1 & l2 & l3 & l4 & H1 & H2 & H3 & H4 & H5). simpl in H1, H2.
  assert (is_Some (calls st !! t) /\ is_Some (parts st !! Z.to_nat (lc_server c))) as [Hst Hsp] by eauto.
  destruct (es_books (lv_estates _ _ _ _ _ _ _ Hinv) _ p Hp) as [own Hown].
  destruct (es_part (lv_estates _ _ _ _ _ _ _ Hinv) _ p own Hp Hown) as (Hpo & Hmx & _).
  exists l3, l4.
  assert (forall k, locking_run spins (replicate (4 + k) t) st = locking_run spins (replicate k t)
    (LState (<[Z.to_nat (lc_server c) := set_lock l3 p]> (parts st)) (lmem st)
       (<[t := Some (LCall (lc_server c) (lc_op c) (Inside i))]> (calls st)))) as Hacq.
  { intros k. assert (forall l l' pc ph', anderson_step l pc = Ok (l', ph') ->
      locking_act spins (lc_op c) (Entering pc) (lmem st) (set_lock l p) =
        Ok (lmem st, set_lock l' p, inl (entered ph'))) as Hact.
    { intros l l' pc ph' Hs. unfold locking_act. simpl. by rewrite Hs. }
    assert (p = set_lock (plock p) p) as Hself by (by destruct p).
    assert (st = LState (<[Z.to_nat (lc_server c) := p]> (parts st)) (lmem st)
       (<[t := Some (LCall (lc_server c) (lc_op c) (Entering Idle))]> (calls st))) as Hsame.
    { rewrite <- Hph, !list_insert_id; [by destruct st | by destruct c | done]. }
    rewrite Hsame at 1. rewrite Hself at 1.
    change (4 + k)%nat with (S (S (S (S k)))).
    do 4 (erewrite alone_inner; [|lia|done|done|apply Hact; eassumption]). done. }
  pose proof (body_alone c l3 (set_lock l3 p) l4 i (proj1 Hc) Hop) as Hb.
  specialize (Hb ltac:(exists own; by apply owned_lock) ltac:(simpl; lia) t Hst Hsp eq_refl H5).
  destruct (call_spec spins (lc_op c) (lmem st) (set_lock l3 p)) as [[[v m'] p']|f];
    destruct Hb as (k & Hk & Hrun); exists (4 + k)%nat; (split; [lia|]); by rewrite Hacq.
Qed.
End reached.
End created.

(** ** Running the system *)
Inductive laction :=
  | DoBegin (t : nat) (op : table_call)
  | DoAct (t : nat)
  | DoGive (s : nat) (ev : event) (e : Z).

Section running.
Context `{M : Machine} (spins : nat) (n : Z).
Definition lexec (a : laction) (x : lstate * list ownership) : option (lstate * list ownership) :=
  let '(st, owns) := x in
  match a with
  | DoBegin t op =>
      match calls st !! t, op with
      | Some None, LLookup k =>
          Some (LState (parts st) (lmem st) (<[t := Some (locking_hash_lookup n k)]> (calls st)), owns)
      | Some None, LInsert k sz =>
          if (0 <=? sz) && (sz <? 2 ^ 31) then
            Some (LState (parts st) (lmem st)
                    (<[t := Some (locking_hash_insert n k sz)]> (calls st)), owns)
          else None
      | _, _ => None
      end
  | DoAct t =>
      match calls st !! t with
      | Some (Some c) =>
          p ← parts st !! Z.to_nat (lc_server c);
          own ← owns !! Z.to_nat (lc_server c);
          match locking_act spins (lc_op c) (lc_phase c) (lmem st) p, locking_step spins t st with
          | Ok (m', p', r), Ok (st', _) =>
              own' ← own_act (lc_op c) (lc_phase c) p' r own;
              Some (st', <[Z.to_nat (lc_server c) := own']> owns)
          | _, _ => None
          end
      | _ => None
      end
  | DoGive s ev e =>
      own ← owns !! s;
      own' ← own_event ev e own;
      match ev, atomic_event ev (hp (lmem st)) e with
      | (MarkedReady | Dropped), Ok h' =>
          Some (LState (parts st) (Mem h' (tick (lmem st))) (calls st), <[s := own']> owns)
      | _, _ => None
      end
  end.
Fixpoint lexec_all (acts : list laction) (x : lstate * list ownership)
    : option (lstate * list ownership) :=
  match acts with
  | [] => Some x
  | a :: acts => y ← lexec a x; lexec_all acts y
  end.
Lemma lexec_step a x y : lexec a x = Some y -> lstep spins n x y.
Proof.
  destruct x as [st owns], a as [t op|t|s ev e]; cbn [lexec].
  - destruct (calls st !! t) as [[c|]|] eqn:Ht; [done| |done].
    destruct op as [k|k sz].
    + intros [= <-]. by apply (lstep_begin spins n st owns t (LLookup k)).
    + destruct (Z.leb_spec 0 sz), (Z.ltb_spec sz (2 ^ 31)); try done. intros [= <-].
      by apply (lstep_begin spins n st owns t (LInsert k sz)).
  - destruct (calls st !! t) as [[c|]|] eqn:Ht; [|done|done].
    destruct (parts st !! _) as [p|] eqn:Hp; [|done]. cbn [mbind option_bind].
    destruct (owns !! _) as [own|] eqn:Ho; [|done]. cbn [mbind option_bind].
    destruct (locking_act _ _ _ _ _) as [[[m' p'] r]|] eqn:Ha; [|done].
    destruct (locking_step spins t st) as [[st' o]|] eqn:Hs; [|done].
    destruct (own_act _ _ _ _ _) as [own'|] eqn:Hw; [|done]. intros [= <-].
    by apply (lstep_act spins n st owns t c p own m' p' r own' st' o).
  - destruct (owns !! s) as [own|] eqn:Ho; [|done]. cbn [mbind option_bind].
    destruct (own_event ev e own) as [own'|] eqn:Hw; [|done]. cbn [mbind option_bind].
    destruct ev; try done.
    + destruct (atomic_event MarkedReady (hp (lmem st)) e) as [h'|] eqn:Hh; [|done]. intros [= <-].
      by apply (lstep_give spins n st owns s own MarkedReady e own' h' Ho (or_introl eq_refl)).
    + destruct (atomic_event Dropped (hp (lmem st)) e) as [h'|] eqn:Hh; [|done]. intros [= <-].
      by apply (lstep_give spins n st owns s own Dropped e own' h' Ho (or_intror eq_refl)).
Qed.
Lemma lexec_steps acts x y : lexec_all acts x = Some y -> nsteps (lstep spins n) (length acts) x y.
Proof.
  revert x. induction acts as [|a acts IH]; simpl; intros x Hx.
  - injection Hx as ->. constructor.
  - destruct (lexec a x) as [z|] eqn:Ha; [|done]. apply (nsteps_l _ _ _ z); [by apply (lexec_step a)|]. by apply IH.
Qed.
End running.

(** ** Witnesses: two threads, two partitions

    Thread 0 inserts under key 4 and thread 1 looks the key up: it waits for the
    lock, and it finds the value that was marked ready in the meantime. *)
Definition demo_raw : hash_table := HashTable 0 0 0 0 [] [] [] 0.
Definition demo_raws : list (partition * list alock) := replicate 2 (raw_partition, demo_locks).
Definition demo_table : hash_table :=
  match create_hash_table demo_raw demo_raws 1024 2 EVICT_LRU with
  | Ok t => t
  | Fault _ => demo_raw
  end.

Definition demo_acts : list laction :=
  [DoBegin 0 (LInsert 4 100); DoAct 0; DoAct 0; DoAct 0; DoBegin 1 (LLookup 4); DoAct 1;
   DoAct 0; DoAct 1; DoAct 0; DoAct 1; DoGive 0 MarkedReady 4096; DoAct 0;
   DoAct 1; DoAct 1; DoAct 1].

Definition demo_state (acts : list laction) : lstate * list ownership :=
  match lexec_all 8 2 acts (idle_state demo_table (Mem ∅ 0) 2, no_holders (partitions demo_table)) with
  | Some x => x
  | None => (idle_state demo_table (Mem ∅ 0) 2, no_holders (partitions demo_table))
  end.

Lemma demo_table_created : create_hash_table demo_raw demo_raws 1024 2 EVICT_LRU = Ok demo_table.
Proof. vm_compute. reflexivity. Qed.

Lemma demo_clear : Forall (fun r => clear_lock 2 (plock r.1)) demo_raws.
Proof.
  assert (clear_lock 2 (plock raw_partition)) as H.
  { split; [vm_compute; reflexivity|]. intros i Hi. assert (i = 1) as -> by lia. vm_compute. reflexivity. }
  apply Forall_replicate. exact H.
Qed.

Lemma demo_steps acts :
  lexec_all 8 2 acts (idle_state demo_table (Mem ∅ 0) 2, no_holders (partitions demo_table)) = Some (demo_state acts) ->
  nsteps (lstep 8 2) (length acts) (idle_state demo_table (Mem ∅ 0) 2, no_holders (partitions demo_table))
    ((demo_state acts).1, (demo_state acts).2).
Proof. intros Ha. destruct (demo_state acts) as [st owns]. by apply lexec_steps. Qed.

Definition demo_own (acts : list laction) (s : nat) : ownership :=
  default ∅ ((demo_state acts).2 !! s).

Lemma locking_safe_witness :
  exists el, hp (lmem (demo_state demo_acts).1) !! 4096 = Some el /\ ref_count el = 1.
Proof.
  destruct (locking_safe demo_raw demo_raws 1024 2 EVICT_LRU demo_table demo_table_created
    (or_introl eq_refl) ltac:(split; reflexivity || discriminate) demo_clear 2 ltac:(discriminate)
    8 (Mem ∅ 0) 15 (demo_state demo_acts).1 (demo_state demo_acts).2 ltac:(reflexivity)
    (demo_steps demo_acts ltac:(vm_compute; reflexivity))) as (_ & _ & H & _).
  destruct (H 0%nat (demo_own demo_acts 0) 4096 (Holds true false 0)) as [_ Hel].
  - vm_compute. reflexivity.
  - vm_compute. reflexivity.
  - exact Hel.
Defined.

Lemma locking_lookup_answer_witness : visible (demo_own demo_acts 0) 4096.
Proof.
  destruct (locking_lookup_answer demo_raw demo_raws 1024 2 EVICT_LRU demo_table demo_table_created
    (or_introl eq_refl) ltac:(split; reflexivity || discriminate) demo_clear 2 ltac:(discriminate)
    8 (Mem ∅ 0) 15 (demo_state demo_acts).1 (demo_state demo_acts).2 ltac:(reflexivity)
    (demo_steps demo_acts ltac:(vm_compute; reflexivity)) 1%nat (LCall 0 (LLookup 4) (Hitting 1 4096))
    4 (default raw_partition (parts (demo_state demo_acts).1 !! 0%nat)) (demo_own demo_acts 0))
    as [H _].
  - vm_compute. reflexivity.
  - reflexivity.
  - vm_compute. reflexivity.
  - vm_compute. reflexivity.
  - exact H.
Defined.

Definition demo_one_call : list laction := [DoBegin 0 (LInsert 4 100)].

Lemma locking_call_refines_witness :
  exists k st, (k <= 7)%nat /\
    locking_run 8 (replicate k 0%nat) (demo_state demo_one_call).1 = Ok (st, [4160]).
Proof.
  destruct (locking_call_refines demo_raw demo_raws 1024 2 EVICT_LRU demo_table demo_table_created
    (or_introl eq_refl) ltac:(split; reflexivity || discriminate) demo_clear 2 ltac:(discriminate)
    8 (Mem ∅ 0) 1 (demo_state demo_one_call).1 (demo_state demo_one_call).2 ltac:(reflexivity)
    (demo_steps demo_one_call ltac:(vm_compute; reflexivity)) 0%nat
    (LCall 0 (LInsert 4 100) (Entering Idle))
    (default raw_partition (parts (demo_state demo_one_call).1 !! 0%nat))) as (l & l' & H).
  - vm_compute. reflexivity.
  - reflexivity.
  - vm_compute. reflexivity.
  - intros [|[|t]] c Hne Hc; [by destruct Hne | vm_compute in Hc; discriminate..].
  - destruct (call_spec _ _ _ _) as [[[v m'] p']|f] eqn:Hs; [|vm_compute in Hs; discriminate].
    assert (v = 4160) as -> by (vm_compute in Hs; congruence).
    destruct H as (k & Hk & Hr). eexists k, _. split; [exact Hk | exact Hr].
Defined.
