(* ===== verification/LockingLive.v ===== *)
(** * LockingLive: some call on the locking table can go on

    A call comes nearer to its end with every action but one: the test of a slot of the
    lock that is not set ([phase_rank]). Whoever waits like that, somebody at the same
    lock does not, because the token of the lock is never lost. *)
From stdpp Require Import base list gmap.
From Stdlib Require Import ZArith Lia.
From S2P Require Import Prelude Protocol ALock Value Partition PartitionInv TableOps Ownership.
From S2P Require Import HashTable Estates Locking LockingThms.

Local Open Scope Z_scope.

(** The actions that a call has still to make, if it need not wait. *)
Definition phase_rank (ph : phase) : Z :=
  match ph with
  | Entering Idle => 7
  | Entering (Fetched _) => 6
  | Entering (Spinning _) => 5
  | Entering (Clearing _) => 4
  | Entering (Critical _) => 8
  | Inside _ => 3
  | Hitting _ _ => 2
  | Leaving _ _ => 1
  end.

(** A call that has the lock is not in its acquisition any more. *)
Definition proper (ph : phase) : Prop := forall x, ph <> Entering (Critical x).

(** The next action tests a slot that is not set. *)
Definition must_wait (l : alock) (ph : phase) : Prop :=
  exists me, ph = Entering (Spinning me) /\ aget (has_lock l) me = Ok 0.

Lemma phase_rank_range ph : proper ph -> 1 <= phase_rank ph <= 7.
Proof. intros H. destruct ph as [[]| | |]; simpl; try lia. by destruct (H extra). Qed.

Section machine.
Context `{M : Machine} (spins : nat).

(** The enlarged specification of one action: where it leads. *)
Lemma act_rank op ph m p m' p' r :
  locking_act spins op ph m p = Ok (m', p', r) -> proper ph ->
  match r with
  | inl ph' => proper ph' /\ (phase_rank ph' < phase_rank ph \/ (ph' = ph /\ must_wait (plock p) ph))
  | inr v => exists x, ph = Leaving x v
  end.
Proof.
  intros Hact Hp. unfold locking_act in Hact. destruct ph as [q|x|x e|x v].
  - apply bind_Ok in Hact as ([l q'] & Hs & Hr). apply Ok_inj in Hr. injection Hr as _ _ <-.
    assert (proper (entered q')) as Hp' by (intros x; by destruct q'). split; [done|].
    destruct q as [|me|me|me|x]; simpl in Hs; [| | | |by destruct (Hp x)].
    + injection Hs as _ <-. left. simpl. lia.
    + apply bind_Ok in Hs as (u & _ & Hs). injection Hs as _ <-. left. simpl. lia.
    + apply bind_Ok in Hs as (y & Hy & Hs). injection Hs as _ <-. destruct (Z.eqb_spec y 0) as [->|]; simpl.
      * right. split; [done|]. by exists me.
      * left. lia.
    + apply bind_Ok in Hs as (hl & _ & Hs). injection Hs as _ <-. left. simpl. lia.
  - destruct op as [key|key sz]; apply bind_Ok in Hact as (y & _ & Hr).
    + destruct y as [o p1]. apply Ok_inj in Hr. injection Hr as _ _ <-. by destruct o; (split; [intros ?|left; simpl]).
    + destruct y as [[v m1] p1]. apply Ok_inj in Hr. injection Hr as _ _ <-. by split; [intros ?|left; simpl].
  - apply bind_Ok in Hact as ([[v m1] p1] & _ & Hr). apply Ok_inj in Hr. injection Hr as _ _ <-.
    by split; [intros ?|left; simpl].
  - apply bind_Ok in Hact as (y & _ & Hr). destruct y as [l q]. apply Ok_inj in Hr. injection Hr as _ _ <-. by exists x.
Qed.

(** The parts of a step. *)
Lemma locking_step_act st t c st' o :
  calls st !! t = Some (Some c) -> locking_step spins t st = Ok (st', o) ->
  exists p m' p' r, parts st !! Z.to_nat (lc_server c) = Some p /\
    locking_act spins (lc_op c) (lc_phase c) (lmem st) p = Ok (m', p', r) /\
    calls st' = <[t := call_after c r]> (calls st) /\ o = returned r.
Proof.
  intros Ht Hs. unfold locking_step in Hs. rewrite Ht in Hs.
  cbn [deref mbind result_bind] in Hs. apply bind_Ok in Hs as (p & Hp & Hs). apply bind_Ok in Hs as ([[m p'] r] & Hact & Hs).
  apply bind_Ok in Hs as (ps & _ & Hs). apply Ok_inj in Hs. injection Hs as <- <-. apply aget_Ok in Hp as [_ Hp].
  by exists p, m, p', r.
Qed.

(** The call of the thread that acts, and those of the others. *)
Lemma locking_step_calls st t c st' o :
  calls st !! t = Some (Some c) -> proper (lc_phase c) -> locking_step spins t st = Ok (st', o) ->
  (forall i, i <> t -> calls st' !! i = calls st !! i) /\
  match o with
  | None => exists ph, calls st' !! t = Some (Some (LCall (lc_server c) (lc_op c) ph)) /\ proper ph
  | Some v => calls st' !! t = Some None /\ exists x, lc_phase c = Leaving x v
  end.
Proof.
  intros Ht Hp Hs. pose proof (lookup_lt_Some _ _ _ Ht) as Hlt.
  destruct (locking_step_act st t c st' o Ht Hs) as (p & m' & p' & r & _ & Hact & -> & ->). split.
  { intros i Hi. by apply list_lookup_insert_ne. }
  pose proof (act_rank _ _ _ _ _ _ _ Hact Hp) as Hr. destruct r as [ph|v]; simpl.
  - exists ph. split; [by apply list_lookup_insert_eq | apply Hr].
  - split; [by apply list_lookup_insert_eq | exact Hr].
Qed.
End machine.

Section table.
Context (h0 : heap) (n ms ev k : Z) (st : lstate) (owns : list ownership).
Context (Hinv : linv h0 n ms ev k st owns).

(** A thread that stands somewhere at the lock of a partition is in a call on it. *)
Lemma at_lock s p t q :
  threads (lock_view s p (calls st)) !! t = Some q -> q <> Idle ->
  exists c, calls st !! t = Some (Some c) /\ lc_server c = Z.of_nat s /\ lock_pc (lc_phase c) = q.
Proof.
  intros Hq Hne. simpl in Hq. apply list_lookup_fmap_Some in Hq as (o & -> & Ho). destruct o as [c|]; [|done].
  simpl in Hne |- *. case_decide as Hs; [|done]. by exists c.
Qed.

(** Whoever is in a call, somebody can go on with one. *)
Lemma someone_advances t c :
  calls st !! t = Some (Some c) -> exists t' c' p, calls st !! t' = Some (Some c') /\
    parts st !! Z.to_nat (lc_server c') = Some p /\ ~ must_wait (plock p) (lc_phase c').
Proof.
  intros Ht. destruct (lv_calls _ _ _ _ _ _ _ Hinv t c Ht) as (Hs & _).
  pose proof (lv_n _ _ _ _ _ _ _ Hinv) as Hn. set (s := Z.to_nat (lc_server c)).
  destruct (lookup_lt_is_Some_2 (parts st) s) as [p Hp]; [lia|].
  destruct (lv_lock _ _ _ _ _ _ _ Hinv s p Hp) as (R & q & free & Hl).
  pose proof (view_lookup s p (calls st) t _ Ht) as Hpt. unfold s in Hpt at 2. rewrite pc_at_self in Hpt by lia.
  assert (lock_pc (lc_phase c) = Idle \/ lock_pc (lc_phase c) <> Idle) as [Hidle|Hbusy]
    by (destruct (lock_pc (lc_phase c)); [by left | by right..]).
  { exists t, c, p. do 2 (split; [done|]). intros (me & Hph & _). by rewrite Hph in Hidle. }
  pose proof (proj2 (li_active _ _ _ _ _ Hl t _ Hpt) Hbusy) as Hq. destruct free.
  - destruct q as [|t0 q]; [by apply elem_of_nil in Hq|].
    destruct (lookup_lt_is_Some_2 (threads (lock_view s p (calls st))) t0) as [pc0 Hpc0].
    { apply (li_live _ _ _ _ _ Hl). left. }
    pose proof (proj1 (li_active _ _ _ _ _ Hl t0 pc0 Hpc0) ltac:(left)) as Hne.
    destruct (at_lock s p t0 pc0 Hpc0 Hne) as (c0 & Hc0 & Hs0 & Hph0). exists t0, c0, p.
    split; [done|]. rewrite Hs0, Nat2Z.id. split; [done|]. intros (me & Hme & Hget). rewrite Hme in Hph0. simpl in Hph0. subst pc0.
    pose proof (li_slot _ _ _ _ _ Hl 0%nat t0 _ eq_refl Hpc0) as Hslot. simpl in Hslot. rewrite Z.add_0_r in Hslot.
    destruct (li_token _ _ _ _ _ Hl (R mod n)) as (x & Hx & Hiff); [apply Z.mod_pos_bound; lia|].
    apply aget_Ok in Hget as [_ Hget]. simpl in Hx. rewrite <- Hslot, Hget in Hx. injection Hx as <-. by apply Hiff.
  - destruct (li_held _ _ _ _ _ Hl eq_refl) as (t0 & q' & x & -> & Hx).
    destruct (at_lock s p t0 (Critical x) Hx) as (c0 & Hc0 & Hs0 & Hph0); [done|]. exists t0, c0, p.
    split; [done|]. rewrite Hs0, Nat2Z.id. split; [done|]. intros (me & Hme & _). by rewrite Hme in Hph0.
Qed.
End table.
