(* ===== verification/Blocks.v ===== *)
(** * Blocks: the memory that values lie in

    The bytes behind an element are those of the block that [memalign] gave: nothing that
    the library or a client does gives an element more or fewer of them. [hash_insert]
    ([partition.c]) requests one cache line for every element, so that an allocator that
    gives no more than that leaves no byte for the value. *)
From stdpp Require Import base list gmap.
From Stdlib Require Import ZArith Lia.
From S2P Require Import Prelude Protocol ALock Value Partition PartitionInv PartitionThms TableOps Locking.

Local Open Scope Z_scope.

Section blocks.
Context `{M : Machine}.

(** An insertion was given a block at [a], with [room] bytes behind the header. *)
Definition given (a : Z) (room : nat) : Prop :=
  exists j h sz raw, memalign j h (u64 (sizeof_elem + u64 sz)) CACHELINE = Some (a, raw) /\
    length (value raw) = room.

(** Every block was there before, or was given since. *)
Definition blocks_from (h h' : heap) : Prop := forall a el', h' !! a = Some el' ->
  (exists el, h !! a = Some el /\ length (value el) = length (value el')) \/ given a (length (value el')).

#[export] Instance blocks_from_preorder : PreOrder blocks_from.
Proof.
  split.
  - intros h a el Hel. left. by exists el.
  - intros h1 h2 h3 H12 H23 a el3 H3. destruct (H23 a el3 H3) as [(el2 & H2 & <-)|]; [|by right].
    by apply H12.
Qed.

(** Of the values, only the lengths count. *)
Lemma blocks_rewritten h e el el' :
  h !! e = Some el -> length (value el') = length (value el) -> blocks_from h (<[e := el']> h).
Proof.
  intros Hel Hl a el2 [[<- <-]|[Hne Ha]]%lookup_insert_Some; left; [by exists el | by exists el2].
Qed.

Lemma blocks_freed h e : blocks_from h (delete e h).
Proof. intros a el [_ Ha]%lookup_delete_Some. left. by exists el. Qed.

Lemma blocks_allocated h e el : given e (length (value el)) -> blocks_from h (<[e := el]> h).
Proof. intros Hg a el2 [[<- <-]|[_ Ha]]%lookup_insert_Some; [by right | left; by exists el2]. Qed.

Lemma blocks_written h ptr bs h' : write_value h ptr bs = Ok h' -> blocks_from h h'.
Proof.
  intros (el & Hel & Hl & ->)%write_value_Ok. apply (blocks_rewritten _ _ el _ Hel). by apply overwritten_room.
Qed.

Lemma blocks_counted h e el rc h' :
  h !! e = Some el -> store_or_free h e el rc = Ok h' -> blocks_from h h'.
Proof.
  intros Hel Hs. rewrite store_or_free_spec in Hs. apply Ok_inj in Hs as <-.
  case_match; [apply blocks_freed | by apply (blocks_rewritten _ _ el _ Hel)].
Qed.

Lemma blocks_released release `{!Releases release} h e el h' :
  h !! e = Some el -> release h e = Ok h' -> blocks_from h h'.
Proof.
  intros Hel Hr. rewrite (release_spec h e el Hel) in Hr. apply Ok_inj in Hr as <-.
  destruct (after_release el) as [el'|] eqn:Ha; [|apply blocks_freed].
  apply (blocks_rewritten _ _ el _ Hel). by destruct (after_release_shape _ _ Ha) as [rc ->].
Qed.

(** ** Insertions *)
Section insertion.
Context (release : heap -> Z -> result heap) `{!Releases release}.

Lemma removed_element h p e p' : hash_remove h p e = Ok p' -> is_Some (h !! e).
Proof. intros (el & Hel%deref_Ok & _)%bind_Ok. by exists el. Qed.

Lemma blocks_made_room fuel spins m p sz es e raw m' p' :
  make_room release fuel spins m p sz es = Ok (e, raw, m', p') -> blocks_from (hp m) (hp m').
Proof.
  revert m p. induction fuel as [|fuel IH]; intros m p Hrun; [done|].
  rewrite make_room_S in Hrun. cbv zeta in Hrun.
  destruct (if psize p <=? max_size p then _ else None) as [[a raw']|] eqn:Hal.
  - by injection Hrun as _ _ <- _.
  - apply bind_Ok in Hrun as ([[h1 k1] p1] & Hev & Hrun). transitivity h1; [|by apply (IH _ _ Hrun)].
    apply bind_Ok in Hev as (u & _ & Hev). apply bind_Ok in Hev as ([v k2] & _ & Hev).
    apply bind_Ok in Hev as (p2 & Hrem & Hev). apply bind_Ok in Hev as (h2 & Hrel & Hev).
    injection Hev as <- _ _. destruct (removed_element _ _ _ _ Hrem) as [el Hel].
    by apply (blocks_released release (hp m) v el).
Qed.

(** The element inserted lies in a block that was given to it. *)
Lemma inserted_block spins m p k sz e m' p' :
  hash_insert release spins m p k sz = Ok (e, m', p') -> blocks_from (hp m) (hp m') /\
  exists j h raw, memalign j h (u64 (sizeof_elem + u64 sz)) CACHELINE = Some (e, raw) /\
    hp m' !! e = Some (Elem k (ref_count raw) (elem_size sz) (value raw)).
Proof.
  intros Hins. unfold hash_insert in Hins. cbv zeta in Hins.
  apply bind_Ok in Hins as ([old p1] & _ & Hins). apply bind_Ok in Hins as ([m1 p2] & Hold & Hins).
  apply bind_Ok in Hins as ([[[a raw] m2] p3] & Hroom & Hins).
  apply bind_Ok in Hins as (eh & _ & Hins). apply bind_Ok in Hins as (t & _ & Hins).
  injection Hins as -> <- _. simpl.
  assert (blocks_from (hp m) (hp m1)) as H1.
  { destruct old as [o|]; [|by injection Hold as -> _].
    apply bind_Ok in Hold as (p4 & Hrem & Hold). apply bind_Ok in Hold as (h2 & Hrel & Hold).
    injection Hold as <- _. destruct (removed_element _ _ _ _ Hrem) as [el Hel].
    by apply (blocks_released release (hp m) o el). }
  pose proof (blocks_made_room _ _ _ _ _ _ _ _ _ _ Hroom) as H2.
  apply make_room_request in Hroom as (j & h & Hal). split.
  - transitivity (hp m1); [done|]. transitivity (hp m2); [done|]. apply blocks_allocated.
    by exists j, h, sz, raw.
  - exists j, h, raw. split; [done|]. apply lookup_insert_eq.
Qed.

(** C35: the room of an inserted value. [hash_insert] asks the allocator for 64 bytes, aligned to
    the size of the element, whatever the size of the value: the arguments of [memalign] are the
    wrong way round. The client that writes the value may write just as many bytes as the
    allocator gave beyond these 64, and changes nothing else; the first byte past the block is
    undefined. With an allocator that gives what it is asked for there is no byte to write. *)
Theorem inserted_value_room spins m p k sz e m' p' :
  0 <= sz < 2 ^ 31 -> hash_insert release spins m p k sz = Ok (e, m', p') ->
  exists j h raw, memalign j h (sizeof_elem + sz) sizeof_elem = Some (e, raw) /\
    (forall bs, write_value (hp m') (value_ptr e) bs =
       if decide (length bs <= length (value raw))%nat then
         Ok (<[e := Elem k (ref_count raw) (elem_size sz) (bs ++ drop (length bs) (value raw))]> (hp m'))
       else Fault Undefined) /\
    (value raw = [] -> forall bs, bs <> [] -> write_value (hp m') (value_ptr e) bs = Fault Undefined).
Proof.
  intros Hsz Hins. destruct (inserted_block _ _ _ _ _ _ _ _ Hins) as (_ & j & h & raw & Hal & Hel).
  destruct (memalign_fresh _ _ _ _ _ _ Hal) as [_ Haddr].
  assert (hp m' !! elem_of_ptr (value_ptr e) = Some (Elem k (ref_count raw) (elem_size sz) (value raw))) as Hel'
    by (by rewrite elem_of_value_ptr).
  exists j, h, raw. split; [|split].
  - rewrite <- Hal. f_equal. unfold sizeof_elem. rewrite (u64_small sz), u64_small; lia.
  - intros bs. rewrite (write_value_spec _ _ bs _ Hel'), elem_of_value_ptr by done. reflexivity.
  - intros Hexact bs Hbs. rewrite (write_value_spec _ _ bs _ Hel'). apply decide_False. simpl.
    rewrite Hexact. destruct bs; [done|]. simpl. lia.
Qed.
End insertion.

(** ** The operations of the locking table *)
Lemma blocks_hit m p e v m' p' : hit_value m p e = Ok (v, m', p') -> blocks_from (hp m) (hp m').
Proof.
  unfold hit_value. intros Hh. apply bind_Ok in Hh as (h & Ht & Hh). injection Hh as _ <- _. simpl.
  apply bind_Ok in Ht as (el & Hel%deref_Ok & Ht). apply Ok_inj in Ht as <-.
  by apply (blocks_rewritten _ _ el _ Hel).
Qed.

Lemma blocks_inserted release `{!Releases release} rc spins m p k sz v m' p' :
  insert_value release rc spins m p k sz = Ok (v, m', p') -> blocks_from (hp m) (hp m').
Proof.
  unfold insert_value. intros Hi. apply bind_Ok in Hi as ([[e m1] p1] & Hins & Hi).
  apply bind_Ok in Hi as (h & Hs & Hi). injection Hi as _ <- _. simpl.
  destruct (inserted_block _ _ _ _ _ _ _ _ _ Hins) as [H1 _]. transitivity (hp m1); [done|].
  apply bind_Ok in Hs as (el & Hel%deref_Ok & Hs). apply Ok_inj in Hs as <-. by apply (blocks_rewritten _ _ el _ Hel).
Qed.

Lemma blocks_act spins op ph m p m' p' r :
  locking_act spins op ph m p = Ok (m', p', r) -> blocks_from (hp m) (hp m').
Proof.
  unfold locking_act. destruct ph as [q|extra|extra e|extra v]; intros Ha.
  - apply bind_Ok in Ha as ([l q'] & _ & Ha). by injection Ha as <- _ _.
  - destruct op as [k|k sz].
    + apply bind_Ok in Ha as ([o p1] & _ & Ha). by injection Ha as <- _ _.
    + apply bind_Ok in Ha as ([[v m1] p1] & Hi & Ha). injection Ha as <- _ _.
      by apply (blocks_inserted _ _ _ _ _ _ _ _ _ _ Hi).
  - apply bind_Ok in Ha as ([[v m1] p1] & Hh & Ha). injection Ha as <- _ _. by apply (blocks_hit _ _ _ _ _ _ Hh).
  - apply bind_Ok in Ha as ([l q'] & _ & Ha). by injection Ha as <- _ _.
Qed.

Lemma blocks_step spins t st st' o :
  locking_step spins t st = Ok (st', o) -> blocks_from (hp (lmem st)) (hp (lmem st')).
Proof.
  unfold locking_step. intros Hs. apply bind_Ok in Hs as (oc & _ & Hs). apply bind_Ok in Hs as (c & _ & Hs).
  apply bind_Ok in Hs as (p & _ & Hs). apply bind_Ok in Hs as ([[m p'] r] & Ha & Hs).
  apply bind_Ok in Hs as (ps & _ & Hs). injection Hs as <- _. by apply (blocks_act _ _ _ _ _ _ _ _ Ha).
Qed.

Lemma blocks_atomic_release h ptr h' : atomic_release_value h ptr = Ok h' -> blocks_from h h'.
Proof. intros (el & Hel%deref_Ok & Hr)%bind_Ok. by apply (blocks_counted h _ el _ h' Hel Hr). Qed.

Lemma blocks_atomic_mark h ptr h' : atomic_mark_ready h ptr = Ok h' -> blocks_from h h'.
Proof. intros (el & Hel%deref_Ok & Hr)%bind_Ok. by apply (blocks_counted h _ el _ h' Hel Hr). Qed.
End blocks.

(** ** A machine that gives no more than it is asked for *)
Definition exact_rest (n : Z) : list Z := replicate (Z.to_nat (n - sizeof_elem)) 0.

#[local] Program Instance exact_machine : Machine := {
  memalign k h align n := if sizeof_elem <=? n then (fun e => (e, Elem 0 0 0 (exact_rest n))) <$> first_free h else None;
  read_tsc k := 7 * Z.of_nat k
}.
Next Obligation.
  intros k h align n e raw H. simpl in H. case_match; [|done]. destruct (first_free h) as [a|] eqn:Hf; [|done].
  injection H as <- _. by apply first_free_fresh.
Qed.
Next Obligation.
  intros k h align n e raw H. simpl in H. destruct (Z.leb_spec sizeof_elem n); [|done].
  destruct (first_free h) as [a|] eqn:Hf; [|done].
  injection H as _ <-. unfold exact_rest. simpl. rewrite length_replicate. lia.
Qed.

Definition exact_insert : option (Z * mem * partition) :=
  match hash_insert (H := exact_machine) mp_release_value_ 8 (Mem ∅ 0) (demo EVICT_LRU) 5 100 with
  | Ok r => Some r
  | Fault _ => None
  end.

Definition exact_mem : mem := Mem {[ 4096 := Elem 5 0 192 [] ]} 1.

(** An element of 100 bytes, of which the first cannot be written. *)
Lemma inserted_value_room_witness :
  exists p', hash_insert (H := exact_machine) mp_release_value_ 8 (Mem ∅ 0) (demo EVICT_LRU) 5 100 = Ok (4096, exact_mem, p') /\
    write_value (hp exact_mem) (value_ptr 4096) [7] = Fault Undefined.
Proof.
  assert (exists p', exact_insert = Some (4096, exact_mem, p')) as [p' Hp'] by (eexists; vm_compute; reflexivity).
  assert (hash_insert (H := exact_machine) mp_release_value_ 8 (Mem ∅ 0) (demo EVICT_LRU) 5 100 = Ok (4096, exact_mem, p')) as Hi.
  { unfold exact_insert in Hp'. destruct (hash_insert _ _ _ _ _ _) as [r|]; [|done]. by injection Hp' as ->. }
  exists p'. split; [exact Hi|].
  destruct (inserted_value_room (M := exact_machine) mp_release_value_ 8 (Mem ∅ 0) (demo EVICT_LRU) 5 100 4096 exact_mem p'
    ltac:(split; reflexivity || discriminate) Hi) as (j & h & raw & Hal & _ & Hnone).
  apply Hnone; [|discriminate]. simpl in Hal. destruct (first_free h); [|discriminate Hal].
  injection Hal as _ <-. reflexivity.
Defined.
