(* ===== verification/LockingWorld.v ===== *)
(** * LockingWorld: a program with many threads on the locking table

    The threads of a program that uses the locking implementation. A thread makes
    one call after the other, the actions of the calls of all threads interleave
    ([Locking]), and a thread remembers the values that it was given: those it
    inserted it writes and marks ready, those it looked up it releases, both
    without any lock. *)
From stdpp Require Import base list gmap relations.
From Stdlib Require Import ZArith Lia.
From S2P Require Import Prelude Protocol ALock Value Partition PartitionInv TableOps Ownership.
From S2P Require Import HashTable Holders Locking.

Local Open Scope Z_scope.

(** The query of a call, by which its answer is remembered. *)
Definition request_of (op : table_call) : request :=
  match op with LLookup k => Lookup k | LInsert k sz => Insert k sz end.

Definition locking_call (nservers : Z) (op : table_call) : lcall :=
  match op with
  | LLookup k => locking_hash_lookup nservers k
  | LInsert k sz => locking_hash_insert nservers k sz
  end.

(** The table, and the values in the hands of every thread. *)
Record lworld := LWorld { lw_state : lstate; lw_held : list (list (request * Z)) }.

Definition lw_heap (w : lworld) : heap := hp (lmem (lw_state w)).
Definition held_by (w : lworld) (t : nat) : list (request * Z) := default [] (lw_held w !! t).

(** One step of the program: thread [t] begins a call, makes an action of it (and takes
    its answer, when it returns), marks a value ready, releases one, or writes
    [bs] into one. *)
Inductive lworld_action :=
  | LBegin (t : nat) (op : table_call)
  | LAct (t : nat)
  | LMark (t : nat) (ptr : Z)
  | LRelease (t : nat) (ptr : Z)
  | LWrite (t : nat) (ptr : Z) (bs : list Z).

Definition wrote (ptr : Z) (x : request * Z) : bool :=
  match x.1 with Insert _ _ => x.2 =? ptr | _ => false end.
Definition found (ptr : Z) (x : request * Z) : bool :=
  match x.1 with Lookup _ => x.2 =? ptr | _ => false end.

(** What the interface asks of a thread: sizes that fit into a partition ([ms]), and
    marks only of values it has inserted, releases only of values it has looked up,
    once each, and writes only of values it holds. *)
Definition lallowed (ms : Z) (w : lworld) (a : lworld_action) : Prop :=
  match a with
  | LBegin t op => op_ok op /\ match op with LInsert _ sz => elem_size sz <= ms | _ => True end
  | LAct t => True
  | LMark t ptr => existsb (wrote ptr) (held_by w t) = true
  | LRelease t ptr => existsb (found ptr) (held_by w t) = true
  | LWrite t ptr _ => ptr ∈ (held_by w t).*2
  end.

#[export] Instance op_ok_dec op : Decision (op_ok op).
Proof. destruct op; simpl; apply _. Defined.

#[export] Instance lallowed_dec ms w a : Decision (lallowed ms w a).
Proof. destruct a as [t [|]| | | |]; simpl; apply _. Defined.

(** The first value with [f] is given up. *)
Fixpoint drop_one (f : request * Z -> bool) (held : list (request * Z)) : list (request * Z) :=
  match held with
  | [] => []
  | x :: held => if f x then held else x :: drop_one f held
  end.

(** An answer other than NULL is held from now on. *)
Definition taken (op : table_call) (o : option Z) : list (request * Z) :=
  match o with
  | Some v => if v =? 0 then [] else [(request_of op, v)]
  | None => []
  end.

Definition set_call (t : nat) (o : option lcall) (st : lstate) : lstate :=
  LState (parts st) (lmem st) (<[t := o]> (calls st)).
Definition set_lheap (h : heap) (st : lstate) : lstate :=
  LState (parts st) (Mem h (tick (lmem st))) (calls st).
Definition change_held (t : nat) (f : list (request * Z) -> list (request * Z))
    (held : list (list (request * Z))) : list (list (request * Z)) := alter f t held.

Section machine.
Context `{M : Machine} (spins : nat) (nservers : Z).

(** [None]: the action does not apply; [Fault]: it applies, and fails or waits. *)
Definition lworld_act (a : lworld_action) (w : lworld) : option (result lworld) :=
  let st := lw_state w in
  match a with
  | LBegin t op =>
      match calls st !! t with
      | Some None => Some (Ok (LWorld (set_call t (Some (locking_call nservers op)) st) (lw_held w)))
      | _ => None
      end
  | LAct t =>
      match calls st !! t with
      | Some (Some c) => Some (
          '(st, o) ← locking_step spins t st;
          mret (LWorld st (change_held t (fun l => l ++ taken (lc_op c) o) (lw_held w))))
      | _ => None
      end
  | LMark t ptr =>
      match calls st !! t with
      | Some None => Some (
          h ← atomic_mark_ready (hp (lmem st)) ptr;
          mret (LWorld (set_lheap h st) (change_held t (drop_one (wrote ptr)) (lw_held w))))
      | _ => None
      end
  | LRelease t ptr =>
      match calls st !! t with
      | Some None => Some (
          h ← atomic_release_value (hp (lmem st)) ptr;
          mret (LWorld (set_lheap h st) (change_held t (drop_one (found ptr)) (lw_held w))))
      | _ => None
      end
  | LWrite t ptr bs =>
      match calls st !! t with
      | Some None => Some (h ← write_value (hp (lmem st)) ptr bs; mret (LWorld (set_lheap h st) (lw_held w)))
      | _ => None
      end
  end.

Definition lworld_step (ms : Z) (w w' : lworld) : Prop :=
  exists a, lallowed ms w a /\ lworld_act a w = Some (Ok w').

(** A schedule; [None] when some action does not apply, is not allowed, or fails. *)
Fixpoint run_lworld (ms : Z) (l : list lworld_action) (w : lworld) : option lworld :=
  match l with
  | [] => Some w
  | a :: l =>
      if decide (lallowed ms w a) then
        match lworld_act a w with Some (Ok w) => run_lworld ms l w | _ => None end
      else None
  end.

Lemma run_lworld_steps ms l w w' : run_lworld ms l w = Some w' -> nsteps (lworld_step ms) (length l) w w'.
Proof.
  revert w. induction l as [|a l IH]; intros w Hw; simpl in Hw; [injection Hw as <-; constructor|].
  destruct (decide _) as [Ha|]; [|done]. destruct (lworld_act a w) as [[w1|]|] eqn:Hx; try done.
  apply (nsteps_l _ _ _ w1); [by exists a | by apply IH].
Qed.
End machine.

(** The table is made, [nt] threads are idle and nobody holds anything. *)
Definition start_lworld (t : hash_table) (m : mem) (nt : nat) : lworld :=
  LWorld (LState (partitions t) m (replicate nt None)) (replicate nt []).
