(* ===== verification/LockingWorldInv.v ===== *)
(** * LockingWorldInv: the invariant of a program on the locking table

    The invariant of the table and its calls ([LockingThms.linv]) comes together with
    what the threads hold: the shares that the books of the partitions count are the
    values in the hands of the threads and the answers that calls are about to
    return, and each of them is what its query asked for. *)
From stdpp Require Import base list gmap relations.
From Stdlib Require Import ZArith Lia.
From S2P Require Import Prelude Protocol ALock Value Partition PartitionInv PartitionLru PartitionThms.
From S2P Require Import TableOps Ownership HashTable Estates Holders Locking LockingThms LockingWorld.

Local Open Scope Z_scope.

(** The answer of a call that has still to give back its lock. *)
Definition leaving (o : option lcall) : list (request * Z) :=
  match o with
  | Some c => match lc_phase c with Leaving _ v => [(request_of (lc_op c), v)] | _ => [] end
  | None => []
  end.

(** What is in the hands of every thread. *)
Definition hands (w : lworld) : list (list (request * Z)) :=
  zip_with (fun l o => l ++ leaving o) (lw_held w) (calls (lw_state w)).

Definition in_hands (w : lworld) (e : Z) : Z := zsum (fun l => occurs (value_ptr e) l.*2) (hands w).

(** What an action of one partition means for the holders of values: their number
    changes by [d], what somebody holds before and after survives, and ready values are
    those that were ready before and the ones in [mk], which the action marked. *)
Record effect (own own' : ownership) (h h' : heap) (d : Z -> Z) (mk : Z -> Prop) : Prop := {
  ef_footprint : footprint own h own' h';
  ef_shares : forall e, addr_ok e -> shares_of own' e = shares_of own e + d e;
  ef_survives : forall e, 0 < shares_of own e -> 0 < shares_of own' e -> survives own own' h h' e;
  ef_ready : forall e hs', own' !! e = Some hs' -> writing hs' = false ->
    exists hs, own !! e = Some hs /\ (writing hs = false \/ mk e) /\ kept h h' e
}.

(** Every value that is not being written is [good]. *)
Definition ready_good (good : elem -> Prop) (owns : list ownership) (h : heap) : Prop :=
  forall s own e hs el, owns !! s = Some own -> own !! e = Some hs -> writing hs = false -> h !! e = Some el -> good el.

(** [good] is about the contents of an element. *)
Definition of_contents (good : elem -> Prop) : Prop := forall el rc, good el -> good (set_ref_count rc el).

Section invariant.
Context (h0 : heap) (n ms ev : Z).

(** A call asks for what fits into a partition, and an insertion does not answer NULL. *)
Definition fits_call (c : lcall) : Prop :=
  match lc_op c with
  | LInsert _ sz => elem_size sz <= ms /\ forall x v, lc_phase c = Leaving x v -> v <> 0
  | _ => True
  end.

Record lworld_inv (k : Z) (w : lworld) (owns : list ownership) : Prop := {
  lwi_table : linv h0 n ms ev k (lw_state w) owns;
  lwi_len : length (lw_held w) = length (calls (lw_state w));
  lwi_held : forall l x, l ∈ lw_held w -> x ∈ l -> x.2 <> 0;
  lwi_fits : forall t c, calls (lw_state w) !! t = Some (Some c) -> fits_call c;
  lwi_hits : forall t c x e, calls (lw_state w) !! t = Some (Some c) -> lc_phase c = Hitting x e ->
    exists key, lc_op c = LLookup key /\ has_key (lw_heap w) e key;
  lwi_shares : forall e, addr_ok e -> in_hands w e = all_shares owns e;
  lwi_answers : forall l x, l ∈ hands w -> x ∈ l -> answered_in owns (lw_heap w) x
}.

(** Every element that was not there before is in a table or in somebody's hands. *)
Lemma world_size k w owns :
  lworld_inv k w owns ->
  (base.size (lw_heap w) <= base.size h0 + Z.to_nat n * Z.to_nat (ms / sizeof_elem) + length (concat (hands w)))%nat.
Proof.
  intros Hinv. pose proof (lwi_table _ _ _ Hinv) as Htab. pose proof (lv_estates _ _ _ _ _ _ _ Htab) as Hes.
  pose proof (estates_size Hes ((fun x => elem_of_ptr x.2) <$> concat (hands w))) as Hsz. rewrite length_fmap in Hsz.
  replace (length (parts (lw_state w))) with (Z.to_nat n) in Hsz by (pose proof (lv_n _ _ _ _ _ _ _ Htab); lia).
  apply Hsz. intros s own e hs Ho He Hs.
  destruct (es_elem Hes s own e hs Ho He) as (_ & Haddr & _).
  pose proof (lwi_shares _ _ _ Hinv e Haddr) as Hsh. rewrite (shares_at_home Hes s own e Ho ltac:(by eexists)) in Hsh.
  unfold shares_of in Hsh. rewrite He in Hsh. unfold in_hands in Hsh.
  destruct (zsum_pos_inv (fun l => occurs (value_ptr e) l.*2) (hands w)) as (l & Hl & Hocc); [lia|].
  apply occurs_pos, list_elem_of_fmap in Hocc as (x & Hx & Hin). apply list_elem_of_fmap.
  exists x. split; [by rewrite <- Hx, elem_of_value_ptr|]. apply list_elem_of_lookup in Hl as [i Hi].
  apply elem_of_concat. by exists i, l.
Qed.

Lemma effect_same n0 own m p h' :
  lk_owned n0 own m p -> h' = hp m -> effect own own (hp m) h' (fun _ => 0) (fun _ => False).
Proof.
  intros Hinv ->. split; [apply footprint_refl | intros; lia | |].
  - intros e He _. by apply (held_survives n0 own m p e Hinv).
  - intros e hs He Hw. exists hs. split; [done|]. split; [by left|].
    destruct (si_held _ _ _ _ Hinv e hs He) as (_ & _ & el & Hel & _). exists el, (ref_count el).
    split; [done|]. rewrite Hel. by destruct el.
Qed.

Lemma effect_ext own own' h h' d d' mk :
  effect own own' h h' d mk -> (forall e, addr_ok e -> d e = d' e) -> effect own own' h h' d' mk.
Proof. intros [Hf Hs Hv Hr] Hd. split; try done. intros e He. rewrite Hs, Hd; done. Qed.

(** ** Hands *)
Lemma hands_lookup w t l :
  hands w !! t = Some l <-> exists held o, lw_held w !! t = Some held /\ calls (lw_state w) !! t = Some o /\
    l = held ++ leaving o.
Proof. unfold hands. rewrite lookup_zip_with_Some. naive_solver. Qed.

Lemma hands_update w t st' held' o' f :
  calls st' = <[t := o']> (calls (lw_state w)) -> held' = alter f t (lw_held w) ->
  hands (LWorld st' held') = alter (fun _ => f (held_by w t) ++ leaving o') t (hands w).
Proof.
  intros Hc ->. unfold hands, held_by. simpl. rewrite Hc. apply list_eq. intros i.
  rewrite lookup_zip_with. destruct (decide (i = t)) as [->|Hne].
  - rewrite !list_lookup_alter_eq, lookup_zip_with. destruct (lw_held w !! t) as [l|]; [|done]. simpl.
    destruct (calls (lw_state w) !! t) as [o|] eqn:Ho.
    + rewrite list_lookup_insert_eq by (by eapply lookup_lt_Some). done.
    + rewrite list_insert_ge, Ho by (by apply lookup_ge_None). done.
  - rewrite !list_lookup_alter_ne, list_lookup_insert_ne, lookup_zip_with by done. done.
Qed.

Lemma in_hands_member w t l e : hands w !! t = Some l -> occurs (value_ptr e) l.*2 <= in_hands w e.
Proof.
  intros Hl. apply (zsum_member (fun l => occurs (value_ptr e) l.*2)).
  - intros. apply occurs_nonneg.
  - by eapply list_elem_of_lookup_2.
Qed.

(** ** One partition and one thread changed *)
Section update.
Context (k : Z) (w : lworld) (owns : list ownership) (Hinv : lworld_inv k w owns).
Context (sx : nat) (own own' : ownership) (h' : heap) (t : nat) (l l' : list (request * Z)).
Context (mk : Z -> Prop) (Hown : owns !! sx = Some own) (Hl : hands w !! t = Some l).
Context (Heff : effect own own' (lw_heap w) h' (fun e => occurs (value_ptr e) l'.*2 - occurs (value_ptr e) l.*2) mk).

Lemma all_shares_update e :
  all_shares (<[sx := own']> owns) e = all_shares owns e + (shares_of own' e - shares_of own e).
Proof. unfold all_shares. rewrite (zsum_insert _ _ _ _ _ Hown). lia. Qed.

Lemma hands_shares w' e :
  hands w' = <[t := l']> (hands w) -> addr_ok e -> in_hands w' e = all_shares (<[sx := own']> owns) e.
Proof.
  intros Hh He. unfold in_hands. rewrite Hh, (zsum_insert _ _ _ _ _ Hl), all_shares_update.
  rewrite (ef_shares _ _ _ _ _ _ Heff e He), <- (lwi_shares _ _ _ Hinv e He). unfold in_hands. lia.
Qed.

(** What is in a hand before and after survives. *)
Lemma hand_survives w' e l1 l2 :
  hands w' = <[t := l']> (hands w) -> addr_ok e -> is_Some (own !! e) ->
  l1 ∈ hands w -> value_ptr e ∈ l1.*2 -> l2 ∈ hands w' -> value_ptr e ∈ l2.*2 ->
  survives own own' (lw_heap w) h' e.
Proof.
  intros Hh He Hin H1 Hv1 H2 Hv2. pose proof (lv_estates _ _ _ _ _ _ _ (lwi_table _ _ _ Hinv)) as Hes.
  pose proof (shares_at_home Hes sx own e Hown Hin) as Hsh.
  apply list_elem_of_lookup in H1 as [i1 H1]. apply list_elem_of_lookup in H2 as [i2 H2].
  pose proof (in_hands_member w i1 l1 e H1) as Hp1. pose proof (in_hands_member w' i2 l2 e H2) as Hp2.
  rewrite (hands_shares w' e Hh He), all_shares_update in Hp2. rewrite (lwi_shares _ _ _ Hinv e He) in Hp1.
  apply occurs_pos in Hv1, Hv2. apply (ef_survives _ _ _ _ _ _ Heff); lia.
Qed.

Lemma hands_answers w' :
  hands w' = <[t := l']> (hands w) -> (forall x, x ∈ l' -> x ∈ l \/ answered_in (<[sx := own']> owns) h' x) ->
  forall l2 x, l2 ∈ hands w' -> x ∈ l2 -> answered_in (<[sx := own']> owns) h' x.
Proof.
  intros Hh Hnew l2 x Hl2 Hx. pose proof (lv_estates _ _ _ _ _ _ _ (lwi_table _ _ _ Hinv)) as Hes.
  assert (forall l1, l1 ∈ hands w -> x ∈ l1 -> answered_in (<[sx := own']> owns) h' x) as Hold.
  { intros l1 Hl1 Hx1.
    apply (answered_moved Hes sx own own' h' Hown (ef_footprint _ _ _ _ _ _ Heff) x);
      [|by apply (lwi_answers _ _ _ Hinv l1)].
    intros e He Hv Hin. apply (hand_survives w' e l1 l2); try done; rewrite <- Hv; by apply list_elem_of_fmap_2. }
  pose proof Hl2 as Hl2'. rewrite Hh in Hl2'. apply list_elem_of_lookup in Hl2' as [i Hi].
  apply list_lookup_insert_Some in Hi as [(<- & <- & _)|[_ Hi]].
  - destruct (Hnew x Hx) as [Hxl|?]; [|done]. apply (Hold l); [by eapply list_elem_of_lookup_2 | done].
  - apply (Hold l2); [by eapply list_elem_of_lookup_2 | done].
Qed.

(** What a call that is not part of the action has found keeps its key. *)
Lemma hit_elsewhere c e key :
  0 <= lc_server c -> (exists own2, owns !! Z.to_nat (lc_server c) = Some own2 /\ visible own2 e) ->
  (Z.to_nat (lc_server c) = sx -> kept (lw_heap w) h' e) ->
  has_key (lw_heap w) e key -> has_key h' e key.
Proof.
  intros Hc (own2 & Ho2 & hs & Hhs & _) Hk (el & Hel & Hkey).
  pose proof (lv_estates _ _ _ _ _ _ _ (lwi_table _ _ _ Hinv)) as Hes.
  assert (kept (lw_heap w) h' e) as (el2 & rc & Hel2 & Hel').
  { destruct (decide (Z.to_nat (lc_server c) = sx)) as [Hs|Hne]; [by apply Hk|].
    destruct (books_survive Hes sx own own' h' Hown (ef_footprint _ _ _ _ _ _ Heff) _ own2 e Ho2 ltac:(by eexists))
      as (own3 & _ & s1 & s2 & el2 & rc & _ & _ & _ & H1 & H2); [done|]. by exists el2, rc. }
  rewrite Hel in Hel2. injection Hel2 as <-. exists (set_ref_count rc el). done.
Qed.

Lemma ready_moved good :
  of_contents good -> ready_good good owns (lw_heap w) ->
  (forall e el, mk e -> lw_heap w !! e = Some el -> good el) -> ready_good good (<[sx := own']> owns) h'.
Proof.
  intros Hg Hr Hmk s own2 e hs el Ho He Hw Hel.
  pose proof (lv_estates _ _ _ _ _ _ _ (lwi_table _ _ _ Hinv)) as Hes.
  assert (exists el0, lw_heap w !! e = Some el0 /\ good el0 /\ kept (lw_heap w) h' e) as (el0 & Hel0 & Hg0 & el1 & rc & H1 & H2).
  { apply list_lookup_insert_Some in Ho as [(<- & <- & _)|[Hne Ho]].
    - destruct (ef_ready _ _ _ _ _ _ Heff e hs He Hw) as (hs0 & He0 & Hor & Hk).
      pose proof Hk as (el0 & rc & Hel0 & _). exists el0. split; [done|]. split; [|done].
      destruct Hor as [Hw0|Hm]; [by apply (Hr sx own e hs0) | by apply (Hmk e)].
    - destruct (books_survive Hes sx own own' h' Hown (ef_footprint _ _ _ _ _ _ Heff) s own2 e Ho ltac:(by eexists))
        as (own3 & _ & s1 & s2 & el0 & rc & _ & _ & _ & H1 & H2); [by intros ->|].
      exists el0. split; [done|]. split; [by apply (Hr s own2 e hs) | by exists el0, rc]. }
  rewrite Hel0 in H1. injection H1 as <-. rewrite Hel in H2. injection H2 as ->. by apply Hg.
Qed.
End update.

(** What [lwi_hits] asks of one call. *)
Definition hit_right (h : heap) (c : lcall) : Prop :=
  forall x e, lc_phase c = Hitting x e -> exists key, lc_op c = LLookup key /\ has_key h e key.

(** Thread [t] acted on the partition [sx]: its call is now [o'], and [f] is what became
    of the values it held. *)
Section stepped.
Context (k : Z) (w : lworld) (owns : list ownership) (sx : nat) (own own' : ownership) (t : nat).
Context (st' : lstate) (held : list (request * Z)) (o o' : option lcall).
Context (f : list (request * Z) -> list (request * Z)).
Context (Hinv : lworld_inv k w owns) (Hown : owns !! sx = Some own).
Context (Hheld : lw_held w !! t = Some held) (Ho : calls (lw_state w) !! t = Some o).
Context (Hli : linv h0 n ms ev (k + 1) st' (<[sx := own']> owns)).
Context (Hcalls : calls st' = <[t := o']> (calls (lw_state w))).
Context (mk : Z -> Prop) (Heff : effect own own' (lw_heap w) (hp (lmem st'))
  (fun e => occurs (value_ptr e) (f held ++ leaving o').*2 - occurs (value_ptr e) (held ++ leaving o).*2) mk).
Context (Hnew : forall x, x ∈ f held ++ leaving o' ->
  x ∈ held ++ leaving o \/ answered_in (<[sx := own']> owns) (hp (lmem st')) x).

Definition stepped : lworld := LWorld st' (change_held t f (lw_held w)).

Lemma hand_before : hands w !! t = Some (held ++ leaving o).
Proof. apply hands_lookup. eauto 10. Qed.

Lemma stepped_hands : hands stepped = <[t := f held ++ leaving o']> (hands w).
Proof.
  unfold stepped, change_held. rewrite (hands_update w t st' _ o' f Hcalls eq_refl). unfold held_by.
  rewrite Hheld. simpl. by rewrite list_insert_alter.
Qed.

Lemma stepped_inv :
  (forall x, x ∈ f held -> x.2 <> 0) ->
  (forall t' c x e, t' <> t -> calls (lw_state w) !! t' = Some (Some c) -> Z.to_nat (lc_server c) = sx ->
     lc_phase c = Hitting x e -> kept (lw_heap w) (hp (lmem st')) e) ->
  (forall c, o' = Some c -> fits_call c /\ hit_right (hp (lmem st')) c) ->
  lworld_inv (k + 1) stepped (<[sx := own']> owns).
Proof.
  intros Hnull Hkept Hcall. pose proof hand_before as Hl. pose proof stepped_hands as Hh. split; simpl.
  - done.
  - unfold change_held. rewrite length_alter, Hcalls, length_insert. apply Hinv.
  - intros l x Hl2 Hx. apply list_elem_of_lookup in Hl2 as [i Hi]. unfold change_held in Hi.
    destruct (decide (i = t)) as [->|Hne].
    + rewrite list_lookup_alter_eq, Hheld in Hi. injection Hi as <-. by apply Hnull.
    + rewrite list_lookup_alter_ne in Hi by done. apply (lwi_held _ _ _ Hinv l); [by eapply list_elem_of_lookup_2 | done].
  - intros t' c Hc. rewrite Hcalls in Hc.
    apply list_lookup_insert_Some in Hc as [(_ & Hc & _)|[_ Hc]]; [by apply (Hcall c) | by apply (lwi_fits _ _ _ Hinv t')].
  - intros t' c x e Hc Hph. rewrite Hcalls in Hc.
    apply list_lookup_insert_Some in Hc as [(_ & Hc & _)|[Hne Hc]]; [by apply (proj2 (Hcall c Hc) x)|].
    destruct (lwi_hits _ _ _ Hinv t' c x e Hc Hph) as (key & Hop & Hk). exists key. split; [done|].
    destruct (lv_calls _ _ _ _ _ _ _ (lwi_table _ _ _ Hinv) t' c Hc) as (Hs & _ & Hv). rewrite Hph in Hv.
    apply (hit_elsewhere k w owns Hinv sx own own' _ _ _ mk Hown Heff c e key); [lia | done | | done].
    intros Hsx. by apply (Hkept t' c x e).
  - intros e He. by apply (hands_shares k w owns Hinv sx own own' _ t _ _ mk Hown Hl Heff).
  - by apply (hands_answers k w owns Hinv sx own own' _ t _ _ mk Hown Hl Heff).
Qed.

(** What is held by somebody before and after is as it was, but for its count. *)
Lemma stepped_kept e l1 l2 :
  addr_ok e -> l1 ∈ hands w -> value_ptr e ∈ l1.*2 -> l2 ∈ hands stepped -> value_ptr e ∈ l2.*2 ->
  kept (lw_heap w) (hp (lmem st')) e.
Proof.
  intros He H1 Hv1 H2 Hv2. pose proof (lv_estates _ _ _ _ _ _ _ (lwi_table _ _ _ Hinv)) as Hes.
  pose proof H1 as Hin. apply list_elem_of_lookup in Hin as [i1 Hi1].
  pose proof (in_hands_member w i1 l1 e Hi1) as Hp. rewrite (lwi_shares _ _ _ Hinv e He) in Hp.
  pose proof Hv1 as Hoc. apply occurs_pos in Hoc. destruct (shares_home owns e) as (s & own2 & Ho2 & Hin2); [lia|].
  destruct (books_survive Hes sx own own' _ Hown (ef_footprint _ _ _ _ _ _ Heff) s own2 e Ho2 Hin2)
    as (own3 & _ & s1 & s2 & el & rc & _ & _ & _ & Hel & Hel'); [|by exists el, rc].
  intros ->. rewrite Hown in Ho2. injection Ho2 as <-.
  by apply (hand_survives k w owns Hinv sx own own' _ t _ _ mk Hown hand_before Heff stepped e l1 l2 stepped_hands).
Qed.
End stepped.

(** ** An action of a call *)
Section action.
Context `{M : Machine} (spins : nat) (k : Z) (w : lworld) (owns : list ownership).
Context (Hk : 0 <= k < 2 ^ 62) (Hms : ms < 2 ^ 63) (Hinv : lworld_inv k w owns).
Context (t : nat) (c : lcall) (p : partition) (own : ownership).
Context (Ht : calls (lw_state w) !! t = Some (Some c)).
Context (Hp : parts (lw_state w) !! Z.to_nat (lc_server c) = Some p).
Context (Hown : owns !! Z.to_nat (lc_server c) = Some own).
Context (m' : mem) (p' : partition) (r : phase + Z) (own' : ownership).
Context (Hact : locking_act spins (lc_op c) (lc_phase c) (lmem (lw_state w)) p = Ok (m', p', r)).
Context (Hacted : own_act (lc_op c) (lc_phase c) p' r own = Some own').

(** What the thread has after the action: the answer, on its way or returned. *)
Definition hand_after : list (request * Z) := taken (lc_op c) (returned r) ++ leaving (call_after c r).

(** What the action does, for everybody else. *)
Definition act_done : Prop :=
  effect own own' (lw_heap w) (hp m')
    (fun e => occurs (value_ptr e) hand_after.*2 - occurs (value_ptr e) (leaving (Some c)).*2) (fun _ => False) /\
  (forall x, x ∈ hand_after -> x ∈ leaving (Some c) \/ answered_in (<[Z.to_nat (lc_server c) := own']> owns) (hp m') x) /\
  (hp m' = lw_heap w \/ exists x, lock_pc (lc_phase c) = Critical x) /\
  forall c', call_after c r = Some c' -> fits_call c' /\ hit_right (hp m') c'.

Lemma own_here : lk_owned k own (lmem (lw_state w)) p.
Proof. apply (call_here h0 n ms ev k _ owns (lwi_table _ _ _ Hinv) t c p own Ht Hp Hown). Qed.

(** The memory stays: an action on the lock, a search, the return. *)
Lemma quiet_done :
  own' = own -> hp m' = lw_heap w ->
  (forall e, addr_ok e -> occurs (value_ptr e) hand_after.*2 = occurs (value_ptr e) (leaving (Some c)).*2) ->
  (forall x, x ∈ hand_after -> x ∈ leaving (Some c) \/ x.2 = 0) ->
  (forall c', call_after c r = Some c' -> fits_call c' /\ hit_right (hp m') c') -> act_done.
Proof.
  intros Ho Hh Hocc Hans Hhit. split; [|split; [|split; [by left | done]]].
  - eapply effect_ext; [rewrite Ho; by apply (effect_same k own (lmem (lw_state w)) p _ own_here)|].
    intros e He. rewrite Hocc by done. lia.
  - intros x Hx. destruct (Hans x Hx); [by left | right; by left].
Qed.

Lemma null_occurs (op : request) e : addr_ok e -> occurs (value_ptr e) [(op, 0)].*2 = 0.
Proof. apply occurs_null. Qed.

Lemma lock_done :
  (exists q, lc_phase c = Entering q) \/ (exists x v, lc_phase c = Leaving x v) -> act_done.
Proof.
  pose proof Hact as Ha1. pose proof Hacted as Ha2.
  intros [[q Hph]|(x & v & Hph)]; rewrite Hph in Ha1, Ha2; unfold locking_act in Ha1;
    apply bind_Ok in Ha1 as ([l q'] & Hs & Hr); injection Hr as Hm _ Hr; injection Ha2 as Ho;
    apply quiet_done; rewrite <- ?Ho, <- ?Hm; try done; unfold hand_after; rewrite <- Hr; simpl; rewrite ?Hph.
  - intros e _. by destruct q'.
  - intros y Hy. left. by destruct q'.
  - intros c' [= <-]. split; [|intros y e Hy; simpl in Hy; by destruct q'].
    pose proof (lwi_fits _ _ _ Hinv t c Ht) as Hf. unfold fits_call in *. simpl. destruct (lc_op c); [done|].
    split; [apply Hf|]. intros y v Hy. by destruct q'.
  - intros e He. destruct (Z.eqb_spec v 0) as [->|]; [|done]. by rewrite null_occurs.
  - intros y Hy. destruct (v =? 0); [by apply elem_of_nil in Hy | by left].
  - done.
Qed.

Lemma find_done x key : lc_phase c = Inside x -> lc_op c = LLookup key -> act_done.
Proof.
  pose proof Hact as Ha1. pose proof Hacted as Ha2.
  intros Hph Hop. rewrite Hph, Hop in Ha1, Ha2. unfold locking_act in Ha1.
  destruct (find_value_ok k own (lmem (lw_state w)) p key (proj2 Hk) own_here) as (o & p1 & Hf & _ & Ho & _).
  rewrite Hf in Ha1. cbn [mbind result_bind mret result_ret] in Ha1. injection Ha1 as Hm _ Hr.
  apply quiet_done; rewrite <- ?Hm; unfold hand_after; rewrite <- ?Hr; simpl; rewrite ?Hph.
  - rewrite <- Hr in Ha2. destruct o; simpl in Ha2; congruence.
  - done.
  - intros e He. destruct o; [done|]. by apply (null_occurs (request_of (lc_op c))).
  - intros y Hy. destruct o; simpl in Hy; [by apply elem_of_nil in Hy|].
    apply list_elem_of_singleton in Hy as ->. by right.
  - intros c' [= <-]. split; [unfold fits_call; simpl; by rewrite Hop|].
    intros y e Hy. destruct o as [e1|]; [|done]. injection Hy as _ <-. exists key. split; [done | apply Ho].
Qed.

Lemma inserted_done x key sz : lc_phase c = Inside x -> lc_op c = LInsert key sz -> act_done.
Proof.
  unfold act_done, hand_after. pose proof Hact as Ha1. pose proof Hacted as Ha2.
  intros Hph Hop. pose proof (lwi_fits _ _ _ Hinv t c Ht) as Hfit. unfold fits_call in Hfit.
  destruct (call_here h0 n ms ev k _ owns (lwi_table _ _ _ Hinv) t c p own Ht Hp Hown) as (_ & Hok & _ & Hmx & _).
  rewrite Hop in Hok, Hfit. simpl in Hok. rewrite Hph, Hop in Ha1, Ha2. unfold locking_act in Ha1.
  apply bind_Ok in Ha1 as ([[v m1] p1] & Hi & Hr). injection Hr as <- <- <-.
  change (Z.lor DATA_READY_MASK 1) with (first_count (release := atomic_release_value_)) in Hi.
  assert (max_size p < 2 ^ 63) as Hmax by (by rewrite Hmx).
  pose proof (insert_value_ok spins k own (lmem (lw_state w)) p key sz Hk own_here Hok Hmax) as Hio.
  rewrite Hi in Hio. destruct Hio as (own2 & Ho2 & _ & Hfp & _).
  assert (own2 = own') as -> by (simpl in Ho2, Ha2; congruence).
  destruct (insert_value_inserted spins k own (lmem (lw_state w)) p key sz v m1 p1 own_here Hok Hmax Hi)
    as (e1 & m2 & el & Hins & -> & Hel & ->). pose proof (in_addr _ _ _ _ _ _ _ _ Hins) as Haddr.
  destruct (in_elem _ _ _ _ _ _ _ _ Hins) as (el2 & Hel2 & Hkey & Hsize). rewrite Hel in Hel2. injection Hel2 as <-.
  simpl in Ha2. rewrite elem_of_value_ptr in Ha2 by done. injection Ha2 as <-.
  split; [split|split; [|split]]; simpl; rewrite ?Hph, ?Hop.
  - done.
  - intros e He. rewrite (insert_shares k own (lmem (lw_state w)) p key sz e1 m2 p1 Hk own_here Hins).
    simpl. rewrite (occurs_value e e1 He Haddr). autorewrite with smp. lia.
  - intros e He _. by apply (insert_survives k own (lmem (lw_state w)) p key sz e1 m2 p1 Hk own_here Hins).
  - intros e hs' He Hw. destruct (decide (e = e1)) as [->|Hne].
    { rewrite own_insert_lookup, decide_True in He by done. by injection He as <-. }
    destruct (insert_kept k own (lmem (lw_state w)) p key sz e1 m2 p1 Hk own_here Hins el first_count e hs' Hne He)
      as (hs & Hhs & Hws & Hkp). exists hs. split; [done|]. split; [left; congruence | exact Hkp].
  - intros y Hy. apply list_elem_of_singleton in Hy as ->. right. right.
    exists (Z.to_nat (lc_server c)), (own_insert e1 p1 own).
    split; [by apply list_lookup_insert_eq; eapply lookup_lt_Some|]. right. exists e1, inserted, (set_ref_count first_count el).
    rewrite own_insert_lookup, decide_True, lookup_insert_eq by done. done.
  - right. by exists x.
  - intros c' [= <-]. split; [|by intros y e Hy]. split; [apply Hfit|]. simpl. intros y v [= _ <-].
    by apply value_ptr_nonzero.
Qed.

Lemma hit_done x e1 : lc_phase c = Hitting x e1 -> act_done.
Proof.
  unfold act_done, hand_after. pose proof Hact as Ha1. pose proof Hacted as Ha2.
  intros Hph. destruct (lwi_hits _ _ _ Hinv t c x e1 Ht Hph) as (key & Hop & Hkey).
  destruct (lv_calls _ _ _ _ _ _ _ (lwi_table _ _ _ Hinv) t c Ht) as (_ & _ & Hv). rewrite Hph in Hv.
  destruct Hv as (own0 & Ho0 & Hv). rewrite Hown in Ho0. injection Ho0 as <-.
  rewrite Hph in Ha1, Ha2. unfold locking_act in Ha1. apply bind_Ok in Ha1 as ([[v m1] p1] & Hh & Hr).
  injection Hr as <- <- <-.
  destruct (hit_value_ok k own (lmem (lw_state w)) p e1 (proj2 Hk) own_here Hv) as (m2 & own2 & Hh2 & Ho2 & Hi2 & Hfp).
  rewrite Hh in Hh2. injection Hh2 as -> -> ->. simpl in Ha2. rewrite Ho2 in Ha2. injection Ha2 as ->.
  pose proof Hv as (hs & He1 & Htab & Hw). destruct (si_held _ _ _ _ own_here e1 hs He1) as ((Hrd & _) & Haddr & _).
  assert (own' !! e1 = Some (Holds true false (readers hs + 1))) as He1'.
  { unfold own_event in Ho2. rewrite He1 in Ho2. simpl in Ho2. rewrite Htab, Hw in Ho2. injection Ho2 as <-.
    by rewrite lookup_partial_alter_eq. }
  split; [split|split; [|split]]; simpl; rewrite ?Hph, ?Hop.
  - done.
  - intros e He. rewrite (event_shares k own (lmem (lw_state w)) p (proj2 Hk) own_here Found e1 own' Ho2).
    simpl. rewrite (occurs_value e e1 He Haddr). autorewrite with smp. lia.
  - intros e He He'. by apply (hit_survives k own (lmem (lw_state w)) p e1 own' (value_ptr e1) m2 (count_hit p)
      e (proj2 Hk) own_here Hv Hh Ho2).
  - intros e hs' He Hw'. assert (is_Some (own !! e)) as [hs0 Hhs0].
    { unfold own_event in Ho2. rewrite He1 in Ho2. cbn [mbind option_bind] in Ho2.
      destruct (after Found hs) as [hs2|]; [|done]. injection Ho2 as Hp2. rewrite <- Hp2 in He.
      destruct (decide (e = e1)) as [->|Hne]; [by eexists|]. rewrite lookup_partial_alter_ne in He by done. by eexists. }
    exists hs0. split; [done|]. split.
    + left. rewrite <- Hw'. symmetry. by apply (event_writing Found e1 own own' e).
    + apply (event_kept k own (lmem (lw_state w)) p (proj2 Hk) own_here Found e1 own' Ho2); [|by eexists..].
      exact (hit_event k own (lmem (lw_state w)) p e1 (value_ptr e1) m2 (count_hit p) (proj2 Hk) own_here Hv Hh).
  - intros y Hy. apply list_elem_of_singleton in Hy as ->. right. right.
    exists (Z.to_nat (lc_server c)), own'.
    split; [by apply list_lookup_insert_eq; eapply lookup_lt_Some|]. right.
    destruct Hkey as (el & Hel & Hkey).
    exists e1, (Holds true false (readers hs + 1)), (set_ref_count (u64 (ref_count el + 1)) el).
    split; [done|]. split; [done|]. split; [done|]. split; [|done].
    unfold hit_value, take_reference in Hh. unfold lw_heap in Hel. rewrite Hel in Hh. injection Hh as <-.
    apply lookup_insert_eq.
  - right. by exists x.
  - intros c' [= <-]. split; [|by intros y e Hy]. unfold fits_call. simpl. done.
Qed.

Lemma any_done : act_done.
Proof.
  pose proof lock_done as Hl. pose proof find_done as Hf. pose proof inserted_done as Hi. pose proof hit_done as Hh.
  destruct (lc_phase c) as [q|x|x e|x v].
  - apply Hl. eauto.
  - destruct (lc_op c) as [key|key sz]; [by apply (Hf x key) | by apply (Hi x key sz)].
  - by apply (Hh x e).
  - apply Hl. eauto.
Qed.
End action.

(** ** The steps of the program *)

(** What is in a hand before and after has changed in its count at most. *)
Definition steady (w w' : lworld) : Prop :=
  forall e l1 l2, addr_ok e -> l1 ∈ hands w -> value_ptr e ∈ l1.*2 -> l2 ∈ hands w' -> value_ptr e ∈ l2.*2 ->
    kept (lw_heap w) (lw_heap w') e.

(** Ready values stay good; those that were marked, in [mk], must have been. *)
Definition carries (mk : Z -> Prop) (w w' : lworld) (owns owns' : list ownership) : Prop :=
  forall good, of_contents good -> ready_good good owns (lw_heap w) ->
    (forall e el, mk e -> lw_heap w !! e = Some el -> good el) -> ready_good good owns' (lw_heap w').

Section steps.
Context (k : Z) (w : lworld) (owns : list ownership) (Hinv : lworld_inv k w owns).

Lemma held_thread t o : calls (lw_state w) !! t = Some o -> exists held, lw_held w !! t = Some held.
Proof.
  intros Ho. apply lookup_lt_is_Some_2. rewrite (lwi_len _ _ _ Hinv). by eapply lookup_lt_Some.
Qed.

Lemma hand_allocated l v : l ∈ hands w -> v ∈ l.*2 -> v <> 0 -> exists s own e hs,
  owns !! s = Some own /\ addr_ok e /\ v = value_ptr e /\ own !! e = Some hs /\ is_Some (lw_heap w !! e).
Proof.
  intros Hl Hv Hz. apply list_elem_of_fmap in Hv as (x & -> & Hx).
  destruct (lwi_answers _ _ _ Hinv l x Hl Hx) as [?|(s & own & Ho & [?|(e & hs & el & Haddr & Hv & He & Hel & _)])]; [done..|].
  exists s, own, e, hs. do 4 (split; [done|]). by eexists.
Qed.

Lemma steady_same w' : lw_heap w' = lw_heap w -> steady w w'.
Proof.
  intros Hh e l1 l2 He H1 Hv1 _ _.
  destruct (hand_allocated l1 _ H1 Hv1 (value_ptr_nonzero e He)) as (s & own & e2 & hs & _ & He2 & Hv & _ & el & Hel).
  apply value_ptr_inj in Hv as <-; [|done..]. exists el, (ref_count el). rewrite Hh. split; [done|].
  rewrite Hel. by destruct el.
Qed.

(** The beginning of a call. *)
Lemma begin_step t op :
  0 < n < 2 ^ 31 -> calls (lw_state w) !! t = Some None -> lallowed ms w (LBegin t op) ->
  lworld_inv k (LWorld (set_call t (Some (locking_call n op)) (lw_state w)) (lw_held w)) owns.
Proof.
  intros Hn Ht [Hop Hfit]. destruct (held_thread t _ Ht) as [held Hheld].
  assert (hands (LWorld (set_call t (Some (locking_call n op)) (lw_state w)) (lw_held w)) = hands w) as Hh.
  { rewrite <- (list_alter_id (fun l => l) (lw_held w) t (fun x => eq_refl)).
    rewrite (hands_update w t (set_call t (Some (locking_call n op)) (lw_state w)) _ (Some (locking_call n op)) (fun l => l) eq_refl eq_refl).
    apply list_eq. intros i. unfold held_by. rewrite Hheld. simpl. destruct (decide (i = t)) as [->|Hne].
    - assert (hands w !! t = Some (held ++ leaving None)) as Hl by (apply hands_lookup; eauto 10).
      rewrite list_lookup_alter_eq, Hl. by destruct op.
    - by rewrite list_lookup_alter_ne. }
  split; simpl.
  - by apply (linv_begin h0 n ms ev k (lw_state w) owns t op Hn (lwi_table _ _ _ Hinv) Ht Hop).
  - rewrite length_insert. apply Hinv.
  - apply Hinv.
  - intros t' c Hc. apply list_lookup_insert_Some in Hc as [(_ & Hc & _)|[_ Hc]]; [|by apply (lwi_fits _ _ _ Hinv t')].
    injection Hc as <-. by destruct op.
  - intros t' c x e Hc Hph. apply list_lookup_insert_Some in Hc as [(_ & Hc & _)|[_ Hc]].
    + injection Hc as <-. by destruct op.
    + by apply (lwi_hits _ _ _ Hinv t' c x).
  - intros e He. unfold in_hands. rewrite Hh. by apply (lwi_shares _ _ _ Hinv).
  - rewrite Hh. apply Hinv.
Qed.

Lemma taken_nonzero op o x : x ∈ taken op o -> x.2 <> 0.
Proof.
  destruct o as [v|]; simpl; [|by intros ?%elem_of_nil]. destruct (Z.eqb_spec v 0) as [|Hv]; [by intros ?%elem_of_nil|].
  by intros ->%list_elem_of_singleton.
Qed.

(** An action of a call. *)
Lemma act_step `{M : Machine} spins t c :
  0 <= k < 2 ^ 62 -> ms < 2 ^ 63 -> calls (lw_state w) !! t = Some (Some c) ->
  match locking_step spins t (lw_state w) with
  | Ok (st', o) => exists owns', let w' := LWorld st' (change_held t (fun l => l ++ taken (lc_op c) o) (lw_held w)) in
      lworld_inv (k + 1) w' owns' /\ steady w w' /\ carries (fun _ => False) w w' owns owns'
  | Fault f => may_fail ms ev (base.size (lw_heap w)) (lc_op c) f
  end.
Proof.
  intros Hk Hms Ht. pose proof (lwi_table _ _ _ Hinv) as Htab. pose proof (lv_estates _ _ _ _ _ _ _ Htab) as Hes.
  destruct (lv_calls _ _ _ _ _ _ _ Htab t c Ht) as (Hs & _).
  pose proof (lv_n _ _ _ _ _ _ _ Htab) as Hlen. destruct (held_thread t _ Ht) as [held Hheld].
  destruct (lookup_lt_is_Some_2 (parts (lw_state w)) (Z.to_nat (lc_server c))) as [p Hp]; [lia|].
  destruct (es_books Hes _ p Hp) as [own Hown].
  pose proof (action_ok h0 n ms ev spins k _ owns Hk Hms Htab t c p own Ht Hp Hown) as Hok.
  unfold locking_step. rewrite Ht. cbn [deref mbind result_bind].
  rewrite (proj2 (aget_Ok _ _ p)) by (split; [lia | done]). cbn [mbind result_bind].
  destruct (locking_act spins (lc_op c) (lc_phase c) (lmem (lw_state w)) p) as [[[m' p'] r]|f] eqn:Hact; [|exact Hok].
  cbn [mbind result_bind]. rewrite aset_in by (apply lookup_lt_Some in Hp; lia). cbn [mbind result_bind mret result_ret].
  destruct Hok as (own' & Ho & Hli). exists (<[Z.to_nat (lc_server c) := own']> owns).
  destruct (any_done spins k w owns Hk Hms Hinv t c p own Ht Hp Hown m' p' r own' Hact Ho) as (Heff & Hans & Hmem & Hcall).
  assert (forall x, x ∈ (held ++ taken (lc_op c) (returned r)) ++ leaving (call_after c r) ->
    x ∈ held ++ leaving (Some c) \/ answered_in (<[Z.to_nat (lc_server c) := own']> owns) (hp m') x) as Hnew.
  { intros x. rewrite <- (assoc_L (++)). intros [Hx|Hx]%elem_of_app; [left; apply elem_of_app; by left|].
    destruct (Hans x Hx); [left; apply elem_of_app; by right | by right]. }
  apply (effect_ext _ _ _ _ _ (fun e => occurs (value_ptr e) ((held ++ taken (lc_op c) (returned r)) ++ leaving (call_after c r)).*2 -
    occurs (value_ptr e) (held ++ leaving (Some c)).*2)) in Heff.
  2: { intros e _. unfold hand_after. rewrite !fmap_app. autorewrite with smp. lia. }
  set (st' := LState _ m' _). split; [|split].
  - apply (stepped_inv k w owns (Z.to_nat (lc_server c)) own own' t st' held (Some c) (call_after c r) _
      Hinv Hown Hheld Ht Hli eq_refl (fun _ => False) Heff Hnew); [|clear Hcall|done].
    + intros x [Hx|Hx]%elem_of_app; [|by eapply taken_nonzero].
      apply (lwi_held _ _ _ Hinv held); [by eapply list_elem_of_lookup_2 | done].
    + intros t' c' x e Hne Hc' Hsame Hph. destruct Hmem as [Hm|[y Hcr]]; [|exfalso; apply Hne].
      * simpl. rewrite Hm. destruct (lv_calls _ _ _ _ _ _ _ Htab t' c' Hc') as (_ & _ & Hv). rewrite Hph in Hv.
        destruct Hv as (own2 & Ho2 & hs & Hhs & _). destruct (es_elem Hes _ own2 e hs Ho2 Hhs) as (_ & _ & el & Hel & _).
        exists el, (ref_count el). split; [done|]. unfold lw_heap. rewrite Hel. by destruct el.
      * destruct (lv_lock _ _ _ _ _ _ _ Htab _ p Hp) as (R & q & free & Hl).
        destruct (lv_calls _ _ _ _ _ _ _ Htab t' c' Hc') as (Hs' & _).
        apply (one_inside _ _ p _ R q free t' t x y Hl).
        -- rewrite (view_lookup _ p _ t' _ Hc'), <- Hsame, pc_at_self, Hph by lia. done.
        -- rewrite (view_lookup _ p _ t _ Ht), pc_at_self, Hcr by lia. done.
  - intros e l1 l2. apply (stepped_kept k w owns (Z.to_nat (lc_server c)) own own' t st' held (Some c) (call_after c r) _
      Hinv Hown Hheld Ht eq_refl (fun _ => False) Heff).
  - intros good. apply (ready_moved k w owns Hinv _ own own' _ _ _ _ Hown Heff).
Qed.

(** ** Values are given up *)
Lemma drop_one_perm f l : existsb f l = true -> exists x, f x = true /\ l ≡ₚ x :: drop_one f l.
Proof.
  induction l as [|y l IH]; simpl; [done|]. destruct (f y) eqn:Hy; [by exists y|].
  intros H. destruct (IH H) as (x & Hx & Hp). exists x. split; [done|]. rewrite Hp at 1. apply Permutation_swap.
Qed.

(** The event of giving [ptr] up, and which of the values of a thread it is about. *)
Definition gives (evt : event) (f : request * Z -> bool) (ptr : Z) : Prop :=
  (evt = MarkedReady /\ f = wrote ptr) \/ (evt = Dropped /\ f = found ptr).

(** What is given up can be: the books agree with the hands. *)
Lemma gives_event t held evt f ptr :
  gives evt f ptr -> calls (lw_state w) !! t = Some None -> lw_held w !! t = Some held -> existsb f held = true ->
  exists s own own' e, owns !! s = Some own /\ addr_ok e /\ ptr = value_ptr e /\ own_event evt e own = Some own'.
Proof.
  intros Hg Ht Hheld Hf. destruct (drop_one_perm f held Hf) as (x & Hfx & Hperm).
  assert (x ∈ held) as Hx by (rewrite Hperm; left).
  assert (hands w !! t = Some held) as Hl by (apply hands_lookup; exists held, None; by rewrite app_nil_r).
  pose proof (lwi_held _ _ _ Hinv held x ltac:(by eapply list_elem_of_lookup_2) Hx) as Hnz.
  pose proof (lv_estates _ _ _ _ _ _ _ (lwi_table _ _ _ Hinv)) as Hes.
  assert (x.2 = ptr) as Hptr.
  { destruct Hg as [[_ ->]|[_ ->]]; unfold wrote, found in Hfx; destruct x.1; try done; by apply Z.eqb_eq. }
  destruct (lwi_answers _ _ _ Hinv held x ltac:(by eapply list_elem_of_lookup_2) Hx)
    as [?|(s & own & Ho & [?|(e & hs & el & Haddr & Hv & He & _ & Hr)])]; [done..|].
  assert (is_Some (after evt hs)) as [hs' Hhs'].
  { pose proof (in_hands_member w t held e Hl) as Hle. rewrite (lwi_shares _ _ _ Hinv e Haddr) in Hle.
    rewrite (shares_at_home Hes s own e Ho ltac:(by eexists)) in Hle. unfold shares_of in Hle. rewrite He in Hle.
    assert (0 < occurs (value_ptr e) held.*2) as Hpos
      by (apply occurs_pos; rewrite <- Hv; by apply list_elem_of_fmap_2).
    destruct Hg as [[-> ->]|[-> ->]]; unfold wrote, found in Hfx; destruct x.1; try done; simpl.
    - destruct Hr as (_ & _ & ->). by eexists.
    - destruct Hr as [_ Hw]. unfold shares in Hle. rewrite Hw in Hle. unfold b2z in Hle.
      rewrite (proj2 (Z.ltb_lt _ _)) by lia. by eexists. }
  exists s, own, (partial_alter (fun _ => hold hs') e own), e. do 2 (split; [done|]). split; [congruence|].
  unfold own_event. rewrite He. cbn [mbind option_bind]. by rewrite Hhs'.
Qed.

Lemma give_step t evt f ptr :
  0 <= k < 2 ^ 62 -> gives evt f ptr -> calls (lw_state w) !! t = Some None -> existsb f (held_by w t) = true ->
  exists h' owns', atomic_event evt (lw_heap w) (elem_of_ptr ptr) = Ok h' /\ value_ptr (elem_of_ptr ptr) = ptr /\
    let w' := LWorld (set_lheap h' (lw_state w)) (change_held t (drop_one f) (lw_held w)) in
    lworld_inv (k + 1) w' owns' /\ steady w w' /\
    carries (fun e => evt = MarkedReady /\ e = elem_of_ptr ptr) w w' owns owns'.
Proof.
  intros Hk Hg Ht Hf. destruct (held_thread t _ Ht) as [held Hheld]. unfold held_by in Hf. rewrite Hheld in Hf. simpl in Hf.
  destruct (gives_event t held evt f ptr Hg Ht Hheld Hf) as (s & own & own' & e & Hown & Haddr & -> & Ho).
  pose proof (lwi_table _ _ _ Hinv) as Htab. pose proof (lv_estates _ _ _ _ _ _ _ Htab) as Hes.
  rewrite elem_of_value_ptr by done.
  assert (evt = MarkedReady \/ evt = Dropped) as Hevt by (destruct Hg as [[-> _]|[-> _]]; auto).
  assert (evt <> Unlinked /\ evt <> Found) as [Hnu Hnf] by (destruct Hevt; by subst).
  destruct (es_partition Hes s own Hown) as [p Hp].
  destruct (es_part Hes s p own Hp Hown) as (Hpo & _).
  destruct (inv_event k own (lmem (lw_state w)) p (proj2 Hk) Hpo evt e own' (tick (lmem (lw_state w))) Hnu Ho)
    as (h' & Hh' & _ & Hfp).
  change (event_op evt (hp (lmem (lw_state w))) e) with (atomic_event evt (lw_heap w) e) in Hh'.
  exists h', (<[s := own']> owns). split; [done|]. split; [done|].
  destruct (drop_one_perm f held Hf) as (x & Hfx & Hperm).
  assert (x.2 = value_ptr e) as Hx.
  { destruct Hg as [[_ ->]|[_ ->]]; unfold wrote, found in Hfx; destruct x.1; try done; by apply Z.eqb_eq. }
  assert (effect own own' (lw_heap w) h' (fun a => occurs (value_ptr a) (drop_one f held ++ leaving None).*2 -
    occurs (value_ptr a) (held ++ leaving None).*2) (fun a => evt = MarkedReady /\ a = e)) as Heff.
  { split; [done| | |].
    - intros a Ha. rewrite (event_shares k own _ p (proj2 Hk) Hpo evt e own' Ho a). simpl. rewrite !app_nil_r.
      assert (occurs (value_ptr a) held.*2 =
        occurs (value_ptr a) [value_ptr e] + occurs (value_ptr a) (drop_one f held).*2) as ->.
      { unfold occurs. rewrite (zsum_perm _ _ _ (fmap_Permutation snd _ _ Hperm)), fmap_cons, Hx. autorewrite with smp. lia. }
      rewrite (occurs_value a e Ha Haddr). case_match; [|lia]. destruct Hevt; subst; lia.
    - intros a H1 H2. by apply (event_survives k own _ p (proj2 Hk) Hpo evt e own' Ho).
    - intros a hs' Ha Hw.
      destruct (event_holds atomic_release_value_ k own _ p (proj2 Hk) Hpo evt e own' Ho) as (s0 & s1 & He & _ & _ & Hs1 & _ & Hown').
      assert (is_Some (own !! a)) as [hs Hhs].
      { rewrite Hown' in Ha. destruct (decide (a = e)) as [->|Hne]; [by eexists|].
        rewrite lookup_partial_alter_ne in Ha by done. by eexists. }
      exists hs. split; [done|]. split; [|by apply (event_kept k own _ p (proj2 Hk) Hpo evt e own' Ho h' a Hh'); eexists].
      destruct (decide (a = e)) as [->|Hne].
      + destruct Hevt as [-> | ->]; [by right|]. left. rewrite <- Hw. symmetry.
        by apply (event_writing Dropped e own own' e).
      + left. rewrite Hown', lookup_partial_alter_ne in Ha by done. congruence. }
  assert (forall y, y ∈ drop_one f held ++ leaving None -> y ∈ held ++ leaving None) as Hsub.
  { intros y. rewrite !app_nil_r. intros Hy. rewrite Hperm. by right. }
  assert (calls (set_lheap h' (lw_state w)) = <[t := None]> (calls (lw_state w))) as Hcalls
    by (by rewrite list_insert_id).
  pose proof (linv_give h0 n ms ev k (lw_state w) owns s own evt e own' h' Hk Htab Hown Hevt Ho Hh') as Hli.
  split; [|split].
  - apply (stepped_inv k w owns s own own' t (set_lheap h' (lw_state w)) held None None _
      Hinv Hown Hheld Ht Hli Hcalls _ Heff (fun y Hy => or_introl (Hsub y Hy))); [| |done].
    + intros y Hy. apply (lwi_held _ _ _ Hinv held); [by eapply list_elem_of_lookup_2|].
      specialize (Hsub y). rewrite !app_nil_r in Hsub. by apply Hsub.
    + intros t' c y a _ Hc Hsame Hph. destruct (lv_calls _ _ _ _ _ _ _ Htab t' c Hc) as (_ & _ & Hv). rewrite Hph in Hv.
      destruct Hv as (own2 & Ho2 & Hv). rewrite Hsame in Ho2. rewrite Hown in Ho2. injection Ho2 as <-.
      apply (event_kept k own _ p (proj2 Hk) Hpo evt e own' Ho h' a Hh'); [by destruct Hv as (? & ? & _); eexists|].
      destruct (visible_event evt e own own' a Hnu Ho Hv) as (? & ? & _). by eexists.
  - intros a l1 l2. apply (stepped_kept k w owns s own own' t (set_lheap h' (lw_state w)) held None None _
      Hinv Hown Hheld Ht Hcalls _ Heff).
  - intros good. apply (ready_moved k w owns Hinv s own own' _ _ _ _ Hown Heff).
Qed.

(** ** Writes *)
Lemma write_step t ptr bs h' :
  lw_held w !! t <> None -> ptr ∈ (held_by w t).*2 -> write_value (lw_heap w) ptr bs = Ok h' ->
  lworld_inv k (LWorld (set_lheap h' (lw_state w)) (lw_held w)) owns.
Proof.
  intros Ht Hptr Hw. destruct (write_heads _ _ _ _ Hw) as (Hsame & Hother & _).
  unfold held_by in Hptr. destruct (lw_held w !! t) as [held|] eqn:Hheld; [|done]. simpl in Hptr.
  assert (exists o, calls (lw_state w) !! t = Some o) as [o Ho].
  { apply lookup_lt_is_Some_2. rewrite <- (lwi_len _ _ _ Hinv). by eapply lookup_lt_Some. }
  assert (hands w !! t = Some (held ++ leaving o)) as Hl by (apply hands_lookup; eauto 10).
  destruct (hand_allocated (held ++ leaving o) ptr) as (s & own & e & hs & Hown & Haddr & Hv & He & _).
  { by eapply list_elem_of_lookup_2. }
  { rewrite fmap_app. apply elem_of_app. by left. }
  { apply list_elem_of_fmap in Hptr as (x & -> & Hx).
    apply (lwi_held _ _ _ Hinv held); [by eapply list_elem_of_lookup_2 | done]. }
  destruct Hinv as [Htab Hlen Hheldn Hfit Hhit Hsh Hans]. split; simpl; try done.
  - destruct Htab as [Hes Hn Hlk Hc]. split; simpl; try done. apply (estates_rewrite _ _ _ _ _ _ _ _ _ Hes); [done|].
    simpl. intros a Ha. apply Hother. intros ->. rewrite Hv, elem_of_value_ptr in Ha by done.
    by rewrite (Ha s own Hown) in He.
  - intros t' c x a Hc Hph. destruct (Hhit t' c x a Hc Hph) as (key & Hop & el & Hel & Hkey). exists key. split; [done|].
    unfold lw_heap. simpl. destruct (Hsame a) as [Heq|(el1 & el2 & H1 & H2 & Hk2 & _)].
    + exists el. by rewrite Heq.
    + exists el2. split; [done|]. rewrite Hel in H1. injection H1 as <-. congruence.
  - intros l x Hl2 Hx. apply (answered_rewrite _ (lw_heap w)); [done|]. by apply (Hans l).
Qed.
End steps.

(** ** What a thread holds, in the books *)
Section answers.
Context (k : Z) (w : lworld) (owns : list ownership) (Hinv : lworld_inv k w owns).

Lemma hand_of_held i l : lw_held w !! i = Some l -> exists o, hands w !! i = Some (l ++ leaving o).
Proof.
  intros Hl. destruct (lookup_lt_is_Some_2 (calls (lw_state w)) i) as [o Ho].
  { rewrite <- (lwi_len _ _ _ Hinv). by eapply lookup_lt_Some. }
  exists o. apply hands_lookup. eauto 10.
Qed.

Lemma hand_answer i l r v :
  lw_held w !! i = Some l -> (r, v) ∈ l ->
  exists s own e hs el, owns !! s = Some own /\ v = value_ptr e /\ addr_ok e /\ own !! e = Some hs /\
    own_ok k hs /\ lw_heap w !! e = Some el /\ ref_count el = atomic_count hs /\
    match r with
    | Lookup k => key el = k /\ writing hs = false
    | Insert k sz => key el = k /\ size el = elem_size sz /\ writing hs = true
    | Release _ => False
    end.
Proof.
  intros Hl Hx. destruct (hand_of_held i l Hl) as [o Hh].
  pose proof (lwi_held _ _ _ Hinv l _ ltac:(by eapply list_elem_of_lookup_2) Hx) as Hnz.
  destruct (lwi_answers _ _ _ Hinv (l ++ leaving o) (r, v)) as [?|(s & own & Ho & [?|Ha])]; try done.
  { by eapply list_elem_of_lookup_2. }
  { apply elem_of_app. by left. }
  destruct Ha as (e & hs & el & Haddr & Hv & He & Hel & Hr).
  destruct (es_elem (lv_estates _ _ _ _ _ _ _ (lwi_table _ _ _ Hinv)) s own e hs Ho He)
    as (Hok & _ & el2 & Hel2 & Hrc).
  exists s, own, e, hs, el. do 6 (split; [done|]). split; [|done]. unfold lw_heap in Hel. rewrite Hel in Hel2.
  injection Hel2 as <-. exact Hrc.
Qed.

(** What a thread holds from an insertion nobody else holds. *)
Lemma insert_alone i l key sz v i2 l2 :
  lw_held w !! i = Some l -> (Insert key sz, v) ∈ l -> lw_held w !! i2 = Some l2 ->
  occurs v l2.*2 = if decide (i2 = i) then 1 else 0.
Proof.
  intros Hl Hx Hl2. pose proof (lv_estates _ _ _ _ _ _ _ (lwi_table _ _ _ Hinv)) as Hes.
  destruct (hand_answer i l _ v Hl Hx) as (s & own & e & hs & el & Ho & -> & Haddr & He & (Hrd & Hwr & _) & Hel & Hrc & _ & _ & Hw).
  pose proof (lwi_shares _ _ _ Hinv e Haddr) as Hsh.
  rewrite (shares_at_home Hes s own e Ho ltac:(by eexists)) in Hsh.
  unfold shares_of in Hsh. rewrite He in Hsh. unfold shares in Hsh. rewrite Hw, (Hwr Hw) in Hsh. simpl in Hsh.
  destruct (hand_of_held i l Hl) as [o Hh]. destruct (hand_of_held i2 l2 Hl2) as [o2 Hh2].
  assert (0 < occurs (value_ptr e) l.*2) as Hpos
    by (apply occurs_pos, list_elem_of_fmap; by exists (Insert key sz, value_ptr e)).
  pose proof (in_hands_member w i _ e Hh) as Hle. rewrite fmap_app in Hle. autorewrite with smp in Hle.
  pose proof (occurs_nonneg (value_ptr e) (leaving o).*2). pose proof (occurs_nonneg (value_ptr e) l2.*2).
  case_decide as Hi; [subst i2; assert (l2 = l) as -> by congruence; lia|].
  pose proof (zsum_two (fun l => occurs (value_ptr e) l.*2) (hands w) i i2 _ _
    ltac:(intros; apply occurs_nonneg) Hh Hh2 (not_eq_sym Hi)) as H2.
  cbv beta in H2. fold (in_hands w e) in H2.
  rewrite !fmap_app in H2. autorewrite with smp in H2. pose proof (occurs_nonneg (value_ptr e) (leaving o2).*2). lia.
Qed.
End answers.

(** ** Reachable worlds *)
Section reach.
Context `{M : Machine} (spins : nat) (Hn : 0 < n < 2 ^ 31) (Hms : ms < 2 ^ 63).

Lemma lworld_more k w owns : lworld_inv k w owns -> lworld_inv (k + 1) w owns.
Proof. intros []. split; try done. by apply linv_more. Qed.

(** The values that an action marks ready. *)
Definition marks (a : lworld_action) (e : Z) : Prop :=
  match a with LMark _ ptr => e = elem_of_ptr ptr | _ => False end.

(** It writes only into what its thread has inserted. *)
Definition writes_own (w : lworld) (a : lworld_action) : Prop :=
  match a with LWrite t ptr _ => existsb (wrote ptr) (held_by w t) = true | _ => True end.

Lemma carries_more mk1 mk2 w w' owns owns' :
  carries mk1 w w' owns owns' -> (forall e, mk1 e -> mk2 e) -> carries mk2 w w' owns owns'.
Proof. intros H Hm good Hg Hr Hmk. apply (H good); [done..|]. intros e el He. by apply Hmk, Hm. Qed.

Lemma carries_refl mk w w' owns : lw_heap w' = lw_heap w -> carries mk w w' owns owns.
Proof. intros Hh good _ Hr _. by rewrite Hh. Qed.

(** What is being written can be written: nothing ready is touched. *)
Lemma write_carries k w owns mk t ptr bs h' :
  lworld_inv k w owns -> lw_held w !! t <> None -> existsb (wrote ptr) (held_by w t) = true ->
  write_value (lw_heap w) ptr bs = Ok h' ->
  carries mk w (LWorld (set_lheap h' (lw_state w)) (lw_held w)) owns owns.
Proof.
  intros Hinv Ht Hw Hh good _ Hr _ s own e hs el Ho He Hws Hel.
  destruct (write_heads _ _ _ _ Hh) as (_ & Hother & _). apply (Hr s own e hs el Ho He Hws).
  unfold lw_heap in Hel. simpl in Hel. rewrite Hother in Hel; [done|]. intros ->.
  unfold held_by in Hw. destruct (lw_held w !! t) as [held|] eqn:Hheld; [|done]. simpl in Hw.
  apply existsb_exists in Hw as (x & Hx & Hwx). apply list_elem_of_In in Hx.
  assert (exists o, calls (lw_state w) !! t = Some o) as [o Hoc].
  { apply lookup_lt_is_Some_2. rewrite <- (lwi_len _ _ _ Hinv). by eapply lookup_lt_Some. }
  assert (hands w !! t = Some (held ++ leaving o)) as Hl by (apply hands_lookup; eauto 10).
  pose proof (lwi_held _ _ _ Hinv held x ltac:(by eapply list_elem_of_lookup_2) Hx) as Hnz.
  destruct (lwi_answers _ _ _ Hinv _ x ltac:(by eapply list_elem_of_lookup_2) ltac:(apply elem_of_app; by left))
    as [?|(s2 & own2 & Ho2 & [?|(e2 & hs2 & el2 & Haddr & Hv & He2 & _ & Hx2)])]; [done..|].
  unfold wrote in Hwx. destruct x.1; try done. apply Z.eqb_eq in Hwx. rewrite Hwx in Hv. rewrite Hv in He.
  rewrite elem_of_value_ptr in He by done. destruct Hx2 as (_ & _ & Hw2).
  pose proof (lv_estates _ _ _ _ _ _ _ (lwi_table _ _ _ Hinv)) as Hes. destruct (decide (s2 = s)) as [->|Hne].
  - rewrite Ho in Ho2. injection Ho2 as <-. congruence.
  - rewrite (es_apart Hes s2 s own2 own e2 Ho2 Ho Hne ltac:(by eexists)) in He. done.
Qed.

(** The action is a write that does not fit the block it goes to. *)
Definition writes_past (w : lworld) (a : lworld_action) : Prop :=
  match a with
  | LWrite _ ptr bs => exists el, lw_heap w !! elem_of_ptr ptr = Some el /\ (length (value el) < length bs)%nat
  | _ => False
  end.

(** What an allowed action does. *)
Lemma lstep_ok k w a owns :
  0 <= k < 2 ^ 62 -> lworld_inv k w owns -> lallowed ms w a ->
  match lworld_act spins n a w with
  | Some (Ok w') => exists owns', lworld_inv (k + 1) w' owns' /\
      (forall e l1 l2, addr_ok e -> l1 ∈ hands w -> value_ptr e ∈ l1.*2 -> l2 ∈ hands w' -> value_ptr e ∈ l2.*2 ->
        (forall t bs, a <> LWrite t (value_ptr e) bs) -> kept (lw_heap w) (lw_heap w') e) /\
      (writes_own w a -> carries (marks a) w w' owns owns')
  | Some (Fault f) =>
      (exists t c, a = LAct t /\ calls (lw_state w) !! t = Some (Some c) /\
         may_fail ms ev (base.size (lw_heap w)) (lc_op c) f) \/
      (f = Undefined /\ writes_past w a)
  | None => True
  end.
Proof.
  intros Hk Hinv Ha. destruct a as [t op|t|t ptr|t ptr|t ptr bs]; cbn [lworld_act];
    destruct (calls (lw_state w) !! t) as [[c|]|] eqn:Ht; try done.
  - exists owns. split; [by apply lworld_more, begin_step|]. split; [|intros _; by apply carries_refl].
    intros e l1 l2 He H1 Hv1 H2 Hv2 _. by apply (steady_same k w owns Hinv
      (LWorld (set_call t (Some (locking_call n op)) (lw_state w)) (lw_held w)) eq_refl e l1 l2).
  - pose proof (act_step k w owns Hinv spins t c Hk Hms Ht) as Hs.
    destruct (locking_step spins t (lw_state w)) as [[st' o]|f]; cbn [mbind result_bind mret result_ret]; [|left; eauto].
    destruct Hs as (owns' & Hi & Hst & Hc). exists owns'. split; [done|]. split; [|done].
    intros e l1 l2 He H1 Hv1 H2 Hv2 _. by apply (Hst e l1 l2).
  - destruct (give_step k w owns Hinv t MarkedReady (wrote ptr) ptr Hk ltac:(by left) Ht Ha)
      as (h' & owns' & Hh & Hp & Hi & Hst & Hc). simpl in Hh. rewrite Hp in Hh. unfold lw_heap in Hh. rewrite Hh.
    cbn [mbind result_bind mret result_ret]. exists owns'. split; [done|]. split.
    + intros e l1 l2 He H1 Hv1 H2 Hv2 _. by apply (Hst e l1 l2).
    + intros _. apply (carries_more _ _ _ _ _ _ Hc). by intros e [_ ?].
  - destruct (give_step k w owns Hinv t Dropped (found ptr) ptr Hk ltac:(by right) Ht Ha)
      as (h' & owns' & Hh & Hp & Hi & Hst & Hc). simpl in Hh. rewrite Hp in Hh. unfold lw_heap in Hh. rewrite Hh.
    cbn [mbind result_bind mret result_ret]. exists owns'. split; [done|]. split.
    + intros e l1 l2 He H1 Hv1 H2 Hv2 _. by apply (Hst e l1 l2).
    + intros _. apply (carries_more _ _ _ _ _ _ Hc). by intros e [? _].
  - pose proof Ha as Hptr. simpl in Hptr. destruct (held_thread k w owns Hinv t None Ht) as [held Hheld].
    unfold held_by in Hptr. rewrite Hheld in Hptr. simpl in Hptr.
    destruct (hand_allocated k w owns Hinv held ptr) as (s & own & e & hs & _ & Haddr & Hv & _ & el & Hel).
    { apply (list_elem_of_lookup_2 _ t), hands_lookup. exists held, None. by rewrite app_nil_r. }
    { done. }
    { apply list_elem_of_fmap in Hptr as (x & -> & Hx).
      apply (lwi_held _ _ _ Hinv held); [by eapply list_elem_of_lookup_2 | done]. }
    destruct (write_value (hp (lmem (lw_state w))) ptr bs) as [h'|f] eqn:Hw; cbn [mbind result_bind mret result_ret].
    2: { right. assert (lw_heap w !! elem_of_ptr ptr = Some el) as Hel' by (by rewrite Hv, elem_of_value_ptr).
         rewrite (write_value_spec _ _ _ el Hel') in Hw. case_decide; [done|]. injection Hw as <-.
         split; [done|]. exists el. split; [done | lia]. }
    exists owns. split; [|split].
    + apply lworld_more. apply (write_step k w owns Hinv t ptr bs h'); [by rewrite Hheld | done..].
    + intros e2 l1 l2 He H1 Hv1 _ _ Hnw.
      destruct (steady_same k w owns Hinv w eq_refl e2 l1 l1 He H1 Hv1 H1 Hv1) as (el2 & rc & Hel2 & Hrc).
      exists el2, rc. split; [done|]. destruct (write_heads _ _ _ _ Hw) as (_ & Hother & _). unfold lw_heap at 1. simpl.
      rewrite Hother; [done|]. intros Heq. apply (Hnw t bs). rewrite Hv, elem_of_value_ptr in Heq by done. congruence.
    + intros Hwo. apply (write_carries k w owns _ t ptr bs h' Hinv); [by rewrite Hheld | done..].
Qed.

(** What somebody holds before and after an action is as it was but for its count, unless
    it was written into. *)
Lemma step_keeps k w a w' owns i l i2 l2 v :
  0 <= k < 2 ^ 62 -> lworld_inv k w owns -> lallowed ms w a -> lworld_act spins n a w = Some (Ok w') ->
  lw_held w !! i = Some l -> v ∈ l.*2 -> lw_held w' !! i2 = Some l2 -> v ∈ l2.*2 ->
  (forall t bs, a <> LWrite t v bs) -> kept (lw_heap w) (lw_heap w') (elem_of_ptr v).
Proof.
  intros Hk Hinv Ha Hact Hl Hv Hl2 Hv2 Hnw. pose proof (lstep_ok k w a owns Hk Hinv Ha) as Hok. rewrite Hact in Hok.
  destruct Hok as (owns' & Hinv' & Hkept & _). pose proof Hv as Hv0. apply list_elem_of_fmap in Hv as ([r v0] & -> & Hx).
  destruct (hand_answer k w owns Hinv i l r v0 Hl Hx) as (s & own & e & hs & el & _ & Hp & Haddr & _).
  simpl in *. subst v0. rewrite elem_of_value_ptr by done.
  destruct (hand_of_held k w owns Hinv i l Hl) as [o Hh]. destruct (hand_of_held _ w' owns' Hinv' i2 l2 Hl2) as [o2 Hh2].
  apply (Hkept e (l ++ leaving o) (l2 ++ leaving o2)); try done.
  - by eapply list_elem_of_lookup_2.
  - rewrite fmap_app. apply elem_of_app. by left.
  - by eapply list_elem_of_lookup_2.
  - rewrite fmap_app. apply elem_of_app. by left.
Qed.

Lemma lsteps_inv j k w w' owns :
  nsteps (lworld_step spins n ms) j w w' -> 0 <= k -> k + Z.of_nat j < 2 ^ 62 -> lworld_inv k w owns ->
  exists owns', lworld_inv (k + Z.of_nat j) w' owns'.
Proof.
  intros Hs. revert k owns. induction Hs as [w|j w1 w2 w3 (a & Ha & Hact) _ IH]; intros k owns Hk Hlt Hinv.
  - exists owns. by rewrite Z.add_0_r.
  - pose proof (lstep_ok k w1 a owns ltac:(lia) Hinv Ha) as Hok. rewrite Hact in Hok. destruct Hok as (owns2 & Hinv2 & _).
    destruct (IH (k + 1) owns2 ltac:(lia) ltac:(lia) Hinv2) as [owns3 Hinv3].
    exists owns3. replace (k + Z.of_nat (S j)) with (k + 1 + Z.of_nat j) by lia. done.
Qed.
End reach.
End invariant.
