(* ===== verification/Client.v ===== *)
(** * Client: the client library ([smphashtable.c])

    A client call runs concurrently with the servers, so it is a [prog]: a
    sequence of atomic steps, each of them one access to a message buffer with
    the changes of the client's own data around it. A step that faults with
    [Blocked] is a busy-wait that goes on. *)
From stdpp Require Import base list gmap.
From Stdlib Require Import ZArith Lia.
From S2P Require Import Prelude Protocol MPBuffers Value HashTable.

Local Open Scope Z_scope.

(** What one client works on: [pending_data[client_id]] and
    [boxes[client_id].boxes]. *)
Record client := Client {
  cl_nservers : Z;
  cl_pd : pending_data;
  cl_boxes : list box
}.

(** ** Programs *)
Inductive prog (A : Type) :=
  | Done (a : A)
  | Step (f : client -> result (client * prog A)).
Arguments Done {A} a.
Arguments Step {A} f.

Fixpoint andthen {A B} (r : prog A) (k : A -> prog B) : prog B :=
  match r with
  | Done a => k a
  | Step f => Step (fun c => match f c with
                             | Ok (c', r') => Ok (c', andthen r' k)
                             | Fault e => Fault e
                             end)
  end.

(** One access and nothing more. *)
Definition act {A} (f : client -> result (client * A)) : prog A :=
  Step (fun c => '(c', a) ← f c; mret (c', Done a)).

(** ** Accesses *)
Definition pd_map (g : pending_data -> pending_data) (c : client) : client :=
  Client (cl_nservers c) (g (cl_pd c)) (cl_boxes c).

Definition on_box {A} (s : Z) (f : box -> result (box * A)) (c : client) : result (client * A) :=
  b ← aget (cl_boxes c) s;
  '(b', a) ← f b;
  bs ← aset (cl_boxes c) s b';
  mret (Client (cl_nservers c) (cl_pd c) bs, a).

Definition box_read (b : box) : result (box * option Z) :=
  '(r, v, ob) ← outb_read (bout b);
  if r =? 0 then mret (Box (bin b) ob, None) else w ← deref v; mret (Box (bin b) ob, Some w).

Definition box_blocking_read (b : box) : result (box * Z) :=
  '(w, ob) ← outb_blocking_read (bout b); mret (Box (bin b) ob, w).

Definition box_flush (b : box) : result (box * unit) :=
  ib ← inpb_flush (bin b); mret (Box ib (bout b), tt).

Definition box_write (ws : list Z) (b : box) : result (box * unit) :=
  ib ← inpb_write (bin b) (Z.of_nat (length ws)) ws; mret (Box ib (bout b), tt).

(** [idx & (MAX_PENDING_SIZE - 1)]. *)
Definition slot (idx : Z) : Z := Z.land idx (MAX_PENDING_SIZE - 1).

(** ** [read_next_pending_value] *)

(** [pending_values[...] = val; pending_count[ps]--; wr_index++]. *)
Definition store_value (ps val : Z) (c : client) : result (client * unit) :=
  let pd := cl_pd c in
  n ← aget (pending_count pd) ps;
  pc ← aset (pending_count pd) ps (i32 (n - 1));
  mret (pd_map (fun _ => PendingData (<[slot (pd_wr_index pd) := val]> (pending_values pd))
    (pending_servers pd) (rd_index pd) (u64 (pd_wr_index pd + 1)) (pending_index pd) pc) c, tt).

Definition next_server (pd : pending_data) : result Z :=
  deref (pending_servers pd !! slot (pd_wr_index pd)).

(** The next answer of the server [ps] is filed with [store]: the one that is
    there, or, after a flush, the one that comes. The two loops that take answers share
    these lines. *)
Definition fetch {A} (ps : Z) (store : Z -> client -> result (client * A)) (c : client)
    : result (client * prog A) :=
  '(c, v) ← on_box ps box_read c;
  match v with
  | Some val => '(c, a) ← store val c; mret (c, Done a)
  | None => mret (c,
      andthen (act (on_box ps box_flush)) (fun _ =>
      act (fun c => '(c, val) ← on_box ps box_blocking_read c; store val c)))
  end.

Definition read_next_pending_value : prog unit :=
  Step (fun c => ps ← next_server (cl_pd c); fetch ps (store_value ps) c).

(** ** Sending queries *)

(** [while (pending_count[s] >= MAX_PENDING_PER_SERVER)]: every round takes one
    answer, so there are at most as many rounds as answers to come. *)
Fixpoint wait_room (fuel : nat) (s : Z) : prog unit :=
  match fuel with
  | O => Step (fun _ => Fault Blocked)
  | S fuel => Step (fun c =>
      n ← aget (pending_count (cl_pd c)) s;
      mret (c, if MAX_PENDING_PER_SERVER <=? n
               then andthen read_next_pending_value (fun _ => wait_room fuel s) else Done tt))
  end.

(** [pending_count[s]++; pending_servers[...] = s; pending_index++]. *)
Definition note_pending (s : Z) (c : client) : result (client * unit) :=
  let pd := cl_pd c in
  n ← aget (pending_count pd) s;
  pc ← aset (pending_count pd) s (i32 (n + 1));
  mret (pd_map (fun _ => PendingData (pending_values pd)
    (<[slot (pending_index pd) := s]> (pending_servers pd)) (rd_index pd) (pd_wr_index pd)
    (u64 (pending_index pd + 1)) pc) c, tt).

Definition send_query (s : Z) (msg : list Z) : prog Z :=
  act (fun c => '(c, _) ← on_box s (box_write msg) c; '(c, _) ← note_pending s c; mret (c, 1)).

Definition to_come (pd : pending_data) : nat :=
  Z.to_nat (u64 (pending_index pd - pd_wr_index pd)).

(** The common body of the two calls. *)
Definition issue (key : Z) (msg : list Z) : prog Z :=
  Step (fun c =>
    if MAX_PENDING_SIZE <=? u64 (pending_index (cl_pd c) - rd_index (cl_pd c))
    then mret (c, Done 0)
    else
      let s := hash_get_server (cl_nservers c) key in
      mret (c, andthen (wait_room (S (to_come (cl_pd c))) s) (fun _ => send_query s msg))).

Definition smp_hash_lookup (key : Z) : prog Z := issue key [lookup_word key].

Definition smp_hash_insert (key size : Z) : prog Z := issue key (insert_words key size).

(** ** Taking answers *)
Definition take_value (c : client) : result (client * option Z) :=
  let pd := cl_pd c in
  v ← deref (pending_values pd !! slot (rd_index pd));
  mret (pd_map (fun _ => PendingData (pending_values pd) (pending_servers pd)
    (u64 (rd_index pd + 1)) (pd_wr_index pd) (pending_index pd) (pending_count pd)) c, Some v).

(** [None] is the return value 0. *)
Definition smp_try_get_next : prog (option Z) :=
  act (fun c => if rd_index (cl_pd c) =? pd_wr_index (cl_pd c) then mret (c, None) else take_value c).

Definition smp_get_next : prog (option Z) :=
  Step (fun c =>
    if rd_index (cl_pd c) =? pending_index (cl_pd c) then mret (c, Done None)
    else if rd_index (cl_pd c) =? pd_wr_index (cl_pd c)
    then mret (c, andthen read_next_pending_value (fun _ => act take_value))
    else '(c, v) ← take_value c; mret (c, Done v)).

(** ** Releasing values

    [h] is the heap in which [ptr] lies; the client holds the element, so its
    key does not change while the call runs. *)
Definition mp_send_release_msg_ (h : heap) (ptr : Z) (force_flush : bool) : prog unit :=
  let e := elem_of_ptr ptr in
  let msg := release_word e in
  Step (fun c =>
    _ ← check (e =? arg_of msg) AssertFailed;
    el ← deref (h !! e);
    let s := hash_get_server (cl_nservers c) (key el) in
    '(c, _) ← on_box s (box_write [msg]) c;
    mret (c, if force_flush then act (on_box s box_flush) else Done tt)).

Definition mp_release_value (h : heap) (ptr : Z) : prog unit := mp_send_release_msg_ h ptr false.
Definition mp_mark_ready (h : heap) (ptr : Z) : prog unit := mp_send_release_msg_ h ptr true.

(** ** [smp_hash_doall]

    Its local variables: [pending_count], [pindex] and the caller's [values]. *)
Record doall := Doall { da_count : list Z; da_pindex : Z; da_values : list Z }.

Definition da_server (c : client) (queries : list hash_query) (i : Z) : result Z :=
  q ← aget queries i; mret (hash_get_server (cl_nservers c) (q_key q)).

(** [values[pindex] = val; pending_count[ps]--; pindex++]. *)
Definition da_store (ps val : Z) (d : doall) : result doall :=
  vs ← aset (da_values d) (da_pindex d) val;
  n ← aget (da_count d) ps;
  pc ← aset (da_count d) ps (i32 (n - 1));
  mret (Doall pc (i32 (da_pindex d + 1)) vs).

Definition da_file (ps : Z) (d : doall) (val : Z) (c : client) : result (client * doall) :=
  d ← da_store ps val d; mret (c, d).

Definition da_read (queries : list hash_query) (d : doall) : prog doall :=
  Step (fun c => ps ← da_server c queries (da_pindex d); fetch ps (da_file ps d) c).

Fixpoint da_wait (fuel : nat) (queries : list hash_query) (s : Z) (d : doall) : prog doall :=
  match fuel with
  | O => Step (fun _ => Fault Blocked)
  | S fuel => Step (fun c =>
      n ← aget (da_count d) s;
      mret (c, if MAX_PENDING_PER_SERVER <=? n
               then andthen (da_read queries d) (da_wait fuel queries s) else Done d))
  end.

(** The message of a query; any other operation trips the assertion. *)
Definition query_msg (q : hash_query) : result (list Z) :=
  if q_optype q =? optype_code OPTYPE_LOOKUP then mret [lookup_word (q_key q)]
  else if q_optype q =? optype_code OPTYPE_INSERT then mret (insert_words (q_key q) (q_size q))
  else Fault AssertFailed.

(** [pending_count[s]++]. *)
Definition da_note (s : Z) (d : doall) (c : client) : result (client * doall) :=
  n ← aget (da_count d) s;
  pc ← aset (da_count d) s (i32 (n + 1));
  mret (c, Doall pc (da_pindex d) (da_values d)).

Definition da_send (s : Z) (q : hash_query) (d : doall) : prog doall :=
  act (fun c =>
    msg ← query_msg q;
    '(c, _) ← on_box s (box_write msg) c;
    da_note s d c).

(** The first loop; [todo] are the queries from [i] on. *)
Fixpoint da_queue (queries todo : list hash_query) (d : doall) : prog doall :=
  match todo with
  | [] => Done d
  | q :: todo => Step (fun c =>
      let s := hash_get_server (cl_nservers c) (q_key q) in
      mret (c, andthen (da_wait (S (length queries)) queries s d) (fun d =>
               andthen (da_send s q d) (da_queue queries todo))))
  end.

Fixpoint da_flush (ss : list nat) : prog unit :=
  match ss with
  | [] => Done tt
  | s :: ss => andthen (act (on_box (Z.of_nat s) box_flush)) (fun _ => da_flush ss)
  end.

(** [while (pindex < nqueries)]. *)
Fixpoint da_collect (fuel : nat) (queries : list hash_query) (d : doall) : prog doall :=
  if Z.of_nat (length queries) <=? da_pindex d then Done d else
  match fuel with
  | O => Step (fun _ => Fault Blocked)
  | S fuel =>
      andthen (act (fun c =>
        ps ← da_server c queries (da_pindex d);
        '(c, val) ← on_box ps box_blocking_read c; da_file ps d val c))
      (da_collect fuel queries)
  end.

Definition smp_hash_doall (queries : list hash_query) (values : list Z) : prog (list Z) :=
  Step (fun c =>
    mret (c,
      andthen (da_queue queries queries
                 (Doall (replicate (Z.to_nat (cl_nservers c)) 0) 0 values)) (fun d =>
      andthen (da_flush (seq 0 (Z.to_nat (cl_nservers c)))) (fun _ =>
      andthen (da_collect (length queries) queries d) (fun d => Done (da_values d)))))).
