(* ===== verification/Link.v ===== *)
(** * Link: one client and one server

    A box as the two queues it implements: the batches of requests on their way
    to the server, the requests the client has not flushed yet, and the answers
    on their way back, each with the request that it answers. *)
From stdpp Require Import base list gmap.
From Stdlib Require Import ZArith Lia.
From S2P Require Import Prelude Protocol MPBuffers Value Partition Server HashTable Client.

Local Open Scope Z_scope.

(** ** Reading requests off the wire, as the switch of the server does *)
Fixpoint decode (ws : list Z) : option (list request) :=
  match ws with
  | [] => Some []
  | w :: ws =>
      if op_of w =? HASHOP_LOOKUP then rs ← decode ws; Some (Lookup (arg_of w) :: rs)
      else if op_of w =? HASHOP_INSERT then
        match ws with
        | [] => None
        | sz :: ws => rs ← decode ws; Some (Insert (arg_of w) (i32 sz) :: rs)
        end
      else if op_of w =? HASHOP_RELEASE then rs ← decode ws; Some (Release (arg_of w) :: rs)
      else None
  end.

Lemma decode_encode rs : Forall request_ok rs -> decode (encode_all rs) = Some rs.
Proof.
  induction 1 as [|r rs Hr _ IH]; [done|].
  change (encode_all (r :: rs)) with (encode r ++ encode_all rs).
  destruct r as [k|k sz|e]; simpl in Hr; cbn [encode insert_words app decode].
  - destruct (lookup_word_split k Hr) as [-> ->]. simpl. by rewrite IH.
  - destruct Hr as [Hk Hsz]. destruct (insert_word_split k Hk) as [-> ->]. simpl. rewrite IH.
    simpl. by rewrite i32_u64, i32_small by lia.
  - destruct (release_word_split e Hr) as [-> ->]. simpl. by rewrite IH.
Qed.

(** ** The abstract link *)
Record link_state := LinkState {
  lk_batches : list (list request);
  lk_buffered : list request;
  lk_unread : list (request * Z)
}.

Definition in_flight (l : link_state) : list request := concat (lk_batches l) ++ lk_buffered l.

(** The queries whose answers the client has still to take, oldest first. *)
Definition owed (l : link_state) : list request :=
  (lk_unread l).*1 ++ filter answering (in_flight l).

Record link_rep (b : box) (l : link_state) : Prop := {
  lr_in : ib_rep (bin b) (encode_all <$> lk_batches l) (encode_all (lk_buffered l));
  lr_out : ob_rep (bout b) (lk_unread l).*2;
  lr_ok : Forall request_ok (in_flight l)
}.

Lemma link_rep_zero : link_rep (Box inputbuffer_zero outputbuffer_zero) (LinkState [] [] []).
Proof. split; [apply ib_rep_zero | apply ob_rep_zero | constructor]. Qed.

Lemma encode_all_nonzero rs : Forall request_ok rs -> Forall nonzero (encode_all rs).
Proof.
  induction 1 as [|r rs Hr _ IH]; [constructor|].
  change (encode_all (r :: rs)) with (encode r ++ encode_all rs). apply Forall_app.
  split; [by apply encode_nonzero | done].
Qed.

(** C31: the wire format. A sequence of well-formed requests read off its words
    the way the switch of the server reads them is the sequence itself, and no
    word of it is the 0 that marks the end of a batch. *)
Theorem wire_roundtrip rs :
  Forall request_ok rs ->
  decode (encode_all rs) = Some rs /\ Forall nonzero (encode_all rs).
Proof. intros Hok. split; [by apply decode_encode | by apply encode_all_nonzero]. Qed.

Lemma wire_roundtrip_witness :
  decode [Z.lor 5 HASHOP_INSERT; 100; release_word 4096; lookup_word 5] =
    Some [Insert 5 100; Release 4096; Lookup 5].
Proof.
  exact (proj1 (wire_roundtrip [Insert 5 100; Release 4096; Lookup 5]
    ltac:(repeat constructor; reflexivity || discriminate))).
Defined.

Lemma encode_all_snoc rs r : encode_all (rs ++ [r]) = encode_all rs ++ encode r.
Proof. unfold encode_all. rewrite fmap_app, concat_app. simpl. by rewrite app_nil_r. Qed.

Lemma encode_length r : (1 <= length (encode r) <= 2)%nat.
Proof. destruct r; simpl; lia. Qed.

Lemma encode_all_nil rs : encode_all rs = [] -> rs = [].
Proof.
  destruct rs as [|r rs]; [done|]. intros H. apply (f_equal length) in H.
  change (encode_all (r :: rs)) with (encode r ++ encode_all rs) in H.
  rewrite length_app in H. pose proof (encode_length r). simpl in H. lia.
Qed.

(** ** The client's side *)
Definition flushed (l : link_state) : link_state :=
  match lk_buffered l with
  | [] => l
  | rs => LinkState (lk_batches l ++ [rs]) [] (lk_unread l)
  end.

(** A full input buffer: the client waits, and the server has work. *)
Definition full (l : link_state) : Prop := length (lk_batches l) = Z.to_nat INPB_COUNT.

Lemma flushed_empty l : lk_buffered (flushed l) = [].
Proof. unfold flushed. by destruct (lk_buffered l) eqn:Hb. Qed.

Lemma flushed_flight l : in_flight (flushed l) = in_flight l.
Proof.
  unfold flushed. destruct (lk_buffered l) as [|r rs] eqn:Hb; [done|]. unfold in_flight. simpl.
  rewrite concat_app, Hb. simpl. by rewrite !app_nil_r.
Qed.

Lemma box_flush_ok b l :
  link_rep b l ->
  match box_flush b with
  | Ok (b', _) => link_rep b' (flushed l)
  | Fault f => f = Blocked /\ full l
  end.
Proof.
  intros [Hin Hout Hok]. unfold box_flush, flushed.
  pose proof (flush_refines (bin b) (Spec.Chan (encode_all <$> lk_batches l)
    (encode_all (lk_buffered l))) Hin) as Hf.
  unfold Spec.flush in Hf. cbn [Spec.queue Spec.accum] in Hf.
  destruct (lk_buffered l) as [|r rs] eqn:Hb.
  - destruct (inpb_flush (bin b)) as [b'|[]]; [|done..]. simpl in Hf |- *.
    split; rewrite ?Hb; done.
  - destruct (encode_all (r :: rs)) as [|w ws] eqn:He; [by apply encode_all_nil in He|].
    rewrite length_fmap in Hf.
    destruct (Z.ltb_spec (Z.of_nat (length (lk_batches l))) INPB_COUNT).
    + destruct (inpb_flush (bin b)) as [b'|[]]; [|done..]. simpl in Hf |- *.
      split; simpl; [|done|].
      * unfold implements in Hf. simpl in Hf. rewrite fmap_app. simpl. by rewrite He.
      * unfold in_flight in *. simpl. rewrite concat_app, app_nil_r. simpl.
        rewrite Hb in Hok. by rewrite app_nil_r.
    + destruct (inpb_flush (bin b)) as [b'|[]]; try done. split; [done|]. unfold full.
      pose proof (ir_q _ _ _ Hin) as Hq. rewrite length_fmap in Hq. lia.
Qed.

(** Writing a message: behind what is buffered, or behind a flush of it. *)
Definition sent (r : request) (l l' : link_state) : Prop :=
  in_flight l' = in_flight l ++ [r] /\ lk_unread l' = lk_unread l /\
  (exists rs, lk_buffered l' = rs ++ [r]).

Lemma box_write_ok b l r :
  link_rep b l -> request_ok r ->
  match box_write (encode r) b with
  | Ok (b', _) => exists l', link_rep b' l' /\ sent r l l'
  | Fault f => f = Blocked /\ full l
  end.
Proof.
  intros [Hin Hout Hok] Hr. unfold box_write. pose proof (encode_length r) as Hlen.
  pose proof (write_refines (bin b) (Spec.Chan (encode_all <$> lk_batches l)
    (encode_all (lk_buffered l))) (encode r) Hin (encode_nonzero r Hr)) as Hw.
  specialize (Hw ltac:(rewrite INPB_SIZE_val; lia)). unfold Spec.write in Hw.
  cbn [Spec.queue Spec.accum] in Hw. revert Hw. case_match eqn:Hfit; intros Hw.
  - destruct (inpb_write (bin b) _ (encode r)) as [b'|[]]; [|done..]. simpl in Hw |- *.
    exists (LinkState (lk_batches l) (lk_buffered l ++ [r]) (lk_unread l)).
    split; [|split; [|by eauto]].
    + split; simpl; [by rewrite encode_all_snoc | done |].
      unfold in_flight in *. simpl. rewrite app_assoc. apply Forall_app. split; [done|].
      by constructor.
    + unfold in_flight. simpl. by rewrite app_assoc.
  - unfold Spec.flush in Hw. cbn [Spec.queue Spec.accum] in Hw.
    destruct (encode_all (lk_buffered l)) as [|w ws] eqn:He.
    { simpl in Hfit. rewrite INPB_SIZE_val in Hfit. lia. }
    rewrite length_fmap in Hw.
    destruct (Z.ltb_spec (Z.of_nat (length (lk_batches l))) INPB_COUNT).
    + destruct (inpb_write (bin b) _ (encode r)) as [b'|[]]; [|done..]. simpl in Hw |- *.
      unfold implements in Hw. simpl in Hw.
      exists (LinkState (lk_batches l ++ [lk_buffered l]) [r] (lk_unread l)).
      assert (in_flight (LinkState (lk_batches l ++ [lk_buffered l]) [r] (lk_unread l))
              = in_flight l ++ [r]) as Hfl
        by (unfold in_flight; simpl; rewrite concat_app; simpl; by rewrite app_nil_r).
      split; [|split; [done | split; [done | by exists []]]].
      split; simpl; [|done|].
      * rewrite fmap_app. unfold encode_all at 3. simpl. by rewrite He, app_nil_r.
      * rewrite Hfl. apply Forall_app. split; [done | by constructor].
    + destruct (inpb_write (bin b) _ (encode r)) as [b'|[]]; try done. split; [done|].
      unfold full. pose proof (ir_q _ _ _ Hin) as Hq. rewrite length_fmap in Hq. lia.
Qed.

Lemma box_read_ok b l :
  link_rep b l ->
  exists b', link_rep b' (LinkState (lk_batches l) (lk_buffered l) (tail (lk_unread l))) /\
    box_read b = Ok (b', snd <$> head (lk_unread l)).
Proof.
  intros [Hin Hout Hok]. unfold box_read.
  destruct (outb_read_spec _ _ Hout) as (ob & Hob & ->).
  exists (Box (bin b) ob). destruct (lk_unread l) as [|[r v] u]; simpl in *; done.
Qed.

Lemma box_blocking_read_ok b l :
  link_rep b l ->
  match lk_unread l with
  | [] => box_blocking_read b = Fault Blocked
  | (r, v) :: u => exists b', box_blocking_read b = Ok (b', v) /\
                     link_rep b' (LinkState (lk_batches l) (lk_buffered l) u)
  end.
Proof.
  intros [Hin Hout Hok]. unfold box_blocking_read, outb_blocking_read.
  destruct (outb_read_spec _ _ Hout) as (ob & Hob & ->).
  destruct (lk_unread l) as [|[r v] u]; simpl in *; [done|].
  exists (Box (bin b) ob). done.
Qed.

(** ** The server's side

    One visit of a server that finds a batch: it takes the batch, reads it as
    requests, and writes one answer for each request that wants one. [answers]
    says which answers the server may give. *)
Definition visited (answers : request -> Z -> Prop) (b b' : box) : Prop :=
  exists buf n buf' ib rs vs ob,
    length buf = Z.to_nat INPB_SIZE /\ inpb_read (bin b) buf = Ok (n, buf', ib) /\ n <> 0 /\
    decode (take (Z.to_nat n) buf') = Some rs /\ Forall2 answers (filter answering rs) vs /\
    outb_write (bout b) (Z.of_nat (length vs)) vs = Ok ob /\ b' = Box ib ob.

(** The link after the server took its first batch and gave the answers. *)
Definition answered (pairs : list (request * Z)) (l l' : link_state) : Prop :=
  exists rs, lk_batches l = rs :: lk_batches l' /\ lk_buffered l' = lk_buffered l /\
    lk_unread l' = lk_unread l ++ pairs /\ pairs.*1 = filter answering rs.

Lemma answered_owed pairs l l' : answered pairs l l' -> owed l' = owed l.
Proof.
  intros (rs & Hb & Hbuf & Hu & Hp). unfold owed, in_flight.
  rewrite Hb, Hbuf, Hu, fmap_app, Hp. cbn [concat].
  rewrite <- (app_assoc rs), (filter_app _ rs). by rewrite app_assoc.
Qed.

Lemma owed_first l rs rest :
  lk_batches l = rs :: rest ->
  (length (lk_unread l) + length (filter answering rs) <= length (owed l))%nat.
Proof.
  intros Hb. unfold owed, in_flight. rewrite Hb. cbn [concat].
  rewrite <- app_assoc, filter_app, !length_app, length_fmap. lia.
Qed.

Section visits.
Context (answers : request -> Z -> Prop).

(** Taking a batch: the buffer then starts with the words of its requests. *)
Lemma take_batch b l buf rs rest :
  link_rep b l -> length buf = Z.to_nat INPB_SIZE -> lk_batches l = rs :: rest ->
  exists ib, inpb_read (bin b) buf =
      Ok (Z.of_nat (length (encode_all rs)),
          encode_all rs ++ drop (length (encode_all rs)) buf, ib) /\
    ib_rep ib (encode_all <$> rest) (encode_all (lk_buffered l)) /\
    Forall request_ok rs /\ (1 <= length (encode_all rs) <= 8)%nat.
Proof.
  intros [Hin Hout Hok] Hbuf Hb.
  pose proof (read_refines (bin b) (Spec.Chan (encode_all <$> lk_batches l)
    (encode_all (lk_buffered l))) buf Hin Hbuf) as Hr.
  rewrite Hb in Hr, Hin. destruct Hr as (ib & Hr & Hrep).
  exists ib. split; [exact Hr|]. split; [exact Hrep|]. split.
  - unfold in_flight in Hok. rewrite Hb in Hok. cbn [concat] in Hok.
    by apply Forall_app in Hok as [[Hok _]%Forall_app _].
  - destruct (ir_slot _ _ _ Hin 0) as (sl & _ & Hq); [done|]. cbn in Hq.
    destruct Hq as (_ & Hq & _). exact Hq.
Qed.

Lemma empty_batch b l buf :
  link_rep b l -> length buf = Z.to_nat INPB_SIZE -> lk_batches l = [] ->
  exists ib, inpb_read (bin b) buf = Ok (0, buf, ib) /\
    ib_rep ib [] (encode_all (lk_buffered l)).
Proof.
  intros [Hin Hout Hok] Hbuf Hb.
  pose proof (read_refines (bin b) (Spec.Chan (encode_all <$> lk_batches l)
    (encode_all (lk_buffered l))) buf Hin Hbuf) as Hr.
  rewrite Hb in Hr. destruct Hr as (ib & Hr & Hrep). by exists ib.
Qed.

Lemma visited_ok b b' l :
  link_rep b l -> (length (owed l) <= Z.to_nat OUTB_SIZE)%nat -> visited answers b b' ->
  exists pairs l', link_rep b' l' /\ answered pairs l l' /\
    Forall (fun pr => answers pr.1 pr.2) pairs.
Proof.
  intros Hrep Howed (buf & n & buf' & ib & rs & vs & ob & Hbuf & Hread & Hn & Hdec & Hans & Hw & ->).
  destruct (lk_batches l) as [|rs0 rest] eqn:Hb.
  { destruct (empty_batch b l buf Hrep Hbuf Hb) as (ib' & Hr & _). congruence. }
  destruct (take_batch b l buf rs0 rest Hrep Hbuf Hb) as (ib' & Hr & Hib & Hok & Hlen).
  rewrite Hread in Hr. injection Hr as -> -> ->. rewrite Nat2Z.id, take_app_length in Hdec.
  rewrite decode_encode in Hdec by done. injection Hdec as ->.
  pose proof (owed_first l rs rest Hb) as Hfirst. pose proof (Forall2_length _ _ _ Hans) as Hl.
  destruct Hrep as [_ Hout Hoks].
  destruct (outb_write_spec (bout b) (lk_unread l).*2 vs Hout) as (ob' & Hw' & Hout').
  { rewrite length_fmap, OUTB_SIZE_val in *. lia. }
  rewrite Hw in Hw'. injection Hw' as <-.
  exists (zip (filter answering rs) vs),
    (LinkState rest (lk_buffered l) (lk_unread l ++ zip (filter answering rs) vs)).
  assert ((zip (filter answering rs) vs).*1 = filter answering rs) as Hz1
    by (apply fst_zip; lia).
  split; [|split].
  - split; simpl; [done | |].
    + rewrite fmap_app, snd_zip by lia. done.
    + unfold in_flight in *. rewrite Hb in Hoks. cbn [concat] in Hoks. simpl.
      rewrite <- app_assoc in Hoks. by apply Forall_app in Hoks as [_ ?].
  - exists rs. done.
  - clear -Hans. induction Hans; constructor; done.
Qed.

(** Where there is a batch, a visit is possible. *)
Lemma visit_possible b l :
  link_rep b l -> (length (owed l) <= Z.to_nat OUTB_SIZE)%nat -> lk_batches l <> [] ->
  (forall r, answering r -> exists v, answers r v) -> exists b', visited answers b b'.
Proof.
  intros Hrep Howed Hne Hans. destruct (lk_batches l) as [|rs rest] eqn:Hb; [done|].
  destruct (take_batch b l (replicate 8 0) rs rest Hrep eq_refl Hb) as (ib & Hr & Hib & Hok & Hlen).
  assert (exists vs, Forall2 answers (filter answering rs) vs) as [vs Hvs].
  { clear -Hans. induction rs as [|r rs [vs IH]]; [by exists []|]. rewrite filter_cons.
    case_decide as Hr; [|by exists vs]. destruct (Hans r Hr) as [v Hv]. exists (v :: vs).
    by constructor. }
  pose proof (owed_first l rs rest Hb) as Hfirst. pose proof (Forall2_length _ _ _ Hvs) as Hl.
  destruct (outb_write_spec (bout b) (lk_unread l).*2 vs (lr_out _ _ Hrep)) as (ob & Hw & _).
  { rewrite length_fmap, OUTB_SIZE_val in *. lia. }
  eexists (Box ib ob), (replicate 8 0), _, _, ib, rs, vs, ob. split_and!; try done.
  - lia.
  - by rewrite Nat2Z.id, take_app_length, decode_encode.
Qed.
End visits.

(** Only the first words of the caller's buffer are written. *)
Lemma ring_store_app size n i ws rest base ring :
  0 <= i -> i + Z.of_nat n <= Z.of_nat (length ws) ->
  ring_store size n i (ws ++ rest) base ring = ring_store size n i ws base ring.
Proof.
  revert i ring. induction n as [|n IH]; intros i ring Hi Hn; [done|]. cbn [ring_store].
  assert (aget (ws ++ rest) i = aget ws i) as ->.
  { unfold aget. rewrite (proj2 (Z.leb_le _ _)) by done. by rewrite lookup_app_l by lia. }
  destruct (aget ws i) as [v|]; [|done]. simpl. destruct (aset _ _ v); [|done]. simpl.
  apply IH; lia.
Qed.

Lemma outb_write_app b ws rest :
  outb_write b (Z.of_nat (length ws)) (ws ++ rest) = outb_write b (Z.of_nat (length ws)) ws.
Proof.
  unfold outb_write. rewrite Nat2Z.id. destruct (_ <=? _); [|done]. simpl.
  by rewrite ring_store_app by lia.
Qed.
