(* ===== verification/LinkInv.v ===== *)
(** * LinkInv: the queries of a client and the answers on their way

    What the boxes of a client owe it: the queries it has sent, in order, first
    those whose answers it has taken off the boxes and then those still to come.
    Every visit of a server keeps that, and so does every access of the client
    that takes the next answer or sends a further query. The programs of a client
    are judged against it ([safe]); what a program keeps about the client's own
    data is a parameter. *)
From stdpp Require Import base list gmap relations.
From Stdlib Require Import ZArith Lia.
From S2P Require Import Prelude Protocol MPBuffers Value Partition Server HashTable Client.
From S2P Require Import Link.

Local Open Scope Z_scope.

(** [got] are the answers taken off the boxes and not yet returned, [todo] the
    queries whose answers are still to come, with the servers they went to, and
    [spent] all the answers that were ever returned, with their queries. *)
Record books := Books {
  got : list (request * Z);
  todo : list (nat * request);
  spent : list (request * Z)
}.

(** The queries issued and not yet taken, oldest first. *)
Definition queue (bk : books) : list request := (got bk).*1 ++ (todo bk).*2.

Definition queries_of (s : nat) (l : list (nat * request)) : list request :=
  (filter (fun q => q.1 = s) l).*2.

Lemma queries_of_cons s q l :
  queries_of s (q :: l) = if decide (q.1 = s) then q.2 :: queries_of s l else queries_of s l.
Proof. unfold queries_of. rewrite filter_cons. by case_decide. Qed.

Lemma queries_of_snoc s q l :
  queries_of s (l ++ [q]) = queries_of s l ++ (if decide (q.1 = s) then [q.2] else []).
Proof.
  unfold queries_of. rewrite filter_app, fmap_app. f_equal. rewrite filter_cons. by case_decide.
Qed.

Lemma fmap_insert_same {A B} (g : A -> B) (l : list A) i x y :
  l !! i = Some x -> g y = g x -> g <$> <[i := y]> l = g <$> l.
Proof.
  intros Hx Hg. rewrite list_fmap_insert, Hg. apply list_insert_id. by rewrite list_lookup_fmap, Hx.
Qed.

(** ** Where the answers are

    No step of a client makes or loses an answer: each is unread in a box, taken
    and not yet returned, or returned. So whatever is counted over the answers
    stays the same; [f] is what each of them counts. Only the requests that the
    program may send ([may]) join those in flight. *)
Definition answers_at (f : request * Z -> Z) (bk : books) (ls : list link_state) : Z :=
  zsum f (spent bk) + zsum f (got bk) + zsum (fun l => zsum f (lk_unread l)) ls.

Definition grown (may : request -> Prop) (l l' : link_state) : Prop :=
  exists new, in_flight l' = in_flight l ++ new /\ Forall may new.

Definition trade (may : request -> Prop) (bk : books) (ls : list link_state) (bk' : books)
    (ls' : list link_state) : Prop :=
  (forall f, answers_at f bk' ls' = answers_at f bk ls) /\ Forall2 (grown may) ls ls'.

Definition any_request (r : request) : Prop := True.

Lemma grown_same may l l' : in_flight l' = in_flight l -> grown may l l'.
Proof. intros H. exists []. by rewrite app_nil_r. Qed.

Lemma grown_refl may l : grown may l l.
Proof. by apply grown_same. Qed.

Lemma grown_all may ls : Forall2 (grown may) ls ls.
Proof. induction ls; constructor; [apply grown_refl | done]. Qed.

Lemma trade_refl may bk ls : trade may bk ls bk ls.
Proof. split; [done | apply grown_all]. Qed.

#[export] Hint Resolve trade_refl grown_all : core.

(** Only the books change. *)
Lemma trade_books may bk bk' ls :
  (forall f, zsum f (spent bk') + zsum f (got bk') = zsum f (spent bk) + zsum f (got bk)) ->
  trade may bk ls bk' ls.
Proof. intros Hf. split; [|done]. intros f. specialize (Hf f). unfold answers_at. lia. Qed.

(** The first answer is returned. *)
Lemma trade_spend may bk ls r v rest :
  got bk = (r, v) :: rest -> trade may bk ls (Books rest (todo bk) (spent bk ++ [(r, v)])) ls.
Proof.
  intros Hg. apply trade_books. intros f. rewrite Hg. cbn [got spent]. rewrite zsum_app.
  autorewrite with smp. lia.
Qed.

(** One box changes. *)
Lemma trade_box may bk bk' ls s l l' :
  ls !! s = Some l ->
  (forall f, zsum f (spent bk') + zsum f (got bk') + zsum f (lk_unread l')
             = zsum f (spent bk) + zsum f (got bk) + zsum f (lk_unread l)) ->
  grown may l l' -> trade may bk ls bk' (<[s := l']> ls).
Proof.
  intros Hl Hv Hr. split.
  - intros f. unfold answers_at. rewrite (zsum_insert _ _ _ _ _ Hl). specialize (Hv f). lia.
  - rewrite <- (list_insert_id ls s l Hl) at 1. by apply Forall2_insert.
Qed.

Lemma trade_flush may bk ls s l : ls !! s = Some l -> trade may bk ls bk (<[s := flushed l]> ls).
Proof.
  intros Hl. apply (trade_box _ _ _ _ _ l); [done | |].
  - intros f. unfold flushed. by destruct (lk_buffered l).
  - apply grown_same, flushed_flight.
Qed.

(** An answer goes from its box to the books. *)
Lemma trade_take may bk ls s l r v u td :
  ls !! s = Some l -> lk_unread l = (r, v) :: u ->
  trade may bk ls (Books (got bk ++ [(r, v)]) td (spent bk))
    (<[s := LinkState (lk_batches l) (lk_buffered l) u]> ls).
Proof.
  intros Hl Hu. apply (trade_box _ _ _ _ _ l); [done | | by apply grown_same].
  intros f. rewrite Hu. cbn [got spent lk_unread]. rewrite zsum_app. autorewrite with smp. lia.
Qed.

(** A request is sent. *)
Lemma trade_send (may : request -> Prop) bk bk' ls s l l' r :
  ls !! s = Some l -> sent r l l' -> may r ->
  got bk' = got bk -> spent bk' = spent bk -> trade may bk ls bk' (<[s := l']> ls).
Proof.
  intros Hl (Hf & Hu & _) Hr Hg Hs. apply (trade_box _ _ _ _ _ l); [done | by rewrite Hu, Hg, Hs |].
  exists [r]. split; [done | by constructor].
Qed.

Section links.
Context (answers : request -> Z -> Prop).

(** The boxes [bs] of a client of [n] servers, as links. *)
Record links_inv (n : Z) (bs : list box) (bk : books) (ls : list link_state) : Prop := {
  li_n : 0 < n < 2 ^ 31;
  li_ls : length ls = Z.to_nat n;
  li_boxes : Forall2 link_rep bs ls;
  li_owed : forall s l, ls !! s = Some l -> owed l = queries_of s (todo bk);
  li_todo : forall q, q ∈ todo bk -> (q.1 < length ls)%nat /\ answering q.2;
  li_room : forall s, Z.of_nat (length (queries_of s (todo bk))) <= MAX_PENDING_PER_SERVER;
  li_got : Forall (fun pr => answers pr.1 pr.2) (got bk);
  li_unread : Forall (fun l => Forall (fun pr => answers pr.1 pr.2) (lk_unread l)) ls
}.

(** A visit of some server. *)
Definition env_step (c c' : client) : Prop :=
  exists s b b', cl_boxes c !! s = Some b /\ visited answers b b' /\
    c' = Client (cl_nservers c) (cl_pd c) (<[s := b']> (cl_boxes c)).

Definition has_work (ls : list link_state) : Prop :=
  exists (s : nat) l, ls !! s = Some l /\ lk_batches l <> [].

(** ** Parts of the invariant *)
Section parts.
Context (n : Z) (bs : list box) (bk : books) (ls : list link_state) (Hinv : links_inv n bs bk ls).

Lemma li_box s : (s < length ls)%nat -> exists b l, bs !! s = Some b /\ ls !! s = Some l /\ link_rep b l.
Proof.
  intros Hs. destruct (lookup_lt_is_Some_2 ls s Hs) as [l Hl].
  destruct (Forall2_lookup_r _ _ _ _ _ (li_boxes _ _ _ _ Hinv) Hl) as (b & Hb & Hrep). eauto.
Qed.

Lemma li_owed_room s l : ls !! s = Some l -> (length (owed l) <= Z.to_nat OUTB_SIZE)%nat.
Proof.
  intros Hl. rewrite (li_owed _ _ _ _ Hinv s l Hl). pose proof (li_room _ _ _ _ Hinv s) as Hr.
  change (Z.to_nat OUTB_SIZE) with 64%nat. change MAX_PENDING_PER_SERVER with 56 in Hr. lia.
Qed.

Lemma li_unread_at s l : ls !! s = Some l -> Forall (fun pr => answers pr.1 pr.2) (lk_unread l).
Proof. intros Hl. apply (Forall_lookup_1 _ _ s _ (li_unread _ _ _ _ Hinv) Hl). Qed.

(** A box may change as long as the queries it owes stay. *)
Lemma li_set_box s b' l l' :
  ls !! s = Some l -> link_rep b' l' -> owed l' = owed l ->
  Forall (fun pr => answers pr.1 pr.2) (lk_unread l') ->
  links_inv n (<[s := b']> bs) bk (<[s := l']> ls).
Proof.
  intros Hl Hrep Ho Ha. destruct Hinv. split; simpl; try done.
  - by rewrite length_insert.
  - by apply Forall2_insert.
  - intros s0 l0 H. apply list_lookup_insert_Some in H as [(<- & <- & _)|[_ H]]; [|auto].
    rewrite Ho. auto.
  - intros q Hq. rewrite length_insert. by apply li_todo0.
  - by apply Forall_insert.
Qed.

(** Taking the first answer of a link: it answers the first query of [todo], and
    goes to [got]. *)
Lemma li_take s r rest l r' v u b' :
  todo bk = (s, r) :: rest -> ls !! s = Some l -> lk_unread l = (r', v) :: u ->
  link_rep b' (LinkState (lk_batches l) (lk_buffered l) u) ->
  r' = r /\ answers r v /\
  links_inv n (<[s := b']> bs) (Books (got bk ++ [(r, v)]) rest (spent bk))
    (<[s := LinkState (lk_batches l) (lk_buffered l) u]> ls).
Proof.
  intros Htodo Hl Hu Hrep. set (l' := LinkState _ _ u).
  assert (r' = r /\ owed l' = queries_of s rest) as [-> Ho'].
  { pose proof (li_owed _ _ _ _ Hinv s l Hl) as Ho.
    rewrite Htodo, queries_of_cons, decide_True in Ho by done. unfold owed in Ho |- *.
    rewrite Hu in Ho. simpl in Ho. by injection Ho as -> Ho. }
  pose proof (li_unread_at s l Hl) as Ha. rewrite Hu in Ha. apply Forall_cons in Ha as [Hv Ha].
  split; [done|]. split; [exact Hv|]. destruct Hinv. split; simpl; try done.
  - by rewrite length_insert.
  - by apply Forall2_insert.
  - intros s0 l0 H. apply list_lookup_insert_Some in H as [(<- & <- & _)|[Hne H]]; [done|].
    rewrite (li_owed0 s0 l0 H), Htodo, queries_of_cons. by rewrite decide_False.
  - intros q Hq. rewrite length_insert. apply li_todo0. rewrite Htodo. by right.
  - intros s0. specialize (li_room0 s0). rewrite Htodo, queries_of_cons in li_room0.
    case_decide; simpl in li_room0; lia.
  - apply Forall_app. split; [done|]. by constructor.
  - by apply Forall_insert.
Qed.

(** Sending a query: it joins the end of [todo]. *)
Lemma li_send s r l l' b' :
  ls !! s = Some l -> answering r ->
  Z.of_nat (length (queries_of s (todo bk))) < MAX_PENDING_PER_SERVER ->
  link_rep b' l' -> sent r l l' ->
  links_inv n (<[s := b']> bs) (Books (got bk) (todo bk ++ [(s, r)]) (spent bk)) (<[s := l']> ls).
Proof.
  intros Hl Hans Hroom Hrep (Hf & Hu & _).
  assert (owed l' = owed l ++ [r]) as Ho.
  { unfold owed. rewrite Hf, Hu, filter_app, app_assoc. f_equal. rewrite filter_cons.
    by rewrite decide_True. }
  pose proof (li_unread_at s l Hl) as Hun. destruct Hinv. split; simpl; try done.
  - by rewrite length_insert.
  - by apply Forall2_insert.
  - intros s0 l0 H. rewrite queries_of_snoc. simpl.
    apply list_lookup_insert_Some in H as [(<- & <- & _)|[Hne H]].
    + rewrite decide_True by done. by rewrite Ho, (li_owed0 s l Hl).
    + rewrite decide_False, app_nil_r by done. auto.
  - intros q Hq. rewrite length_insert. apply elem_of_app in Hq as [Hq|Hq]; [by apply li_todo0|].
    apply list_elem_of_singleton in Hq as ->. split; [by eapply lookup_lt_Some | done].
  - intros s0. rewrite queries_of_snoc, length_app. simpl. specialize (li_room0 s0).
    case_decide as He; simpl; [subst|]; lia.
  - apply Forall_insert; [done|]. by rewrite Hu.
Qed.

(** The next answer comes from a server of the table. *)
Lemma li_next s r rest : todo bk = (s, r) :: rest -> (s < length ls)%nat.
Proof. intros Ht. destruct (li_todo _ _ _ _ Hinv (s, r)) as [Hs _]; [rewrite Ht; by left | done]. Qed.

(** A server that owes an answer and has nothing to read from the client's own
    buffer has a batch to serve, or the answer is there. *)
Lemma li_flushed_work s r rest l :
  todo bk = (s, r) :: rest -> ls !! s = Some l -> lk_buffered l = [] -> lk_unread l = [] -> has_work ls.
Proof.
  intros Ht Hl Hb Hu. exists s, l. split; [done|]. intros Hbt.
  pose proof (li_owed _ _ _ _ Hinv s l Hl) as Ho. rewrite Ht, queries_of_cons, decide_True in Ho by done.
  unfold owed, in_flight in Ho. by rewrite Hu, Hbt, Hb in Ho.
Qed.
End parts.

(** ** Clients

    [P] is what a program keeps about the client's own data, [may] the requests
    it may send. *)
Section client.
Context (P : Z -> pending_data -> books -> Prop) (may : request -> Prop).

Definition inv (c : client) (bk : books) (ls : list link_state) : Prop :=
  links_inv (cl_nservers c) (cl_boxes c) bk ls /\ P (cl_nservers c) (cl_pd c) bk.

(** How far the servers are. *)
Definition work (ls : list link_state) : nat := sum_list_with (fun l => length (lk_batches l)) ls.

Lemma work_insert ls s l l' :
  ls !! s = Some l -> (work (<[s := l']> ls) + length (lk_batches l) = work ls + length (lk_batches l'))%nat.
Proof.
  unfold work. revert s. induction ls as [|x ls IH]; intros [|s] H; simplify_eq/=; [lia|].
  specialize (IH _ H). lia.
Qed.

(** A visit keeps the invariant and what is not flushed, and takes a batch. *)
Lemma visit_ok c bk ls s b b' :
  inv c bk ls -> cl_boxes c !! s = Some b -> visited answers b b' ->
  exists ls', inv (Client (cl_nservers c) (cl_pd c) (<[s := b']> (cl_boxes c))) bk ls' /\
    lk_buffered <$> ls' = lk_buffered <$> ls /\ (work ls' < work ls)%nat.
Proof.
  intros [Hinv HP] Hb Hv.
  destruct (Forall2_lookup_l _ _ _ _ _ (li_boxes _ _ _ _ Hinv) Hb) as (l & Hl & Hrep).
  destruct (visited_ok answers b b' l Hrep (li_owed_room _ _ _ _ Hinv _ _ Hl) Hv)
    as (pairs & l' & Hrep' & Hans & Hp).
  exists (<[s := l']> ls). pose proof (answered_owed _ _ _ Hans) as Ho.
  destruct Hans as (rs & Hbt & Hbuf & Hu & _). split; [|split].
  - split; [|exact HP]. apply (li_set_box _ _ _ _ Hinv s b' l l'); try done. rewrite Hu.
    apply Forall_app. split; [by apply (li_unread_at _ _ _ _ Hinv _ _ Hl) | done].
  - by apply (fmap_insert_same _ _ _ l).
  - pose proof (work_insert ls s l l' Hl) as Hw. rewrite Hbt in Hw. simpl in Hw. lia.
Qed.

Lemma env_ok c c' bk ls :
  inv c bk ls -> env_step c c' ->
  exists ls', inv c' bk ls' /\ lk_buffered <$> ls' = lk_buffered <$> ls.
Proof.
  intros Hinv (s & b & b' & Hb & Hv & ->).
  destruct (visit_ok c bk ls s b b' Hinv Hb Hv) as (ls' & Hinv' & Hbuf & _). eauto.
Qed.

(** Where there is work, some server can make a visit. *)
Lemma env_progress c bk ls :
  (forall r, answering r -> exists v, answers r v) -> inv c bk ls -> has_work ls ->
  exists c' ls', env_step c c' /\ inv c' bk ls' /\
    lk_buffered <$> ls' = lk_buffered <$> ls /\ (work ls' < work ls)%nat.
Proof.
  intros Hans Hinv (s & l & Hl & Hne). destruct (proj1 Hinv) as [_ _ Hbs _ _ _ _ _].
  destruct (Forall2_lookup_r _ _ _ _ _ Hbs Hl) as (b & Hb & Hrep).
  destruct (visit_possible answers b l Hrep (li_owed_room _ _ _ _ (proj1 Hinv) _ _ Hl) Hne Hans) as [b' Hv].
  destruct (visit_ok c bk ls s b b' Hinv Hb Hv) as (ls' & Hinv' & Hbuf & Hw).
  eexists _, ls'. split; [by exists s, b, b' | done].
Qed.

(** ** Safe programs

    [safe Q bk bufs r]: run from a client whose books are [bk] and whose
    unflushed requests are [bufs], with any visits of servers in between, [r]
    keeps the invariant and every answer, never faults, waits only while some server has a batch
    to serve, and ends with [Q]. *)
Fixpoint safe {A} (Q : books -> list (list request) -> A -> Prop)
    (bk : books) (bufs : list (list request)) (r : prog A) : Prop :=
  match r with
  | Done a => Q bk bufs a
  | Step f => forall c ls, inv c bk ls -> lk_buffered <$> ls = bufs ->
      match f c with
      | Ok (c', r') => exists bk' ls', inv c' bk' ls' /\ trade may bk ls bk' ls' /\
                         safe Q bk' (lk_buffered <$> ls') r'
      | Fault Blocked => has_work ls
      | Fault _ => False
      end
  end.

(** Induction on programs. *)
Fixpoint prog_induction {A} (R : prog A -> Prop) (Hd : forall a, R (Done a))
    (Hs : forall f, (forall c c' r, f c = Ok (c', r) -> R r) -> R (Step f)) (r : prog A) : R r :=
  match r with
  | Done a => Hd a
  | Step f => Hs f (fun c =>
      match f c as o return (forall c' r, o = Ok (c', r) -> R r) with
      | Ok (c1, r1) => fun c' r H =>
          match H in (_ = o) return (match o with Ok (_, r) => R r | Fault _ => True end) with
          | eq_refl => prog_induction R Hd Hs r1
          end
      | Fault e => fun c' r H => match H with end
      end)
  end.

Lemma safe_bind {A B} (Q : books -> list (list request) -> A -> Prop)
    (R : books -> list (list request) -> B -> Prop) bk bufs r k :
  safe Q bk bufs r -> (forall bk' bufs' a, Q bk' bufs' a -> safe R bk' bufs' (k a)) ->
  safe R bk bufs (andthen r k).
Proof.
  intros Hr Hk. revert bk bufs Hr. induction r as [a|f IH] using prog_induction; intros bk bufs Hr.
  - by apply Hk.
  - simpl in Hr |- *. intros c ls Hinv Hb. specialize (Hr c ls Hinv Hb). specialize (IH c).
    destruct (f c) as [[c' r']|e]; [|done].
    destruct Hr as (bk' & ls' & Hinv' & Ht & Hr'). exists bk', ls'. split; [done|]. split; [done|]. by eapply IH.
Qed.

Lemma safe_mono {A} (Q R : books -> list (list request) -> A -> Prop) bk bufs r :
  safe Q bk bufs r -> (forall bk' bufs' a, Q bk' bufs' a -> R bk' bufs' a) -> safe R bk bufs r.
Proof.
  intros Hr Hk. revert bk bufs Hr. induction r as [a|f IH] using prog_induction; intros bk bufs Hr.
  - by apply Hk.
  - simpl in Hr |- *. intros c ls Hinv Hb. specialize (Hr c ls Hinv Hb). specialize (IH c).
    destruct (f c) as [[c' r']|e]; [|done].
    destruct Hr as (bk' & ls' & Hinv' & Ht & Hr'). exists bk', ls'. split; [done|]. split; [done|]. by eapply IH.
Qed.

(** What was taken answers its queries, in any final books. *)
Lemma safe_answered {A} (Q : books -> list (list request) -> A -> Prop) bk bufs r :
  Forall (fun pr => answers pr.1 pr.2) (got bk) -> safe Q bk bufs r ->
  safe (fun bk' bufs' a => Q bk' bufs' a /\ Forall (fun pr => answers pr.1 pr.2) (got bk')) bk bufs r.
Proof.
  revert bk bufs. induction r as [a|f IH] using prog_induction; intros bk bufs Hg Hr; [done|].
  simpl in Hr |- *. intros c ls Hinv Hb. specialize (Hr c ls Hinv Hb). specialize (IH c).
  destruct (f c) as [[c' r']|e]; [|done]. destruct Hr as (bk' & ls' & Hinv' & Ht & Hr').
  exists bk', ls'. split; [done|]. split; [done|]. eapply IH; [done | apply (li_got _ _ _ _ (proj1 Hinv')) | done].
Qed.

(** With nothing to come, what was taken earlier may count as returned, for a program
    whose result does not mention it. *)
Lemma safe_forget {A} (Q : books -> list (list request) -> A -> Prop) g sp bufs r :
  (forall n pd bk bk', P n pd bk -> P n pd bk') -> (forall bk bk' bufs a, Q bk bufs a -> Q bk' bufs a) ->
  safe Q (Books [] [] (sp ++ g)) bufs r -> safe Q (Books g [] sp) bufs r.
Proof.
  intros HP HQ. destruct r as [a|f]; [apply HQ|]. intros Hs c ls [Hl Hinv] Hb.
  assert (inv c (Books [] [] (sp ++ g)) ls) as Hi.
  { split; [|by eapply HP]. destruct Hl. split; simpl in *; try done. }
  specialize (Hs c ls Hi Hb). destruct (f c) as [[c' r']|e]; [|done].
  destruct Hs as (bk' & ls' & Hi' & [Hv Hrel] & Hr'). exists bk', ls'. split; [done|]. split; [|done].
  split; [|done]. intros w. rewrite Hv. unfold answers_at. simpl. rewrite zsum_app. autorewrite with smp. lia.
Qed.

(** A single access. *)
Lemma safe_act {A} (Q : books -> list (list request) -> A -> Prop) bk bufs f :
  (forall c ls, inv c bk ls -> lk_buffered <$> ls = bufs ->
     match f c with
     | Ok (c', a) => exists bk' ls', inv c' bk' ls' /\ trade may bk ls bk' ls' /\ Q bk' (lk_buffered <$> ls') a
     | Fault Blocked => has_work ls
     | Fault _ => False
     end) ->
  safe Q bk bufs (act f).
Proof.
  intros Hf c ls Hinv Hb. specialize (Hf c ls Hinv Hb). destruct (f c) as [[c' a]|e]; done.
Qed.

Local Arguments safe : simpl never.

(** ** Accesses *)
Lemma on_box_run {A} (f : box -> result (box * A)) c s b :
  cl_boxes c !! s = Some b ->
  on_box (Z.of_nat s) f c =
    match f b with
    | Ok (b', a) => Ok (Client (cl_nservers c) (cl_pd c) (<[s := b']> (cl_boxes c)), a)
    | Fault e => Fault e
    end.
Proof.
  intros Hb. unfold on_box.
  assert (aget (cl_boxes c) (Z.of_nat s) = Ok b) as ->
    by (apply aget_Ok; rewrite Nat2Z.id; split; [lia | done]).
  simpl. destruct (f b) as [[b' a]|e]; [|done]. simpl.
  apply lookup_lt_Some in Hb. rewrite aset_in by lia. by rewrite Nat2Z.id.
Qed.

(** Flushing moves requests, and waits only when the server has work. *)
Lemma flush_ok c bk ls s :
  inv c bk ls -> (s < length ls)%nat ->
  match on_box (Z.of_nat s) box_flush c with
  | Ok (c', _) => exists l, ls !! s = Some l /\ inv c' bk (<[s := flushed l]> ls)
  | Fault Blocked => has_work ls
  | Fault _ => False
  end.
Proof.
  intros [Hinv HP] Hs. destruct (li_box _ _ _ _ Hinv s Hs) as (b & l & Hb & Hl & Hrep).
  rewrite (on_box_run _ _ _ _ Hb). pose proof (box_flush_ok b l Hrep) as Hf.
  destruct (box_flush b) as [[b' []]|e].
  - exists l. split; [done|]. split; [|exact HP]. apply (li_set_box _ _ _ _ Hinv s b' l); try done.
    + unfold owed. rewrite flushed_flight. unfold flushed. by destruct (lk_buffered l).
    + unfold flushed. destruct (lk_buffered l); by apply (li_unread_at _ _ _ _ Hinv _ _ Hl).
  - destruct Hf as [-> Hfull]. exists s, l. split; [done|]. intros He. unfold full in Hfull.
    by rewrite He in Hfull.
Qed.

Lemma bufs_index (ls : list link_state) bufs s :
  lk_buffered <$> ls = bufs -> (s < length bufs)%nat -> (s < length ls)%nat.
Proof. intros <-. by rewrite length_fmap. Qed.

Lemma safe_flush bk bufs s :
  (s < length bufs)%nat ->
  safe (fun bk' bufs' _ => bk' = bk /\ bufs' = <[s := []]> bufs) bk bufs (act (on_box (Z.of_nat s) box_flush)).
Proof.
  intros Hs. apply safe_act. intros c ls Hinv Hb.
  pose proof (flush_ok c bk ls s Hinv (bufs_index _ _ _ Hb Hs)) as Hf.
  destruct (on_box _ box_flush c) as [[c2 []]|[]]; try done.
  destruct Hf as (l & Hl & Hinv2). exists bk, (<[s := flushed l]> ls). split; [done|].
  split; [by apply trade_flush|]. split; [done|]. by rewrite list_fmap_insert, flushed_empty, Hb.
Qed.

(** Taking the next answer with [store], which files it. *)
Section fetch.
Context {A : Type} (store : Z -> client -> result (client * A)).
Context (Q : books -> list (list request) -> A -> Prop).
Context (bk : books) (bufs : list (list request)) (s : nat) (r : request) (rest : list (nat * request)).
Context (Htodo : todo bk = (s, r) :: rest).
Context (Hstore : forall v c ls, answers r v ->
  links_inv (cl_nservers c) (cl_boxes c) (Books (got bk ++ [(r, v)]) rest (spent bk)) ls ->
  P (cl_nservers c) (cl_pd c) bk -> length ls = length bufs ->
  (forall t, bufs !! t = Some [] -> (lk_buffered <$> ls) !! t = Some []) ->
  exists c' a, store v c = Ok (c', a) /\ inv c' (Books (got bk ++ [(r, v)]) rest (spent bk)) ls /\
    Q (Books (got bk ++ [(r, v)]) rest (spent bk)) (lk_buffered <$> ls) a).

Lemma blocking_fetch_ok :
  bufs !! s = Some [] ->
  safe Q bk bufs (act (fun c => '(c, v) ← on_box (Z.of_nat s) box_blocking_read c; store v c)).
Proof.
  intros Hempty. apply safe_act. intros c ls [Hinv HP] Hb.
  destruct (li_box _ _ _ _ Hinv s (li_next _ _ _ _ Hinv s r rest Htodo)) as (b & l & Hbx & Hl & Hrep).
  rewrite (on_box_run _ _ _ _ Hbx). pose proof (box_blocking_read_ok b l Hrep) as Hread.
  assert (lk_buffered l = []) as Hbl.
  { rewrite <- Hb, list_lookup_fmap, Hl in Hempty. by injection Hempty. }
  destruct (lk_unread l) as [|[r' v] u] eqn:Hu.
  - rewrite Hread. simpl. by apply (li_flushed_work _ _ _ _ Hinv s r rest l).
  - destruct Hread as (b' & -> & Hrep').
    destruct (li_take _ _ _ _ Hinv s r rest l r' v u b' Htodo Hl Hu Hrep') as (-> & Hv & Hinv').
    cbn [mbind result_bind].
    destruct (Hstore v (Client (cl_nservers c) (cl_pd c) (<[s := b']> (cl_boxes c))) _ Hv Hinv' HP)
      as (c' & a & -> & Hinv2 & HQ).
    + by rewrite length_insert, <- Hb, length_fmap.
    + intros t Ht. rewrite (fmap_insert_same _ _ _ l) by done. by rewrite Hb.
    + eexists _, _. split; [exact Hinv2|]. split; [by apply (trade_take _ _ _ _ _ r v u) | exact HQ].
Qed.
End fetch.

Lemma fetch_ok {A} (store : Z -> client -> result (client * A)) (Q : books -> list (list request) -> A -> Prop)
    bk bufs s r rest c ls :
  todo bk = (s, r) :: rest ->
  (forall v c ls, answers r v ->
     links_inv (cl_nservers c) (cl_boxes c) (Books (got bk ++ [(r, v)]) rest (spent bk)) ls ->
     P (cl_nservers c) (cl_pd c) bk -> length ls = length bufs ->
     exists c' a, store v c = Ok (c', a) /\ inv c' (Books (got bk ++ [(r, v)]) rest (spent bk)) ls /\
       Q (Books (got bk ++ [(r, v)]) rest (spent bk)) (lk_buffered <$> ls) a) ->
  inv c bk ls -> lk_buffered <$> ls = bufs ->
  match fetch (Z.of_nat s) store c with
  | Ok (c', r') => exists bk' ls', inv c' bk' ls' /\ trade may bk ls bk' ls' /\
                     safe Q bk' (lk_buffered <$> ls') r'
  | Fault Blocked => has_work ls
  | Fault _ => False
  end.
Proof.
  intros Htodo Hstore [Hinv HP] Hbufs. unfold fetch.
  pose proof (li_next _ _ _ _ Hinv s r rest Htodo) as Hs.
  destruct (li_box _ _ _ _ Hinv s Hs) as (b & l & Hb & Hl & Hrep).
  rewrite (on_box_run _ _ _ _ Hb). destruct (box_read_ok b l Hrep) as (b' & Hrep' & ->).
  destruct (lk_unread l) as [|[r' v] u] eqn:Hu; cbn [tail head] in Hrep' |- *;
    [change (snd <$> None) with (@None Z) | change (snd <$> Some (r', v)) with (Some v)];
    cbn [mbind result_bind mret result_ret].
  - exists bk, (<[s := LinkState (lk_batches l) (lk_buffered l) []]> ls). split.
    { split; [|exact HP]. apply (li_set_box _ _ _ _ Hinv s b' l); try done. unfold owed. by rewrite Hu. }
    split; [apply (trade_box _ _ _ _ _ l); [done | by rewrite Hu | by apply grown_same]|].
    rewrite (fmap_insert_same _ _ _ l), Hbufs by done.
    assert (s < length bufs)%nat as Hsb by (by rewrite <- Hbufs, length_fmap).
    apply (safe_bind (fun bk' bufs' _ => bk' = bk /\ bufs' = <[s := []]> bufs) Q bk bufs);
      [by apply safe_flush|].
    intros bk' bufs' _ [-> ->]. apply (blocking_fetch_ok store Q bk _ s r rest Htodo).
    + intros v c1 ls1 Hv Hl1 HP1 Hlen1 _. rewrite length_insert in Hlen1. by apply Hstore.
    + by apply list_lookup_insert_eq.
  - destruct (li_take _ _ _ _ Hinv s r rest l r' v u b' Htodo Hl Hu Hrep') as (-> & Hv & Hinv').
    destruct (Hstore v (Client (cl_nservers c) (cl_pd c) (<[s := b']> (cl_boxes c))) _ Hv Hinv' HP)
      as (c' & a & -> & Hinv2 & HQ); [by rewrite length_insert, <- Hbufs, length_fmap|].
    simpl. eexists _, _. split; [exact Hinv2|]. split; [by apply (trade_take _ _ _ _ _ r v u) | exact HQ].
Qed.

(** Sending a query with [note], which counts it. *)
Lemma send_ok {A} (note : client -> result (client * A)) (Q : books -> list (list request) -> A -> Prop)
    bk bufs s r :
  (s < length bufs)%nat -> answering r -> request_ok r -> may r ->
  Z.of_nat (length (queries_of s (todo bk))) < MAX_PENDING_PER_SERVER ->
  (forall c ls, links_inv (cl_nservers c) (cl_boxes c) (Books (got bk) (todo bk ++ [(s, r)]) (spent bk)) ls ->
     P (cl_nservers c) (cl_pd c) bk -> length ls = length bufs ->
     exists c' a, note c = Ok (c', a) /\ inv c' (Books (got bk) (todo bk ++ [(s, r)]) (spent bk)) ls /\
       Q (Books (got bk) (todo bk ++ [(s, r)]) (spent bk)) (lk_buffered <$> ls) a) ->
  safe Q bk bufs (act (fun c => '(c, _) ← on_box (Z.of_nat s) (box_write (encode r)) c; note c)).
Proof.
  intros Hs Hans Hr Hmay Hroom Hnote. apply safe_act. intros c ls [Hinv HP] Hbufs.
  destruct (li_box _ _ _ _ Hinv s (bufs_index _ _ _ Hbufs Hs)) as (b & l & Hb & Hl & Hrep).
  rewrite (on_box_run _ _ _ _ Hb). pose proof (box_write_ok b l r Hrep Hr) as Hw.
  destruct (box_write (encode r) b) as [[b' []]|f]; cbn [mbind result_bind].
  - destruct Hw as (l' & Hrep' & Hsent).
    pose proof (li_send _ _ _ _ Hinv s r l l' b' Hl Hans Hroom Hrep' Hsent) as Hinv'.
    destruct (Hnote (Client (cl_nservers c) (cl_pd c) (<[s := b']> (cl_boxes c))) _ Hinv' HP)
      as (c' & a & -> & Hinv2 & HQ); [by rewrite length_insert, <- Hbufs, length_fmap|].
    eexists _, _. split; [exact Hinv2|]. split; [by apply (trade_send _ _ _ _ _ l _ r) | exact HQ].
  - destruct Hw as [-> Hfull]. exists s, l. split; [done|]. intros Hn. unfold full in Hfull.
    by rewrite Hn in Hfull.
Qed.

(** A message without an answer leaves the books alone. *)
Lemma send_release_ok c bk ls s e :
  inv c bk ls -> (s < length ls)%nat -> arg_ok e ->
  match on_box (Z.of_nat s) (box_write [release_word e]) c with
  | Ok (c', _) => exists l l', ls !! s = Some l /\ sent (Release e) l l' /\ inv c' bk (<[s := l']> ls)
  | Fault Blocked => has_work ls
  | Fault _ => False
  end.
Proof.
  intros [Hinv HP] Hs He. destruct (li_box _ _ _ _ Hinv s Hs) as (b & l & Hb & Hl & Hrep).
  rewrite (on_box_run _ _ _ _ Hb).
  pose proof (box_write_ok b l (Release e) Hrep He) as Hw. cbn [encode] in Hw.
  destruct (box_write [release_word e] b) as [[b' []]|f].
  - destruct Hw as (l' & Hrep' & Hsent). exists l, l'. split; [done|]. split; [done|].
    destruct Hsent as (Hf & Hu & _). split; [|exact HP].
    apply (li_set_box _ _ _ _ Hinv s b' l l'); try done.
    + unfold owed. rewrite Hf, Hu, filter_app. rewrite (filter_cons _ (Release e)).
      rewrite decide_False by (simpl; tauto). by rewrite app_nil_r.
    + rewrite Hu. by apply (li_unread_at _ _ _ _ Hinv _ _ Hl).
  - destruct Hw as [-> Hfull]. exists s, l. split; [done|]. intros Hn. unfold full in Hfull.
    by rewrite Hn in Hfull.
Qed.

(** The first step of a release sends the message, to the server of the element; what
    comes after it, if anything, flushes. *)
Definition release_sends (e : Z) (el : elem) (c : client) (bk : books) (ls : list link_state)
    (x : result (client * prog unit)) : Prop :=
  let s := Z.to_nat (hash_get_server (cl_nservers c) (key el)) in
  match x with
  | Ok (c', r') => exists l l', ls !! s = Some l /\ sent (Release e) l l' /\ inv c' bk (<[s := l']> ls) /\
      safe (fun bk' bufs' _ => length bufs' = length ls /\ bk' = bk) bk (lk_buffered <$> <[s := l']> ls) r'
  | Fault Blocked => has_work ls
  | Fault _ => False
  end.

Lemma release_sends_ok c bk ls h ptr force el :
  addr_ok (elem_of_ptr ptr) -> h !! elem_of_ptr ptr = Some el -> inv c bk ls ->
  match mp_send_release_msg_ h ptr force with
  | Step f => release_sends (elem_of_ptr ptr) el c bk ls (f c)
  | Done _ => False
  end.
Proof.
  intros [Ha1 Ha2] Hel Hinv. unfold sizeof_elem in Ha2.
  assert (arg_ok (elem_of_ptr ptr)) as Harg by (unfold arg_ok; lia). unfold mp_send_release_msg_.
  destruct (release_word_split _ Harg) as [_ ->]. rewrite Z.eqb_refl, Hel. cbn [check deref mbind result_bind].
  pose proof (li_n _ _ _ _ (proj1 Hinv)) as Hn. pose proof (hash_get_server_range _ (key el) Hn) as Hrange.
  pose proof (li_ls _ _ _ _ (proj1 Hinv)) as Hlen. unfold release_sends.
  set (s := Z.to_nat (hash_get_server (cl_nservers c) (key el))).
  replace (hash_get_server (cl_nservers c) (key el)) with (Z.of_nat s) by (subst s; lia).
  assert (s < length ls)%nat as Hs by (subst s; lia). clearbody s.
  pose proof (send_release_ok c bk ls s _ Hinv Hs Harg) as Hr.
  destruct (on_box _ (box_write _) c) as [[c' []]|[]]; try done.
  destruct Hr as (l0 & l' & Hl0 & Hsent & Hinv'). cbn [mbind result_bind mret result_ret].
  exists l0, l'. do 3 (split; [done|]).
  set (ls' := <[s := l']> ls) in *. assert (length ls' = length ls) as Hll by apply length_insert. clearbody ls'.
  destruct force; [|split; [by rewrite length_fmap | done]]. apply safe_act. intros c1 ls1 Hinv1 Hb1.
  assert (length ls1 = length ls) as Hl1.
  { apply (f_equal length) in Hb1. rewrite !length_fmap in Hb1. lia. }
  pose proof (flush_ok c1 bk ls1 s Hinv1 ltac:(lia)) as Hf.
  destruct (on_box _ box_flush c1) as [[c2 []]|[]]; try done.
  destruct Hf as (l1 & Hl1' & Hinv2). exists bk, (<[s := flushed l1]> ls1). split; [done|].
  split; [by apply trade_flush|]. split; [|done]. by rewrite length_fmap, length_insert.
Qed.

(** Releasing sends a message and touches no query. *)
Lemma send_release_msg_ok bk bufs h ptr force el :
  may (Release (elem_of_ptr ptr)) -> addr_ok (elem_of_ptr ptr) -> h !! elem_of_ptr ptr = Some el ->
  safe (fun bk' bufs' _ => length bufs' = length bufs /\ bk' = bk)
    bk bufs (mp_send_release_msg_ h ptr force).
Proof.
  intros Hmay Ha Hel.
  pose proof (fun c ls => release_sends_ok c bk ls h ptr force el Ha Hel) as Hr.
  destruct (mp_send_release_msg_ h ptr force) as [u|f] eqn:Hf; [done|].
  intros c ls Hinv Hbufs. specialize (Hr c ls Hinv). unfold release_sends in Hr.
  destruct (f c) as [[c' r']|e]; [|done]. destruct Hr as (l & l' & Hl & Hsent & Hinv' & Hsafe).
  eexists bk, _. split; [exact Hinv'|].
  split; [by apply (trade_send _ _ _ _ _ l _ (Release (elem_of_ptr ptr)))|].
  by rewrite <- Hbufs, length_fmap.
Qed.

(** ** Interleavings *)

(** The client makes its next step, or some server visits one of its boxes. *)
Inductive call_step {A} : client * prog A -> client * prog A -> Prop :=
  | client_runs c f c' r : f c = Ok (c', r) -> call_step (c, Step f) (c', r)
  | server_runs c c' r : env_step c c' -> call_step (c, r) (c', r).

(** The state a safe call can be in: it ran to its end, or its next step can be
    made, or it waits and a server can make a visit. *)
Definition not_stuck {A} (x : client * prog A) : Prop :=
  match x.2 with
  | Done _ => True
  | Step f => (exists c' r, f x.1 = Ok (c', r)) \/
              (f x.1 = Fault Blocked /\ exists c', env_step x.1 c')
  end.

Lemma safe_steps {A} (Q : books -> list (list request) -> A -> Prop) x y bk ls :
  rtc call_step x y -> inv x.1 bk ls -> safe Q bk (lk_buffered <$> ls) x.2 ->
  exists bk' ls', inv y.1 bk' ls' /\ safe Q bk' (lk_buffered <$> ls') y.2.
Proof.
  intros Hsteps. revert bk ls. induction Hsteps as [x|x y z Hxy _ IH]; intros bk ls Hinv Hsafe.
  - eauto.
  - destruct Hxy as [c f c' r Hf|c c' r Henv]; simpl in *.
    + specialize (Hsafe c ls Hinv eq_refl). rewrite Hf in Hsafe.
      destruct Hsafe as (bk' & ls' & Hinv' & _ & Hsafe'). by apply (IH bk' ls').
    + destruct (env_ok c c' bk ls Hinv Henv) as (ls' & Hinv' & Hbuf).
      apply (IH bk ls'); [done|]. by rewrite Hbuf.
Qed.

Lemma safe_not_stuck {A} (Q : books -> list (list request) -> A -> Prop) c r bk ls :
  (forall r, answering r -> exists v, answers r v) ->
  inv c bk ls -> safe Q bk (lk_buffered <$> ls) r -> not_stuck (c, r).
Proof.
  intros Hans Hinv Hsafe. destruct r as [a|f]; [done|]. unfold not_stuck. simpl.
  specialize (Hsafe c ls Hinv eq_refl). destruct (f c) as [[c' r']|[]]; [eauto | done | done |].
  right. split; [done|]. destruct (env_progress c bk ls Hans Hinv Hsafe) as (c' & ls' & Henv & _). eauto.
Qed.

(** A safe program can always be brought to its end. *)
Lemma safe_completes {A} (Q : books -> list (list request) -> A -> Prop) r :
  (forall r, answering r -> exists v, answers r v) ->
  forall c bk ls, inv c bk ls -> safe Q bk (lk_buffered <$> ls) r ->
  exists c' a, rtc call_step (c, r) (c', Done a).
Proof.
  intros Hans. induction r as [a|f IH] using prog_induction; intros c bk ls Hinv Hsafe.
  { exists c, a. apply rtc_refl. }
  remember (work ls) as w eqn:Hw. revert c ls Hw Hinv Hsafe.
  induction w as [w IHw] using lt_wf_ind. intros c ls -> Hinv Hsafe.
  pose proof (Hsafe c ls Hinv eq_refl) as Hstep. specialize (IH c).
  destruct (f c) as [[c1 r1]|[]] eqn:Hf; try done.
  - destruct Hstep as (bk1 & ls1 & Hinv1 & _ & Hsafe1).
    destruct (IH c1 r1 eq_refl c1 bk1 ls1 Hinv1 Hsafe1) as (c2 & a & Hrun).
    exists c2, a. apply rtc_l with (c1, r1); [by constructor | done].
  - destruct (env_progress c bk ls Hans Hinv Hstep) as (c1 & ls1 & Henv & Hinv1 & Hb & Hlt).
    destruct (IHw (work ls1) Hlt c1 ls1 eq_refl Hinv1) as (c2 & a & Hrun); [by rewrite Hb|].
    exists c2, a. apply rtc_l with (c1, Step f); [by constructor | done].
Qed.
End client.
End links.

Arguments safe : simpl never.
