(* ===== verification/ClientInv.v ===== *)
(** * ClientInv: the books of a client

    What the pending ring and the counters of a client mean: the queries it has
    issued, in order, first those whose answers have been read and then those
    still to come. Every step of a client call keeps that together with what the
    boxes owe ([LinkInv]). *)
From stdpp Require Import base list gmap relations.
From Stdlib Require Import ZArith Lia.
From S2P Require Import Prelude Protocol MPBuffers Value Partition Server HashTable Client.
From S2P Require Import Link LinkInv.

Local Open Scope Z_scope.

(** ** Ring slots *)
Lemma slot_mod x : slot x = x mod 2 ^ 16.
Proof. unfold slot. change (MAX_PENDING_SIZE - 1) with (2 ^ 16 - 1). by apply land_ones_mod. Qed.

Lemma slot_u64 x : slot (u64 x) = slot x.
Proof. rewrite !slot_mod. by apply u64_mod_pow2. Qed.

Lemma slot_inj x i j :
  0 <= i < MAX_PENDING_SIZE -> 0 <= j < MAX_PENDING_SIZE -> slot (x + i) = slot (x + j) -> i = j.
Proof.
  rewrite !slot_mod. change MAX_PENDING_SIZE with (2 ^ 16). intros Hi Hj.
  by apply mod_near_inj.
Qed.

(** The library's view of a query: the server that its key selects. *)
Definition query_key (r : request) : Z :=
  match r with Lookup k => k | Insert k _ => k | Release e => e end.

(** ** The client's own data

    [got] are the answers between [rd_index] and [wr_index], [todo] the queries
    between [wr_index] and [pending_index]. *)
Record pd_inv (n : Z) (pd : pending_data) (bk : books) : Prop := {
  pi_counts : length (pending_count pd) = Z.to_nat n;
  pi_count : forall s, (s < Z.to_nat n)%nat ->
    pending_count pd !! s = Some (Z.of_nat (length (queries_of s (todo bk))));
  pi_rd : 0 <= rd_index pd < 2 ^ 64;
  pi_wr : pd_wr_index pd = u64 (rd_index pd + Z.of_nat (length (got bk)));
  pi_pi : pending_index pd =
    u64 (rd_index pd + Z.of_nat (length (got bk)) + Z.of_nat (length (todo bk)));
  pi_fit : Z.of_nat (length (got bk) + length (todo bk)) <= MAX_PENDING_SIZE;
  pi_values : forall i q, got bk !! i = Some q ->
    pending_values pd !! slot (rd_index pd + Z.of_nat i) = Some q.2;
  pi_servers : forall i q, todo bk !! i = Some q ->
    pending_servers pd !! slot (rd_index pd + Z.of_nat (length (got bk) + i)) = Some (Z.of_nat q.1);
  pi_routed : forall q, q ∈ todo bk -> Z.of_nat q.1 = hash_get_server n (query_key q.2)
}.

(** The next answer to come is the first query of [todo]. *)
Lemma next_server_ok n pd bk s r rest :
  pd_inv n pd bk -> todo bk = (s, r) :: rest -> next_server pd = Ok (Z.of_nat s).
Proof.
  intros Hinv Ht. unfold next_server. rewrite (pi_wr _ _ _ Hinv), slot_u64.
  pose proof (pi_servers _ _ _ Hinv 0%nat (s, r)) as Hs. rewrite Ht in Hs.
  specialize (Hs eq_refl). rewrite Nat.add_0_r in Hs. by rewrite Hs.
Qed.

(** Filing the next answer. *)
Lemma store_ok n bk c s r rest v :
  n = cl_nservers c -> pd_inv n (cl_pd c) bk -> todo bk = (s, r) :: rest -> (s < Z.to_nat n)%nat ->
  Z.of_nat (length (queries_of s rest)) < MAX_PENDING_PER_SERVER ->
  exists pd', store_value (Z.of_nat s) v c = Ok (Client (cl_nservers c) pd' (cl_boxes c), tt) /\
    pd_inv n pd' (Books (got bk ++ [(r, v)]) rest (spent bk)).
Proof.
  intros Hn Hinv Ht Hs Hroom. pose proof (pi_count _ _ _ Hinv s Hs) as Hcnt.
  rewrite Ht, queries_of_cons, decide_True in Hcnt by done. simpl length in Hcnt.
  change MAX_PENDING_PER_SERVER with 56 in Hroom. pose proof (pi_counts _ _ _ Hinv) as Hlen.
  unfold store_value. cbn [cl_pd].
  assert (aget (pending_count (cl_pd c)) (Z.of_nat s) = Ok (Z.of_nat (S (length (queries_of s rest))))) as ->
    by (apply aget_Ok; rewrite Nat2Z.id; split; [lia | done]).
  cbn [mbind result_bind]. rewrite aset_in by lia. rewrite Nat2Z.id. cbn [mbind result_bind].
  rewrite i32_small by lia.
  replace (Z.of_nat (S (length (queries_of s rest))) - 1) with (Z.of_nat (length (queries_of s rest))) by lia.
  eexists. split; [reflexivity|].
  assert (forall x, slot (pd_wr_index (cl_pd c) + x)
          = slot (rd_index (cl_pd c) + Z.of_nat (length (got bk)) + x)) as Hslot.
  { intros x. rewrite (pi_wr _ _ _ Hinv), <- slot_u64, u64_add_l. apply slot_u64. }
  specialize (Hslot 0). rewrite !Z.add_0_r in Hslot.
  pose proof (pi_fit _ _ _ Hinv) as Hfit. rewrite Ht in Hfit. simpl in Hfit.
  destruct Hinv. split; simpl; rewrite ?length_app, ?Nat.add_1_r; try done.
  - by rewrite length_insert.
  - intros s0 H0. destruct (decide (s0 = s)) as [->|Hne].
    + by rewrite list_lookup_insert_eq by lia.
    + rewrite list_lookup_insert_ne by done. rewrite (pi_count0 s0 H0), Ht, queries_of_cons.
      by rewrite decide_False by (simpl; congruence).
  - rewrite pi_wr0. autorewrite with smp. f_equal. lia.
  - rewrite pi_pi0, Ht. simpl length. f_equal. lia.
  - lia.
  - intros i q Hi. destruct (decide (i = length (got bk))) as [->|Hne].
    + rewrite lookup_app_r, Nat.sub_diag in Hi by done. injection Hi as <-.
      rewrite Hslot. apply lookup_insert_eq.
    + assert (i < length (got bk))%nat as Hi'.
      { apply lookup_lt_Some in Hi. rewrite length_app in Hi. simpl in Hi. lia. }
      rewrite lookup_app_l in Hi by done. rewrite lookup_insert_ne; [by apply pi_values0|].
      rewrite Hslot. intros Heq. apply slot_inj in Heq; lia.
  - intros i q Hi. specialize (pi_servers0 (S i) q). rewrite Ht in pi_servers0.
    rewrite <- (pi_servers0 Hi). do 2 f_equal. lia.
  - intros q Hq. apply pi_routed0. rewrite Ht. by right.
Qed.

(** Counting a query that was sent. *)
Lemma note_ok n bk c s r :
  n = cl_nservers c -> pd_inv n (cl_pd c) bk -> (s < Z.to_nat n)%nat ->
  Z.of_nat (length (queries_of s (todo bk))) < MAX_PENDING_PER_SERVER ->
  Z.of_nat (length (queue bk)) < MAX_PENDING_SIZE -> Z.of_nat s = hash_get_server n (query_key r) ->
  exists pd', note_pending (Z.of_nat s) c = Ok (Client (cl_nservers c) pd' (cl_boxes c), tt) /\
    pd_inv n pd' (Books (got bk) (todo bk ++ [(s, r)]) (spent bk)).
Proof.
  intros Hn Hinv Hs Hroom Hfit Hkey. pose proof (pi_count _ _ _ Hinv s Hs) as Hcnt.
  change MAX_PENDING_PER_SERVER with 56 in Hroom. pose proof (pi_counts _ _ _ Hinv) as Hlen.
  unfold note_pending.
  assert (aget (pending_count (cl_pd c)) (Z.of_nat s) = Ok (Z.of_nat (length (queries_of s (todo bk))))) as ->
    by (apply aget_Ok; rewrite Nat2Z.id; split; [lia | done]).
  cbn [mbind result_bind]. rewrite aset_in by lia. rewrite Nat2Z.id. cbn [mbind result_bind].
  rewrite i32_small by lia. eexists. split; [reflexivity|].
  unfold queue in Hfit. rewrite length_app, !length_fmap in Hfit.
  assert (forall x, slot (pending_index (cl_pd c) + x) = slot (rd_index (cl_pd c)
            + Z.of_nat (length (got bk) + length (todo bk)) + x)) as Hslot.
  { intros x. rewrite (pi_pi _ _ _ Hinv), <- slot_u64, u64_add_l, slot_u64. f_equal. lia. }
  specialize (Hslot 0). rewrite !Z.add_0_r in Hslot.
  destruct Hinv. split; simpl; rewrite ?length_app; try done.
  - by rewrite length_insert.
  - intros s0 H0. rewrite queries_of_snoc, length_app. simpl. destruct (decide (s0 = s)) as [->|Hne].
    + rewrite list_lookup_insert_eq, decide_True by (done || lia). f_equal. simpl. lia.
    + rewrite list_lookup_insert_ne, decide_False by congruence. rewrite (pi_count0 s0 H0). simpl.
      by rewrite Nat.add_0_r.
  - rewrite pi_pi0. autorewrite with smp. f_equal. simpl. lia.
  - simpl. lia.
  - intros i q Hi. destruct (decide (i = length (todo bk))) as [->|Hne].
    + rewrite lookup_app_r, Nat.sub_diag in Hi by done. injection Hi as <-.
      rewrite Hslot. apply lookup_insert_eq.
    + assert (i < length (todo bk))%nat as Hi'.
      { apply lookup_lt_Some in Hi. rewrite length_app in Hi. simpl in Hi. lia. }
      rewrite lookup_app_l in Hi by done. rewrite lookup_insert_ne; [by apply pi_servers0|].
      rewrite Hslot. intros Heq. apply slot_inj in Heq; lia.
  - intros q [Hq|Hq]%elem_of_app; [by apply pi_routed0|]. by apply list_elem_of_singleton in Hq as ->.
Qed.

Section client.
Context (answers : request -> Z -> Prop) (may : request -> Prop).

Definition client_inv : client -> books -> list link_state -> Prop := inv answers pd_inv.

Lemma client_inv_ls c bk ls : client_inv c bk ls -> length ls = Z.to_nat (cl_nservers c).
Proof. intros [Hinv _]. apply Hinv. Qed.

(** [read_next_pending_value] takes the answer to the first query to come. *)
Lemma read_next_ok bk bufs s r rest :
  todo bk = (s, r) :: rest ->
  safe answers pd_inv may (fun bk' bufs' _ => length bufs' = length bufs /\
      exists v, answers r v /\ bk' = Books (got bk ++ [(r, v)]) rest (spent bk))
    bk bufs read_next_pending_value.
Proof.
  intros Htodo c ls Hinv Hbufs.
  rewrite (next_server_ok _ _ _ _ _ _ (proj2 Hinv) Htodo). cbn [mbind result_bind].
  apply (fetch_ok answers pd_inv may (store_value (Z.of_nat s)) _ bk bufs s r rest c ls Htodo); [|done..].
  intros v c1 ls1 Hv Hl1 HP1 Hlen1. pose proof (li_ls _ _ _ _ _ Hl1) as Hls.
  destruct (store_ok _ bk c1 s r rest v eq_refl HP1 Htodo) as (pd' & Hst & HP').
  - rewrite <- Hls, Hlen1, <- Hbufs, length_fmap. apply (li_next _ _ _ _ _ (proj1 Hinv) s r rest Htodo).
  - pose proof (li_room _ _ _ _ _ (proj1 Hinv) s) as Hr.
    rewrite Htodo, queries_of_cons, decide_True in Hr by done. simpl in Hr. lia.
  - eexists _, tt. split; [exact Hst|]. split; [split; [exact Hl1 | exact HP']|].
    rewrite length_fmap. split; [done|]. by exists v.
Qed.

Lemma send_query_ok bk bufs s r :
  (s < length bufs)%nat -> answering r -> request_ok r -> may r ->
  Z.of_nat (length (queries_of s (todo bk))) < MAX_PENDING_PER_SERVER ->
  Z.of_nat (length (queue bk)) < MAX_PENDING_SIZE ->
  Z.of_nat s = hash_get_server (Z.of_nat (length bufs)) (query_key r) ->
  safe answers pd_inv may (fun bk' bufs' n => length bufs' = length bufs /\ n = 1 /\
      bk' = Books (got bk) (todo bk ++ [(s, r)]) (spent bk))
    bk bufs (send_query (Z.of_nat s) (encode r)).
Proof.
  intros Hs Hans Hr Hmay Hroom Hfit Hkey.
  apply (send_ok answers pd_inv may (fun c => '(c, _) ← note_pending (Z.of_nat s) c; mret (c, 1)) _ bk bufs s r);
    try done.
  intros c ls Hl HP Hlen. pose proof (li_ls _ _ _ _ _ Hl) as Hls.
  pose proof (li_n _ _ _ _ _ Hl) as Hpos. rewrite <- Hlen, Hls, Z2Nat.id in Hkey by lia.
  destruct (note_ok _ bk c s r eq_refl HP) as (pd' & Hn & HP'); [lia | done | done | done |].
  rewrite Hn. eexists _, 1. split; [reflexivity|]. split; [split; [exact Hl | exact HP']|].
  by rewrite length_fmap.
Qed.

(** Waiting for room: answers are taken, in order, until the server owes fewer
    than the limit. *)
Lemma wait_room_ok fuel bk bufs s :
  (s < length bufs)%nat -> (length (todo bk) < fuel)%nat ->
  safe answers pd_inv may (fun bk' bufs' _ => length bufs' = length bufs /\ queue bk' = queue bk /\ spent bk' = spent bk /\
      Z.of_nat (length (queries_of s (todo bk'))) < MAX_PENDING_PER_SERVER)
    bk bufs (wait_room fuel (Z.of_nat s)).
Proof.
  revert bk bufs. induction fuel as [|fuel IH]; intros bk bufs Hs Hfuel; [lia|].
  intros c ls Hinv Hbufs. pose proof (bufs_index _ _ _ Hbufs Hs) as Hs'.
  rewrite (client_inv_ls _ _ _ Hinv) in Hs'. pose proof (pi_count _ _ _ (proj2 Hinv) s Hs') as Hcnt.
  assert (aget (pending_count (cl_pd c)) (Z.of_nat s) = Ok (Z.of_nat (length (queries_of s (todo bk))))) as ->
    by (apply aget_Ok; rewrite Nat2Z.id; split; [lia | done]).
  cbn [mbind result_bind mret result_ret]. exists bk, ls. split; [done|]. split; [done|]. rewrite Hbufs.
  destruct (Z.leb_spec MAX_PENDING_PER_SERVER (Z.of_nat (length (queries_of s (todo bk))))) as [Hge|Hlt].
  - destruct (todo bk) as [|[s1 r1] rest] eqn:Ht.
    { change MAX_PENDING_PER_SERVER with 56 in Hge. simpl in Hge. lia. }
    apply (safe_bind answers pd_inv may _ _ _ _ _ _ (read_next_ok bk bufs s1 r1 rest Ht)).
    intros bk' bufs' _ (Hlb & v & _ & ->). simpl in Hfuel.
    apply (safe_mono answers pd_inv may (fun bk' bufs2 _ => length bufs2 = length bufs' /\
             queue bk' = queue (Books (got bk ++ [(r1, v)]) rest (spent bk)) /\
             spent bk' = spent (Books (got bk ++ [(r1, v)]) rest (spent bk)) /\
             Z.of_nat (length (queries_of s (todo bk'))) < MAX_PENDING_PER_SERVER)).
    + apply IH; simpl; lia.
    + intros bk2 bufs2 _ (Hl2 & Hq & Hsp & Hr). split; [congruence|]. split; [|by rewrite Hsp]. rewrite Hq.
      unfold queue. rewrite Ht. simpl. by rewrite fmap_app, <- app_assoc.
  - done.
Qed.

(** ** The calls *)

Lemma pending_total c bk ls :
  client_inv c bk ls ->
  u64 (pending_index (cl_pd c) - rd_index (cl_pd c)) = Z.of_nat (length (queue bk)) /\
  to_come (cl_pd c) = length (todo bk).
Proof.
  intros [_ Hinv]. pose proof (pi_fit _ _ _ Hinv) as Hfit. change MAX_PENDING_SIZE with 65536 in Hfit.
  rewrite (pi_pi _ _ _ Hinv). unfold to_come.
  rewrite (pi_pi _ _ _ Hinv), (pi_wr _ _ _ Hinv). autorewrite with smp. unfold queue.
  rewrite length_app, !length_fmap. split.
  - rewrite u64_small by lia. lia.
  - rewrite u64_small by lia. lia.
Qed.

(** A query is refused when [MAX_PENDING_SIZE] are outstanding, and otherwise
    joins the end of the queue. *)
Lemma issue_ok bk bufs r k :
  answering r -> request_ok r -> may r -> query_key r = k ->
  safe answers pd_inv may (fun bk' bufs' n => length bufs' = length bufs /\ spent bk' = spent bk /\
      (n = 0 /\ bk' = bk /\ Z.of_nat (length (queue bk)) = MAX_PENDING_SIZE \/
       n = 1 /\ queue bk' = queue bk ++ [r]))
    bk bufs (issue k (encode r)).
Proof.
  intros Hans Hr Hmay Hk c ls Hinv Hbufs.
  destruct (pending_total c bk ls Hinv) as [Htot Hcome]. rewrite Htot, Hcome.
  pose proof (pi_fit _ _ _ (proj2 Hinv)) as Hfit.
  assert (Z.of_nat (length (queue bk)) <= MAX_PENDING_SIZE) as Hq
    by (unfold queue; by rewrite length_app, !length_fmap).
  destruct (Z.leb_spec MAX_PENDING_SIZE (Z.of_nat (length (queue bk)))) as [Hge|Hlt];
    cbn [mret result_ret]; exists bk, ls; (split; [done|]); (split; [done|]); rewrite Hbufs.
  { split; [done|]. split; [done|]. left. split_and!; [done | done | lia]. }
  pose proof (li_n _ _ _ _ _ (proj1 Hinv)) as Hn. pose proof (hash_get_server_range _ k Hn) as Hrange.
  pose proof (client_inv_ls _ _ _ Hinv) as Hlen.
  set (s := Z.to_nat (hash_get_server (cl_nservers c) k)).
  replace (hash_get_server (cl_nservers c) k) with (Z.of_nat s) by (subst s; lia).
  assert (s < length bufs)%nat as Hs by (rewrite <- Hbufs, length_fmap; subst s; lia).
  assert (Z.of_nat s = hash_get_server (Z.of_nat (length bufs)) (query_key r)) as Hkey.
  { rewrite Hk, <- Hbufs, length_fmap, Hlen, Z2Nat.id by lia. subst s. lia. }
  clearbody s.
  apply (safe_bind answers pd_inv may _ _ _ _ _ _ (wait_room_ok _ bk bufs s Hs (Nat.lt_succ_diag_r _))).
  intros bk' bufs' _ (Hlb & Hqe & Hsp & Hroom).
  apply (safe_mono answers pd_inv may (fun bk2 bufs2 n => length bufs2 = length bufs' /\ n = 1 /\
           bk2 = Books (got bk') (todo bk' ++ [(s, r)]) (spent bk'))).
  - apply send_query_ok; [lia | done | done | done | done | by rewrite Hqe | by rewrite Hlb].
  - intros bk2 bufs2 n (Hl2 & -> & ->). split; [congruence|]. split; [done|]. right. split; [done|].
    rewrite <- Hqe. unfold queue. simpl. by rewrite fmap_app, app_assoc.
Qed.

(** Taking the answer at the head of the ring. *)
Lemma take_value_ok c bk ls r v rest :
  client_inv c bk ls -> got bk = (r, v) :: rest ->
  exists c', take_value c = Ok (c', Some v) /\ client_inv c' (Books rest (todo bk) (spent bk ++ [(r, v)])) ls.
Proof.
  intros [Hl Hinv] Hg. unfold take_value.
  pose proof (pi_values _ _ _ Hinv 0%nat (r, v)) as Hv. rewrite Hg, Z.add_0_r in Hv.
  rewrite (Hv eq_refl). simpl. eexists. split; [done|].
  assert (forall x, slot (u64 (rd_index (cl_pd c) + 1) + x) = slot (rd_index (cl_pd c) + (1 + x)))
    as Hslot by (intros x; rewrite <- slot_u64, u64_add_l, slot_u64; f_equal; lia).
  split; simpl.
  { destruct Hl. split; try done. rewrite Hg in li_got. by apply Forall_cons in li_got as [_ ?]. }
  destruct Hinv. rewrite Hg in *. split; simpl; try done.
  - apply u64_range.
  - rewrite pi_wr0. autorewrite with smp. f_equal. simpl. lia.
  - rewrite pi_pi0. rewrite <- !Z.add_assoc, u64_add_l. f_equal. simpl. lia.
  - simpl in pi_fit0. lia.
  - intros i q Hi. rewrite Hslot, <- (pi_values0 (S i) q) by done. do 2 f_equal. lia.
  - intros i q Hi. rewrite Hslot, <- (pi_servers0 i q) by done. simpl length. do 2 f_equal. lia.
Qed.

(** What taking an answer means for the queue: nothing to take, or the answer
    to the oldest query. *)
Definition took (bk bk' : books) (o : option Z) : Prop :=
  match o with
  | None => bk' = bk
  | Some v => exists r, queue bk = r :: queue bk' /\ answers r v /\ spent bk' = spent bk ++ [(r, v)]
  end.

Lemma took_head bk r v rest :
  got bk = (r, v) :: rest -> answers r v -> took bk (Books rest (todo bk) (spent bk ++ [(r, v)])) (Some v).
Proof. intros Hg Ha. exists r. split; [|done]. unfold queue. by rewrite Hg. Qed.

(** No answer is at hand exactly when [got] is empty. *)
Lemma rd_wr c bk ls :
  client_inv c bk ls ->
  (rd_index (cl_pd c) =? pd_wr_index (cl_pd c)) = bool_decide (got bk = []) /\
  (rd_index (cl_pd c) =? pending_index (cl_pd c)) = bool_decide (queue bk = []).
Proof.
  intros [_ Hinv]. pose proof (pi_fit _ _ _ Hinv) as Hfit. change MAX_PENDING_SIZE with 65536 in Hfit.
  pose proof (pi_rd _ _ _ Hinv) as Hrd.
  assert (forall d, 0 <= d <= 65536 -> (rd_index (cl_pd c) =? u64 (rd_index (cl_pd c) + d)) = (d =? 0))
    as Heq.
  { intros d Hd. destruct (Z.eqb_spec d 0) as [->|Hne].
    - rewrite Z.add_0_r, u64_small by done. apply Z.eqb_refl.
    - apply Z.eqb_neq. intros He. apply Hne. unfold u64 in He.
      apply (mod_near_inj (2 ^ 64) (rd_index (cl_pd c))); try lia.
      rewrite <- He, Z.add_0_r, Z.mod_small; lia. }
  rewrite (pi_wr _ _ _ Hinv), (pi_pi _ _ _ Hinv), <- Z.add_assoc, !Heq by lia.
  unfold queue. split; case_bool_decide as Hn.
  - by rewrite Hn.
  - apply Z.eqb_neq. destruct (got bk); simpl; [done | lia].
  - apply app_nil in Hn as [Hn1 Hn2]. apply fmap_nil_inv in Hn1, Hn2. by rewrite Hn1, Hn2.
  - apply Z.eqb_neq. destruct (got bk); simpl; [|lia]. destruct (todo bk); simpl in *; [done | lia].
Qed.

Lemma try_get_next_ok bk bufs :
  safe answers pd_inv may (fun bk' bufs' o => bufs' = bufs /\ took bk bk' o /\ (o = None -> got bk = []))
    bk bufs smp_try_get_next.
Proof.
  apply safe_act. intros c ls Hinv Hbufs. destruct (rd_wr c bk ls Hinv) as [-> _].
  case_bool_decide as Hg.
  - exists bk, ls. done.
  - destruct (got bk) as [|[r v] rest] eqn:Hgot; [done|].
    destruct (take_value_ok c bk ls r v rest Hinv Hgot) as (c' & -> & Hinv').
    exists (Books rest (todo bk) (spent bk ++ [(r, v)])), ls. split; [done|]. split; [by apply (trade_spend _ _ _ r)|].
    split; [done|]. split; [|done].
    apply (took_head _ r v rest Hgot). pose proof (li_got _ _ _ _ _ (proj1 Hinv)) as Ha. rewrite Hgot in Ha.
    by apply Forall_cons in Ha as [Ha _].
Qed.

Lemma get_next_ok bk bufs :
  safe answers pd_inv may (fun bk' bufs' o => length bufs' = length bufs /\ took bk bk' o /\
      (o = None -> queue bk = []))
    bk bufs smp_get_next.
Proof.
  intros c ls Hinv Hbufs. destruct (rd_wr c bk ls Hinv) as [-> ->].
  case_bool_decide as Hq; [|case_bool_decide as Hg].
  - exists bk, ls. split; [done|]. rewrite Hbufs. done.
  - exists bk, ls. split; [done|]. split; [done|]. rewrite Hbufs.
    destruct (todo bk) as [|[s r] rest] eqn:Ht; [by unfold queue in Hq; rewrite Hg, Ht in Hq|].
    apply (safe_bind answers pd_inv may _ _ _ _ _ _ (read_next_ok bk bufs s r rest Ht)).
    intros bk' bufs' _ (Hlb & v & Ha & ->). apply safe_act. intros c1 ls1 Hinv1 Hb1.
    destruct (take_value_ok c1 _ ls1 r v [] Hinv1) as (c' & -> & Hinv'); [simpl; by rewrite Hg|].
    eexists _, _. split; [exact Hinv'|]. split; [apply (trade_spend _ _ _ r); simpl; by rewrite Hg|].
    rewrite Hb1. split; [done|]. split; [|done]. exists r. unfold queue. rewrite Hg, Ht. done.
  - destruct (got bk) as [|[r v] rest] eqn:Hgot; [done|].
    destruct (take_value_ok c bk ls r v rest Hinv Hgot) as (c' & -> & Hinv').
    exists (Books rest (todo bk) (spent bk ++ [(r, v)])), ls. split; [done|]. split; [by apply (trade_spend _ _ _ r)|].
    rewrite Hbufs. split; [done|].
    split; [|done]. apply (took_head _ r v rest Hgot).
    pose proof (li_got _ _ _ _ _ (proj1 Hinv)) as Ha. rewrite Hgot in Ha.
    by apply Forall_cons in Ha as [Ha _].
Qed.
End client.
