(* ===== verification/SystemThms.v ===== *)
(** * SystemThms: clients and servers together

    The calls of a client interleaved with the visits of the servers, in any
    order; and the visit of [hash_table_server] as one of these visits. *)
From stdpp Require Import base list gmap relations.
From Stdlib Require Import ZArith Lia.
From S2P Require Import Prelude Protocol MPBuffers Value Partition PartitionThms Server.
From S2P Require Import ServerThms HashTable Client Link LinkInv ClientInv.

Local Open Scope Z_scope.

Section interleaving.
Context (answers : request -> Z -> Prop).

(** ** Sessions: the calls a client makes one after the other *)
Inductive call :=
  | CallLookup (k : Z)
  | CallInsert (k size : Z)
  | CallGet
  | CallTryGet
  | CallRelease (h : heap) (ptr : Z) (force : bool).

Inductive outcome := Refused | Accepted | Value (v : Z) | Nothing | Sent.

Definition call_prog (a : call) : prog outcome :=
  match a with
  | CallLookup k => andthen (smp_hash_lookup k) (fun n => Done (if n =? 0 then Refused else Accepted))
  | CallInsert k sz =>
      andthen (smp_hash_insert k sz) (fun n => Done (if n =? 0 then Refused else Accepted))
  | CallGet => andthen smp_get_next (fun o => Done (match o with Some v => Value v | None => Nothing end))
  | CallTryGet =>
      andthen smp_try_get_next (fun o => Done (match o with Some v => Value v | None => Nothing end))
  | CallRelease h ptr force =>
      andthen (mp_send_release_msg_ h ptr force) (fun _ => Done Sent)
  end.

(** The arguments a caller may pass: 60-bit keys, sizes that are not 0, and
    values it holds. *)
Definition call_ok (a : call) : Prop :=
  match a with
  | CallLookup k => request_ok (Lookup k)
  | CallInsert k sz => request_ok (Insert k sz)
  | CallGet | CallTryGet => True
  | CallRelease h ptr _ => addr_ok (elem_of_ptr ptr) /\ is_Some (h !! elem_of_ptr ptr)
  end.

Inductive session : list (call * outcome) -> client -> client -> Prop :=
  | session_end c : session [] c c
  | session_visit l c c1 c2 : env_step answers c c1 -> session l c1 c2 -> session l c c2
  | session_call a o l c c1 c2 :
      rtc (call_step answers) (c, call_prog a) (c1, Done o) -> session l c1 c2 -> session ((a, o) :: l) c c2.

(** The queries accepted and the values returned, in order. *)
Definition accepted (x : call * outcome) : list request :=
  match x with
  | (CallLookup k, Accepted) => [Lookup k]
  | (CallInsert k sz, Accepted) => [Insert k sz]
  | _ => []
  end.

Definition returned (x : call * outcome) : list Z :=
  match x.2 with Value v => [v] | _ => [] end.

(** What one call does to the queue of outstanding queries, and to the answers
    returned. *)
Definition call_effect (a : call) (bk bk' : books) (o : outcome) : Prop :=
  exists taken, queue bk ++ accepted (a, o) = taken ++ queue bk' /\
    Forall2 answers taken (returned (a, o)) /\ spent bk' = spent bk ++ zip taken (returned (a, o)).

(** The request that a call may send. *)
Definition sent_by (a : call) : list request :=
  match a with
  | CallLookup k => [Lookup k]
  | CallInsert k sz => [Insert k sz]
  | CallGet | CallTryGet => []
  | CallRelease _ ptr _ => [Release (elem_of_ptr ptr)]
  end.

Lemma sent_by_any a : Forall any_request (sent_by a).
Proof. by apply Forall_true. Qed.

Lemma issue_effect (may : request -> Prop) r a bk bufs :
  answering r -> request_ok r -> may r ->
  accepted (a, Accepted) = [r] -> accepted (a, Refused) = [] ->
  safe answers pd_inv may (fun bk' _ o => call_effect a bk bk' o) bk bufs
    (andthen (issue (query_key r) (encode r)) (fun n => Done (if n =? 0 then Refused else Accepted))).
Proof.
  intros Hans Hr Hmay Hacc Href. eapply (safe_bind answers pd_inv may); [by apply (issue_ok answers may bk bufs r)|].
  intros bk' bufs' n (_ & Hsp & [(-> & -> & _)|[-> Hq]]); exists []; cbn [app zip_with]; rewrite app_nil_r.
  - change (0 =? 0) with true. cbn iota. by rewrite Href, app_nil_r.
  - change (1 =? 0) with false. cbn iota. by rewrite Hacc, Hq.
Qed.

Lemma took_effect a bk bk' o :
  (forall o, accepted (a, o) = []) -> took answers bk bk' o ->
  call_effect a bk bk' (match o with Some v => Value v | None => Nothing end).
Proof.
  intros Ha Ht. unfold call_effect. rewrite Ha, app_nil_r. destruct o as [v|]; simpl in Ht |- *.
  - destruct Ht as (r & -> & Hr & ->). exists [r]. split; [done|]. split; [by constructor | done].
  - subst. exists []. simpl. by rewrite app_nil_r.
Qed.

Lemma call_safe may a bk bufs :
  call_ok a -> Forall may (sent_by a) ->
  safe answers pd_inv may (fun bk' _ o => call_effect a bk bk' o) bk bufs (call_prog a).
Proof.
  intros Ha Hmay. destruct a as [k|k sz| | |h ptr force]; simpl in Ha; cbn [call_prog];
    cbn [sent_by] in Hmay; rewrite ?Forall_singleton in Hmay.
  - by apply (issue_effect may (Lookup k)).
  - by apply (issue_effect may (Insert k sz)).
  - eapply (safe_bind answers pd_inv may); [apply get_next_ok|].
    intros bk' bufs' o (_ & Ht & _). by apply took_effect.
  - eapply (safe_bind answers pd_inv may); [apply try_get_next_ok|].
    intros bk' bufs' o (_ & Ht & _). by apply took_effect.
  - destruct Ha as [Haddr [el Hel]].
    eapply (safe_bind answers pd_inv may);
      [by apply (send_release_msg_ok answers pd_inv may bk bufs h ptr force el)|].
    intros bk' bufs' _ (_ & ->). exists []. simpl. by rewrite !app_nil_r.
Qed.

Lemma session_ok l c c' bk ls :
  session l c c' -> Forall (fun x => call_ok x.1) l -> client_inv answers c bk ls ->
  exists bk' ls' taken, client_inv answers c' bk' ls' /\
    queue bk ++ concat (accepted <$> l) = taken ++ queue bk' /\
    Forall2 answers taken (concat (returned <$> l)).
Proof.
  intros Hs. revert bk ls. induction Hs as [c|l c c1 c2 Henv Hs IH|a o l c c1 c2 Hrun Hs IH];
    intros bk ls Hok Hinv.
  - exists bk, ls, []. rewrite app_nil_r. split_and!; [done | done | constructor].
  - destruct (env_ok answers pd_inv c c1 bk ls Hinv Henv) as (ls1 & Hinv1 & _). by apply (IH bk ls1).
  - apply Forall_cons in Hok as [Ha Hok]. simpl in Ha.
    destruct (safe_steps answers pd_inv any_request _ _ _ bk ls Hrun Hinv (call_safe any_request a bk _ Ha (sent_by_any a))) as (bk1 & ls1 & Hinv1 & taken1 & Hq1 & Hf1 & _).
    destruct (IH bk1 ls1 Hok Hinv1) as (bk2 & ls2 & taken2 & Hinv2 & Hq2 & Hf2).
    exists bk2, ls2, (taken1 ++ taken2). split; [done|]. rewrite !fmap_cons. cbn [concat]. split.
    + by rewrite app_assoc, Hq1, <- app_assoc, Hq2, app_assoc.
    + by apply Forall2_app.
Qed.

(** A client as [create_hash_table_client] makes it. *)
Definition new_client (n : Z) : client :=
  Client n (pending_zero ∅ ∅ n)
    (replicate (Z.to_nat n) (Box inputbuffer_zero outputbuffer_zero)).

Lemma new_client_inv n :
  0 < n < 2 ^ 31 ->
  client_inv answers (new_client n) (Books [] [] []) (replicate (Z.to_nat n) (LinkState [] [] [])).
Proof.
  intros Hn.
  assert (forall s l, replicate (Z.to_nat n) (LinkState [] [] []) !! s = Some l ->
            l = LinkState [] [] [] /\ (s < Z.to_nat n)%nat) as Hrep
    by (intros s l H; by apply lookup_replicate in H).
  split.
  - split; simpl; rewrite ?length_replicate; try done.
    + apply Forall2_same_length_lookup. split; [by rewrite !length_replicate|].
      intros i b l Hb Hl. apply lookup_replicate in Hb as [-> _]. apply Hrep in Hl as [-> _].
      apply link_rep_zero.
    + intros s l Hl. by apply Hrep in Hl as [-> _].
    + intros q Hq. set_solver.
    + apply Forall_lookup. intros s l Hl. by apply Hrep in Hl as [-> _].
  - split; simpl; rewrite ?length_replicate; try done.
    + intros s Hs. by rewrite lookup_replicate_2.
    + intros q Hq. set_solver.
Qed.

(** C11: answers in order. In every session of a new client, under every
    interleaving of its calls with the visits of the servers, the values that
    [smp_get_next] and [smp_try_get_next] return are, in order, answers that the
    servers gave to the accepted queries, in order: none is lost, repeated or
    swapped, over the wrap-around of the ring and through the waits of the
    calls. *)
Theorem answers_in_order n l c' :
  0 < n < 2 ^ 31 -> session l (new_client n) c' -> Forall (fun x => call_ok x.1) l ->
  exists outstanding taken, concat (accepted <$> l) = taken ++ outstanding /\
    Forall2 answers taken (concat (returned <$> l)) /\
    Z.of_nat (length outstanding) <= MAX_PENDING_SIZE.
Proof.
  intros Hn Hs Hok.
  destruct (session_ok l _ _ _ _ Hs Hok (new_client_inv n Hn)) as (bk & ls & taken & Hinv & Hq & Hf).
  exists (queue bk), taken. split; [exact Hq|]. split; [done|].
  pose proof (pi_fit _ _ _ (proj2 Hinv)) as Hfit. unfold queue. by rewrite length_app, !length_fmap.
Qed.

(** No deadlock and no fault. In the middle of any call of any session the
    client can go on, or it waits and some server has a batch of its to serve:
    no assertion fails, no array is overrun, the output buffers never overflow,
    and a client that waits is never waiting for an answer to a request that it
    still holds back in its own buffer. *)
Theorem calls_not_stuck n l c a c1 r :
  (forall r, answering r -> exists v, answers r v) ->
  0 < n < 2 ^ 31 -> session l (new_client n) c -> Forall (fun x => call_ok x.1) l -> call_ok a ->
  rtc (call_step answers) (c, call_prog a) (c1, r) -> not_stuck answers (c1, r).
Proof.
  intros Hans Hn Hs Hok Ha Hrun.
  destruct (session_ok l _ _ _ _ Hs Hok (new_client_inv n Hn)) as (bk & ls & taken & Hinv & _).
  destruct (safe_steps answers pd_inv any_request _ _ _ bk ls Hrun Hinv (call_safe any_request a bk _ Ha (sent_by_any a))) as (bk1 & ls1 & Hinv1 & Hsafe).
  by eapply safe_not_stuck.
Qed.
(** C19: every call can be completed. From any point in the middle of any call
    of any session there are finitely many visits of servers and steps of the
    client that take the call to its end. *)
Theorem calls_complete n l c a c1 r :
  (forall r, answering r -> exists v, answers r v) ->
  0 < n < 2 ^ 31 -> session l (new_client n) c -> Forall (fun x => call_ok x.1) l -> call_ok a ->
  rtc (call_step answers) (c, call_prog a) (c1, r) -> exists c2 o, rtc (call_step answers) (c1, r) (c2, Done o).
Proof.
  intros Hans Hn Hs Hok Ha Hrun.
  destruct (session_ok l _ _ _ _ Hs Hok (new_client_inv n Hn)) as (bk & ls & taken & Hinv & _).
  destruct (safe_steps answers pd_inv any_request _ _ _ bk ls Hrun Hinv (call_safe any_request a bk _ Ha (sent_by_any a))) as (bk1 & ls1 & Hinv1 & Hsafe).
  by eapply safe_completes.
Qed.
End interleaving.

(** ** The visit of a server thread *)
Section server_visit.
Context `{M : Machine} (spins : nat).

(** The answers to the requests [rs], served one by one from memory [m] and partition [p] on. *)
Definition server_answers (m : mem) (p : partition) (rs : list request) (r : request) (v : Z) : Prop :=
  exists vs m' p', serve_all spins rs m p = Ok (vs, m', p') /\ (r, v) ∈ zip (filter answering rs) vs.

Lemma serve_all_length rs m p vs m' p' :
  serve_all spins rs m p = Ok (vs, m', p') -> length (filter answering rs) = length vs.
Proof.
  revert m p vs m' p'. induction rs as [|r rs IH]; intros m p vs m' p' Hs; simpl in Hs.
  - by injection Hs as <- _ _.
  - destruct (serve spins r m p) as [[[a m1] p1]|] eqn:Hr; [|done]. simpl in Hs.
    destruct (serve_all spins rs m1 p1) as [[[b m2] p2]|] eqn:Hrs; [|done].
    simpl in Hs. injection Hs as <- _ _. rewrite filter_cons, length_app. specialize (IH _ _ _ _ _ Hrs).
    destruct r as [k|k sz|e]; simpl; simpl in Hr;
      apply bind_Ok in Hr as (x & Hx & Hr); try (destruct x as [[v mx] px]); simpl in Hr;
      injection Hr as <- <- <-; simpl; by rewrite IH.
Qed.

Lemma zip_members {A B} (l : list A) (k : list B) : length l = length k -> Forall2 (fun x y => (x, y) ∈ zip l k) l k.
Proof.
  intros Hl. apply Forall2_same_length_lookup_2; [done|]. intros i x y Hx Hy.
  apply (list_elem_of_lookup_2 _ i). apply lookup_zip_with_Some. by exists x, y.
Qed.

Lemma serve_all_answers rs m p vs m' p' :
  serve_all spins rs m p = Ok (vs, m', p') -> Forall2 (server_answers m p rs) (filter answering rs) vs.
Proof.
  intros Hs. eapply Forall2_impl; [apply zip_members; by eapply serve_all_length|]. intros r v Hin. by exists vs, m', p'.
Qed.

Lemma get_box_ok t i s bs b :
  boxes t !! i = Some (Some bs) -> bs !! s = Some b -> get_box t (Z.of_nat i) (Z.of_nat s) = Ok b.
Proof.
  intros Hi Hs. unfold get_box.
  assert (aget (boxes t) (Z.of_nat i) = Ok (Some bs)) as ->
    by (apply aget_Ok; rewrite Nat2Z.id; split; [lia | done]).
  simpl. apply aget_Ok. rewrite Nat2Z.id. split; [lia | done].
Qed.

Lemma put_box_ok t i s bs b :
  boxes t !! i = Some (Some bs) -> (s < length bs)%nat ->
  put_box t (Z.of_nat i) (Z.of_nat s) b
    = Ok (set_boxes (<[i := Some (<[s := b]> bs)]> (boxes t)) t).
Proof.
  intros Hi Hs. unfold put_box.
  assert (aget (boxes t) (Z.of_nat i) = Ok (Some bs)) as ->
    by (apply aget_Ok; rewrite Nat2Z.id; split; [lia | done]).
  simpl. rewrite aset_in by lia. simpl. apply lookup_lt_Some in Hi. rewrite aset_in by lia.
  simpl. by rewrite !Nat2Z.id.
Qed.

Lemma encode_all_length rs : (length rs <= length (encode_all rs))%nat.
Proof.
  induction rs as [|r rs IH]; [done|].
  change (encode_all (r :: rs)) with (encode r ++ encode_all rs). rewrite length_app.
  pose proof (encode_length r). simpl. lia.
Qed.
Lemma stamp_heap track m v t1 m1 : stamp track m v = (t1, m1) -> hp m1 = hp m.
Proof. unfold stamp. destruct track; by intros [= _ <-]. Qed.

(** The link after a server took the first batch of [l] and answered [vs]. *)
Definition after_visit (l : link_state) (vs : list Z) : link_state :=
  match lk_batches l with
  | [] => l
  | rs :: rest => LinkState rest (lk_buffered l) (lk_unread l ++ zip (filter answering rs) vs)
  end.

(** What a visit leaves alone. *)
Definition same_clients (t t' : hash_table) : Prop :=
  ht_nservers t' = ht_nservers t /\ nclients t' = nclients t /\ pending t' = pending t /\
  track_cpu_usage t' = track_cpu_usage t.

Lemma after_visit_rep b l rs rest ib ob vs :
  link_rep b l -> lk_batches l = rs :: rest -> ib_rep ib (encode_all <$> rest) (encode_all (lk_buffered l)) ->
  ob_rep ob ((lk_unread l).*2 ++ vs) -> length (filter answering rs) = length vs ->
  link_rep (Box ib ob) (after_visit l vs).
Proof.
  intros [_ _ Hoks] Hb Hib Hob Hl. unfold after_visit. rewrite Hb. split; simpl.
  - done.
  - rewrite fmap_app, snd_zip by lia. done.
  - unfold in_flight in *. rewrite Hb in Hoks. cbn [concat] in Hoks. simpl.
    rewrite <- app_assoc in Hoks. by apply Forall_app in Hoks as [_ ?].
Qed.

(** A turn of a server on the box of a client: without a batch it changes
    nothing; with a batch it serves it and appends the answers. *)
Lemma server_visit_link track s i t m lc bs b l p :
  boxes t !! i = Some (Some bs) -> bs !! s = Some b -> link_rep b l ->
  (length (owed l) <= Z.to_nat OUTB_SIZE)%nat -> partitions t !! s = Some p ->
  length (localbuf lc) = Z.to_nat INPB_SIZE ->
  match server_visit spins track (Z.of_nat s) (Z.of_nat i) t m lc with
  | Ok (t', m', lc') => length (localbuf lc') = Z.to_nat INPB_SIZE /\ same_clients t t' /\
      exists b' vs, boxes t' = <[i := Some (<[s := b']> bs)]> (boxes t) /\ link_rep b' (after_visit l vs) /\
      match lk_batches l with
      | [] => partitions t' = partitions t /\ hp m' = hp m
      | rs :: _ => exists m1 m2 p', hp m1 = hp m /\ serve_all spins rs m1 p = Ok (vs, m2, p') /\
          outb_write (bout b) (Z.of_nat (length vs)) vs = Ok (bout b') /\ visited (server_answers m1 p rs) b b' /\
          partitions t' = <[s := p']> (partitions t) /\ hp m' = hp m2
      end
  | Fault f => exists rs rest m1, lk_batches l = rs :: rest /\ hp m1 = hp m /\
      serve_all spins rs m1 p = Fault f
  end.
Proof.
  intros Hi Hs Hrep Howed Hp Hbuf. unfold server_visit.
  destruct (stamp track m (tmpt1 lc)) as [t1 m1] eqn:Hst. apply stamp_heap in Hst.
  pose proof (lookup_lt_Some _ _ _ Hs) as Hlt. pose proof (lookup_lt_Some _ _ _ Hi) as Hilt.
  pose proof (lookup_lt_Some _ _ _ Hp) as Hplt.
  rewrite (get_box_ok t i s bs b Hi Hs). cbn [mbind result_bind].
  destruct (lk_batches l) as [|rs rest] eqn:Hb.
  - destruct (empty_batch b l (localbuf lc) Hrep Hbuf Hb) as (ib & Hr & Hib).
    rewrite Hr. cbn [mbind result_bind]. rewrite (put_box_ok t i s bs _ Hi Hlt).
    cbn [mbind result_bind]. simpl. split; [done|]. split; [done|]. exists (Box ib (bout b)), [].
    split; [done|]. split; [|done]. unfold after_visit. rewrite Hb.
    destruct Hrep. split; simpl; [by rewrite Hb | done | done].
  - destruct (take_batch b l (localbuf lc) rs rest Hrep Hbuf Hb) as (ib & Hr & Hib & Hok & Hlen).
    rewrite Hr. cbn [mbind result_bind]. rewrite (put_box_ok t i s bs _ Hi Hlt).
    cbn [mbind result_bind]. rewrite (proj2 (Z.eqb_neq _ 0)) by lia.
    assert (aget (partitions t) (Z.of_nat s) = Ok p) as Hget
      by (apply aget_Ok; rewrite Nat2Z.id; split; [lia | done]).
    simpl partitions. rewrite Hget. cbn [mbind result_bind].
    change (Z.to_nat INPB_SIZE) with 8%nat.
    pose proof (encode_all_length rs) as Hrl.
    pose proof (serve_batch_in_place rs spins 8 [] _ (drop (length (encode_all rs)) (localbuf lc))
                  0 m1 p Hok ltac:(lia) (le_n 0) eq_refl) as Hbatch.
    simpl length in Hbatch. simpl app in Hbatch. rewrite drop_0 in Hbatch.
    change (Z.of_nat 0) with 0 in Hbatch. simpl Nat.add in Hbatch. rewrite Hbatch.
    destruct (serve_all spins rs m1 p) as [[[vs m2] p']|f] eqn:Hsrv;
      cbn [mbind result_bind mret result_ret]; [|eauto 10].
    pose proof (serve_all_answers _ _ _ _ _ _ Hsrv) as Hans.
    pose proof (Forall2_length _ _ _ Hans) as Hvl. pose proof (owed_first l rs rest Hb) as Hfirst.
    rewrite aset_in by lia. rewrite Nat2Z.id. cbn [mbind result_bind].
    set (t2 := set_partitions _ _).
    assert (boxes t2 !! i = Some (Some (<[s := Box ib (bout b)]> bs))) as Hi2
      by (apply list_lookup_insert_eq; lia).
    rewrite (get_box_ok t2 i s _ (Box ib (bout b)) Hi2) by (apply list_lookup_insert_eq; lia).
    cbn [mbind result_bind bin bout].
    destruct (outb_write_spec (bout b) (lk_unread l).*2 vs (lr_out _ _ Hrep)) as (ob & Hw & Hob).
    { rewrite length_fmap, OUTB_SIZE_val in *. lia. }
    rewrite outb_write_app, Hw. cbn [mbind result_bind].
    rewrite (put_box_ok t2 i s _ _ Hi2) by (rewrite length_insert; lia). cbn [mbind result_bind].
    destruct (stamp track m2 (tmpt0 lc)) as [t0 m3] eqn:Hst3. apply stamp_heap in Hst3. simpl.
    assert (length vs <= length (encode_all rs))%nat as Hvw.
    { pose proof (length_filter answering rs). lia. }
    split; [rewrite !length_app, !length_drop, length_app, length_drop, Hbuf;
            change (Z.to_nat INPB_SIZE) with 8%nat; lia|].
    split; [done|]. exists (Box ib ob), vs. rewrite !list_insert_insert_eq. split; [done|].
    split; [by apply (after_visit_rep b l rs rest)|]. exists m1, m2, p'. do 3 (split; [done|]). split; [|done].
    eexists (localbuf lc), _, _, ib, rs, vs, ob. split_and!; try done; [lia|].
    by rewrite Nat2Z.id, take_app_length, decode_encode.
Qed.

(** C20: one turn of the loop of [hash_table_server] on the box of a client is one visit. Without a
    batch it changes nothing. With a batch it serves the requests one by one, from the
    partition and the memory as they are, and the answers [vs] of exactly that service are what it
    appends to the output buffer, in the order of the requests: the client has then to read what was
    unread before, and behind it these. The other boxes and partitions are as before. The turn
    faults only where serving a request does. *)
Theorem server_visit_refines track s i t m lc bs b l p :
  boxes t !! i = Some (Some bs) -> bs !! s = Some b -> link_rep b l ->
  (length (owed l) <= Z.to_nat OUTB_SIZE)%nat -> partitions t !! s = Some p ->
  length (localbuf lc) = Z.to_nat INPB_SIZE ->
  match server_visit spins track (Z.of_nat s) (Z.of_nat i) t m lc with
  | Ok (t', m', lc') => length (localbuf lc') = Z.to_nat INPB_SIZE /\ same_clients t t' /\
      exists b', boxes t' = <[i := Some (<[s := b']> bs)]> (boxes t) /\
      match lk_batches l with
      | [] => link_rep b' l /\ partitions t' = partitions t /\ hp m' = hp m
      | rs :: rest => exists vs m1 m2 p', hp m1 = hp m /\ serve_all spins rs m1 p = Ok (vs, m2, p') /\
          outb_write (bout b) (Z.of_nat (length vs)) vs = Ok (bout b') /\
          link_rep b' (LinkState rest (lk_buffered l) (lk_unread l ++ zip (filter answering rs) vs)) /\
          length (filter answering rs) = length vs /\ visited (server_answers m1 p rs) b b' /\
          partitions t' = <[s := p']> (partitions t) /\ hp m' = hp m2
      end
  | Fault f => exists rs rest m1, lk_batches l = rs :: rest /\ hp m1 = hp m /\
      serve_all spins rs m1 p = Fault f
  end.
Proof.
  intros Hi Hs Hrep Howed Hp Hbuf.
  pose proof (server_visit_link track s i t m lc bs b l p Hi Hs Hrep Howed Hp Hbuf) as Hv.
  destruct (server_visit _ _ _ _ _ _ _) as [[[t' m'] lc']|f]; [|exact Hv].
  destruct Hv as (Hl & Hsame & b' & vs & Hbx & Hrep' & Hv). split; [done|]. split; [done|]. exists b'. split; [done|].
  unfold after_visit in Hrep'. destruct (lk_batches l) as [|rs rest]; [done|].
  destruct Hv as (m1 & m2 & p' & Hm & Hsrv & Hw & Hvis & Hrest). exists vs, m1, m2, p'. do 4 (split; [done|]).
  split; [by eapply serve_all_length | done].
Qed.
End server_visit.

(** ** Running a client

    A schedule that lets a server in only when the client waits, with servers
    that answer [g r] to [r]. *)
Definition visit_with (g : request -> Z) (c : client) (s : nat) : option client :=
  b ← cl_boxes c !! s;
  match inpb_read (bin b) scratch with
  | Ok (n, buf, ib) =>
      if n =? 0 then None else
      rs ← decode (take (Z.to_nat n) buf);
      let vs := g <$> filter answering rs in
      match outb_write (bout b) (Z.of_nat (length vs)) vs with
      | Ok ob => Some (Client (cl_nservers c) (cl_pd c) (<[s := Box ib ob]> (cl_boxes c)))
      | Fault _ => None
      end
  | Fault _ => None
  end.

Fixpoint first_some {A B} (f : A -> option B) (l : list A) : option B :=
  match l with
  | [] => None
  | x :: l => match f x with Some y => Some y | None => first_some f l end
  end.

Fixpoint exec {A} (fuel : nat) (g : request -> Z) (c : client) (r : prog A) : option (client * A) :=
  match r, fuel with
  | Done a, _ => Some (c, a)
  | Step f, O => None
  | Step f, S fuel =>
      match f c with
      | Ok (c', r') => exec fuel g c' r'
      | Fault Blocked =>
          match first_some (visit_with g c) (seq 0 (length (cl_boxes c))) with
          | Some c' => exec fuel g c' r
          | None => None
          end
      | Fault _ => None
      end
  end.

Fixpoint exec_calls (fuel : nat) (g : request -> Z) (cs : list call) (c : client)
    : option (list (call * outcome) * client) :=
  match cs with
  | [] => Some ([], c)
  | a :: cs =>
      '(c, o) ← exec fuel g c (call_prog a);
      '(l, c) ← exec_calls fuel g cs c;
      Some ((a, o) :: l, c)
  end.

Section exec.
Context (g : request -> Z).

Definition gives (r : request) (v : Z) : Prop := v = g r.

Lemma visit_with_step c s c' : visit_with g c s = Some c' -> env_step gives c c'.
Proof.
  unfold visit_with. destruct (cl_boxes c !! s) as [b|] eqn:Hb; [|done]. simpl.
  destruct (inpb_read (bin b) scratch) as [[[n buf] ib]|] eqn:Hr; [|done].
  destruct (Z.eqb_spec n 0); [done|].
  destruct (decode _) as [rs|] eqn:Hd; [|done]. simpl.
  destruct (outb_write _ _ _) as [ob|] eqn:Hw; [|done]. intros [= <-].
  exists s, b, (Box ib ob). split; [done|]. split; [|done].
  exists scratch, n, buf, ib, rs, (g <$> filter answering rs), ob. split_and!; try done.
  clear. induction (filter answering rs); constructor; done.
Qed.

Lemma first_some_in {A B} (f : A -> option B) l y : first_some f l = Some y -> exists x, f x = Some y.
Proof. induction l as [|x l IH]; [done|]. simpl. destruct (f x) eqn:Hf; [|done]. intros [= <-]. eauto. Qed.

Lemma exec_sound {A} fuel c (r : prog A) c' a :
  exec fuel g c r = Some (c', a) -> rtc (call_step gives) (c, r) (c', Done a).
Proof.
  revert c r. induction fuel as [|fuel IH]; intros c r Hx; destruct r as [a0|f]; simpl in Hx;
    try (injection Hx as <- <-; apply rtc_refl); [done|].
  destruct (f c) as [[c1 r1]|[]] eqn:Hf; try done.
  - eapply rtc_l; [by apply client_runs | by apply IH].
  - destruct (first_some _ _) as [c1|] eqn:Hv; [|done].
    apply first_some_in in Hv as [s Hs]. eapply rtc_l; [|by apply IH].
    apply server_runs. by eapply visit_with_step.
Qed.

Lemma exec_calls_sound fuel cs c l c' :
  exec_calls fuel g cs c = Some (l, c') -> session gives l c c'.
Proof.
  revert c l. induction cs as [|a cs IH]; intros c l Hx; simpl in Hx.
  - injection Hx as <- <-. constructor.
  - destruct (exec fuel g c (call_prog a)) as [[c1 o]|] eqn:He; [|done]. simpl in Hx.
    destruct (exec_calls fuel g cs c1) as [[l1 c2]|] eqn:Hc; [|done]. injection Hx as <- <-.
    apply session_call with c1; [by eapply exec_sound | by apply IH].
Qed.
End exec.

(** Two servers, and servers that answer 100 more than the key. *)
Definition plus_100 (r : request) : Z := query_key r + 100.

Definition demo_calls : list call :=
  [CallLookup 5; CallInsert 6 100; CallTryGet; CallGet; CallLookup 7; CallGet; CallGet; CallGet].

Definition demo_session : list (call * outcome) :=
  [(CallLookup 5, Accepted); (CallInsert 6 100, Accepted); (CallTryGet, Nothing);
   (CallGet, Value 105); (CallLookup 7, Accepted); (CallGet, Value 106); (CallGet, Value 107);
   (CallGet, Nothing)].

Lemma demo_session_runs : exists c, session (gives plus_100) demo_session (new_client 2) c.
Proof.
  assert (exists c, exec_calls 20 plus_100 demo_calls (new_client 2) = Some (demo_session, c))
    as [c Hc] by (eexists; vm_compute; reflexivity).
  exists c. by eapply exec_calls_sound.
Qed.

Lemma demo_calls_ok : Forall (fun x => call_ok x.1) demo_session.
Proof. repeat constructor; try done. Qed.

Lemma plus_100_total r : answering r -> exists v, gives plus_100 r v.
Proof. intros _. by eexists. Qed.

Lemma answers_in_order_witness :
  exists outstanding taken, [Lookup 5; Insert 6 100; Lookup 7] = taken ++ outstanding /\
    Forall2 (gives plus_100) taken [105; 106; 107] /\ Z.of_nat (length outstanding) <= MAX_PENDING_SIZE.
Proof.
  destruct demo_session_runs as [c Hs].
  exact (answers_in_order (gives plus_100) 2 demo_session c ltac:(split; reflexivity) Hs demo_calls_ok).
Defined.

Lemma calls_not_stuck_witness :
  exists c, not_stuck (gives plus_100) (c, call_prog (CallLookup 9)).
Proof.
  destruct demo_session_runs as [c Hs]. exists c.
  exact (calls_not_stuck (gives plus_100) 2 demo_session c (CallLookup 9) c _ plus_100_total
           ltac:(split; reflexivity) Hs demo_calls_ok ltac:(split; discriminate || reflexivity)
           (rtc_refl _ _)).
Defined.

Lemma calls_complete_witness :
  exists c c2 o, rtc (call_step (gives plus_100)) (c, call_prog (CallInsert 9 64)) (c2, Done o).
Proof.
  destruct demo_session_runs as [c Hs]. exists c.
  exact (calls_complete (gives plus_100) 2 demo_session c (CallInsert 9 64) c _ plus_100_total
           ltac:(split; reflexivity) Hs demo_calls_ok
           ltac:(split; [split; discriminate || reflexivity | split; reflexivity])
           (rtc_refl _ _)).
Defined.

(** A box with a batch of one lookup in it, in a table of one partition. *)
Definition demo_box : box :=
  match (b ← inpb_write inputbuffer_zero 1 [lookup_word 5]; inpb_flush b) with
  | Ok ib => Box ib outputbuffer_zero
  | Fault _ => Box inputbuffer_zero outputbuffer_zero
  end.

Definition demo_table : hash_table :=
  HashTable 1 1 512 0 [demo EVICT_LRU] [None] [Some [demo_box]] 0.

Lemma demo_box_rep : link_rep demo_box (LinkState [[Lookup 5]] [] []).
Proof.
  split; simpl; [|apply ob_rep_zero|].
  - pose proof (write_refines inputbuffer_zero (Spec.Chan [] []) [lookup_word 5] ib_rep_zero) as Hw.
    assert (Forall nonzero [lookup_word 5]) as Hnz by (constructor; [by vm_compute | constructor]).
    specialize (Hw Hnz ltac:(vm_compute; lia)).
    destruct (inpb_write inputbuffer_zero _ _) as [b1|] eqn:Hb1; [|by vm_compute in Hb1].
    pose proof (flush_refines b1 (Spec.Chan [] [lookup_word 5]) Hw) as Hf.
    vm_compute in Hb1. injection Hb1 as <-. vm_compute in Hf. vm_compute. exact Hf.
  - repeat constructor; by vm_compute.
Qed.

Lemma server_visit_refines_witness :
  match server_visit 8 false 0 0 demo_table (Mem ∅ 0) (Locals scratch 0 0 0 0) with
  | Ok (t', _, _) => exists b', boxes t' = [Some [b']] /\ link_rep b' (LinkState [] [] [(Lookup 5, 0)])
  | Fault _ => False
  end.
Proof.
  pose proof (server_visit_refines 8 false 0 0 demo_table (Mem ∅ 0) (Locals scratch 0 0 0 0)
    [demo_box] demo_box (LinkState [[Lookup 5]] [] []) (demo EVICT_LRU)
    eq_refl eq_refl demo_box_rep ltac:(vm_compute; lia) eq_refl eq_refl) as H.
  cbn [Z.of_nat] in H.
  destruct (server_visit _ _ _ _ _ _ _) as [[[t' m'] l']|f] eqn:He.
  - destruct H as (_ & _ & b' & Hb & vs & [h1 k1] & m2 & p' & Hm & Hsrv & _ & Hrep & _). exists b'. split; [exact Hb|].
    simpl in Hm. subst h1. vm_compute in Hsrv. injection Hsrv as <- _ _. exact Hrep.
  - vm_compute in He. discriminate.
Defined.
