(* ===== verification/DoallThms.v ===== *)
(** * DoallThms: the batch call answers a whole batch

    [smp_hash_doall] keeps its own counters instead of the pending ring. Under
    every interleaving with the servers it is never stuck and can be completed,
    and what it stores are the answers to its queries, in their order. *)
From stdpp Require Import base list gmap relations.
From Stdlib Require Import ZArith Lia.
From S2P Require Import Prelude Protocol MPBuffers Value Partition Server HashTable Client.
From S2P Require Import Link LinkInv ClientInv SystemThms.

Local Open Scope Z_scope.

(** The request a query of a known operation stands for. *)
Definition query_request (q : hash_query) : request :=
  if q_optype q =? optype_code OPTYPE_LOOKUP then Lookup (q_key q) else Insert (q_key q) (q_size q).

Definition query_ok (q : hash_query) : Prop :=
  (q_optype q = optype_code OPTYPE_LOOKUP \/ q_optype q = optype_code OPTYPE_INSERT) /\
  request_ok (query_request q).

Lemma query_msg_encode q : query_ok q -> query_msg q = Ok (encode (query_request q)).
Proof. intros [[H|H] _]; unfold query_msg, query_request; by rewrite H. Qed.

Lemma query_request_answering q : answering (query_request q).
Proof. unfold query_request. by case_match. Qed.

Lemma any_queries (qs : list hash_query) : Forall (fun q => any_request (query_request q)) qs.
Proof. by apply Forall_true. Qed.

Section doall.
Context (answers : request -> Z -> Prop) (may : request -> Prop).

(** The number of servers, the client's own data, which the call leaves alone, and the
    queries of the call, and the answers returned before it. *)
Context (n : Z) (pd0 : pending_data) (queries : list hash_query) (sp : list (request * Z)).
Context (Hn : 0 < n < 2 ^ 31) (Hok : Forall query_ok queries)
  (Hmay : Forall (fun q => may (query_request q)) queries) (Hlen : Z.of_nat (length queries) < 2 ^ 31).

Definition untouched (n' : Z) (pd : pending_data) (_ : books) : Prop := n' = n /\ pd = pd0.

Definition server_of (q : hash_query) : nat := Z.to_nat (hash_get_server n (q_key q)).

Definition tagged (q : hash_query) : nat * request := (server_of q, query_request q).

Lemma server_of_range q : hash_get_server n (q_key q) = Z.of_nat (server_of q) /\ (server_of q < Z.to_nat n)%nat.
Proof. pose proof (hash_get_server_range n (q_key q) Hn). unfold server_of. lia. Qed.

(** The local variables after the queries [sent]: the first [pindex] of them are
    answered. *)
Record progress (sent : list hash_query) (d : doall) (bk : books) : Prop := {
  pg_got : (got bk).*1 = query_request <$> take (length (got bk)) sent;
  pg_todo : todo bk = tagged <$> drop (length (got bk)) sent;
  pg_le : (length (got bk) <= length sent)%nat;
  pg_index : da_pindex d = Z.of_nat (length (got bk));
  pg_counts : length (da_count d) = Z.to_nat n;
  pg_count : forall s, (s < Z.to_nat n)%nat ->
    da_count d !! s = Some (Z.of_nat (length (queries_of s (todo bk))));
  pg_room : (length queries <= length (da_values d))%nat;
  pg_values : take (length (got bk)) (da_values d) = (got bk).*2;
  pg_spent : spent bk = sp
}.

(** Filing an answer. *)
Lemma da_store_ok sent d bk s r rest v c :
  progress sent d bk -> sent `prefix_of` queries -> todo bk = (s, r) :: rest -> (s < Z.to_nat n)%nat ->
  Z.of_nat (length (queries_of s rest)) < MAX_PENDING_PER_SERVER ->
  exists d', da_file (Z.of_nat s) d v c = Ok (c, d') /\ length (da_values d') = length (da_values d) /\
    progress sent d' (Books (got bk ++ [(r, v)]) rest (spent bk)).
Proof.
  intros Hp Hpre Ht Hs Hroom. pose proof (pg_count _ _ _ Hp s Hs) as Hcnt.
  rewrite Ht, queries_of_cons, decide_True in Hcnt by done. simpl length in Hcnt.
  change MAX_PENDING_PER_SERVER with 56 in Hroom. pose proof (pg_counts _ _ _ Hp) as Hlc.
  apply prefix_length in Hpre. pose proof (pg_todo _ _ _ Hp) as Htd. rewrite Ht in Htd.
  destruct (drop (length (got bk)) sent) as [|q qs] eqn:Hd; [done|].
  rewrite fmap_cons in Htd. injection Htd as Hsr Hr Hrest.
  assert (length (got bk) < length sent)%nat as Hlt.
  { apply (f_equal length) in Hd. rewrite length_drop in Hd. simpl in Hd. lia. }
  assert (sent !! length (got bk) = Some q) as Hq.
  { rewrite <- (Nat.add_0_r (length (got bk))), <- lookup_drop, Hd. done. }
  unfold da_file, da_store. rewrite (pg_index _ _ _ Hp). pose proof (pg_room _ _ _ Hp) as Hr'.
  rewrite aset_in by lia. cbn [mbind result_bind]. rewrite Nat2Z.id.
  assert (aget (da_count d) (Z.of_nat s) = Ok (Z.of_nat (S (length (queries_of s rest))))) as ->
    by (apply aget_Ok; rewrite Nat2Z.id; split; [lia | done]).
  cbn [mbind result_bind]. rewrite aset_in by lia. rewrite Nat2Z.id. cbn [mbind result_bind].
  eexists. split; [reflexivity|]. simpl. split; [apply length_insert|].
  rewrite !i32_small by lia.
  replace (Z.of_nat (S (length (queries_of s rest))) - 1) with (Z.of_nat (length (queries_of s rest))) by lia.
  destruct Hp. split; simpl; rewrite ?length_app; simpl; rewrite ?Nat.add_1_r.
  - rewrite fmap_app, pg_got0, (take_S_r _ _ q Hq), fmap_app. simpl. by rewrite Hr.
  - rewrite Hrest. f_equal. rewrite <- (Nat.add_1_r (length (got bk))), <- drop_drop, Hd. done.
  - lia.
  - lia.
  - by rewrite length_insert.
  - intros s0 H0. destruct (decide (s0 = s)) as [->|Hne].
    + by rewrite list_lookup_insert_eq by lia.
    + rewrite list_lookup_insert_ne by done. rewrite (pg_count0 s0 H0), Ht, queries_of_cons.
      by rewrite decide_False by (simpl; congruence).
  - by rewrite length_insert.
  - rewrite fmap_app, (take_S_r _ _ v) by (apply list_lookup_insert_eq; lia).
    by rewrite take_insert_ge, pg_values0 by lia.
  - done.
Qed.

(** Counting a query that was sent. *)
Lemma da_note_ok sent d bk q c :
  progress sent d bk -> Z.of_nat (length (queries_of (server_of q) (todo bk))) < MAX_PENDING_PER_SERVER ->
  exists d', da_note (Z.of_nat (server_of q)) d c = Ok (c, d') /\ da_values d' = da_values d /\
    progress (sent ++ [q]) d' (Books (got bk) (todo bk ++ [tagged q]) (spent bk)).
Proof.
  intros Hp Hroom. destruct (server_of_range q) as [_ Hs]. pose proof (pg_count _ _ _ Hp _ Hs) as Hcnt.
  change MAX_PENDING_PER_SERVER with 56 in Hroom. pose proof (pg_counts _ _ _ Hp) as Hlc.
  unfold da_note.
  assert (aget (da_count d) (Z.of_nat (server_of q)) =
            Ok (Z.of_nat (length (queries_of (server_of q) (todo bk))))) as ->
    by (apply aget_Ok; rewrite Nat2Z.id; split; [lia | done]).
  cbn [mbind result_bind]. rewrite aset_in by lia. rewrite Nat2Z.id. cbn [mbind result_bind].
  rewrite i32_small by lia. eexists. split; [reflexivity|]. split; [done|].
  destruct Hp. split; simpl; try done.
  - by rewrite take_app_le.
  - by rewrite pg_todo0, drop_app_le, fmap_app.
  - rewrite length_app. lia.
  - by rewrite length_insert.
  - intros s0 H0. rewrite queries_of_snoc, length_app. simpl.
    destruct (decide (s0 = server_of q)) as [->|Hne].
    + rewrite list_lookup_insert_eq, decide_True by (done || lia). f_equal. simpl. lia.
    + rewrite list_lookup_insert_ne, decide_False by congruence. rewrite (pg_count0 s0 H0). simpl.
      by rewrite Nat.add_0_r.
Qed.

(** The answer that is next, and its server. *)
Lemma next_query sent d bk s r rest :
  progress sent d bk -> sent `prefix_of` queries -> todo bk = (s, r) :: rest ->
  exists q, aget queries (da_pindex d) = Ok q /\ hash_get_server n (q_key q) = Z.of_nat s.
Proof.
  intros Hp Hpre Ht. pose proof (pg_todo _ _ _ Hp) as Htd. rewrite Ht in Htd.
  destruct (drop (length (got bk)) sent) as [|q qs] eqn:Hd; [done|]. exists q.
  rewrite fmap_cons in Htd. injection Htd as Hs _ _.
  assert (sent !! length (got bk) = Some q) as Hq.
  { rewrite <- (Nat.add_0_r (length (got bk))), <- lookup_drop, Hd. done. }
  split.
  - rewrite (pg_index _ _ _ Hp). apply aget_Ok. rewrite Nat2Z.id. split; [lia|].
    by eapply prefix_lookup_Some.
  - rewrite Hs. apply server_of_range.
Qed.

(** The books and the variables agree after the queries [sent]. *)
Definition agree (sent : list hash_query) (d0 : doall) (bufs : list (list request))
    (bk' : books) (bufs' : list (list request)) (d' : doall) : Prop :=
  length bufs' = length bufs /\ progress sent d' bk' /\ length (da_values d') = length (da_values d0).

(** What filing the next answer leaves, for either way of taking it. *)
Lemma filed sent d bk s r rest v c ls bufs :
  progress sent d bk -> sent `prefix_of` queries -> todo bk = (s, r) :: rest ->
  links_inv answers (cl_nservers c) (cl_boxes c) (Books (got bk ++ [(r, v)]) rest (spent bk)) ls ->
  untouched (cl_nservers c) (cl_pd c) bk -> (s < Z.to_nat n)%nat ->
  Z.of_nat (length (queries_of s rest)) < MAX_PENDING_PER_SERVER -> length ls = length bufs ->
  exists c' d', da_file (Z.of_nat s) d v c = Ok (c', d') /\
    inv answers untouched c' (Books (got bk ++ [(r, v)]) rest (spent bk)) ls /\
    agree sent d bufs (Books (got bk ++ [(r, v)]) rest (spent bk)) (lk_buffered <$> ls) d'.
Proof.
  intros Hp Hpre Ht Hl HP Hs Hroom Hlen1.
  destruct (da_store_ok sent d bk s r rest v c Hp Hpre Ht Hs Hroom) as (d' & Hf & Hlv & Hp').
  exists c, d'. split; [exact Hf|]. split; [split; [exact Hl | exact HP]|].
  split; [by rewrite length_fmap | done].
Qed.

Lemma next_room c bk ls s r rest :
  inv answers untouched c bk ls -> todo bk = (s, r) :: rest ->
  (s < Z.to_nat n)%nat /\ Z.of_nat (length (queries_of s rest)) < MAX_PENDING_PER_SERVER.
Proof.
  intros [Hl [Hnc _]] Ht. split.
  - pose proof (li_next _ _ _ _ _ Hl s r rest Ht) as Hlt. by rewrite (li_ls _ _ _ _ _ Hl), Hnc in Hlt.
  - pose proof (li_room _ _ _ _ _ Hl s) as Hr. rewrite Ht, queries_of_cons, decide_True in Hr by done.
    simpl in Hr. lia.
Qed.

Lemma da_read_ok sent d bk bufs s r rest :
  progress sent d bk -> sent `prefix_of` queries -> todo bk = (s, r) :: rest ->
  safe answers untouched may (fun bk' bufs' d' => agree sent d bufs bk' bufs' d' /\ todo bk' = rest)
    bk bufs (da_read queries d).
Proof.
  intros Hp Hpre Ht c ls Hinv Hbufs. destruct (next_query _ _ _ _ _ _ Hp Hpre Ht) as (q & Hq & Hs).
  destruct (next_room _ _ _ _ _ _ Hinv Ht) as [Hlt Hroom]. destruct (proj2 Hinv) as [Hnc _].
  unfold da_server. rewrite Hq. cbn [mbind result_bind mret result_ret].
  rewrite Hnc, Hs. cbn [mbind result_bind].
  apply (fetch_ok answers untouched may (da_file (Z.of_nat s) d) _ bk bufs s r rest c ls Ht); [|done..].
  intros v c1 ls1 Hv Hl1 HP1 Hlen1.
  destruct (filed sent d bk s r rest v c1 ls1 bufs Hp Hpre Ht Hl1 HP1 Hlt Hroom Hlen1)
    as (c' & d' & Hf & Hi & Ha). eauto 10.
Qed.

(** Waiting for room on a server. *)
Lemma da_wait_ok sent fuel d bk bufs s :
  progress sent d bk -> sent `prefix_of` queries -> (s < Z.to_nat n)%nat -> (length (todo bk) < fuel)%nat ->
  safe answers untouched may (fun bk' bufs' d' => agree sent d bufs bk' bufs' d' /\
      Z.of_nat (length (queries_of s (todo bk'))) < MAX_PENDING_PER_SERVER)
    bk bufs (da_wait fuel queries (Z.of_nat s) d).
Proof.
  revert d bk bufs. induction fuel as [|fuel IH]; intros d bk bufs Hp Hpre Hs Hfuel; [lia|].
  intros c ls Hinv Hbufs. pose proof (pg_count _ _ _ Hp s Hs) as Hcnt.
  assert (aget (da_count d) (Z.of_nat s) = Ok (Z.of_nat (length (queries_of s (todo bk))))) as ->
    by (apply aget_Ok; rewrite Nat2Z.id; split; [lia | done]).
  cbn [mbind result_bind mret result_ret]. exists bk, ls. split; [done|]. split; [done|]. rewrite Hbufs.
  destruct (Z.leb_spec MAX_PENDING_PER_SERVER (Z.of_nat (length (queries_of s (todo bk))))) as [Hge|Hlt].
  - destruct (todo bk) as [|[s1 r1] rest] eqn:Ht.
    { change MAX_PENDING_PER_SERVER with 56 in Hge. simpl in Hge. lia. }
    apply (safe_bind answers untouched may _ _ _ _ _ _ (da_read_ok sent d bk bufs s1 r1 rest Hp Hpre Ht)).
    intros bk' bufs' d' ((Hlb & Hp' & Hlv) & Ht'). simpl in Hfuel.
    eapply safe_mono; [apply IH; [exact Hp' | done | done | rewrite Ht'; lia]|].
    intros bk2 bufs2 d2 ((Hl2 & Hp2 & Hlv2) & Hr). split; [|done]. split; [congruence|].
    split; [done | congruence].
  - split; [|done]. done.
Qed.

Lemma da_send_ok sent d bk bufs q :
  progress sent d bk -> query_ok q -> may (query_request q) -> (server_of q < length bufs)%nat ->
  Z.of_nat (length (queries_of (server_of q) (todo bk))) < MAX_PENDING_PER_SERVER ->
  safe answers untouched may (agree (sent ++ [q]) d bufs) bk bufs (da_send (Z.of_nat (server_of q)) q d).
Proof.
  intros Hp Hq Hm Hs Hroom. unfold da_send. rewrite (query_msg_encode q Hq).
  apply (send_ok answers untouched may (da_note (Z.of_nat (server_of q)) d) (agree (sent ++ [q]) d bufs)
           bk bufs (server_of q) (query_request q)); [done | apply query_request_answering | apply Hq | done | done |].
  intros c ls Hl HP Hls. destruct (da_note_ok sent d bk q c Hp Hroom) as (d' & Hd & Hv & Hp').
  exists c, d'. split; [exact Hd|]. split; [by split|]. split; [by rewrite length_fmap|].
  split; [done | by rewrite Hv].
Qed.

(** The loop that sends the queries. *)
Lemma da_queue_ok sent rest d bk bufs :
  progress sent d bk -> sent ++ rest = queries -> length bufs = Z.to_nat n ->
  safe answers untouched may (agree queries d bufs) bk bufs (da_queue queries rest d).
Proof.
  revert sent d bk bufs. induction rest as [|q rest IH]; intros sent d bk bufs Hp Hsent Hb.
  { rewrite app_nil_r in Hsent. subst sent. done. }
  intros c ls Hinv Hbufs. cbn [mret result_ret]. exists bk, ls. split; [done|]. split; [done|]. rewrite Hbufs.
  destruct (proj2 Hinv) as [-> _]. destruct (server_of_range q) as [-> Hs].
  assert (sent `prefix_of` queries) as Hpre by (by exists (q :: rest)).
  assert (length (todo bk) <= length queries)%nat as Htl.
  { rewrite (pg_todo _ _ _ Hp), length_fmap, length_drop. apply prefix_length in Hpre. lia. }
  eapply safe_bind; [apply (da_wait_ok sent (S (length queries)) d bk bufs (server_of q)); (done || lia)|].
  intros bk1 bufs1 d1 ((Hl1 & Hp1 & Hv1) & Hr1).
  eapply safe_bind; [apply (da_send_ok sent d1 bk1 bufs1 q); [done | | | lia | done]|].
  1,2: assert (q ∈ queries) as Hin by (rewrite <- Hsent; set_solver).
  { by apply (proj1 (Forall_forall _ _) Hok). }
  { by apply (proj1 (Forall_forall _ _) Hmay). }
  intros bk2 bufs2 d2 (Hl2 & Hp2 & Hv2).
  eapply safe_mono; [apply (IH (sent ++ [q]) d2 bk2 bufs2 Hp2); [by rewrite <- app_assoc | lia]|].
  intros bk3 bufs3 d3 (Hl3 & Hp3 & Hv3). split; [congruence|]. split; [done | congruence].
Qed.

(** Flushing every buffer. *)
Lemma da_flush_ok ss bk bufs :
  (forall s, s ∈ ss -> (s < length bufs)%nat) ->
  safe answers untouched may (fun bk' bufs' _ => bk' = bk /\ length bufs' = length bufs /\
      forall s, (s ∈ ss \/ bufs !! s = Some []) -> (s < length bufs)%nat -> bufs' !! s = Some [])
    bk bufs (da_flush ss).
Proof.
  revert bufs. induction ss as [|s ss IH]; intros bufs Hss.
  { split; [done|]. split; [done|]. intros s [H|H] _; [set_solver | done]. }
  cbn [da_flush]. eapply safe_bind; [apply safe_flush, Hss; by left|].
  intros bk' bufs' _ [-> ->].
  eapply safe_mono; [apply IH; intros s0 H0; rewrite length_insert; apply Hss; by right|].
  intros bk2 bufs2 _ (-> & Hl2 & Hf2). rewrite length_insert in Hl2. split; [done|]. split; [done|].
  intros s0 H0 Hlt. apply Hf2; [|by rewrite length_insert].
  destruct (decide (s0 = s)) as [->|Hne]; [right; by apply list_lookup_insert_eq|].
  rewrite list_lookup_insert_ne by done. set_solver.
Qed.

(** The loop that takes the remaining answers. *)
Lemma da_collect_ok fuel d bk bufs :
  progress queries d bk -> length bufs = Z.to_nat n ->
  (forall s, (s < Z.to_nat n)%nat -> bufs !! s = Some []) ->
  (length (todo bk) <= fuel)%nat ->
  safe answers untouched may (fun bk' bufs' d' => agree queries d bufs bk' bufs' d' /\ todo bk' = [])
    bk bufs (da_collect fuel queries d).
Proof.
  revert d bk bufs. induction fuel as [|fuel IH]; intros d bk bufs Hp Hb Hflushed Hfuel;
    pose proof (pg_todo _ _ _ Hp) as Htd; pose proof (pg_le _ _ _ Hp) as Hle; cbn [da_collect];
    rewrite (pg_index _ _ _ Hp); destruct (Z.leb_spec (Z.of_nat (length queries)) (Z.of_nat (length (got bk)))).
  1,3: (split; [done|]; rewrite Htd, drop_ge by lia; done).
  { rewrite Htd, length_fmap, length_drop in Hfuel. lia. }
  destruct (todo bk) as [|[s r] rest] eqn:Ht.
  { symmetry in Htd. apply fmap_nil_inv in Htd. apply (f_equal length) in Htd. rewrite length_drop in Htd.
    simpl in Htd. lia. }
  rewrite <- Ht in Htd.
  apply (safe_bind answers untouched may (fun bk' bufs' d' => (agree queries d bufs bk' bufs' d' /\ todo bk' = rest) /\
    forall t, bufs !! t = Some [] -> bufs' !! t = Some [])).
  - intros c ls Hinv Hbufs.
    destruct (next_query queries d bk s r rest Hp ltac:(done) Ht) as (q & Hq & Hs).
    destruct (next_room _ _ _ _ _ _ Hinv Ht) as [Hlt Hroom]. destruct (proj2 Hinv) as [Hnc _].
    unfold da_server. rewrite <- (pg_index _ _ _ Hp), Hq. cbn [mbind result_bind mret result_ret].
    rewrite Hnc, Hs. cbn [mbind result_bind].
    apply (blocking_fetch_ok answers untouched may (da_file (Z.of_nat s) d)
             (fun bk' bufs' d' => (agree queries d bufs bk' bufs' d' /\ todo bk' = rest) /\
                forall t, bufs !! t = Some [] -> bufs' !! t = Some []) bk bufs s r rest Ht); [|auto|done..].
    intros v c1 ls1 Hv Hl1 HP1 Hlen1 Hkeep.
    destruct (filed queries d bk s r rest v c1 ls1 bufs Hp ltac:(done) Ht Hl1 HP1 Hlt Hroom Hlen1)
      as (c' & d' & Hf & Hi & Ha). eauto 10.
  - intros bk' bufs' d' (((Hl' & Hp' & Hv') & Ht') & Hkeep). simpl in Hfuel.
    eapply safe_mono; [apply (IH d' bk' bufs' Hp'); [congruence | auto | rewrite Ht'; lia]|].
    intros bk2 bufs2 d2 ((Hl2 & Hp2 & Hv2) & Ht2). split; [|done]. split; [congruence|].
    split; [done | congruence].
Qed.

(** The whole call, from a client that has nothing outstanding. *)
Lemma doall_safe bufs values :
  length bufs = Z.to_nat n -> (length queries <= length values)%nat ->
  safe answers untouched may (fun bk' bufs' vs => (length bufs' = length bufs /\ todo bk' = [] /\ spent bk' = sp) /\ length vs = length values /\
      (got bk').*1 = query_request <$> queries /\ take (length queries) vs = (got bk').*2)
    (Books [] [] sp) bufs (smp_hash_doall queries values).
Proof.
  intros Hb Hv c ls Hinv Hbufs. cbn [mret result_ret]. exists (Books [] [] sp), ls. split; [done|]. split; [done|]. rewrite Hbufs.
  destruct (proj2 Hinv) as [-> _].
  assert (progress [] (Doall (replicate (Z.to_nat n) 0) 0 values) (Books [] [] sp)) as Hp.
  { split; simpl; try done; [by rewrite length_replicate|]. intros s Hs. by apply lookup_replicate_2. }
  eapply safe_bind; [apply (da_queue_ok [] queries _ _ _ Hp eq_refl Hb)|].
  intros bk1 bufs1 d1 (Hl1 & Hp1 & Hv1). simpl in Hv1.
  eapply safe_bind; [apply da_flush_ok; intros s Hs; apply elem_of_seq in Hs; lia|].
  intros bk2 bufs2 [] (-> & Hl2 & Hf2).
  eapply safe_bind; [apply (da_collect_ok (length queries) d1 bk1 bufs2 Hp1)|].
  - congruence.
  - intros s Hs. apply Hf2; [left; apply elem_of_seq; lia | lia].
  - rewrite (pg_todo _ _ _ Hp1), length_fmap, length_drop. lia.
  - intros bk3 bufs3 d3 ((Hl3 & Hp3 & Hv3) & Ht3). split; [split; [congruence | split; [done | apply Hp3]]|]. split; [congruence|].
    assert (length (got bk3) = length queries) as Hg.
    { pose proof (pg_todo _ _ _ Hp3) as Htd. rewrite Ht3 in Htd. symmetry in Htd.
      apply fmap_nil_inv in Htd. apply (f_equal length) in Htd. rewrite length_drop in Htd.
      pose proof (pg_le _ _ _ Hp3). simpl in Htd. lia. }
    destruct Hp3. rewrite Hg in *. rewrite firstn_all in pg_got0. done.
Qed.
End doall.

(** ** The call in a session *)
Section runs.
Context (answers : request -> Z -> Prop) (Hans : forall r, answering r -> exists v, answers r v).

(** A client with nothing outstanding. *)
Definition idle (c : client) : Prop := exists sp ls, client_inv answers c (Books [] [] sp) ls.

(** What a batch of queries may do to such a client: never stuck, always
    completed, and at its end the answers in order and a client at rest. *)
Definition batch_run (c : client) (r : prog (list Z)) (qs : list hash_query) (len : nat) : Prop :=
  forall c1 r1, rtc (call_step answers) (c, r) (c1, r1) ->
    not_stuck answers (c1, r1) /\
    (exists c2 vs, rtc (call_step answers) (c1, r1) (c2, Done vs)) /\
    forall vs, r1 = Done vs -> length vs = len /\ idle c1 /\
      Forall2 answers (query_request <$> qs) (take (length qs) vs).

Lemma answered_pairs (g : list (request * Z)) rs vs :
  Forall (fun pr => answers pr.1 pr.2) g -> g.*1 = rs -> g.*2 = vs -> Forall2 answers rs vs.
Proof. intros Hg <- <-. induction Hg; constructor; done. Qed.

Lemma doall_run c qs values :
  idle c -> Forall query_ok qs -> Z.of_nat (length qs) < 2 ^ 31 -> (length qs <= length values)%nat ->
  batch_run c (smp_hash_doall qs values) qs (length values).
Proof.
  intros (sp & ls & Hl & Hpd) Hqs Hlen Hv c1 r1 Hrun. pose proof (li_n _ _ _ _ _ Hl) as Hn.
  pose proof (li_ls _ _ _ _ _ Hl) as Hls.
  assert (inv answers (untouched (cl_nservers c) (cl_pd c)) c (Books [] [] sp) ls) as Hinv by (by split).
  pose proof (doall_safe answers any_request (cl_nservers c) (cl_pd c) qs sp Hn Hqs (any_queries qs) Hlen (lk_buffered <$> ls) values
                ltac:(by rewrite length_fmap) Hv) as Hsafe.
  destruct (safe_steps answers _ _ _ _ _ _ _ Hrun Hinv Hsafe) as (bk1 & ls1 & Hinv1 & Hsafe1).
  split; [by eapply safe_not_stuck|]. split; [by eapply safe_completes|].
  intros vs ->. destruct Hsafe1 as ((_ & Ht & _) & Hlv & Hg1 & Hg2). destruct Hinv1 as [Hl1 [Hnc1 Hpd1]].
  split; [done|]. split.
  - exists sp, ls1. split.
    + destruct Hl1. split; simpl; try done; by rewrite <- Ht.
    + simpl in Hnc1, Hpd1. rewrite Hnc1, Hpd1. done.
  - eapply answered_pairs; [apply (li_got _ _ _ _ _ Hl1) | done | done].
Qed.

(** Books with nothing outstanding. *)
Lemma queue_nil bk : queue bk = [] -> bk = Books [] [] (spent bk).
Proof.
  unfold queue. intros [Hg Ht]%app_nil. apply fmap_nil_inv in Hg, Ht. destruct bk. simpl in *. by subst.
Qed.

(** All values returned, nothing outstanding. *)
Lemma session_idle n l c :
  0 < n < 2 ^ 31 -> session answers l (new_client n) c -> Forall (fun x => call_ok x.1) l ->
  length (concat (returned <$> l)) = length (concat (accepted <$> l)) -> idle c.
Proof.
  intros Hn Hs Hok Hlen.
  destruct (session_ok answers l _ _ _ _ Hs Hok (new_client_inv answers n Hn)) as (bk & ls & taken & Hinv & Hq & Hf).
  simpl in Hq. apply Forall2_length in Hf. apply (f_equal length) in Hq as Hql. rewrite length_app in Hql.
  assert (queue bk = []) as Hqe by (apply length_zero_iff_nil; lia).
  apply queue_nil in Hqe. rewrite Hqe in Hinv. by exists (spent bk), ls.
Qed.

(** The batch call. After any session whose answers have all been taken,
    [smp_hash_doall] on well-formed queries is, under every interleaving with
    the servers, never stuck, can be completed from every point, and leaves in the
    first places of [values] an answer to each query, in the order of the
    queries, whichever servers they go to and however their answers interleave. *)
Theorem doall_answers n l c qs values c1 r :
  0 < n < 2 ^ 31 -> session answers l (new_client n) c -> Forall (fun x => call_ok x.1) l ->
  length (concat (returned <$> l)) = length (concat (accepted <$> l)) ->
  Forall query_ok qs -> Z.of_nat (length qs) < 2 ^ 31 -> (length qs <= length values)%nat ->
  rtc (call_step answers) (c, smp_hash_doall qs values) (c1, r) ->
  not_stuck answers (c1, r) /\ (exists c2 vs, rtc (call_step answers) (c1, r) (c2, Done vs)) /\
  forall vs, r = Done vs -> Forall2 answers (query_request <$> qs) (take (length qs) vs).
Proof.
  intros Hn Hs Hok Hret Hqs Hlen Hv Hrun.
  destruct (doall_run c qs values (session_idle n l c Hn Hs Hok Hret) Hqs Hlen Hv c1 r Hrun)
    as (Hns & Hc & Hd).
  split; [done|]. split; [done|]. intros vs Hr. by apply Hd.
Qed.
End runs.

(** ** Instances *)
Definition demo_batch_queries : list hash_query :=
  [HashQuery 0 0 5; HashQuery 1 64 6; HashQuery 0 0 8; HashQuery 0 0 7].

Lemma demo_batch_queries_ok : Forall query_ok demo_batch_queries.
Proof.
  repeat constructor; simpl; try (left; reflexivity); try (right; reflexivity);
    vm_compute; (reflexivity || discriminate).
Qed.

Lemma demo_session_all :
  exists c, session (gives plus_100) demo_session (new_client 2) c /\
    exists c1, exec 40 plus_100 c (smp_hash_doall demo_batch_queries [0; 0; 0; 0; 7]) = Some (c1, [105; 106; 108; 107; 7]).
Proof.
  assert (exists c, exec_calls 20 plus_100 demo_calls (new_client 2) = Some (demo_session, c) /\
    exists c1, exec 40 plus_100 c (smp_hash_doall demo_batch_queries [0; 0; 0; 0; 7]) = Some (c1, [105; 106; 108; 107; 7]))
    as (c & Hc & Hd).
  { eexists. split; [vm_compute; reflexivity|]. eexists. vm_compute. reflexivity. }
  exists c. split; [by eapply exec_calls_sound | done].
Qed.

Lemma doall_answers_witness :
  Forall2 (gives plus_100) [Lookup 5; Insert 6 64; Lookup 8; Lookup 7] [105; 106; 108; 107].
Proof.
  destruct demo_session_all as (c & Hs & c1 & Hx).
  exact (proj2 (proj2 (doall_answers (gives plus_100) plus_100_total 2 demo_session c demo_batch_queries
    [0; 0; 0; 0; 7] c1 (Done [105; 106; 108; 107; 7]) ltac:(split; reflexivity) Hs demo_calls_ok eq_refl
    demo_batch_queries_ok eq_refl ltac:(vm_compute; repeat constructor)
    (exec_sound plus_100 40 c _ c1 _ Hx))) _ eq_refl).
Defined.
