(* ===== verification/HashTableThms.v ===== *)
(** * HashTableThms: creation, destruction and shutdown of a hash table *)
From stdpp Require Import base list gmap relations.
From Stdlib Require Import ZArith Lia.
From S2P Require Import Prelude Protocol ALock MPBuffers Value Partition PartitionInv.
From S2P Require Import PartitionLru PartitionThms Ownership Estates Holders.
From S2P Require Import Server HashTable Client Link LinkInv ClientInv.
From S2P Require Import SystemThms.

Local Open Scope Z_scope.

(** ** Creation *)

(** The memory that [create_hash_table] is given for one partition. *)
Definition raw_fits (ms n : Z) (raw : partition * list alock) : Prop :=
  has_lock (plock raw.1) <> [] /\ Z.of_nat (length raw.2) = bucket_count ms n /\
  (forall l, l ∈ raw.2 -> has_lock l <> []).

Definition fresh_partition (h : heap) (ms n ev : Z) (p : partition) : Prop :=
  part_wf h p /\ members p = [] /\ max_size p = ms /\ evictalgo p = ev /\
  nhash p = bucket_count ms n.

Lemma init_partition_fresh raw ms n ev h :
  0 <= ms < 2 ^ 64 -> 0 < n <= MAX_CLIENTS -> ev = EVICT_LRU \/ ev = EVICT_RANDOM ->
  bucket_count ms n < 2 ^ 31 -> raw_fits ms n raw ->
  exists p, init_hash_partition raw.1 raw.2 ms n ev = Ok p /\ fresh_partition h ms n ev p.
Proof.
  intros Hms [Hn Hn'] Hev Hb (Hl & Hlen & Hls).
  destruct (init_locks_ok [plock raw.1] n) as (ls1 & Hl1 & _); [done | |].
  { by intros l ->%list_elem_of_singleton. }
  simpl in Hl1. destruct (anderson_init (plock raw.1) n) as [l1|] eqn:Hinit; [|done].
  destruct (init_locks_ok raw.2 n) as (ls & Hls' & _); [done..|].
  assert (exists p, init_hash_partition raw.1 raw.2 ms n ev = Ok p) as [p Hp].
  { unfold init_hash_partition. rewrite (proj2 (Z.ltb_lt _ _)) by done. simpl.
    rewrite (proj2 (Z.ltb_lt _ _)) by done. simpl. rewrite Hinit. simpl.
    rewrite Hlen, Z.eqb_refl. simpl. rewrite Hls'. simpl. eauto. }
  exists p. split; [done|].
  destruct (init_ok _ _ _ _ _ _ h Hms Hev Hp) as (Hwf & Hm & Hmx & _ & Hnh).
  assert (evictalgo p = ev) by (unfold init_hash_partition in Hp; invb Hp; by rewrite <- Hp).
  done.
Qed.

Lemma init_partitions_fresh raws ms n ev h :
  0 <= ms < 2 ^ 64 -> 0 < n <= MAX_CLIENTS -> ev = EVICT_LRU \/ ev = EVICT_RANDOM ->
  bucket_count ms n < 2 ^ 31 -> Forall (raw_fits ms n) raws ->
  exists ps, init_partitions raws ms n ev = Ok ps /\ length ps = length raws /\
    Forall (fresh_partition h ms n ev) ps.
Proof.
  intros Hms Hn Hev Hb. induction 1 as [|[raw locks] raws Hr _ IH]; [by exists []|].
  destruct (init_partition_fresh (raw, locks) ms n ev h Hms Hn Hev Hb Hr) as (p & Hp & Hf).
  destruct IH as (ps & Hps & Hlen & Hfs). exists (p :: ps). simpl in Hp |- *. rewrite Hp. simpl.
  rewrite Hps. simpl. split; [done|]. split; [by f_equal | by constructor].
Qed.

(** A table is created with one empty well-formed partition per server,
    each with its share of the bytes, and without clients. *)
Theorem create_hash_table_total raw raws ms n ev h :
  0 <= ms < 2 ^ 64 -> 0 < n <= MAX_CLIENTS -> ev = EVICT_LRU \/ ev = EVICT_RANDOM ->
  bucket_count (ms / n) n < 2 ^ 31 -> Forall (raw_fits (ms / n) n) raws ->
  Z.of_nat (length raws) = n ->
  exists t, create_hash_table raw raws ms n ev = Ok t /\
    ht_nservers t = n /\ nclients t = 0 /\ ht_max_size t = ms /\
    length (partitions t) = Z.to_nat n /\
    Forall (fresh_partition h (ms / n) n ev) (partitions t).
Proof.
  intros Hms Hn Hev Hb Hraws Hlen. unfold create_hash_table.
  rewrite (proj2 (Z.ltb_lt _ _)), Hlen, Z.eqb_refl by lia. simpl.
  assert (MAX_CLIENTS < 2 ^ 64) by reflexivity. rewrite u64_small by lia.
  assert (0 <= ms / n < 2 ^ 64) as Hq.
  { split; [apply Z.div_pos; lia|]. apply Z.div_lt_upper_bound; nia. }
  destruct (init_partitions_fresh raws (ms / n) n ev h Hq Hn Hev Hb Hraws) as (ps & -> & Hl & Hf).
  eexists. split; [done|]. simpl. split_and!; try done. lia.
Qed.

(** The first [MAX_CLIENTS] clients get the next number, zeroed boxes and
    empty books, and disturb no other client. The assertion lets one client more
    pass, and its boxes are stored behind the end of the array. *)
Theorem create_client_outcome t :
  length (boxes t) = Z.to_nat MAX_CLIENTS -> length (pending t) = Z.to_nat MAX_CLIENTS ->
  0 <= nclients t <= MAX_CLIENTS ->
  if nclients t <? MAX_CLIENTS
  then exists t', create_hash_table_client t = Ok (nclients t, t') /\
    nclients t' = nclients t + 1 /\ partitions t' = partitions t /\
    boxes t' !! Z.to_nat (nclients t) = Some (Some (cl_boxes (new_client (ht_nservers t)))) /\
    pending t' !! Z.to_nat (nclients t) = Some (Some (cl_pd (new_client (ht_nservers t)))) /\
    (forall j, j <> Z.to_nat (nclients t) ->
       boxes t' !! j = boxes t !! j /\ pending t' !! j = pending t !! j)
  else create_hash_table_client t = Fault Undefined.
Proof.
  intros Hb Hp Hn. unfold create_hash_table_client.
  rewrite (proj2 (Z.leb_le _ _)) by lia. simpl.
  destruct (Z.ltb_spec (nclients t) MAX_CLIENTS) as [Hlt|Hge].
  - assert (MAX_CLIENTS = 1024) as Hmax by reflexivity.
    rewrite !aset_in by lia. simpl. eexists. split; [done|]. simpl.
    rewrite i32_small by lia. rewrite !list_lookup_insert_eq by lia.
    split_and!; try done. intros j Hj. by rewrite !list_lookup_insert_ne by done.
  - assert (forall v, aset (boxes t) (nclients t) v = Fault Undefined) as ->; [|done].
    intros v. unfold aset. rewrite (proj2 (Z.ltb_ge _ _)) by lia. by rewrite andb_false_r.
Qed.

(** ** Destruction *)
Lemma destroy_partitions_ok h ps :
  Forall (fun p => part_wf h p) ps -> NoDup (concat (members <$> ps)) ->
  exists h', destroy_partitions h ps = Ok h' /\
    forall a, h' !! a = if decide (a ∈ concat (members <$> ps))
                        then h !! a ≫= after_release (release := atomic_release_value_)
                        else h !! a.
Proof.
  revert h. induction ps as [|p ps IH]; intros h Hok Hnd.
  - exists h. split; [done|]. intros a. rewrite decide_False; [done|]. apply not_elem_of_nil.
  - apply Forall_cons in Hok as [[Hp _ _] Hok]. rewrite fmap_cons in *. cbn [concat] in *.
    apply NoDup_app in Hnd as (_ & Hdis & Hnd).
    destruct (destroy_ok atomic_release_value_ h p Hp) as (h1 & Hd & Hh1).
    assert (forall a, a ∉ members p -> h1 !! a = h !! a) as Hsame
      by (intros a Ha; by rewrite Hh1, decide_False).
    destruct (IH h1) as (h2 & Hd2 & Hh2); [|done|].
    + apply Forall_forall. intros q Hq. rewrite Forall_forall in Hok.
      destruct (Hok q Hq) as [Hqok Hlim Hpol]. split; [|done..].
      apply (part_ok_heap h); [|done]. intros a Ha. apply same_shape_eq, Hsame. intros Hap.
      apply (Hdis a Hap). rewrite list_elem_of_In, in_concat. exists (members q).
      rewrite <- !list_elem_of_In. split; [by apply list_elem_of_fmap_2 | done].
    + exists h2. cbn [destroy_partitions]. rewrite Hd. split; [done|]. intros a. rewrite Hh2, Hh1.
      specialize (Hdis a). repeat (case_decide; try done); set_solver.
Qed.

Lemma free_clients_ok cs t :
  (forall i, i ∈ cs -> exists pd bs, pending t !! i = Some (Some pd) /\ boxes t !! i = Some (Some bs)) ->
  free_clients cs t = Ok tt.
Proof.
  induction cs as [|i cs IH]; intros Hcs; [done|]. destruct (Hcs i) as (pd & bs & Hp & Hb); [by left|].
  cbn [free_clients].
  assert (aget (pending t) (Z.of_nat i) = Ok (Some pd)) as ->
    by (apply aget_Ok; rewrite Nat2Z.id; split; [lia | done]).
  assert (aget (boxes t) (Z.of_nat i) = Ok (Some bs)) as ->
    by (apply aget_Ok; rewrite Nat2Z.id; split; [lia | done]).
  simpl. apply IH. intros j Hj. apply Hcs. by right.
Qed.

(** Destroying a table whose partitions are well formed and share no
    element meets every byte-count assertion and releases each element of each
    partition exactly once. *)
Theorem destroy_hash_table_releases h t :
  Forall (fun p => part_wf h p) (partitions t) -> NoDup (concat (members <$> partitions t)) ->
  (forall i, (i < Z.to_nat (nclients t))%nat ->
     exists pd bs, pending t !! i = Some (Some pd) /\ boxes t !! i = Some (Some bs)) ->
  exists h', destroy_hash_table h t = Ok h' /\
    forall a, h' !! a = if decide (a ∈ concat (members <$> partitions t))
                        then h !! a ≫= after_release (release := atomic_release_value_)
                        else h !! a.
Proof.
  intros Hok Hnd Hcl. destruct (destroy_partitions_ok h (partitions t) Hok Hnd) as (h' & Hd & Hh').
  exists h'. split; [|done]. unfold destroy_hash_table. rewrite Hd. simpl.
  rewrite free_clients_ok; [done|]. intros i Hi. apply elem_of_seq in Hi. apply Hcl. lia.
Qed.

(** ** Shutdown

    A table with one server and one client, whose two batches of eight lookups
    the server has not seen when it is told to stop. *)
Definition two_batches : result inputbuffer :=
  b ← inpb_write inputbuffer_zero 8 (replicate 8 (lookup_word 5));
  b ← inpb_write b 8 (replicate 8 (lookup_word 6));
  inpb_flush b.

Definition stopping : result hash_table :=
  t ← create_hash_table (HashTable 0 0 0 0 [] [] [] 0) [(raw_partition, demo_locks)] 512 1 EVICT_LRU;
  '(_, t) ← create_hash_table_client t;
  ib ← two_batches;
  t ← put_box t 0 0 (Box ib outputbuffer_zero);
  mret (set_quitting 1 t).

Definition stopping_table : hash_table :=
  match stopping with Ok t => t | Fault _ => HashTable 0 0 0 0 [] [] [] 0 end.

(** The comment in [hash_table_server] says that after the signal to quit
    the server completes all queries that are in the buffers. It makes one last
    round, which takes one batch of each client: here the second batch is still
    in the buffer when the thread has ended. *)
Theorem last_round_leaves_a_batch :
  exists t t' m', stopping = Ok t /\ quitting t = 1 /\
    hash_table_server 1 1 (fun _ t => t) 0 scratch t (Mem ∅ 0) = Ok (t', m') /\
    exists b buf ib, get_box t' 0 0 = Ok b /\ wr_index (bout b) = 8 /\
      inpb_read (bin b) scratch = Ok (8, buf, ib).
Proof.
  exists stopping_table.
  eexists _, _. split; [vm_compute; reflexivity|]. split; [vm_compute; reflexivity|].
  split; [vm_compute; reflexivity|].
  eexists _, _, _. split; [vm_compute; reflexivity|]. split; vm_compute; reflexivity.
Qed.

(** ** Instances *)
Definition no_memory : hash_table := HashTable 0 0 0 0 [] [] [] 0.

Lemma raw_fits_demo : raw_fits 512 2 (raw_partition, demo_locks).
Proof.
  split; [discriminate|]. split; [reflexivity|].
  intros l Hl. apply elem_of_replicate in Hl as [-> _]. discriminate.
Qed.

Lemma create_hash_table_total_witness :
  exists t, create_hash_table no_memory [(raw_partition, demo_locks); (raw_partition, demo_locks)]
    1024 2 EVICT_LRU = Ok t /\ length (partitions t) = 2%nat.
Proof.
  destruct (create_hash_table_total no_memory [(raw_partition, demo_locks); (raw_partition, demo_locks)]
    1024 2 EVICT_LRU ∅) as (t & Ht & _ & _ & _ & Hl & _).
  - split; reflexivity || discriminate.
  - split; reflexivity || discriminate.
  - left. reflexivity.
  - reflexivity.
  - constructor; [exact raw_fits_demo|]. constructor; [exact raw_fits_demo | constructor].
  - reflexivity.
  - exists t. split; [exact Ht | exact Hl].
Defined.

(** A table with [n] clients already there. *)
Definition with_clients (n : Z) : hash_table :=
  HashTable 2 n 1024 0 [] (replicate 1024 None) (replicate 1024 None) 0.

Lemma create_client_outcome_witness :
  create_hash_table_client (with_clients 1024) = Fault Undefined.
Proof.
  exact (create_client_outcome (with_clients 1024) eq_refl eq_refl
           ltac:(split; vm_compute; discriminate)).
Defined.


(** A table whose elements nobody holds: its destruction leaves the memory as it was
    before its creation. *)
Lemma unheld_memory release `{!Releases release} `{!RefCounted release} h0 ms ev k m t owns :
  estates release h0 ms ev k m (partitions t) owns ->
  (forall i, (i < Z.to_nat (nclients t))%nat ->
     exists pd bs, pending t !! i = Some (Some pd) /\ boxes t !! i = Some (Some bs)) ->
  (forall s own a hs, owns !! s = Some own -> own !! a = Some hs ->
     in_table hs = true /\ exists el, hp m !! a = Some el /\ ref_count el = 1) ->
  destroy_hash_table (hp m) t = Ok h0.
Proof.
  intros Hes Hcl Hel. destruct (destroy_hash_table_releases (hp m) t) as (h' & -> & Hh').
  - apply Forall_forall. intros p Hp. apply list_elem_of_lookup in Hp as [s Hp].
    destruct (es_books Hes s p Hp) as [own Ho]. destruct (es_part Hes s p own Hp Ho) as (Hpo & _). apply Hpo.
  - apply (members_apart Hes).
  - done.
  - f_equal. apply map_eq. intros a. rewrite Hh'. case_decide as Ha.
    + apply (member_books Hes) in Ha as (s & own & hs & Ho & Hhs & _).
      destruct (Hel s own a hs Ho Hhs) as (_ & el & Hela & Hrc).
      rewrite Hela, (es_in Hes s own a Ho) by (by eexists). cbn [mbind option_bind].
      change (with_count (u64 (ref_count el - 1)) el = None). by rewrite Hrc.
    + apply (es_out Hes). intros s own Ho. destruct (own !! a) as [hs|] eqn:Hhs; [|done]. destruct Ha.
      apply (books_member Hes s own a hs Ho Hhs). by destruct (Hel s own a hs Ho Hhs).
Qed.
Arguments unheld_memory {release _ _ h0 ms ev k m t owns}.

Lemma destroy_hash_table_releases_witness :
  exists h', destroy_hash_table {[ 4096 := Elem 5 1 192 [] ]}
    (HashTable 2 0 1024 0 [demo_one EVICT_LRU; demo EVICT_LRU] [] [] 0) = Ok h' /\ h' !! 4096 = None.
Proof.
  destruct (destroy_hash_table_releases {[ 4096 := Elem 5 1 192 [] ]}
    (HashTable 2 0 1024 0 [demo_one EVICT_LRU; demo EVICT_LRU] [] [] 0)) as (h' & Hd & Hh).
  - constructor; [|constructor; [apply demo_wf; left; reflexivity | constructor]].
    destruct demo_one_wf as [Hok Hlim Hpol]. split; [|exact Hlim | exact Hpol].
    apply (part_ok_heap (hp demo_mem)); [|exact Hok].
    intros e He. vm_compute in He. apply list_elem_of_singleton in He as ->.
    intros el Hel. vm_compute in Hel. injection Hel as <-. eexists. split; [reflexivity|].
    split; reflexivity.
  - vm_compute. constructor; [intros Hx; inversion Hx | constructor].
  - intros i Hi. inversion Hi.
  - exists h'. split; [exact Hd|]. rewrite Hh. vm_compute. reflexivity.
Defined.
