(* ===== verification/LockingWorldThms.v ===== *)
(** * LockingWorldThms: programs on the locking table, from creation to destruction

    What the invariant of [LockingWorldInv] means for the threads and the memory. *)
From stdpp Require Import base list gmap relations.
From Stdlib Require Import ZArith Lia.
From S2P Require Import Prelude Protocol ALock Value Partition PartitionInv PartitionLru PartitionThms.
From S2P Require Import TableOps Ownership HashTable Estates Holders Locking LockingThms LockingWorld.
From S2P Require Import LockingWorldInv HashTableThms.

Local Open Scope Z_scope.

Section program.
Context `{M : Machine} (spins : nat).
Context (raw : hash_table) (raws : list (partition * list alock)) (total n ev : Z) (ht : hash_table).
Context (Hht : create_hash_table raw raws total n ev = Ok ht).
Context (Hev : ev = EVICT_LRU \/ ev = EVICT_RANDOM) (Htotal : 0 <= total < 2 ^ 63).
Context (Hclear : Forall (fun r => clear_lock n (plock r.1)) raws).
Context (nt : nat) (Hnt : Z.of_nat nt <= n) (m : mem).

(** The size of every partition. *)
Definition lshare : Z := total / u64 n.

Lemma start_linv :
  lworld_inv (hp m) n lshare ev 0 (start_lworld ht m nt) (no_holders (partitions ht)).
Proof.
  assert (forall l, l ∈ hands (start_lworld ht m nt) -> l = []) as Hempty.
  { intros l Hl. apply list_elem_of_lookup in Hl as [i Hi].
    apply hands_lookup in Hi as (held & o & H1 & H2 & ->). simpl in H1, H2.
    apply lookup_replicate in H1 as [-> _]. by apply lookup_replicate in H2 as [-> _]. }
  split; simpl.
  - by apply (linv_created raw raws total n ev ht Hht Hev Htotal Hclear nt Hnt m).
  - by rewrite !length_replicate.
  - intros l x Hl Hx. apply elem_of_replicate in Hl as [-> _]. by apply elem_of_nil in Hx.
  - intros t c Hc. by apply lookup_replicate in Hc as [? _].
  - intros t c x e Hc. by apply lookup_replicate in Hc as [? _].
  - intros e _. unfold in_hands. rewrite zsum_zero by (intros l Hl; by rewrite (Hempty l Hl)).
    unfold all_shares, no_holders. rewrite zsum_replicate. unfold shares_of. rewrite lookup_empty. lia.
  - intros l x Hl Hx. rewrite (Hempty l Hl) in Hx. by apply elem_of_nil in Hx.
Qed.

(** No thread is in a call or holds anything. *)
Definition idle_world (w : lworld) : Prop :=
  (forall o, o ∈ calls (lw_state w) -> o = None) /\ (forall l, l ∈ lw_held w -> l = []).

Lemma idle_hands w e : idle_world w -> in_hands w e = 0.
Proof.
  intros [Hcalls Hheld]. unfold in_hands. apply zsum_zero.
  intros l Hl. apply list_elem_of_lookup in Hl as [i Hi]. apply hands_lookup in Hi as (held & o & H1 & H2 & ->).
  rewrite (Hheld held) by (by eapply list_elem_of_lookup_2). by rewrite (Hcalls o) by (by eapply list_elem_of_lookup_2).
Qed.

(** What nobody holds, the destruction of the table frees. *)
Lemma idle_memory k w owns :
  0 <= k < 2 ^ 62 -> lworld_inv (hp m) n lshare ev k w owns -> idle_world w ->
  destroy_hash_table (lw_heap w) (set_partitions (parts (lw_state w)) ht) = Ok (hp m).
Proof.
  intros Hk Hinv Hidle. pose proof (lv_estates _ _ _ _ _ _ _ (lwi_table _ _ _ _ _ _ _ Hinv)) as Hes.
  apply (unheld_memory (t := set_partitions (parts (lw_state w)) ht) Hes).
  - intros i Hi. exfalso. simpl in Hi. pose proof Hht as Hc. unfold create_hash_table in Hc.
    apply bind_Ok in Hc as (u & _ & H). apply bind_Ok in H as (ps & _ & H). apply Ok_inj in H. rewrite <- H in Hi.
    simpl in Hi. lia.
  - intros s own a hs Ho Ha. destruct (es_elem Hes s own a hs Ho Ha) as ((Hr & _ & Hnb) & Haddr & el & Hel & Hrc).
    pose proof (lwi_shares _ _ _ _ _ _ _ Hinv a Haddr) as Hsh. rewrite (idle_hands w a Hidle) in Hsh.
    rewrite (shares_at_home Hes s own a Ho ltac:(by eexists)) in Hsh. unfold shares_of in Hsh. rewrite Ha in Hsh.
    unfold shares in Hsh. rewrite nobody_count in Hnb by lia. apply Z.eqb_neq in Hnb.
    destruct hs as [[] [] x]; unfold b2z in *; simpl in *; try lia.
    split; [done|]. exists el. split; [done|]. rewrite Hrc. change (atomic_count (Holds true false x) = 1).
    unfold atomic_count, b2z. simpl. lia.
Qed.

Section reached.
Context (j : nat) (w : lworld) (Hj : Z.of_nat (S j) < 2 ^ 62).
Context (Hsteps : nsteps (lworld_step spins n lshare) j (start_lworld ht m nt) w).

Lemma reached_lworld : 0 < n < 2 ^ 31 /\ lshare < 2 ^ 63 /\ exists owns,
  lworld_inv (hp m) n lshare ev (Z.of_nat j) w owns.
Proof.
  destruct (created_parts _ _ _ _ _ _ Hht) as (Hpos & _). pose proof (created_bound _ _ _ _ _ _ Hht) as Hb.
  pose proof (share_bound _ _ _ _ _ _ Hht Htotal Hb) as Hshare. unfold MAX_CLIENTS in Hb.
  assert (0 < n < 2 ^ 31) as Hn by lia. split; [done|]. split; [apply Hshare|].
  destruct (lsteps_inv (hp m) n lshare ev spins Hn (proj2 Hshare) j 0 _ w _ Hsteps ltac:(lia) ltac:(lia) start_linv)
    as (owns & Hinv). by exists owns.
Qed.

(** C6: the locking table as a whole, under every interleaving of calls, marks,
    releases and writes by at most [nservers] threads, each of which marks,
    releases and writes only what it was given, on a table whose lock slots are
    clear at first. No action fails but in the random search for a victim, for
    want of memory, or in a write past the end of the block that the allocator
    gave; a write goes through exactly when its bytes lie in that block, and then
    changes these bytes and nothing else. What a thread holds as the answer to a
    lookup is the ready value of an element with the key of that query; what it
    holds as the answer to an insertion is an element with the key, to which the
    size of that query is accounted, and nobody else holds it. That its block has
    room for that size is not promised: [hash_insert] requests 64 bytes. As long as
    somebody holds a value, key, size and bytes stay the same unless it is written
    into. *)
Theorem locking_answers_right :
  (forall a, lallowed lshare w a ->
     match lworld_act spins n a w with
     | Some (Fault Undefined) => exists t ptr bs el, a = LWrite t ptr bs /\
         lw_heap w !! elem_of_ptr ptr = Some el /\ (length (value el) < length bs)%nat
     | Some (Fault Blocked) => ev = EVICT_RANDOM
     | Some (Fault AssertFailed) => exists t c k sz, a = LAct t /\ calls (lw_state w) !! t = Some (Some c) /\
         lc_op c = LInsert k sz /\ elem_size sz <= lshare /\ refused (base.size (lw_heap w)) sz
     | _ => True
     end) /\
  (forall i l r v, lw_held w !! i = Some l -> (r, v) ∈ l ->
     exists el, lw_heap w !! elem_of_ptr v = Some el /\
       match r with
       | Lookup k => key el = k /\ is_value_ready el = true
       | Insert k sz => key el = k /\ size el = elem_size sz /\
           forall i2 l2, lw_held w !! i2 = Some l2 -> occurs v l2.*2 = if decide (i2 = i) then 1 else 0
       | Release _ => False
       end) /\
  (forall a w' i l i2 l2 v, lallowed lshare w a -> lworld_act spins n a w = Some (Ok w') ->
     lw_held w !! i = Some l -> v ∈ l.*2 -> lw_held w' !! i2 = Some l2 -> v ∈ l2.*2 ->
     (forall t bs, a <> LWrite t v bs) ->
     exists el rc, lw_heap w !! elem_of_ptr v = Some el /\ lw_heap w' !! elem_of_ptr v = Some (set_ref_count rc el)) /\
  (forall t v bs, lallowed lshare w (LWrite t v bs) -> calls (lw_state w) !! t = Some None ->
     exists el, lw_heap w !! elem_of_ptr v = Some el /\
       lworld_act spins n (LWrite t v bs) w = Some (
         if decide (length bs <= length (value el))%nat then
           Ok (LWorld (set_lheap (<[elem_of_ptr v := Elem (key el) (ref_count el) (size el)
                                      (bs ++ drop (length bs) (value el))]> (lw_heap w)) (lw_state w)) (lw_held w))
         else Fault Undefined)).
Proof.
  destruct reached_lworld as (Hn & Hms & owns & Hinv). assert (0 <= Z.of_nat j < 2 ^ 62) as Hk by lia.
  split_and!.
  - intros a Ha. pose proof (lstep_ok (hp m) n lshare ev spins Hn Hms _ w a owns Hk Hinv Ha) as Hok.
    destruct (lworld_act spins n a w) as [[w'|f]|]; [done| |done].
    destruct Hok as [(t & c & -> & Hc & Hf)|[-> Hpast]].
    2: { destruct a as [| | | |t ptr bs]; try done. destruct Hpast as (el & ? & ?). by exists t, ptr, bs, el. }
    destruct f; [|done..].
    destruct Hf as (k & sz & Hop & Href). pose proof (lwi_fits _ _ _ _ _ _ _ Hinv t c Hc) as Hfit. unfold fits_call in Hfit. rewrite Hop in Hfit.
    exists t, c, k, sz. destruct Hfit as [Hfit _]. do 4 (split; [done|]). destruct Href; [done | lia].
  - intros i l r v Hl Hx.
    destruct (hand_answer _ _ _ _ _ _ _ Hinv i l r v Hl Hx)
      as (s & own & e & hs & el & Ho & Hv & Haddr & He & (Hrd & Hwr & _) & Hel & Hrc & Hr).
    exists el. split; [by rewrite Hv, elem_of_value_ptr|].
    destruct r as [k|k sz|]; [|destruct Hr as (Hk2 & Hz & _)|done].
    + split; [apply Hr|]. destruct Hr as [_ Hw]. unfold is_value_ready. rewrite Hrc, atomic_count_split, marked.
      * by rewrite Hw.
      * rewrite Hw in *. unfold b2z. case_match; lia.
    + split; [done|]. split; [done|]. intros i2 l2. by apply (insert_alone _ _ _ _ _ w owns Hinv i l k sz).
  - intros a w' i l i2 l2 v. by apply (step_keeps (hp m) n lshare ev spins Hn Hms (Z.of_nat j) w a w' owns).
  - intros t v bs Hv Ht. simpl in Hv. unfold held_by in Hv.
    destruct (lw_held w !! t) as [l|] eqn:Hl; [|by apply elem_of_nil in Hv]. simpl in Hv.
    apply list_elem_of_fmap in Hv as ([r v0] & -> & Hx). simpl.
    destruct (hand_answer _ _ _ _ _ _ _ Hinv t l r v0 Hl Hx) as (s & own & e & hs & el & _ & -> & Haddr & _ & _ & Hel & _).
    exists el. rewrite elem_of_value_ptr by done. split; [done|]. rewrite Ht.
    change (hp (lmem (lw_state w))) with (lw_heap w).
    rewrite (write_value_spec _ _ _ el) by (by rewrite elem_of_value_ptr). rewrite elem_of_value_ptr by done.
    by case_decide.
Qed.

(** C7: nothing leaks from the locking table. Whatever the threads did, the elements in memory
    are those that were there before the table was made, no more than fit into the
    partitions, and those in somebody's hands. Once no thread is in a call or holds anything,
    destroying the table succeeds, and the memory is as it was before. *)
Theorem locking_returns_memory :
  (base.size (lw_heap w) <= base.size (hp m) + Z.to_nat n * Z.to_nat (lshare / sizeof_elem) +
    length (concat (hands w)))%nat /\
  (idle_world w -> destroy_hash_table (lw_heap w) (set_partitions (parts (lw_state w)) ht) = Ok (hp m)).
Proof.
  destruct reached_lworld as (_ & _ & owns & Hinv).
  split; [by apply (world_size _ _ _ _ _ _ _ Hinv)|]. intros Hidle.
  by apply (idle_memory (Z.of_nat j) w owns ltac:(lia) Hinv).
Qed.
End reached.
End program.

(** ** A program with two threads on two partitions

    Thread 1 looks key 4 up while thread 0 inserts under it, and waits for the lock.
    Thread 0 writes the value and marks it ready; then thread 1 finds it, and
    releases it. *)
Definition lprogram_start : lworld := start_lworld demo_table (Mem ∅ 0) 2.

Definition lprogram_found : list lworld_action :=
  [LBegin 0 (LInsert 4 100); LAct 0; LAct 0; LAct 0; LBegin 1 (LLookup 4); LAct 1; LAct 0; LAct 1; LAct 0;
   LAct 1; LAct 0; LWrite 0 4160 [7]; LMark 0 4160; LAct 1; LAct 1; LAct 1; LAct 1; LAct 1].

Definition lprogram_idle : list lworld_action := lprogram_found ++ [LRelease 1 4160].

Definition lprogram_after (l : list lworld_action) : lworld :=
  default lprogram_start (run_lworld 8 2 512 l lprogram_start).

Lemma lprogram_steps l :
  run_lworld 8 2 512 l lprogram_start = Some (lprogram_after l) ->
  nsteps (lworld_step 8 2 (lshare 1024 2)) (length l) lprogram_start (lprogram_after l).
Proof. apply run_lworld_steps. Qed.

Lemma locking_answers_right_witness :
  exists el, lw_heap (lprogram_after lprogram_found) !! 4096 = Some el /\ key el = 4 /\ is_value_ready el = true.
Proof.
  destruct (locking_answers_right 8 demo_raw demo_raws 1024 2 EVICT_LRU demo_table demo_table_created
    (or_introl eq_refl) ltac:(split; reflexivity || discriminate) demo_clear 2 ltac:(discriminate)
    (Mem ∅ 0) 18 (lprogram_after lprogram_found) ltac:(reflexivity)
    (lprogram_steps lprogram_found ltac:(vm_compute; reflexivity))) as (_ & H & _).
  destruct (H 1%nat [(Lookup 4, 4160)] (Lookup 4) 4160) as (el & Hel & Hk).
  - vm_compute. reflexivity.
  - apply list_elem_of_here.
  - exists el. split; [exact Hel | exact Hk].
Defined.

Lemma locking_returns_memory_witness :
  destroy_hash_table (lw_heap (lprogram_after lprogram_idle))
    (set_partitions (parts (lw_state (lprogram_after lprogram_idle))) demo_table) = Ok ∅.
Proof.
  apply (locking_returns_memory 8 demo_raw demo_raws 1024 2 EVICT_LRU demo_table demo_table_created
    (or_introl eq_refl) ltac:(split; reflexivity || discriminate) demo_clear 2 ltac:(discriminate)
    (Mem ∅ 0) 19 (lprogram_after lprogram_idle) ltac:(reflexivity)
    (lprogram_steps lprogram_idle ltac:(vm_compute; reflexivity))).
  assert (calls (lw_state (lprogram_after lprogram_idle)) = [None; None]) as Hc by (vm_compute; reflexivity).
  assert (lw_held (lprogram_after lprogram_idle) = [[]; []]) as Hh by (vm_compute; reflexivity).
  split; intros x Hx.
  - rewrite Hc in Hx. apply (elem_of_replicate 2 None x) in Hx as [Hx _]. exact Hx.
  - rewrite Hh in Hx. apply (elem_of_replicate 2 [] x) in Hx as [Hx _]. exact Hx.
Defined.
