(* ===== verification/Stream.v ===== *)
(** * Stream: what a socket delivers and accepts ([hashserver2.c])

    The streams under the hash server and its client library, as the functions
    of the C library show them: bytes as integers below 256, little-endian
    structures, a non-blocking [FILE] that is read with [fread], and
    [read_object] and [write_object] on top. *)
From stdpp Require Import base list.
From Stdlib Require Import ZArith Lia.
From S2P Require Import Prelude.

Local Open Scope Z_scope.

(** ** Little-endian integers of [n] bytes *)
Fixpoint le (n : nat) (v : Z) : list Z :=
  match n with
  | O => []
  | S n => v mod 256 :: le n (v / 256)
  end.

Fixpoint unle (bs : list Z) : Z :=
  match bs with
  | [] => 0
  | b :: bs => b + 256 * unle bs
  end.

Lemma le_length n v : length (le n v) = n.
Proof. revert v. induction n; intros v; cbn; congruence. Qed.

Lemma unle_le n v : 0 <= v < 2 ^ (8 * Z.of_nat n) -> unle (le n v) = v.
Proof.
  revert v. induction n as [|n IH]; intros v Hv.
  - change (2 ^ (8 * Z.of_nat 0)) with 1 in Hv. simpl. lia.
  - cbn [le unle]. rewrite IH.
    + pose proof (Z.div_mod v 256). lia.
    + replace (8 * Z.of_nat (S n)) with (8 + 8 * Z.of_nat n) in Hv by lia.
      rewrite Z.pow_add_r in Hv by lia. change (2 ^ 8) with 256 in Hv.
      split; [apply Z.div_pos; lia | apply Z.div_lt_upper_bound; lia].
Qed.

Arguments le : simpl never.
Arguments unle : simpl never.

(** ** A non-blocking [FILE]

    [buffered] is what the library holds, [arrivals] what the socket will bring:
    bytes, a moment without any ([EAGAIN]), or the end. *)
Inductive arrival := More (bs : list Z) | Stall | Closed.

Record stream := Stream { buffered : list Z; arrivals : list arrival }.

(** How a call ended: with all it wanted, for want of bytes, or with the end of
    the file or an error. [stream_error] is true just for the last. *)
Inductive status := Fine | Again | Broken.

Definition stream_error (st : status) : bool := match st with Broken => true | _ => false end.

(** [fread(buf, 1, n, f)]: the bytes read. Past the known arrivals the call
    does not return. *)
Fixpoint fread_from (n : nat) (buf : list Z) (arr : list arrival) : result (list Z * status * stream) :=
  if (n <=? length buf)%nat then mret (take n buf, Fine, Stream (drop n buf) arr)
  else match arr with
       | [] => Fault Blocked
       | More bs :: arr => fread_from n (buf ++ bs) arr
       | Stall :: arr => mret (buf, Again, Stream [] arr)
       | Closed :: _ => mret (buf, Broken, Stream [] arr)
       end.

Definition fread (n : nat) (f : stream) : result (list Z * status * stream) :=
  fread_from n (buffered f) (arrivals f).

(** The loop of [read_object]: every round but the last meets a stall. *)
Fixpoint read_rest (fuel : nat) (size : nat) (got : list Z) (f : stream)
    : result (Z * list Z * stream) :=
  if (size <=? length got)%nat then mret (0, got, f) else
  match fuel with
  | O => Fault Blocked
  | S fuel =>
      '(r, st, f) ← fread (size - length got) f;
      if stream_error st then mret (2, got ++ r, f) else read_rest fuel size (got ++ r) f
  end.

Definition read_object (size : nat) (f : stream) : result (Z * list Z * stream) :=
  '(r, st, f) ← fread size f;
  if (length r =? 0)%nat then mret (if stream_error st then 2 else 1, [], f)
  else read_rest (S (length (arrivals f))) size r f.

(** ** What is still to be read *)
Fixpoint to_arrive (arr : list arrival) : list Z :=
  match arr with
  | More bs :: arr => bs ++ to_arrive arr
  | Stall :: arr => to_arrive arr
  | _ => []
  end.

Definition content (f : stream) : list Z := buffered f ++ to_arrive (arrivals f).

(** The script is long enough to tell how [n] bytes come or fail to come. *)
Fixpoint ends (arr : list arrival) : bool :=
  match arr with
  | [] => false
  | Closed :: _ => true
  | _ :: arr => ends arr
  end.

Lemma fread_from_ok n buf arr got st f :
  fread_from n buf arr = Ok (got, st, f) ->
  got ++ content f = buf ++ to_arrive arr /\ (length got <= n)%nat /\
  (length (arrivals f) <= length arr)%nat /\
  match st with
  | Fine => length got = n
  | Again => (length got < n)%nat /\ (length (arrivals f) < length arr)%nat
  | Broken => (length got < n)%nat /\ content f = []
  end.
Proof.
  revert buf. induction arr as [|a arr IH]; intros buf H; cbn [fread_from] in H;
    destruct (Nat.leb_spec n (length buf)) as [Hle|Hgt].
  - injection H as <- <- <-. unfold content. simpl. rewrite app_assoc, take_drop, length_take.
    split; [done|]. lia.
  - done.
  - injection H as <- <- <-. unfold content. simpl buffered. simpl arrivals.
    rewrite app_assoc, take_drop, length_take. split; [done|]. lia.
  - destruct a as [bs| |].
    + destruct (IH _ H) as (Hc & Hl & Ha & Hst). simpl to_arrive. rewrite Hc, <- app_assoc.
      split; [done|]. split; [done|]. simpl length. split; [lia|]. destruct st; [done| |done].
      split; [apply Hst | lia].
    + injection H as <- <- <-. unfold content. simpl. split_and!; [done | lia..].
    + injection H as <- <- <-. unfold content. simpl. split_and!; [done | lia | lia | lia | done].
Qed.

Lemma fread_ok n f got st f' :
  fread n f = Ok (got, st, f') ->
  got ++ content f' = content f /\ (length got <= n)%nat /\
  (length (arrivals f') <= length (arrivals f))%nat /\
  match st with
  | Fine => length got = n
  | Again => (length got < n)%nat /\ (length (arrivals f') < length (arrivals f))%nat
  | Broken => (length got < n)%nat /\ content f' = []
  end.
Proof. apply fread_from_ok. Qed.

(** Once the end is known every call returns. *)
Lemma fread_returns n f :
  ends (arrivals f) = true -> exists got st f', fread n f = Ok (got, st, f') /\
    (st <> Broken -> (n <= length (content f))%nat \/ st = Again) /\ ends (arrivals f') = true.
Proof.
  unfold fread, content. generalize (buffered f). induction (arrivals f) as [|a arr IH]; [done|].
  intros buf He. cbn [fread_from]. destruct (Nat.leb_spec n (length buf)) as [Hle|Hgt].
  - eexists _, _, _. split; [done|]. split; [|done]. rewrite length_app. left. lia.
  - destruct a as [bs| |]; simpl in He.
    + destruct (IH (buf ++ bs) He) as (got & st & f' & Hf & Hr). exists got, st, f'. split; [done|].
      simpl to_arrive. by rewrite app_assoc.
    + eexists _, _, _. split; [done|]. split; [by right | done].
    + eexists _, _, _. split; [done|]. split; [done | done].
Qed.

Lemma read_rest_ok fuel size got f r got' f' :
  (length got <= size)%nat -> read_rest fuel size got f = Ok (r, got', f') ->
  got' ++ content f' = got ++ content f /\
  (length (arrivals f') <= length (arrivals f))%nat /\
  (r = 0 /\ length got' = size \/ r = 2 /\ (length got' < size)%nat /\ content f' = []).
Proof.
  revert got f. induction fuel as [|fuel IH]; intros got f Hl H; cbn [read_rest] in H;
    destruct (Nat.leb_spec size (length got)) as [Hle|Hgt].
  - injection H as <- <- <-. split; [done|]. split; [lia|]. left. split; [done | lia].
  - done.
  - injection H as <- <- <-. split; [done|]. split; [lia|]. left. split; [done | lia].
  - apply bind_Ok in H as ([[x st] f1] & Hf & H). apply fread_ok in Hf as (Hc & Hx & Ha & Hst).
    destruct st; simpl in H.
    + destruct (IH (got ++ x) f1 ltac:(rewrite length_app; lia) H) as (Hc' & Ha' & Hr).
      rewrite Hc', <- app_assoc, Hc. split; [done|]. split; [lia | done].
    + destruct (IH (got ++ x) f1 ltac:(rewrite length_app; lia) H) as (Hc' & Ha' & Hr).
      rewrite Hc', <- app_assoc, Hc. split; [done|]. split; [lia | done].
    + injection H as <- <- <-. rewrite <- app_assoc, Hc. split; [done|]. split; [done|]. right.
      destruct Hst as [Hst Hend]. rewrite length_app. split; [done|]. split; [lia | done].
Qed.

(** [read_object]: all [size] bytes, or none of them, or the end. *)
Lemma read_object_ok size f r got f' :
  (0 < size)%nat -> read_object size f = Ok (r, got, f') ->
  got ++ content f' = content f /\ (length (arrivals f') <= length (arrivals f))%nat /\
  (r = 0 /\ length got = size \/
   r = 1 /\ got = [] /\ (length (arrivals f') < length (arrivals f))%nat \/
   r = 2 /\ (length got < size)%nat /\ content f' = []).
Proof.
  intros Hs H. unfold read_object in H. apply bind_Ok in H as ([[x st] f1] & Hf & H).
  apply fread_ok in Hf as (Hc & Hx & Ha & Hst). destruct (Nat.eqb_spec (length x) 0) as [H0|Hn].
  - apply length_zero_iff_nil in H0 as ->. injection H as <- <- <-. simpl in *. split; [done|].
    split; [done|]. right. destruct st; simpl; [lia|left|right]; destruct Hst; (split; [done|]); auto.
  - destruct (read_rest_ok _ _ _ _ _ _ _ Hx H) as (Hc' & Ha' & Hr). rewrite Hc', Hc.
    split; [done|]. split; [lia|]. tauto.
Qed.

Lemma read_rest_returns fuel size got f :
  ends (arrivals f) = true -> (length (arrivals f) < fuel)%nat ->
  exists r got' f', read_rest fuel size got f = Ok (r, got', f') /\ ends (arrivals f') = true.
Proof.
  revert got f. induction fuel as [|fuel IH]; intros got f He Hf; [lia|]. cbn [read_rest].
  destruct (Nat.leb_spec size (length got)) as [Hle|Hgt]; [eauto 10|].
  destruct (fread_returns (size - length got) f He) as (x & st & f1 & Hx & _ & He1). rewrite Hx.
  apply fread_ok in Hx as (_ & _ & Ha & Hst). cbn [mbind result_bind].
  destruct st; simpl stream_error; cbn iota.
  - destruct fuel; cbn [read_rest]; rewrite (proj2 (Nat.leb_le _ _)) by (rewrite length_app; lia);
      eauto 10.
  - apply IH; [done | lia].
  - eauto 10.
Qed.

Lemma read_object_returns size f :
  ends (arrivals f) = true -> exists r got f', read_object size f = Ok (r, got, f') /\
    ends (arrivals f') = true.
Proof.
  intros He. unfold read_object. destruct (fread_returns size f He) as (x & st & f1 & -> & _ & He1).
  cbn [mbind result_bind]. destruct (length x =? 0)%nat; [eauto 10|].
  apply read_rest_returns; [done | lia].
Qed.

(** ** Writing

    The results of the calls of [write]: how many bytes were taken, nothing
    for now, or an error. *)
Inductive accept := Took (n : nat) | Later | Refused.

Fixpoint write_object (rs : list accept) (buf : list Z) : result (Z * list Z * list accept) :=
  match buf with
  | [] => mret (0, [], rs)
  | _ =>
      match rs with
      | [] => Fault Blocked
      | Took n :: rs =>
          '(ret, out, rs) ← write_object rs (drop n buf); mret (ret, take n buf ++ out, rs)
      | Later :: rs => write_object rs buf
      | Refused :: rs => mret (2, [], rs)
      end
  end.
