(* ===== verification/HashClient.v ===== *)
(** * HashClient: the client library of the hash server ([hashclient.c])

    Queries are sent as [struct hash_query], sixteen bytes, followed by the
    value of an insertion; a value comes back as four bytes of size and the
    bytes. Opening and closing the connection are system calls. *)
From stdpp Require Import base list.
From Stdlib Require Import ZArith Lia.
From S2P Require Import Prelude Protocol Stream.

Local Open Scope Z_scope.

(** [struct client_query]; [cq_value] is the memory [value] points to. *)
Record client_query := ClientQuery {
  cq_optype : optype;
  cq_key : Z;
  cq_size : Z;
  cq_value : list Z
}.

(** [struct hashconn]: the reading side, the bytes handed to [fout] and not
    flushed, the bytes flushed, and how many [fout] will take before it fails. *)
Record hashconn := HashConn {
  fin : stream;
  unflushed : list Z;
  flushed : list Z;
  room : nat
}.

(** The bytes of a [struct hash_query]. *)
Definition query_bytes (q : hash_query) : list Z :=
  le 4 (q_optype q) ++ le 4 (q_size q) ++ le 8 (q_key q).

Definition bytes_query (bs : list Z) : hash_query :=
  HashQuery (unle (take 4 bs)) (unle (take 4 (drop 4 bs))) (unle (drop 8 bs)).

(** [fwrite] of some bytes: how many were taken. *)
Definition fwrite (bs : list Z) (c : hashconn) : nat * hashconn :=
  let n := Nat.min (length bs) (room c) in
  (n, HashConn (fin c) (unflushed c ++ take n bs) (flushed c) (room c - n)).

Definition fflush (c : hashconn) : hashconn :=
  HashConn (fin c) [] (flushed c ++ unflushed c) (room c).

(** [q.size = query->size] keeps 32 bits of a [size_t]. *)
Definition query_header (q : client_query) : hash_query :=
  HashQuery (optype_code (cq_optype q)) (u32 (cq_size q)) (u64 (cq_key q)).

Definition sendquery_ (c : hashconn) (q : client_query) : result (Z * hashconn) :=
  let '(n, c) := fwrite (query_bytes (query_header q)) c in
  if negb (n =? 16)%nat then mret (0, c) else
  if bool_decide (cq_optype q = OPTYPE_INSERT) && (0 <? cq_size q) then
    _ ← check (cq_size q <=? Z.of_nat (length (cq_value q))) Undefined;
    let '(n, c) := fwrite (take (Z.to_nat (cq_size q)) (cq_value q)) c in
    mret (if Z.of_nat n =? cq_size q then 1 else 0, c)
  else mret (1, c).

Definition sendquery (c : hashconn) (q : client_query) : result (Z * hashconn) :=
  '(r, c) ← sendquery_ c q;
  mret (r, if r =? 0 then c else fflush c).

Fixpoint sendqueries (c : hashconn) (qs : list client_query) : result (Z * hashconn) :=
  match qs with
  | [] => mret (1, fflush c)
  | q :: qs => '(r, c) ← sendquery_ c q; if r =? 0 then mret (r, c) else sendqueries c qs
  end.

(** [value] has [space] bytes; what was read is returned with the result. *)
Definition readvalue (c : hashconn) (space : Z) : result (Z * list Z * hashconn) :=
  '(bs, st, f) ← fread 4 (fin c);
  let c := HashConn f (unflushed c) (flushed c) (room c) in
  if negb (length bs =? 4)%nat then mret (-1, [], c) else
  let size := unle bs in
  if 0 <? size then
    _ ← check (size <=? space) Undefined;
    '(bs, st, f) ← fread (Z.to_nat size) (fin c);
    let c := HashConn f (unflushed c) (flushed c) (room c) in
    if negb (Z.of_nat (length bs) =? size) then mret (-1, bs, c) else mret (i32 size, bs, c)
  else mret (i32 size, [], c).

Arguments query_bytes : simpl never.
Arguments query_header : simpl never.

(** ** The wire *)

(** The bytes of a query, and of a value on its way back. *)
Definition request_bytes (q : client_query) : list Z :=
  query_bytes (query_header q) ++
  match cq_optype q with
  | OPTYPE_LOOKUP => []
  | OPTYPE_INSERT => take (Z.to_nat (cq_size q)) (cq_value q)
  end.

Definition value_bytes (v : list Z) : list Z := le 4 (Z.of_nat (length v)) ++ v.

(** A query whose value is there, of a size that fits the header. The size of a
    lookup means nothing. *)
Definition client_query_ok (q : client_query) : Prop :=
  0 <= cq_key q < 2 ^ 64 /\
  match cq_optype q with
  | OPTYPE_LOOKUP => True
  | OPTYPE_INSERT => 0 < cq_size q < 2 ^ 32 /\ cq_size q <= Z.of_nat (length (cq_value q))
  end.

Lemma query_bytes_length q : length (query_bytes q) = 16%nat.
Proof. unfold query_bytes. by rewrite !length_app, !le_length. Qed.

Lemma bytes_query_bytes q :
  0 <= q_optype q < 2 ^ 32 -> 0 <= q_size q < 2 ^ 32 -> 0 <= q_key q < 2 ^ 64 ->
  bytes_query (query_bytes q) = q.
Proof.
  intros Ho Hs Hk. unfold bytes_query, query_bytes.
  rewrite take_app_length' by (by rewrite le_length).
  rewrite (drop_app_length' (le 4 _)) by (by rewrite le_length).
  rewrite take_app_length' by (by rewrite le_length).
  rewrite app_assoc, drop_app_length' by (by rewrite length_app, !le_length).
  rewrite !unle_le by (simpl; lia). by destruct q.
Qed.

Lemma fwrite_room bs c :
  (length bs <= room c)%nat ->
  fwrite bs c = (length bs, HashConn (fin c) (unflushed c ++ bs) (flushed c) (room c - length bs)).
Proof. intros Hr. unfold fwrite. rewrite Nat.min_l by done. by rewrite firstn_all. Qed.

Lemma sendquery_ok c q :
  client_query_ok q -> (length (request_bytes q) <= room c)%nat ->
  sendquery_ c q = Ok (1, HashConn (fin c) (unflushed c ++ request_bytes q) (flushed c)
                            (room c - length (request_bytes q))).
Proof.
  intros [Hk Hq] Hr. unfold request_bytes in *. rewrite length_app, query_bytes_length in Hr.
  unfold sendquery_. rewrite fwrite_room by (rewrite query_bytes_length; lia).
  rewrite query_bytes_length. simpl negb. cbn iota. destruct (cq_optype q) eqn:Ho.
  - by rewrite bool_decide_eq_false_2, app_nil_r, query_bytes_length by done.
  - rewrite bool_decide_eq_true_2 by done. destruct Hq as [Hs Hv].
    rewrite (proj2 (Z.ltb_lt 0 _)) by lia. rewrite (proj2 (Z.leb_le _ _)) by lia.
    cbn [andb check mbind result_bind]. rewrite fwrite_room by (simpl; lia).
    assert (length (take (Z.to_nat (cq_size q)) (cq_value q)) = Z.to_nat (cq_size q)) as Hl
      by (rewrite length_take; lia).
    rewrite length_app, query_bytes_length, Hl, Z2Nat.id, Z.eqb_refl by lia.
    cbn [fin unflushed flushed room]. by rewrite <- app_assoc, Nat.sub_add_distr.
Qed.

Lemma sendqueries_bytes qs c :
  Forall client_query_ok qs -> (length (concat (request_bytes <$> qs)) <= room c)%nat ->
  sendqueries c qs = Ok (1, HashConn (fin c) [] (flushed c ++ unflushed c ++ concat (request_bytes <$> qs))
                              (room c - length (concat (request_bytes <$> qs)))).
Proof.
  intros Hok. revert c. induction Hok as [|q qs Hq _ IH]; intros c Hr.
  - simpl. unfold fflush. by rewrite app_nil_r, Nat.sub_0_r.
  - rewrite fmap_cons in Hr |- *. cbn [concat sendqueries] in *. rewrite length_app in *.
    rewrite sendquery_ok by (done || lia). cbn [mbind result_bind].
    change (1 =? 0) with false. cbn iota. rewrite IH by (cbn [room]; lia).
    cbn [fin unflushed flushed room]. rewrite <- !app_assoc. do 3 f_equal. lia.
Qed.

(** What a successful call has sent. *)
Lemma sendquery_sent c q c' :
  client_query_ok q -> sendquery_ c q = Ok (1, c') ->
  unflushed c' = unflushed c ++ request_bytes q /\ flushed c' = flushed c.
Proof.
  intros Hq H. destruct (le_lt_dec (length (request_bytes q)) (room c)) as [Hr|Hr].
  { rewrite sendquery_ok in H by done. by injection H as <-. }
  exfalso. unfold request_bytes in Hr. rewrite length_app, query_bytes_length in Hr.
  unfold sendquery_ in H. unfold fwrite at 1 in H. rewrite query_bytes_length in H.
  destruct (Nat.eqb_spec (Nat.min 16 (room c)) 16) as [H16|]; [|done]. cbn [negb] in H.
  destruct Hq as [_ Hq]. destruct (cq_optype q) eqn:Ho; [simpl in Hr; lia|].
  rewrite bool_decide_eq_true_2, (proj2 (Z.ltb_lt 0 _)), (proj2 (Z.leb_le _ _)) in H by (done || lia).
  cbn [andb check mbind result_bind] in H. unfold fwrite in H. cbn [room] in H.
  rewrite length_take in *. apply Ok_inj in H. apply (f_equal fst) in H. cbn [fst] in H.
  case_match eqn:He; [apply Z.eqb_eq in He; lia | done].
Qed.

Lemma sendqueries_sent c qs c' :
  Forall client_query_ok qs -> sendqueries c qs = Ok (1, c') ->
  flushed c' = flushed c ++ unflushed c ++ concat (request_bytes <$> qs).
Proof.
  intros Hok. revert c. induction Hok as [|q qs Hq _ IH]; intros c H; cbn [sendqueries] in H.
  - injection H as <-. simpl. by rewrite app_nil_r.
  - apply bind_Ok in H as ([r c1] & Hs & H). destruct (Z.eqb_spec r 0) as [->|Hr]; [done|].
    assert (r = 1) as -> by (unfold sendquery_ in Hs; repeat case_match; simplify_eq/=; invb Hs; done).
    destruct (sendquery_sent _ _ _ Hq Hs) as [Hu Hf]. rewrite (IH _ H), Hu, Hf, fmap_cons.
    cbn [concat]. by rewrite <- !app_assoc.
Qed.

(** ** Reading a value that was written *)
Lemma fread_all n f got st f' bs rest :
  fread n f = Ok (got, st, f') -> content f = bs ++ rest -> length bs = n -> (0 < n)%nat ->
  st <> Again -> got = bs /\ content f' = rest.
Proof.
  intros Hf Hc Hl Hn Hst. apply fread_ok in Hf as (Hg & Hgl & _ & Hs). rewrite Hc in Hg.
  destruct st; [|done|].
  - apply app_inj_1 in Hg as [-> ->]; [done | congruence].
  - destruct Hs as [Hlt He]. rewrite He, app_nil_r in Hg. rewrite Hg, length_app in Hlt. lia.
Qed.

(** A blocking stream: no read is put off. *)
Fixpoint blocking (arr : list arrival) : bool :=
  match arr with
  | Stall :: _ => false
  | Closed :: _ | [] => true
  | More _ :: arr => blocking arr
  end.

Lemma fread_blocking n f got st f' :
  blocking (arrivals f) = true -> fread n f = Ok (got, st, f') ->
  st <> Again /\ blocking (arrivals f') = true.
Proof.
  unfold fread. generalize (buffered f). induction (arrivals f) as [|a arr IH]; intros buf Hb Hf;
    cbn [fread_from] in Hf; (destruct (n <=? length buf)%nat; [by injection Hf as <- <- <-|]); [done|].
  destruct a; simpl in Hb; [by apply (IH _ Hb Hf) | done |]. by injection Hf as <- <- <-.
Qed.

(** When the server has written the size and the bytes of a value to a blocking
    connection, [readvalue] returns both and leaves the rest of the stream for the
    next call. *)
Lemma readvalue_value c v rest space :
  content (fin c) = value_bytes v ++ rest -> blocking (arrivals (fin c)) = true ->
  ends (arrivals (fin c)) = true -> Z.of_nat (length v) < 2 ^ 31 -> Z.of_nat (length v) <= space ->
  exists f, readvalue c space = Ok (Z.of_nat (length v), v, HashConn f (unflushed c) (flushed c) (room c)) /\
    content f = rest /\ blocking (arrivals f) = true /\ ends (arrivals f) = true.
Proof.
  intros Hc Hb He Hl Hsp. unfold value_bytes in Hc. rewrite <- app_assoc in Hc. unfold readvalue.
  destruct (fread_returns 4 _ He) as (g1 & s1 & f1 & H1 & _ & He1). rewrite H1. cbn [mbind result_bind].
  destruct (fread_blocking _ _ _ _ _ Hb H1) as [Hs1 Hb1].
  destruct (fread_all 4 _ _ _ _ _ _ H1 Hc) as [-> Hc1]; [by rewrite le_length | lia | done |].
  rewrite le_length. simpl negb. cbn iota. cbv zeta. rewrite unle_le by (simpl; lia). simpl fin.
  destruct (Z.ltb_spec 0 (Z.of_nat (length v))) as [Hpos|Hz].
  - rewrite (proj2 (Z.leb_le _ _) Hsp). cbn [check mbind result_bind]. rewrite Nat2Z.id.
    destruct (fread_returns (length v) _ He1) as (g2 & s2 & f2 & H2 & _ & He2). rewrite H2.
    cbn [mbind result_bind]. destruct (fread_blocking _ _ _ _ _ Hb1 H2) as [Hs2 Hb2].
    destruct (fread_all _ _ _ _ _ _ _ H2 Hc1 eq_refl) as [-> Hc2]; [lia | done |].
    rewrite Z.eqb_refl. simpl negb. cbn iota. exists f2. rewrite i32_small by lia. done.
  - destruct v; [|simpl in Hz; lia]. exists f1. simpl. done.
Qed.
