(* ===== verification/Gather.v ===== *)
(** * Gather: how a client thread collects a batch of requests ([hashserver2.c])

    The sockets of a client thread and the first loop of [clientgo]: requests
    are taken from the sockets in turn, as long as a socket has one ready, until
    the batch or the value buffer is full or every socket was tried since the
    last request. A request is read with [read_object], the value of an insertion
    right behind it. *)
From stdpp Require Import base list relations.
From Stdlib Require Import ZArith Lia.
From S2P Require Import Prelude Protocol Stream HashClient.

Local Open Scope Z_scope.

Definition MAX_SOCKETS : Z := 128.
Definition MAX_VALUE_SIZE : Z := 1024 * 1024.
Definition VALUE_BUFFER_SIZE : Z := 2 * MAX_VALUE_SIZE.

(** [struct client_data]; -1 is an unused place. The prepared replies are in
    [Reply]. *)
Record client_data := ClientData {
  nsockets : Z;
  sockets : list Z;
  fins : list stream
}.

(** A round of the loop of [open_socket], at place [i]: what it returns, [None] when the place is in
    use and the loop goes on. [file] is what [fdopen] returns, [None] for NULL. The stores
    that take the place are one action: a client thread reads [fin[i]] only when it has seen
    [sockets[i]], and goes by [nsockets] in no decision. *)
Definition open_socket (cd : client_data) (i sock : Z) (file : option stream) : result (option Z * client_data) :=
  s ← aget (sockets cd) i;
  if s =? -1 then
    match file with
    | None => mret (Some 0, cd)
    | Some f =>
        fs ← aset (fins cd) i f;
        ss ← aset (sockets cd) i sock;
        mret (Some 1, ClientData (i32 (nsockets cd + 1)) ss fs)
    end
  else mret (None, cd).

Definition close_socket (cd : client_data) (sid : Z) : result client_data :=
  ss ← aset (sockets cd) sid (-1);
  mret (ClientData (i32 (nsockets cd - 1)) ss (fins cd)).

(** What the batch remembers of a request: [query_sid] and [query_socket] of a
    lookup, [valueoffset] of an insertion, whose size has grown by the four bytes
    of the size. *)
Inductive place := ReplyTo (sid sock : Z) | ValueAt (offset : Z).

Record gathered := Gathered { gq_query : hash_query; gq_place : place }.

(** The state of the loop. [g_valuebuf] are the bytes of [valuebuf] below
    [bufoffset], [g_acs] is [active_clients], [g_resets] counts the calls of
    [print_stats] and [stats_reset]. *)
Record gather := Gather {
  g_cd : client_data;
  g_acs : Z;
  g_resets : Z;
  g_r : Z;
  g_last : Z;
  g_i : Z;
  g_valuebuf : list Z;
  g_queries : list gathered
}.

Definition bufoffset (g : gather) : Z := Z.of_nat (length (g_valuebuf g)).
Definition nqueries (g : gather) : Z := Z.of_nat (length (g_queries g)).

(** The value of an insertion: [do r = read_object(...) while (r == 1)]. Every
    round that has to be repeated meets a stall, unless [size] is 0. *)
Fixpoint read_value (fuel : nat) (size : nat) (f : stream) : result (Z * list Z * stream) :=
  match fuel with
  | O => Fault Blocked
  | S fuel =>
      '(r, v, f) ← read_object size f;
      if r =? 1 then read_value fuel size f else mret (r, v, f)
  end.

(** A whole request: the header, and the value of an insertion. The result is
    0, 1 for later, or 2 for a broken stream or an unknown operation; [last] tells
    whether [last_socket] is set, which it is once the header is there. [room] is
    what is left of the value buffer. *)
Definition read_request (room : Z) (f : stream)
    : result (Z * bool * option (hash_query * list Z) * stream) :=
  '(r, hdr, f) ← read_object 16 f;
  if r =? 0 then
    let q := bytes_query hdr in
    if q_optype q =? optype_code OPTYPE_LOOKUP then mret (0, true, Some (q, []), f)
    else if q_optype q =? optype_code OPTYPE_INSERT then
      '(r, v, f) ← read_value (S (length (arrivals f))) (Z.to_nat (q_size q)) f;
      _ ← check (Z.of_nat (length v) <=? room) Undefined;
      mret (r, true, if r =? 0 then Some (q, v) else None, f)
    else mret (2, true, None, f)
  else mret (r, false, None, f).

(** The arrays after a request of the socket [sock] at place [i]. *)
Definition note_request (i sock : Z) (q : hash_query) (v : list Z) (g : gather) : gather :=
  let e :=
    if q_optype q =? optype_code OPTYPE_LOOKUP then Gathered q (ReplyTo i sock)
    else Gathered (HashQuery (q_optype q) (u32 (q_size q + 4)) (q_key q)) (ValueAt (bufoffset g)) in
  Gather (g_cd g) (g_acs g) (g_resets g) (g_r g) (g_last g) (g_i g) (g_valuebuf g ++ v)
    (g_queries g ++ [e]).

(** [if (cd->sockets[i] != -1) { r = read_object(...) ... }], up to the closing
    of a broken socket. *)
Definition receive (sock : Z) (g : gather) : result gather :=
  let i := g_i g in
  let cd := g_cd g in
  f ← aget (fins cd) i;
  '(r, last, o, f) ← read_request (VALUE_BUFFER_SIZE - bufoffset g) f;
  fs ← aset (fins cd) i f;
  let g := Gather (ClientData (nsockets cd) (sockets cd) fs) (g_acs g) (g_resets g) r
             (if last : bool then i else g_last g) i (g_valuebuf g) (g_queries g) in
  mret (match o with Some (q, v) => note_request i sock q v g | None => g end).

(** [if (r == 2)]: the socket is closed; with the last one of the whole server
    the statistics are printed and reset, when the server is [verbose]. *)
Definition drop_broken (verbose : Z) (g : gather) : result gather :=
  if g_r g =? 2 then
    cd ← close_socket (g_cd g) (g_i g);
    let acs := i32 (g_acs g - 1) in
    mret (Gather cd acs (g_resets g + if (0 <? verbose) && (acs =? 0) then 1 else 0)
            (g_r g) (g_last g) (g_i g) (g_valuebuf g) (g_queries g))
  else mret g.

(** The full test at the head of the loop. *)
Definition gather_full (batch_size : Z) (g : gather) : bool :=
  (batch_size <=? nqueries g) || (VALUE_BUFFER_SIZE <=? bufoffset g + MAX_VALUE_SIZE).

(** Going on to the next socket: the loop ends where the last request came
    from. *)
Definition next_socket (g : gather) : result (bool * gather) :=
  s ← aget (sockets (g_cd g)) (g_i g);
  if (s =? -1) || (g_r g =? 1) then
    let i := Z.land (g_i g + 1) (MAX_SOCKETS - 1) in
    let g := Gather (g_cd g) (g_acs g) (g_resets g) (g_r g) (g_last g) i (g_valuebuf g) (g_queries g) in
    mret ((0 <? nqueries g) && (i =? g_last g), g)
  else mret (false, g).

(** One round of the loop; [true] is its end. *)
Definition gather_step (batch_size verbose : Z) (g : gather) : result (bool * gather) :=
  if gather_full batch_size g then mret (true, g) else
  s ← aget (sockets (g_cd g)) (g_i g);
  g ← (if negb (s =? -1) then g ← receive s g; drop_broken verbose g else mret g);
  next_socket g.

(** The loop from the last socket of the batch before. *)
Fixpoint gather_run (fuel : nat) (batch_size verbose : Z) (g : gather) : result gather :=
  match fuel with
  | O => Fault Blocked
  | S fuel =>
      '(stop, g) ← gather_step batch_size verbose g;
      if stop : bool then mret g else gather_run fuel batch_size verbose g
  end.

Definition gather_start (cd : client_data) (acs resets r last : Z) : gather :=
  Gather cd acs resets r last last [] [].

Arguments read_request : simpl never.
Arguments note_request : simpl never.
Arguments bytes_query : simpl never.

(** ** Reading one request *)

(** What the server sees of a query of the client library. *)
Definition server_view (q : client_query) : hash_query * list Z :=
  (query_header q,
   match cq_optype q with
   | OPTYPE_LOOKUP => []
   | OPTYPE_INSERT => take (Z.to_nat (cq_size q)) (cq_value q)
   end).

Lemma query_header_ok q :
  client_query_ok q ->
  query_header q = HashQuery (optype_code (cq_optype q))
    (match cq_optype q with OPTYPE_LOOKUP => u32 (cq_size q) | OPTYPE_INSERT => cq_size q end) (cq_key q) /\
  bytes_query (query_bytes (query_header q)) = query_header q.
Proof.
  intros [Hk Hq]. pose proof (Z.mod_pos_bound (cq_size q) (2 ^ 32) ltac:(lia)) as Hs. fold (u32 (cq_size q)) in Hs.
  unfold query_header. rewrite u64_small by lia. split.
  - destruct (cq_optype q); [done|]. by rewrite u32_small by lia.
  - apply bytes_query_bytes; simpl; [destruct (cq_optype q); simpl; lia | lia | lia].
Qed.

Lemma view_value_length q :
  client_query_ok q -> cq_optype q = OPTYPE_INSERT ->
  length (take (Z.to_nat (cq_size q)) (cq_value q)) = Z.to_nat (cq_size q).
Proof. intros [_ Hq] Ho. rewrite Ho in Hq. rewrite length_take. lia. Qed.

(** The repeated read of a value that is not empty ends. *)
Lemma read_value_ok fuel size f :
  (0 < size)%nat -> ends (arrivals f) = true -> (length (arrivals f) < fuel)%nat ->
  exists r v f', read_value fuel size f = Ok (r, v, f') /\ v ++ content f' = content f /\
    ends (arrivals f') = true /\ (length (arrivals f') <= length (arrivals f))%nat /\
    (length v <= size)%nat /\
    (r = 0 /\ length v = size \/ r = 2 /\ (length v < size)%nat /\ content f' = []).
Proof.
  intros Hs. revert f. induction fuel as [|fuel IH]; intros f He Hf; [lia|].
  destruct (read_object_returns size f He) as (r & v & f1 & Hr & He1). cbn [read_value].
  rewrite Hr. cbn [mbind result_bind].
  destruct (read_object_ok size f r v f1 Hs Hr) as (Hc & Ha & [[-> Hl]|[(-> & -> & Ha')|(-> & Hl & Hn)]]).
  - exists 0, v, f1. split_and!; [done..| lia | auto].
  - destruct (IH f1 He1 ltac:(lia)) as (r & v & f2 & Hv & Hc2 & He2 & Ha2 & H).
    exists r, v, f2. change (1 =? 1) with true. cbn iota. simpl in Hc. rewrite Hv, Hc2, Hc.
    split_and!; try done; [lia | apply H | apply H].
  - exists 2, v, f1. split_and!; [done..| lia | auto].
Qed.

(** The header: there, not there yet, or never. *)
Lemma read_header f :
  ends (arrivals f) = true ->
  exists r hdr f', read_object 16 f = Ok (r, hdr, f') /\ ends (arrivals f') = true /\
    hdr ++ content f' = content f /\ (length (arrivals f') <= length (arrivals f))%nat /\
    (r = 0 /\ length hdr = 16%nat \/
     r = 1 /\ hdr = [] /\ (length (arrivals f') < length (arrivals f))%nat \/
     r = 2 /\ (length hdr < 16)%nat /\ content f' = []).
Proof.
  intros He. destruct (read_object_returns 16 f He) as (r & hdr & f' & Hr & He').
  exists r, hdr, f'. destruct (read_object_ok 16 f r hdr f' ltac:(lia) Hr) as (Hc & Ha & H). done.
Qed.

(** Where a connection brings the bytes of a query, the server reads that query
    and nothing of what follows; or it finds nothing yet and leaves the bytes
    where they are. *)
Lemma read_request_ok q rest room f :
  client_query_ok q -> content f = request_bytes q ++ rest -> ends (arrivals f) = true ->
  Z.of_nat (length (server_view q).2) <= room ->
  exists f', ends (arrivals f') = true /\ (length (arrivals f') <= length (arrivals f))%nat /\
    (read_request room f = Ok (0, true, Some (server_view q), f') /\ content f' = rest \/
     read_request room f = Ok (1, false, None, f') /\ content f' = content f /\
       (length (arrivals f') < length (arrivals f))%nat).
Proof.
  intros Hq Hc He Hroom. unfold read_request.
  destruct (read_header f He) as (r & hdr & f1 & -> & He1 & Hc1 & Ha1 & Hr).
  cbn [mbind result_bind]. unfold request_bytes in Hc. rewrite Hc, <- app_assoc in Hc1.
  destruct Hr as [[-> Hl]|[(-> & -> & Ha)|(-> & Hl & Hn)]].
  - apply app_inj_1 in Hc1 as [-> Hc1]; [|by rewrite query_bytes_length].
    change (0 =? 0) with true. cbn iota zeta. destruct (query_header_ok q Hq) as [Hh ->].
    destruct (cq_optype q) eqn:Ho.
    + rewrite Hh. simpl q_optype. change (0 =? optype_code OPTYPE_LOOKUP) with true. cbn iota.
      exists f1. split; [done|]. split; [lia|]. left. unfold server_view. by rewrite Ho, Hh.
    + rewrite Hh. simpl q_optype. change (1 =? optype_code OPTYPE_LOOKUP) with false.
      change (1 =? optype_code OPTYPE_INSERT) with true. cbn iota. simpl q_size.
      assert (0 < cq_size q) as Hpos by (destruct Hq as [_ Hq]; rewrite Ho in Hq; lia).
      pose proof (view_value_length q Hq Ho) as Hvl.
      destruct (read_value_ok (S (length (arrivals f1))) (Z.to_nat (cq_size q)) f1)
        as (r & v & f2 & -> & Hc2 & He2 & Ha2 & Hvs & Hr); [lia | done | lia |].
      rewrite Hc1 in Hc2. cbn [mbind result_bind]. exists f2. split; [done|].
      split; [lia|]. left.
      destruct Hr as [[-> Hv]|(-> & Hv & Hn)].
      * apply app_inj_1 in Hc2 as [-> Hc2]; [|lia].
        unfold server_view in Hroom |- *. rewrite Ho in Hroom |- *. simpl in Hroom.
        rewrite (proj2 (Z.leb_le _ _) Hroom). simpl. by rewrite Hh.
      * rewrite Hn, app_nil_r in Hc2. apply (f_equal length) in Hc2. rewrite length_app in Hc2. lia.
  - exists f1. split; [done|]. split; [lia|]. right. rewrite Hc. simpl in Hc1.
    by rewrite <- app_assoc.
  - rewrite Hn, app_nil_r in Hc1. rewrite Hc1, length_app, query_bytes_length in Hl. lia.
Qed.

(** Where there are no more bytes: later, or the end. *)
Lemma read_request_end room f :
  content f = [] -> ends (arrivals f) = true ->
  exists r f', read_request room f = Ok (r, false, None, f') /\ content f' = [] /\
    ends (arrivals f') = true /\ (length (arrivals f') <= length (arrivals f))%nat /\
    (r = 1 /\ (length (arrivals f') < length (arrivals f))%nat \/ r = 2).
Proof.
  intros Hc He. unfold read_request.
  destruct (read_header f He) as (r & hdr & f1 & -> & He1 & Hc1 & Ha1 & Hr).
  rewrite Hc in Hc1. apply app_nil in Hc1 as [-> Hc1]. exists r, f1. cbn [mbind result_bind].
  destruct Hr as [[_ Hl]|[(-> & _ & Ha)|(-> & _)]]; [done | |];
    (split; [done|]); (split; [done|]); (split; [done|]); auto.
Qed.

(** ** The bytes and the entries of a batch *)

(** A gathered request as its sender meant it. *)
Definition entry_view (buf : list Z) (e : gathered) : hash_query * list Z :=
  let q := gq_query e in
  match gq_place e with
  | ReplyTo _ _ => (q, [])
  | ValueAt o => (HashQuery (q_optype q) (q_size q - 4) (q_key q),
                  take (Z.to_nat (q_size q - 4)) (drop (Z.to_nat o) buf))
  end.

(** An entry whose value is in the buffer. *)
Definition entry_ok (buf : list Z) (e : gathered) : Prop :=
  match gq_place e with
  | ReplyTo _ _ => q_optype (gq_query e) = optype_code OPTYPE_LOOKUP
  | ValueAt o => q_optype (gq_query e) = optype_code OPTYPE_INSERT /\ 0 <= o /\
      4 < q_size (gq_query e) <= MAX_VALUE_SIZE + 4 /\
      o + (q_size (gq_query e) - 4) <= Z.of_nat (length buf)
  end.

Lemma entry_ok_app buf v e : entry_ok buf e -> entry_ok (buf ++ v) e.
Proof.
  unfold entry_ok. rewrite length_app. destruct (gq_place e); [done|].
  intros (? & ? & ? & ?). split_and!; lia.
Qed.

Lemma entry_view_app buf v e : entry_ok buf e -> entry_view (buf ++ v) e = entry_view buf e.
Proof.
  unfold entry_ok, entry_view. destruct (gq_place e) as [|o]; [done|]. intros (? & ? & ? & ?).
  rewrite drop_app_le by lia. rewrite take_app_le; [done|]. rewrite length_drop. lia.
Qed.

(** The queries a connection may bring: they fit the value buffer. *)
Definition sized (q : client_query) : Prop :=
  client_query_ok q /\ Z.of_nat (length (server_view q).2) <= MAX_VALUE_SIZE.

(** The entry that [note_request] adds for it. *)
Definition new_entry (i sock : Z) (q : client_query) (g : gather) : gathered :=
  if bool_decide (cq_optype q = OPTYPE_LOOKUP) then Gathered (query_header q) (ReplyTo i sock)
  else Gathered (HashQuery (q_optype (query_header q)) (u32 (q_size (query_header q) + 4))
                   (q_key (query_header q))) (ValueAt (bufoffset g)).

Lemma note_request_eq i sock q g :
  client_query_ok q ->
  note_request i sock (server_view q).1 (server_view q).2 g =
    Gather (g_cd g) (g_acs g) (g_resets g) (g_r g) (g_last g) (g_i g)
      (g_valuebuf g ++ (server_view q).2) (g_queries g ++ [new_entry i sock q g]).
Proof.
  intros Hq. unfold note_request, new_entry, server_view. simpl.
  by destruct (query_header_ok q Hq) as [-> _], (cq_optype q).
Qed.

Lemma new_entry_ok i sock q g :
  sized q ->
  let buf := g_valuebuf g ++ (server_view q).2 in
  entry_ok buf (new_entry i sock q g) /\ entry_view buf (new_entry i sock q g) = server_view q.
Proof.
  intros [Hq Hs] buf. unfold new_entry, entry_ok, entry_view, server_view in *.
  destruct (query_header_ok q Hq) as [-> _]. pose proof (view_value_length q Hq) as Hl.
  destruct (cq_optype q) eqn:Ho; simpl; [done|]. specialize (Hl eq_refl). simpl in Hs.
  destruct Hq as [_ Hq]. rewrite Ho in Hq. change MAX_VALUE_SIZE with 1048576 in *.
  rewrite u32_small by lia. subst buf. unfold bufoffset. simpl.
  replace (cq_size q + 4 - 4) with (cq_size q) by lia. split.
  - rewrite length_app, Hl. split_and!; lia.
  - f_equal. rewrite Nat2Z.id, drop_app_length. rewrite take_ge by lia. done.
Qed.
