(* ===== verification/GatherThms.v ===== *)
(** * GatherThms: a batch holds what the connections sent, in order

    The gathering loop of [clientgo] on connections over which the client
    library has sent queries: it ends with a batch, and the batch holds of every
    connection the next queries in the order they were sent, with their values. *)
From stdpp Require Import base list relations.
From Stdlib Require Import ZArith Lia.
From S2P Require Import Prelude Protocol Stream HashClient Gather.

Local Open Scope Z_scope.

Lemma MAX_SOCKETS_val : MAX_SOCKETS = 128.
Proof. reflexivity. Qed.

Lemma next_place i : 0 <= i < 128 -> Z.land (i + 1) (MAX_SOCKETS - 1) = (i + 1) mod 128.
Proof. intros. change (MAX_SOCKETS - 1) with (2 ^ 7 - 1). by apply land_ones_mod. Qed.

(** ** Connections *)

(** The entries of a batch that came from place [i]. *)
Definition from (i : Z) (ss : list (Z * gathered)) : list gathered :=
  (filter (fun x => x.1 = i) ss).*2.

Lemma from_app i ss1 ss2 : from i (ss1 ++ ss2) = from i ss1 ++ from i ss2.
Proof. unfold from. by rewrite filter_app, fmap_app. Qed.

Lemma from_own i e : from i [(i, e)] = [e].
Proof. unfold from. rewrite filter_cons. by rewrite decide_True. Qed.

Lemma from_other i j e : i <> j -> from i [(j, e)] = [].
Proof. intros. unfold from. rewrite filter_cons. rewrite decide_False; [done | simpl; congruence]. Qed.

Section delivery.
Context (batch_size verbose : Z).

(** The descriptors of the sockets, and the queries sent on them; [sent] holds of every
    query that was ever sent. *)
Context (fd : Z -> Z) (qs : Z -> list client_query).
Context (sent : hash_query * list Z -> Prop) (Hsent : forall i q, q ∈ qs i -> sent (server_view q)).

(** The least number that stands for a place in a batch: 0, or -1 for the place of a
    connection that is gone and has been replaced. *)
Context (lo : Z) (Hlo : lo <= 0).

Record connection (buf : list Z) (ss : list (Z * gathered)) (i s : Z) (f : stream)
    (todo : list client_query) : Prop := {
  cn_ends : ends (arrivals f) = true;
  cn_content : content f = concat (request_bytes <$> todo);
  cn_sized : Forall sized todo;
  cn_got : (entry_view buf <$> from i ss) ++ (server_view <$> todo) = server_view <$> qs i;
  cn_fd : s = -1 /\ todo = [] \/ s = fd i /\ s <> -1
}.

Lemma next_sent buf ss i s f q rest : connection buf ss i s f (q :: rest) -> sent (server_view q).
Proof.
  intros [_ _ _ Hgot _]. assert (server_view q ∈ server_view <$> qs i) as Hin by (rewrite <- Hgot; apply elem_of_app; right; left).
  apply list_elem_of_fmap in Hin as (q0 & -> & Hq0). by apply (Hsent i).
Qed.

(** Where the reply to a lookup goes: to the socket it came from, if that is still the
    connection of its place. *)
Definition way_back (x : Z * gathered) : Prop :=
  match gq_place x.2 with
  | ReplyTo sid sock => 0 <= sid < 128 /\ sock <> -1 /\ (sid = x.1 /\ sock = fd x.1 \/ x.1 < 0 /\ sock <> fd sid)
  | ValueAt _ => True
  end.

(** [ss] are the entries of the batch with the places they came from. *)
Record delivering (g : gather) (ss : list (Z * gathered)) : Prop := {
  dl_sockets : length (sockets (g_cd g)) = 128%nat;
  dl_fins : length (fins (g_cd g)) = 128%nat;
  dl_i : 0 <= g_i g < 128;
  dl_last : 0 <= g_last g < 128;
  dl_entries : ss.*2 = g_queries g;
  dl_place : Forall (fun x => lo <= x.1 < 128) ss;
  dl_empty : ss = [] -> g_valuebuf g = [];
  dl_count : nqueries g <= batch_size;
  dl_buf : bufoffset g <= VALUE_BUFFER_SIZE;
  dl_src : Forall (fun x => entry_ok (g_valuebuf g) x.2 /\ way_back x) ss;
  dl_sent : Forall (fun x => sent (entry_view (g_valuebuf g) x.2)) ss;
  dl_conn : forall (i : nat) s f, sockets (g_cd g) !! i = Some s -> fins (g_cd g) !! i = Some f ->
    exists todo, connection (g_valuebuf g) ss (Z.of_nat i) s f todo
}.

(** What is still to happen on the sockets. *)
Definition volume (g : gather) : Z :=
  zsum (fun f => Z.of_nat (length (content f) + length (arrivals f))) (fins (g_cd g))
  + zsum (fun s => if s =? -1 then 0 else 1) (sockets (g_cd g)).

Lemma volume_nonneg g : 0 <= volume g.
Proof.
  unfold volume. apply Z.add_nonneg_nonneg; apply zsum_nonneg; intros x _; [lia|].
  by destruct (x =? -1).
Qed.

(** One connection moves on. *)
Section move.
Context (g : gather) (ss : list (Z * gathered)) (Hd : delivering g ss).
Context (s : Z) (Hs : sockets (g_cd g) !! Z.to_nat (g_i g) = Some s).
Context (f : stream) (Hf : fins (g_cd g) !! Z.to_nat (g_i g) = Some f).

Lemma place_lt : (Z.to_nat (g_i g) < 128)%nat.
Proof. pose proof (dl_i _ _ Hd). lia. Qed.

(** The state after it: the stream is [f'], the socket [s'], the batch has the
    entries [es] more and the buffer the bytes [v]. *)
Definition moved (f' : stream) (s' n : Z) (v : list Z) (es : list gathered) (acs rs r last : Z) : gather :=
  Gather (ClientData n (<[Z.to_nat (g_i g) := s']> (sockets (g_cd g)))
            (<[Z.to_nat (g_i g) := f']> (fins (g_cd g))))
    acs rs r last (g_i g) (g_valuebuf g ++ v) (g_queries g ++ es).

Lemma moved_delivering f' s' n v es acs rs r last todo :
  last = g_last g \/ last = g_i g -> (es = [] -> v = []) ->
  nqueries g + Z.of_nat (length es) <= batch_size ->
  bufoffset g + Z.of_nat (length v) <= VALUE_BUFFER_SIZE ->
  Forall (fun e => entry_ok (g_valuebuf g ++ v) e /\ way_back (g_i g, e)) es ->
  Forall (fun e => sent (entry_view (g_valuebuf g ++ v) e)) es ->
  connection (g_valuebuf g ++ v) (ss ++ ((g_i g,.) <$> es)) (g_i g) s' f' todo ->
  delivering (moved f' s' n v es acs rs r last) (ss ++ ((g_i g,.) <$> es)).
Proof.
  intros Hlast Hev Hn Hb Hes Hse Hconn. pose proof place_lt as Hlt. destruct Hd. split; simpl.
  - by rewrite length_insert.
  - by rewrite length_insert.
  - done.
  - destruct Hlast as [->| ->]; done.
  - rewrite fmap_app, dl_entries0, <- list_fmap_compose. f_equal. apply list_fmap_id.
  - apply Forall_app. split; [done|]. apply Forall_fmap, Forall_forall. intros e _. simpl. lia.
  - intros Hnil. apply app_nil in Hnil as [Hn1 Hn2]. apply fmap_nil_inv in Hn2.
    by rewrite (dl_empty0 Hn1), (Hev Hn2).
  - unfold nqueries in *. simpl. rewrite length_app. lia.
  - unfold bufoffset in *. simpl. rewrite length_app. lia.
  - apply Forall_app. split.
    + eapply Forall_impl; [exact dl_src0|]. intros x [Hx ?]. split; [by apply entry_ok_app | done].
    + apply Forall_fmap. eapply Forall_impl; [exact Hes|]. intros e He. exact He.
  - apply Forall_app. split; [|by apply Forall_fmap].
    apply Forall_forall. intros x Hx. rewrite Forall_forall in dl_sent0, dl_src0.
    rewrite entry_view_app by (by apply dl_src0). by apply dl_sent0.
  - intros j sj fj Hsj Hfj. destruct (decide (j = Z.to_nat (g_i g))) as [->|Hne].
    + rewrite list_lookup_insert_eq in Hsj by lia. rewrite list_lookup_insert_eq in Hfj by lia. simplify_eq. exists todo.
      rewrite Z2Nat.id by lia. exact Hconn.
    + rewrite list_lookup_insert_ne in Hsj by done. rewrite list_lookup_insert_ne in Hfj by done.
      destruct (dl_conn0 j sj fj Hsj Hfj) as [td []]. exists td. split; try done.
      rewrite <- cn_got0, from_app. assert (from (Z.of_nat j) ((g_i g,.) <$> es) = []) as ->.
      { clear -Hne. induction es as [|e es' IH]; [done|]. rewrite fmap_cons.
        change (?x :: ?l) with ([x] ++ l). rewrite from_app, IH, from_other by lia. done. }
      rewrite app_nil_r. f_equal. apply list_fmap_ext. intros k e He. apply entry_view_app.
      unfold from in He. apply list_elem_of_lookup_2, list_elem_of_fmap in He as (x & -> & Hx).
      apply list_elem_of_filter in Hx as [_ Hx]. rewrite Forall_forall in dl_src0. by apply dl_src0.
Qed.

Lemma moved_volume f' s' n v es acs rs r last :
  volume (moved f' s' n v es acs rs r last) =
    volume g - Z.of_nat (length (content f) + length (arrivals f)) - (if s =? -1 then 0 else 1)
    + Z.of_nat (length (content f') + length (arrivals f')) + (if s' =? -1 then 0 else 1).
Proof.
  unfold volume, moved. simpl. rewrite (zsum_insert _ _ _ _ _ Hf), (zsum_insert _ _ _ _ _ Hs). lia.
Qed.
End move.

(** A connection on which something may still come. *)
Definition waiting (t : nat) (g : gather) : Prop :=
  exists s f, sockets (g_cd g) !! t = Some s /\ s <> -1 /\ fins (g_cd g) !! t = Some f /\ content f <> [].

Lemma connection_at g ss :
  delivering g ss -> exists s f todo, sockets (g_cd g) !! Z.to_nat (g_i g) = Some s /\
    fins (g_cd g) !! Z.to_nat (g_i g) = Some f /\ connection (g_valuebuf g) ss (g_i g) s f todo.
Proof.
  intros Hd. pose proof (place_lt g ss Hd) as Hlt. pose proof (dl_i _ _ Hd) as Hi.
  destruct (lookup_lt_is_Some_2 (sockets (g_cd g)) (Z.to_nat (g_i g))) as [s Hs];
    [by rewrite (dl_sockets _ _ Hd)|].
  destruct (lookup_lt_is_Some_2 (fins (g_cd g)) (Z.to_nat (g_i g))) as [f Hf];
    [by rewrite (dl_fins _ _ Hd)|].
  destruct (dl_conn _ _ Hd _ s f Hs Hf) as [todo Hc]. rewrite Z2Nat.id in Hc by lia. eauto 10.
Qed.

Lemma receive_run g s f r (lst : bool) o f' :
  0 <= g_i g -> sockets (g_cd g) !! Z.to_nat (g_i g) = Some s ->
  fins (g_cd g) !! Z.to_nat (g_i g) = Some f ->
  read_request (VALUE_BUFFER_SIZE - bufoffset g) f = Ok (r, lst, o, f') ->
  receive s g =
    let g' := moved g f' s (nsockets (g_cd g)) [] [] (g_acs g) (g_resets g) r
                (if lst then g_i g else g_last g) in
    Ok (match o with Some (q, v) => note_request (g_i g) s q v g' | None => g' end).
Proof.
  intros Hi Hs Hf Hr. unfold receive.
  assert (aget (fins (g_cd g)) (g_i g) = Ok f) as -> by (by apply aget_Ok).
  cbn [mbind result_bind]. rewrite Hr. cbn [mbind result_bind].
  apply lookup_lt_Some in Hf. rewrite aset_in by lia. cbn [mbind result_bind mret result_ret].
  unfold moved. by rewrite !app_nil_r, (list_insert_id (sockets _) _ s Hs).
Qed.

Lemma waiting_moved g s f f' s' n v es acs rs r last t :
  sockets (g_cd g) !! Z.to_nat (g_i g) = Some s -> fins (g_cd g) !! Z.to_nat (g_i g) = Some f ->
  (content f <> [] -> content f' = content f /\ s' = s) ->
  waiting t g -> waiting t (moved g f' s' n v es acs rs r last).
Proof.
  intros Hs Hf Hk (st & ft & Hst & Hnt & Hft & Hct). unfold waiting, moved. simpl.
  destruct (decide (t = Z.to_nat (g_i g))) as [->|Hne].
  - exists s', f'. rewrite Hs in Hst. rewrite Hf in Hft. simplify_eq. destruct (Hk Hct) as [-> ->].
    apply lookup_lt_Some in Hs. apply lookup_lt_Some in Hf. by rewrite !list_lookup_insert_eq by done.
  - exists st, ft. by rewrite !list_lookup_insert_ne.
Qed.

(** The next query of the connection is taken, or is not there yet. *)
Lemma receive_query g ss s f q rest :
  delivering g ss -> gather_full batch_size g = false ->
  sockets (g_cd g) !! Z.to_nat (g_i g) = Some s -> s <> -1 ->
  fins (g_cd g) !! Z.to_nat (g_i g) = Some f ->
  connection (g_valuebuf g) ss (g_i g) s f (q :: rest) ->
  exists g' es, receive s g = Ok g' /\ g_r g' <> 2 /\ g_i g' = g_i g /\
    delivering g' (ss ++ es) /\ volume g' < volume g /\
    (0 < nqueries g' \/ forall t, waiting t g -> waiting t g').
Proof.
  intros Hd Hfull Hs Hne Hf Hconn. pose proof (next_sent _ _ _ _ _ _ _ Hconn) as Hqin.
  destruct Hconn as [He Hc Hsz Hgot Hfd]. pose proof (dl_i _ _ Hd) as Hi. apply Forall_cons in Hsz as [Hq Hsz]. rewrite !fmap_cons in *. cbn [concat] in Hc.
  apply orb_false_iff in Hfull as [Hcnt Hbuf]. apply Z.leb_gt in Hcnt, Hbuf. destruct (Hq) as [Hqok Hqs].
  destruct (read_request_ok q _ (VALUE_BUFFER_SIZE - bufoffset g) f Hqok Hc He)
    as (f' & He' & Ha & [[Hr Hc']|(Hr & Hc' & Hlt)]); [lia | |].
  - rewrite (receive_run g s f _ _ _ _ (proj1 Hi) Hs Hf Hr). cbv zeta.
    set (g1 := moved g f' s (nsockets (g_cd g)) [] [] (g_acs g) (g_resets g) 0 (g_i g)).
    pose proof (note_request_eq (g_i g) s q g1 Hqok) as Hn.
    pose proof (new_entry_ok (g_i g) s q g Hq) as [Hok Hview]. cbv zeta in Hok, Hview.
    assert (new_entry (g_i g) s q g1 = new_entry (g_i g) s q g) as Hne1
      by (unfold new_entry, g1, bufoffset; simpl; by rewrite app_nil_r).
    rewrite Hne1 in Hn.
    set (e := new_entry (g_i g) s q g) in *.
    exists (moved g f' s (nsockets (g_cd g)) (server_view q).2 [e] (g_acs g) (g_resets g) 0 (g_i g)),
      ((g_i g,.) <$> [e]).
    split.
    { transitivity (Ok (note_request (g_i g) s (server_view q).1 (server_view q).2 g1)); [done|].
      rewrite Hn. unfold moved, g1. simpl. by rewrite !app_nil_r. }
    split; [done|]. split; [done|]. split; [|split].
    + apply (moved_delivering g ss Hd _ _ _ _ _ _ _ _ _ rest); [by right | done | simpl; lia | lia | | |].
      * constructor; [|done]. split; [done|]. unfold e, new_entry, way_back. case_bool_decide; simpl; [|done].
        split; [done|]. destruct Hfd as [[? _]|[? _]]; [done|]. split; [done|by left].
      * constructor; [|done]. by rewrite Hview.
      * destruct Hd. split; try done.
        -- rewrite from_app. cbn [fmap list_fmap]. rewrite from_own, fmap_app. cbn [fmap list_fmap].
           rewrite Hview, <- Hgot, <- app_assoc. f_equal. apply list_fmap_ext.
           intros k x Hx. apply entry_view_app. unfold from in Hx.
           apply list_elem_of_lookup_2, list_elem_of_fmap in Hx as (y & -> & Hy).
           apply list_elem_of_filter in Hy as [_ Hy]. rewrite Forall_forall in dl_src0. by apply dl_src0.
        -- by destruct Hfd as [[? _]|?]; [|right].
    + rewrite (moved_volume g s Hs f Hf). rewrite Hc, Hc', length_app.
      unfold request_bytes. rewrite length_app, query_bytes_length. lia.
    + left. unfold nqueries, moved. simpl. rewrite length_app. simpl. lia.
  - rewrite (receive_run g s f _ _ _ _ (proj1 Hi) Hs Hf Hr). cbv zeta.
    eexists _, []. split; [done|]. split; [done|]. split; [done|].
    split; [|split; [|right]].
    + apply (moved_delivering g ss Hd _ _ _ _ [] _ _ _ _ (q :: rest)); [by left | done | simpl; lia | simpl; lia | done | done |].
      cbn [fmap list_fmap]. rewrite !app_nil_r.
      split; [done | by rewrite Hc', Hc | by constructor | done |].
      by destruct Hfd as [[? _]|?]; [|right].
    + rewrite (moved_volume g s Hs f Hf), Hc'. lia.
    + intros t. by apply (waiting_moved g s f).
Qed.
(** With all queries taken, the connection has nothing yet or has ended; an
    ended one is closed. *)
Lemma receive_none g ss s f :
  delivering g ss -> sockets (g_cd g) !! Z.to_nat (g_i g) = Some s -> s <> -1 ->
  fins (g_cd g) !! Z.to_nat (g_i g) = Some f ->
  connection (g_valuebuf g) ss (g_i g) s f [] ->
  exists g', (g1 ← receive s g; drop_broken verbose g1) = Ok g' /\ g_i g' = g_i g /\
    delivering g' ss /\ volume g' < volume g /\ (forall t, waiting t g -> waiting t g').
Proof.
  intros Hd Hs Hne Hf [He Hc Hsz Hgot Hfd]. pose proof (dl_i _ _ Hd) as Hi. simpl in Hc.
  destruct (read_request_end (VALUE_BUFFER_SIZE - bufoffset g) f Hc He)
    as (r & f' & Hr & Hc' & He' & Ha & Hcase).
  rewrite (receive_run g s f _ _ _ _ (proj1 Hi) Hs Hf Hr). cbv zeta. cbn [mbind result_bind].
  set (c1 := moved g f' s (nsockets (g_cd g)) [] [] (g_acs g) (g_resets g) r (g_last g)).
  assert (exists s' n acs rs, (s' = s /\ r = 1 \/ s' = -1 /\ r = 2) /\
            drop_broken verbose c1 = Ok (moved g f' s' n [] [] acs rs r (g_last g)))
    as (s' & n & acs & rs & Hs' & ->).
  { destruct Hcase as [[-> _]| ->].
    - exists s, (nsockets (g_cd g)), (g_acs g), (g_resets g). split; [by left | done].
    - eexists (-1), _, _, _. split; [by right|]. unfold drop_broken.
      change (g_r c1 =? 2) with true. cbn iota.
      unfold close_socket, c1, moved. simpl. pose proof (lookup_lt_Some _ _ _ Hs) as Hls.
      rewrite aset_in by (rewrite length_insert; lia). simpl. rewrite list_insert_insert_eq.
      reflexivity. }
  eexists. split; [done|]. split; [done|]. split; [|split].
  - rewrite <- (app_nil_r ss). apply (moved_delivering g ss Hd _ _ _ _ [] _ _ _ _ []); [by left | done | | | done | done |];
    [simpl; pose proof (dl_count _ _ Hd); lia | simpl; pose proof (dl_buf _ _ Hd); lia |].
    cbn [fmap list_fmap]. rewrite !app_nil_r.
    split; [done | by rewrite Hc' | constructor | by rewrite app_nil_r in Hgot |- * |].
    destruct Hs' as [[-> _]|[-> _]]; [|by left]. by destruct Hfd as [[? _]|?]; [|right].
  - rewrite (moved_volume g s Hs f Hf), Hc, Hc'. rewrite (proj2 (Z.eqb_neq s (-1)) Hne).
    destruct Hs' as [[-> ->]|[-> ->]].
    + rewrite (proj2 (Z.eqb_neq s (-1)) Hne). destruct Hcase as [[_ Hlt]|?]; [lia | done].
    + simpl. lia.
  - intros t. apply (waiting_moved g s f); [done..|]. by rewrite Hc.
Qed.

(** A round of the loop on an open socket. *)
Lemma open_round g ss s :
  delivering g ss -> gather_full batch_size g = false ->
  sockets (g_cd g) !! Z.to_nat (g_i g) = Some s -> s <> -1 ->
  exists g' es, (g1 ← receive s g; drop_broken verbose g1) = Ok g' /\ g_i g' = g_i g /\
    delivering g' (ss ++ es) /\ volume g' < volume g /\
    (0 < nqueries g' \/ forall t, waiting t g -> waiting t g').
Proof.
  intros Hd Hfull Hs Hne. destruct (connection_at g ss Hd) as (s0 & f & todo & Hs0 & Hf & Hc).
  rewrite Hs in Hs0. simplify_eq. destruct todo as [|q rest].
  - destruct (receive_none g ss s0 f Hd Hs Hne Hf Hc) as (g' & Hg & Hi & Hd' & Hv & Hw).
    exists g', []. rewrite app_nil_r. auto 10.
  - destruct (receive_query g ss s0 f q rest Hd Hfull Hs Hne Hf Hc)
      as (g' & es & Hg & Hr & Hi & Hd' & Hv & Hw).
    exists g', es. rewrite Hg. cbn [mbind result_bind]. unfold drop_broken.
    rewrite (proj2 (Z.eqb_neq _ 2) Hr). auto 10.
Qed.
(** Going round the sockets. *)
Definition at_place (i : Z) (g : gather) : gather :=
  Gather (g_cd g) (g_acs g) (g_resets g) (g_r g) (g_last g) i (g_valuebuf g) (g_queries g).

Lemma at_place_delivering i g ss : 0 <= i < 128 -> delivering g ss -> delivering (at_place i g) ss.
Proof. intros Hi []. by split. Qed.

Lemma next_socket_ok g ss :
  delivering g ss -> exists s, sockets (g_cd g) !! Z.to_nat (g_i g) = Some s /\
    let i := (g_i g + 1) mod 128 in
    next_socket g = Ok (if (s =? -1) || (g_r g =? 1)
                        then ((0 <? nqueries g) && (i =? g_last g), at_place i g) else (false, g)).
Proof.
  intros Hd. destruct (connection_at g ss Hd) as (s & f & todo & Hs & _ & _). exists s.
  split; [done|]. cbv zeta. pose proof (dl_i _ _ Hd) as Hi. unfold next_socket.
  assert (aget (sockets (g_cd g)) (g_i g) = Ok s) as ->
    by (apply aget_Ok; split; [lia | done]).
  cbn [mbind result_bind]. rewrite next_place by done.
  by destruct ((s =? -1) || (g_r g =? 1)).
Qed.

(** How far it is to the place where the loop ends, or, with an empty batch, to
    a connection on which something will come. *)
Definition distance (t : nat) (g : gather) : Z :=
  if 0 <? nqueries g then (g_last g - g_i g - 1) mod 128 else (Z.of_nat t - g_i g) mod 128.

Definition left_to_do (t : nat) (g : gather) : Z := volume g * 128 + distance t g.

Lemma distance_bound t g : 0 <= distance t g < 128.
Proof. unfold distance. case_match; apply Z.mod_pos_bound; lia. Qed.

Lemma distance_step x i : (x - i) mod 128 <> 0 -> (x - (i + 1) mod 128) mod 128 = (x - i) mod 128 - 1.
Proof.
  intros Hne. rewrite Zminus_mod_idemp_r. replace (x - (i + 1)) with (x - i - 1) by lia.
  pose proof (Z.mod_pos_bound (x - i) 128 ltac:(lia)) as Hb.
  rewrite (Z.div_mod (x - i) 128) at 1 by lia.
  replace (128 * ((x - i) / 128) + (x - i) mod 128 - 1)
    with ((x - i) mod 128 - 1 + (x - i) / 128 * 128) by lia.
  rewrite Z.mod_add by lia. apply Z.mod_small. lia.
Qed.

(** A closed socket is passed by; the distance falls. *)
Lemma closed_round t g ss :
  delivering g ss -> 0 < nqueries g \/ waiting t g -> (t < 128)%nat ->
  sockets (g_cd g) !! Z.to_nat (g_i g) = Some (-1) ->
  let i := (g_i g + 1) mod 128 in
  0 < nqueries g /\ i = g_last g \/ left_to_do t (at_place i g) < left_to_do t g.
Proof.
  intros Hd Hw Ht Hs i. pose proof (dl_i _ _ Hd) as Hi. pose proof (dl_last _ _ Hd) as Hlast.
  unfold left_to_do. change (volume (at_place i g)) with (volume g).
  unfold distance. change (nqueries (at_place i g)) with (nqueries g). simpl g_last. simpl g_i.
  destruct (Z.ltb_spec 0 (nqueries g)) as [Hn|Hn].
  - destruct (Z.eq_dec i (g_last g)) as [Heq|Hne]; [by left|]. right.
    replace (g_last g - i - 1) with (g_last g - 1 - i) by lia.
    replace (g_last g - g_i g - 1) with (g_last g - 1 - g_i g) by lia.
    subst i. rewrite distance_step; [lia|]. intros Hz. apply Hne.
    apply Z.mod_divide in Hz as [k Hk]; [|lia].
    rewrite <- (Z.mod_small (g_last g) 128) by lia.
    replace (g_last g) with (g_i g + 1 + k * 128) by lia. by rewrite Z.mod_add by lia.
  - right. subst i. rewrite distance_step; [lia|]. intros Hz.
    apply Z.mod_divide in Hz as [k Hk]; [|lia].
    assert (t = Z.to_nat (g_i g)) as -> by lia.
    destruct Hw as [?|(s & f & Hs' & Hne & _)]; [lia|]. congruence.
Qed.

(** One round: the loop ends with a batch, or comes closer to its end. *)
Lemma gather_round t g ss :
  delivering g ss -> 0 < nqueries g \/ waiting t g -> (t < 128)%nat -> 0 < batch_size ->
  exists stop g' es, gather_step batch_size verbose g = Ok (stop, g') /\ delivering g' (ss ++ es) /\
    if stop : bool then 0 < nqueries g'
    else (0 < nqueries g' \/ waiting t g') /\ left_to_do t g' < left_to_do t g.
Proof.
  intros Hd Hw Ht Hb. unfold gather_step. destruct (gather_full batch_size g) eqn:Hfull.
  - exists true, g, []. rewrite app_nil_r. split; [done|]. split; [done|].
    apply orb_true_iff in Hfull as [Hf|Hf]; apply Z.leb_le in Hf; [lia|].
    unfold nqueries, bufoffset in *. rewrite <- (dl_entries _ _ Hd). rewrite length_fmap.
    destruct ss; [|simpl; lia]. rewrite (dl_empty _ _ Hd eq_refl) in Hf.
    change VALUE_BUFFER_SIZE with 2097152 in Hf. change MAX_VALUE_SIZE with 1048576 in Hf.
    simpl in Hf. lia.
  - destruct (connection_at g ss Hd) as (s & f & todo & Hs & _ & _).
    pose proof (dl_i _ _ Hd) as Hi.
    assert (aget (sockets (g_cd g)) (g_i g) = Ok s) as ->
    by (apply aget_Ok; split; [lia | done]).
    cbn [mbind result_bind]. destruct (Z.eqb_spec s (-1)) as [->|Hne]; cbn [negb].
    + cbn [mbind result_bind mret result_ret].
      destruct (next_socket_ok g ss Hd) as (s & Hs' & Hn). rewrite Hs in Hs'. simplify_eq.
      cbv zeta in Hn. rewrite Hn. change (-1 =? -1) with true. cbn [orb].
      eexists _, _, []. split; [done|]. rewrite app_nil_r. split.
      { apply at_place_delivering; [apply Z.mod_pos_bound; lia | done]. }
      pose proof (closed_round t g ss Hd Hw Ht Hs) as Hc. cbv zeta in Hc.
      destruct ((0 <? nqueries g) && _) eqn:Hstop.
      * apply andb_true_iff in Hstop as [Hn0 _]. by apply Z.ltb_lt in Hn0.
      * split; [exact Hw|]. destruct Hc as [[Hn0 Heq]|Hc]; [|exact Hc].
        by rewrite (proj2 (Z.ltb_lt _ _) Hn0), Heq, Z.eqb_refl in Hstop.
    + destruct (open_round g ss s Hd Hfull Hs Hne) as (g1 & es & Hg1 & Hi1 & Hd1 & Hv & Hw1).
      rewrite Hg1. cbn [mbind result_bind].
      assert (0 < nqueries g1 \/ waiting t g1) as Hw2.
      { destruct Hw1 as [?|Hw1]; [by left|]. destruct Hw as [Hn|Hw]; [|right; auto].
        left. unfold nqueries in *. rewrite <- (dl_entries _ _ Hd1), fmap_app, (dl_entries _ _ Hd), length_app.
        lia. }
      destruct (next_socket_ok g1 _ Hd1) as (s1 & _ & Hn). cbv zeta in Hn. rewrite Hn.
      set (i := (g_i g1 + 1) mod 128). pose proof (distance_bound t g) as Hb0.
      destruct ((s1 =? -1) || (g_r g1 =? 1)).
      * eexists _, _, es. split; [done|].
        split; [apply at_place_delivering; [apply Z.mod_pos_bound; lia | done]|].
        destruct ((0 <? nqueries g1) && (i =? g_last g1)) eqn:Hstop.
        -- apply andb_true_iff in Hstop as [Hn0 _]. by apply Z.ltb_lt in Hn0.
        -- split; [exact Hw2|]. pose proof (distance_bound t (at_place i g1)) as Hb1.
           unfold left_to_do. change (volume (at_place i g1)) with (volume g1). lia.
      * eexists _, _, es. split; [done|]. split; [done|]. split; [exact Hw2|].
        pose proof (distance_bound t g1) as Hb1. unfold left_to_do. lia.
Qed.

(** A round is defined, whether or not something is still to come. *)
Lemma gather_safe g ss :
  delivering g ss -> exists stop g' es, gather_step batch_size verbose g = Ok (stop, g') /\ delivering g' (ss ++ es).
Proof.
  intros Hd. unfold gather_step. destruct (gather_full batch_size g) eqn:Hfull.
  { exists true, g, []. by rewrite app_nil_r. }
  destruct (connection_at g ss Hd) as (s & f & todo & Hs & _ & _). pose proof (dl_i _ _ Hd) as Hi.
  assert (aget (sockets (g_cd g)) (g_i g) = Ok s) as -> by (apply aget_Ok; split; [lia | done]).
  cbn [mbind result_bind].
  assert (exists g1 es, (if negb (s =? -1) then g ← receive s g; drop_broken verbose g else mret g) = Ok g1 /\
    delivering g1 (ss ++ es)) as (g1 & es & -> & Hd1).
  { destruct (Z.eqb_spec s (-1)) as [_|Hne]; cbn [negb]; [exists g, []; by rewrite app_nil_r|].
    destruct (open_round g ss s Hd Hfull Hs Hne) as (g1 & es & Hg1 & _ & Hd1 & _). by exists g1, es. }
  cbn [mbind result_bind]. destruct (next_socket_ok g1 _ Hd1) as (s1 & _ & Hn). cbv zeta in Hn. rewrite Hn.
  case_match; eexists _, _, es; (split; [done|]); [|done].
  apply at_place_delivering; [apply Z.mod_pos_bound; lia | done].
Qed.

Lemma gather_runs t g ss :
  delivering g ss -> 0 < nqueries g \/ waiting t g -> (t < 128)%nat -> 0 < batch_size ->
  exists fuel g' es, gather_run fuel batch_size verbose g = Ok g' /\ delivering g' (ss ++ es) /\
    0 < nqueries g'.
Proof.
  intros Hd Hw Ht Hb. remember (Z.to_nat (left_to_do t g)) as n eqn:Hn.
  revert g ss Hn Hd Hw. induction n as [n IH] using lt_wf_ind. intros g ss -> Hd Hw.
  destruct (gather_round t g ss Hd Hw Ht Hb) as (stop & g1 & es & Hs & Hd1 & Hr). destruct stop.
  - exists 1%nat, g1, es. cbn [gather_run]. by rewrite Hs.
  - destruct Hr as [Hw1 Hlt].
    assert (0 <= left_to_do t g1) as Hpos.
    { unfold left_to_do. pose proof (volume_nonneg g1). pose proof (distance_bound t g1). lia. }
    destruct (IH (Z.to_nat (left_to_do t g1)) ltac:(lia) g1 _ eq_refl Hd1 Hw1)
      as (fuel & g2 & es2 & Hrun & Hd2 & Hn2).
    exists (S fuel), g2, (es ++ es2). cbn [gather_run]. rewrite Hs, app_assoc. done.
Qed.
End delivery.

(** A round closes sockets at most. *)
Lemma gather_closes batch_size verbose g stop g' i s :
  gather_step batch_size verbose g = Ok (stop, g') -> sockets (g_cd g') !! i = Some s -> s <> -1 ->
  sockets (g_cd g) !! i = Some s.
Proof.
  unfold gather_step. intros H. destruct (gather_full batch_size g); [by injection H as <- <-|].
  apply bind_Ok in H as (s0 & _ & H). apply bind_Ok in H as (g1 & Hg1 & H).
  assert (sockets (g_cd g') = sockets (g_cd g1)) as ->.
  { unfold next_socket in H. apply bind_Ok in H as (s1 & _ & H). case_match; by injection H as <- <-. }
  destruct (negb (s0 =? -1)); [|by injection Hg1 as <-]. apply bind_Ok in Hg1 as (g2 & Hg2 & Hg1).
  assert (sockets (g_cd g2) = sockets (g_cd g)) as <-.
  { unfold receive in Hg2. apply bind_Ok in Hg2 as (f & _ & Hg2). apply bind_Ok in Hg2 as ([[[r last] q] f'] & _ & Hg2).
    apply bind_Ok in Hg2 as (fs & _ & Hg2). apply Ok_inj in Hg2 as <-. by destruct q as [[q v]|]. }
  unfold drop_broken in Hg1. destruct (g_r g2 =? 2); [|by injection Hg1 as <-].
  unfold close_socket in Hg1. apply bind_Ok in Hg1 as (cd & Hcd & Hg1). apply bind_Ok in Hcd as (ss & Hss & Hcd).
  apply Ok_inj in Hcd as <-. apply Ok_inj in Hg1 as <-. simpl. apply aset_Ok in Hss as (_ & ->).
  intros Hi Hne. by apply list_lookup_insert_Some in Hi as [(_ & <- & _)|[_ Hi]].
Qed.

(** ** The contract of the loop *)

(** What arrives on [f] is what the client library sent for [qs]. *)
Definition carries (f : stream) (qs : list client_query) : Prop :=
  ends (arrivals f) = true /\ Forall sized qs /\
  exists answers room c, sendqueries (HashConn answers [] [] room) qs = Ok (1, c) /\ content f = flushed c.

Lemma carries_content f qs : carries f qs -> content f = concat (request_bytes <$> qs).
Proof.
  intros (_ & Hs & a & room & c & Hc & ->).
  by rewrite (sendqueries_sent _ _ _ (Forall_impl _ _ _ Hs (fun q H => proj1 H)) Hc).
Qed.

(** The sockets of a client thread: the open place [i] has the descriptor [fd i]
    and carries [qs i]; on a closed one nothing is left. *)
Definition connected (cd : client_data) (fd : Z -> Z) (qs : Z -> list client_query) : Prop :=
  length (sockets cd) = Z.to_nat MAX_SOCKETS /\ length (fins cd) = Z.to_nat MAX_SOCKETS /\
  forall (i : nat) s f, sockets cd !! i = Some s -> fins cd !! i = Some f ->
    carries f (qs (Z.of_nat i)) /\
    (s = -1 /\ qs (Z.of_nat i) = [] \/ s = fd (Z.of_nat i) /\ s <> -1).

(** C23: what clients send is what the server works on. The client threads'
    connections bring, in pieces of any sizes and with any delays, the bytes that
    [sendqueries] wrote. If on one of them a query has been sent, the loop ends with a
    batch of at least one and at most [batch_size] queries within the value
    buffer, without faulting. Of every connection it holds a prefix of the
    queries sent on it, in order, each with its operation, key, size and value;
    the other queries are still to be read, whole; a connection is closed only
    when none is left; and a reply will go to the connection the lookup came
    from. *)
Theorem batch_delivered batch_size verbose cd acs resets r last fd qs t :
  connected cd fd qs -> 0 <= last < MAX_SOCKETS -> 0 < batch_size ->
  0 <= t < MAX_SOCKETS -> qs t <> [] ->
  exists fuel g ss, gather_run fuel batch_size verbose (gather_start cd acs resets r last) = Ok g /\
    0 < nqueries g <= batch_size /\ bufoffset g <= VALUE_BUFFER_SIZE /\ ss.*2 = g_queries g /\
    Forall (fun x => forall sid sock, gq_place x.2 = ReplyTo sid sock -> sid = x.1 /\ sock = fd x.1) ss /\
    forall (i : nat) s f, sockets (g_cd g) !! i = Some s -> fins (g_cd g) !! i = Some f ->
      exists rest, (entry_view (g_valuebuf g) <$> from (Z.of_nat i) ss) ++ (server_view <$> rest)
          = server_view <$> qs (Z.of_nat i) /\
        content f = concat (request_bytes <$> rest) /\ (s = -1 -> rest = []).
Proof.
  intros (Hl1 & Hl2 & Hcd) Hlast Hb Ht Hqs. rewrite MAX_SOCKETS_val in *.
  set (sent := fun v => exists i q, q ∈ qs i /\ v = server_view q).
  assert (forall i q, q ∈ qs i -> sent (server_view q)) as Hsent by (intros i q Hq; by exists i, q).
  assert (delivering batch_size fd qs sent 0 (gather_start cd acs resets r last) []) as Hd.
  { split; simpl; try done; [unfold nqueries; simpl; lia|].
    intros i s f Hs Hf. destruct (Hcd i s f Hs Hf) as [Hc Hfd]. exists (qs (Z.of_nat i)).
    split; [apply Hc | by apply carries_content | apply Hc | done | ].
    destruct Hfd as [[-> Hn]|?]; [by left | by right]. }
  assert (waiting (Z.to_nat t) (gather_start cd acs resets r last)) as Hw.
  { destruct (lookup_lt_is_Some_2 (sockets cd) (Z.to_nat t)) as [s Hs]; [lia|].
    destruct (lookup_lt_is_Some_2 (fins cd) (Z.to_nat t)) as [f Hf]; [lia|].
    destruct (Hcd _ s f Hs Hf) as [Hc Hfd]. rewrite Z2Nat.id in Hc, Hfd by lia.
    exists s, f. split; [done|]. split; [by destruct Hfd as [[_ ?]|[_ ?]]|]. split; [done|].
    rewrite (carries_content _ _ Hc). destruct (qs t) as [|q l]; [done|]. rewrite fmap_cons.
    intros Hn. apply (f_equal length) in Hn. cbn [concat] in Hn. unfold request_bytes in Hn.
    rewrite !length_app, query_bytes_length in Hn. simpl in Hn. lia. }
  destruct (gather_runs batch_size verbose fd qs sent Hsent 0 ltac:(done) (Z.to_nat t) _ [] Hd (or_intror Hw) ltac:(lia) Hb)
    as (fuel & g & es & Hrun & Hdg & Hn). simpl in Hdg.
  exists fuel, g, es. split; [done|]. split; [by split; [|apply Hdg]|]. split; [apply Hdg|].
  split; [apply Hdg|]. split.
  - apply Forall_forall. intros x Hx sid sock Hp. pose proof (dl_place _ _ _ _ _ _ _ Hdg) as Hplace.
    pose proof (dl_src _ _ _ _ _ _ _ Hdg) as Hsrc. rewrite Forall_forall in Hplace, Hsrc.
    specialize (Hplace x Hx). destruct (Hsrc x Hx) as [_ Hway]. unfold way_back in Hway. rewrite Hp in Hway.
    destruct Hway as (_ & _ & [?|[? _]]); [done|lia].
  - intros i s f Hs Hf. destruct (dl_conn _ _ _ _ _ _ _ Hdg i s f Hs Hf) as [rest []].
    exists rest. split; [done|]. split; [done|]. intros ->. by destruct cn_fd0 as [[_ ?]|[_ ?]].
Qed.

(** ** Any bytes at all *)
Lemma unle_nonneg bs : Forall (fun b => 0 <= b) bs -> 0 <= unle bs.
Proof.
  induction 1 as [|b bs Hb _ IH]; [done|]. change (unle (b :: bs)) with (b + 256 * unle bs). lia.
Qed.

(** The value of size 0 is waited for forever. *)
Lemma read_value_zero fuel f : read_value fuel 0 f = Fault Blocked.
Proof.
  revert f. induction fuel as [|fuel IH]; intros f; [done|]. cbn [read_value].
  assert (read_object 0 f = Ok (1, [], Stream (buffered f) (arrivals f))) as ->.
  { unfold read_object, fread. destruct f as [buf arr]. simpl. destruct arr; reflexivity. }
  apply IH.
Qed.

(** C37: whatever bytes a connection brings, reading a request ends in one of
    these ways: with a query of a known operation and exactly the bytes it
    announces; with nothing yet; with the connection given up, after an unknown
    operation or an end inside the request; for an insertion of size 0, never;
    and, where more bytes of the value arrive than there is room for, with a write
    behind the value buffer, as the announced size is not compared with
    [MAX_VALUE_SIZE]. *)
Theorem request_outcome room f :
  ends (arrivals f) = true -> Forall (fun b => 0 <= b) (content f) -> 0 <= room ->
  match read_request room f with
  | Ok (r, last, o, f') => ends (arrivals f') = true /\
      (r = 0 /\ last = true /\ (exists hdr v, content f = hdr ++ v ++ content f' /\ length hdr = 16%nat /\
         o = Some (bytes_query hdr, v) /\ Z.of_nat (length v) <= room /\
         (q_optype (bytes_query hdr) = 0 /\ v = [] \/
          q_optype (bytes_query hdr) = 1 /\ 0 < q_size (bytes_query hdr) /\
            q_size (bytes_query hdr) = Z.of_nat (length v))) \/
       r = 1 /\ last = false /\ o = None /\ content f' = content f \/
       r = 2 /\ o = None)
  | Fault e => exists hdr rest, content f = hdr ++ rest /\ length hdr = 16%nat /\
      q_optype (bytes_query hdr) = 1 /\
      (e = Blocked /\ q_size (bytes_query hdr) = 0 \/
       e = Undefined /\ room < q_size (bytes_query hdr) /\ room < Z.of_nat (length rest))
  end.
Proof.
  intros He Hpos Hroom. unfold read_request.
  destruct (read_header f He) as (r & hdr & f1 & -> & He1 & Hc & Ha & Hr). cbn [mbind result_bind].
  destruct Hr as [[-> Hl]|[(-> & -> & _)|(-> & _)]];
    [|simpl; auto 10..].
  change (0 =? 0) with true. cbn iota zeta.
  destruct (Z.eqb_spec (q_optype (bytes_query hdr)) (optype_code OPTYPE_LOOKUP)) as [Ho|Ho].
  { split; [done|]. left. split; [done|]. split; [done|]. exists hdr, []. simpl.
    split_and!; auto. }
  destruct (Z.eqb_spec (q_optype (bytes_query hdr)) (optype_code OPTYPE_INSERT)) as [Ho1|];
    [|simpl; auto 10].
  assert (0 <= q_size (bytes_query hdr)) as Hsz.
  { unfold bytes_query. simpl. apply unle_nonneg. rewrite <- Hc in Hpos.
    apply Forall_app in Hpos as [Hpos _]. by apply Forall_take, Forall_drop. }
  destruct (Z.eq_dec (q_size (bytes_query hdr)) 0) as [H0|Hne].
  { rewrite H0. change (Z.to_nat 0) with 0%nat. rewrite read_value_zero. cbn [mbind result_bind].
    exists hdr, (content f1). auto 10. }
  destruct (read_value_ok (S (length (arrivals f1))) (Z.to_nat (q_size (bytes_query hdr))) f1)
    as (r & v & f2 & -> & Hc2 & He2 & _ & Hv & Hr); [lia | done | lia |]. cbn [mbind result_bind].
  destruct (Z.leb_spec (Z.of_nat (length v)) room) as [Hle|Hgt]; cbn [check mbind result_bind].
  - split; [done|]. destruct Hr as [[-> Hlv]|(-> & _)]; [left | right; right; done].
    split; [done|]. split; [done|]. exists hdr, v. rewrite Hc2, Hc. split_and!; auto.
    right. split; [done|]. lia.
  - exists hdr, (content f1). split; [done|]. split; [done|]. split; [done|]. right.
    split; [done|]. rewrite <- Hc2, length_app. lia.
Qed.

(** ** Instances *)

(** Place 5 has a connection that brings an insertion and a lookup, in pieces. *)
Definition demo_queries : list client_query :=
  [ClientQuery OPTYPE_INSERT 7 3 [1; 2; 3]; ClientQuery OPTYPE_LOOKUP 7 0 []].

Definition demo_stream : stream :=
  let bs := concat (request_bytes <$> demo_queries) in
  Stream (take 3 bs) [More (take 9 (drop 3 bs)); Stall; More (take 6 (drop 12 bs)); Stall;
                      More (drop 18 bs); Closed].

(** A thread with a connection at place 5 only. *)
Definition data_at_5 (f : stream) : client_data :=
  ClientData 1 (<[5%nat := 9]> (replicate 128 (-1))) (<[5%nat := f]> (replicate 128 (Stream [] [Closed]))).

Definition sent_at_5 (q : list client_query) (i : Z) : list client_query := if i =? 5 then q else [].

Lemma connected_at_5 f q : carries f q -> connected (data_at_5 f) (fun _ => 9) (sent_at_5 q).
Proof.
  intros Hf0. split; [reflexivity|]. split; [reflexivity|]. intros i s f' Hs Hf. unfold data_at_5 in Hs, Hf.
  cbn [sockets fins] in Hs, Hf.
  apply list_lookup_insert_Some in Hs as [(<- & <- & _)|[Hne Hs]].
  - rewrite list_lookup_insert_eq in Hf by (simpl; lia). injection Hf as <-.
    split; [exact Hf0|]. right. split; [reflexivity | discriminate].
  - rewrite list_lookup_insert_ne in Hf by done.
    apply lookup_replicate in Hs as [-> _]. apply lookup_replicate in Hf as [-> _].
    unfold sent_at_5. rewrite (proj2 (Z.eqb_neq _ 5)) by lia. split; [|left; split; reflexivity].
    split; [reflexivity|]. split; [constructor|].
    exists (Stream [] []), 0%nat. eexists. split; vm_compute; reflexivity.
Qed.

Definition demo_data : client_data := data_at_5 demo_stream.

Lemma demo_carries : carries demo_stream demo_queries.
Proof.
  split; [reflexivity|]. split.
  - repeat constructor; simpl; vm_compute; reflexivity || discriminate.
  - exists (Stream [] []), 100%nat. eexists. split; vm_compute; reflexivity.
Qed.

Lemma batch_delivered_witness :
  exists fuel g (ss : list (Z * gathered)),
    gather_run fuel 10 0 (gather_start demo_data 1 0 0 0) = Ok g /\
    0 < nqueries g <= 10 /\ ss.*2 = g_queries g.
Proof.
  destruct (batch_delivered 10 0 demo_data 1 0 0 0 (fun _ => 9) (sent_at_5 demo_queries) 5 (connected_at_5 _ _ demo_carries))
    as (fuel & g & ss & Hg & Hn & _ & Hss & _).
  - split; [discriminate | reflexivity].
  - reflexivity.
  - split; [discriminate | reflexivity].
  - discriminate.
  - exists fuel, g, ss. split; [exact Hg|]. split; [exact Hn | exact Hss].
Defined.

(** The batch of this run: the insertion with its size grown by four and its
    value in the buffer, and the lookup with the way back. *)
Example demo_batch :
  (g ← gather_run 300 10 0 (gather_start demo_data 1 0 0 0);
   mret (g_queries g, g_valuebuf g, sockets (g_cd g) !! 5%nat)) =
  Ok ([Gathered (HashQuery 1 7 7) (ValueAt 0); Gathered (HashQuery 0 0 7) (ReplyTo 5 9)],
      [1; 2; 3], Some (-1)).
Proof. vm_compute. reflexivity. Qed.

Lemma request_outcome_witness :
  read_request 3 (Stream (le 4 1 ++ le 4 4 ++ le 8 7 ++ [1; 2; 3; 4]) [Closed]) = Fault Undefined /\
  exists hdr rest, le 4 1 ++ le 4 4 ++ le 8 7 ++ [1; 2; 3; 4] = hdr ++ rest /\
    3 < q_size (bytes_query hdr).
Proof.
  assert (read_request 3 (Stream (le 4 1 ++ le 4 4 ++ le 8 7 ++ [1; 2; 3; 4]) [Closed]) = Fault Undefined)
    as Hr by (vm_compute; reflexivity).
  split; [exact Hr|].
  pose proof (request_outcome 3 (Stream (le 4 1 ++ le 4 4 ++ le 8 7 ++ [1; 2; 3; 4]) [Closed]) eq_refl
    ltac:(repeat constructor; discriminate) ltac:(discriminate)) as H.
  rewrite Hr in H. destruct H as (hdr & rest & Hc & _ & _ & [[Hd _]|(_ & Hs & _)]); [discriminate Hd|].
  exists hdr, rest. split; [exact Hc | exact Hs].
Defined.
