(* ===== verification/Reply.v ===== *)
(** * Reply: what a client thread does with the answers ([hashserver2.c])

    The second half of [clientgo]: the values of a batch are filled in or
    prepared as replies, and the replies are written to the sockets with
    [write_iovs]. Values are given back by [mark_ready] and [release_value], which
    stand for the calls of the design in use; here they are entries of a log, in
    the order of the calls, between the bytes written. *)
From stdpp Require Import base list gmap.
From Stdlib Require Import ZArith Lia.
From S2P Require Import Prelude Protocol Value Stream HashClient Gather.

Local Open Scope Z_scope.

(** [struct hash_value] in the memory of an element: [size] and [data]. *)
Definition value_size (el : elem) : result Z :=
  _ ← check (4 <=? Z.of_nat (length (value el))) Undefined; mret (unle (take 4 (value el))).

(** [val->size = n; memcpy(val->data, data, n)]. *)
Definition fill_value (data : list Z) (el : elem) : result elem := write_bytes (value_bytes data) el.

(** [struct iovec]: [iov_value] is what the base pointed to at first, [None] for
    [NULL_VALUE], and [iov_done] how far it was moved. *)
Record iovec := Iov { iov_value : option Z; iov_done : nat; iov_len : nat }.

(** A [writev] is logged with the values it reads from and the bytes that were
    taken. *)
Inductive effect :=
  | MarkedReady (ptr : Z)
  | Released (ptr : Z)
  | Wrote (ptrs : list Z) (bs : list Z).

(** The memory, [writeiov] with its counts as lengths, and the log. *)
Record replies := Replies { rp_heap : heap; rp_iovs : list (list iovec); rp_log : list effect }.

(** The case [OPTYPE_LOOKUP]: a reply for the socket, if it is still the one. *)
Definition handle_lookup (batch_size : Z) (cd : client_data) (sid sock val : Z) (o : replies)
    : result replies :=
  s ← aget (sockets cd) sid;
  if s =? sock then
    iov ← (if val =? 0 then mret (Iov None 0 4)
           else el ← deref (rp_heap o !! elem_of_ptr val);
                n ← value_size el;
                mret (Iov (Some val) 0 (Z.to_nat (4 + n))));
    l ← aget (rp_iovs o) sid;
    _ ← check (Z.of_nat (length l) <? batch_size) Undefined;
    ls ← aset (rp_iovs o) sid (l ++ [iov]);
    mret (Replies (rp_heap o) ls (rp_log o))
  else mret o.

(** The case [OPTYPE_INSERT]. *)
Definition handle_insert (buf : list Z) (q : hash_query) (offset val : Z) (o : replies) : result replies :=
  _ ← check (negb (val =? 0)) AssertFailed;
  let n := u32 (q_size q - 4) in
  el ← deref (rp_heap o !! elem_of_ptr val);
  _ ← check (offset + n <=? Z.of_nat (length buf)) Undefined;
  el' ← fill_value (take (Z.to_nat n) (drop (Z.to_nat offset) buf)) el;
  mret (Replies (<[elem_of_ptr val := el']> (rp_heap o)) (rp_iovs o) (rp_log o ++ [MarkedReady val])).

Definition handle_value (batch_size : Z) (cd : client_data) (buf : list Z) (e : gathered) (val : Z)
    (o : replies) : result replies :=
  let q := gq_query e in
  if q_optype q =? optype_code OPTYPE_LOOKUP then
    match gq_place e with
    | ReplyTo sid sock => handle_lookup batch_size cd sid sock val o
    | ValueAt _ => Fault Undefined
    end
  else if q_optype q =? optype_code OPTYPE_INSERT then
    match gq_place e with
    | ValueAt offset => handle_insert buf q offset val o
    | ReplyTo _ _ => Fault Undefined
    end
  else Fault AssertFailed.

(** [for (int k = 0; k < nqueries; k++)] over [queries[k]] and [values[k]]. *)
Fixpoint handle_values (batch_size : Z) (cd : client_data) (buf : list Z) (es : list gathered)
    (values : list Z) (o : replies) : result replies :=
  match es, values with
  | [], _ => mret o
  | e :: es, v :: vs => o ← handle_value batch_size cd buf e v o; handle_values batch_size cd buf es vs o
  | _ :: _, [] => Fault Undefined
  end.

(** ** [write_iovs] *)

(** [NULL_VALUE] is four bytes of 0. *)
Definition NULL_VALUE : list Z := le 4 0.

(** The bytes an entry still has to write. *)
Definition iov_bytes (h : heap) (v : iovec) : result (list Z) :=
  bs ← match iov_value v with
       | None => mret NULL_VALUE
       | Some ptr => el ← deref (h !! elem_of_ptr ptr); mret (value el)
       end;
  let bs := take (iov_len v) (drop (iov_done v) bs) in
  _ ← check (length bs =? iov_len v)%nat Undefined;
  mret bs.

Fixpoint iovs_bytes (h : heap) (iovs : list iovec) : result (list Z) :=
  match iovs with
  | [] => mret []
  | v :: iovs => b ← iov_bytes h v; bs ← iovs_bytes h iovs; mret (b ++ bs)
  end.

(** [if (ciov_base != &NULL_VALUE) release_value(client_id, ciov_base)]. *)
Definition give_back (base : option Z) : list effect :=
  match base with Some ptr => [Released ptr] | None => [] end.

(** [while (r > 0)]: [iovs] are the entries from [ciov] on, [base] is
    [ciov_base]. *)
Fixpoint progress (r : nat) (iovs : list iovec) (base : option Z) : list iovec * option Z * list effect :=
  match r, iovs with
  | O, _ | _, [] => (iovs, base, [])
  | _, v :: rest =>
      if (iov_len v <=? r)%nat then
        match rest with
        | [] => ([], base, [])
        | v' :: _ =>
            let '(iovs', base', evs) := progress (r - iov_len v) rest (iov_value v') in
            (iovs', base', give_back base ++ evs)
        end
      else (Iov (iov_value v) (iov_done v + r) (iov_len v - r) :: rest, base, [])
  end.

(** [while (ciov < iovcnt)], over the results of [writev]. *)
Fixpoint write_loop (h : heap) (rs : list accept) (iovs : list iovec) (base : option Z)
    : result (Z * list effect * list iovec * option Z * list accept) :=
  match iovs with
  | [] => mret (0, [], [], base, rs)
  | _ =>
      match rs with
      | [] => Fault Blocked
      | Refused :: rs => mret (2, [], iovs, base, rs)
      | Later :: rs => write_loop h rs iovs base
      | Took n :: rs =>
          bs ← iovs_bytes h iovs;
          let bs := take n bs in
          let '(iovs', base', evs) := progress (length bs) iovs base in
          '(ret, evs', iovs'', base'', rs) ← write_loop h rs iovs' base';
          mret (ret, Wrote (omap iov_value iovs) bs :: evs ++ evs', iovs'', base'', rs)
      end
  end.

(** The entries behind the current one give their values back too. *)
Definition give_back_rest (iovs : list iovec) : list effect :=
  concat ((fun v => give_back (iov_value v)) <$> tail iovs).

Definition write_iovs (h : heap) (rs : list accept) (iovs : list iovec)
    : result (Z * list effect * list accept) :=
  v ← deref (head iovs);
  '(ret, evs, rest, base, rs) ← write_loop h rs iovs (iov_value v);
  mret (ret, evs ++ give_back base ++ give_back_rest rest, rs).

(** [for (int k = 0; k < MAX_SOCKETS; k++)]; [rs k] are the results of [writev]
    on the socket at place [k]. The result has an entry for every socket written
    to: its place, what [write_iovs] returned and the log. *)
Fixpoint write_replies (h : heap) (rs : nat -> list accept) (k : nat) (iovs : list (list iovec))
    : result (list (nat * Z * list effect)) :=
  match iovs with
  | [] => mret []
  | l :: iovs =>
      w ← match l with
          | [] => mret []
          | _ => '(ret, evs, _) ← write_iovs h (rs k) l; mret [(k, ret, evs)]
          end;
      ws ← write_replies h rs (S k) iovs;
      mret (w ++ ws)
  end.

Arguments value_size : simpl never.
Arguments fill_value : simpl never.
Arguments iov_bytes : simpl never.
Arguments value_bytes : simpl never.

(** ** What the log says *)
Definition released (evs : list effect) : list Z :=
  omap (fun ev => match ev with Released p => Some p | _ => None end) evs.

Definition made_ready (evs : list effect) : list Z :=
  omap (fun ev => match ev with MarkedReady p => Some p | _ => None end) evs.

Definition written (evs : list effect) : list Z :=
  concat ((fun ev => match ev with Wrote _ bs => bs | _ => [] end) <$> evs).

Lemma released_app l1 l2 : released (l1 ++ l2) = released l1 ++ released l2.
Proof. apply omap_app. Qed.

Lemma written_app l1 l2 : written (l1 ++ l2) = written l1 ++ written l2.
Proof. unfold written. by rewrite fmap_app, concat_app. Qed.

Lemma made_ready_app l1 l2 : made_ready (l1 ++ l2) = made_ready l1 ++ made_ready l2.
Proof. apply omap_app. Qed.

Lemma released_wrote ps bs evs : released (Wrote ps bs :: evs) = released evs.
Proof. reflexivity. Qed.

Lemma written_wrote ps bs evs : written (Wrote ps bs :: evs) = bs ++ written evs.
Proof. reflexivity. Qed.

Lemma give_back_log b : released (give_back b) = option_list b /\ written (give_back b) = [].
Proof. by destruct b. Qed.

(** ** [write_iovs] gives every value back once *)

(** The values still to be given back: the current base, and those behind. *)
Definition kept (iovs : list iovec) (base : option Z) : list Z :=
  option_list base ++ omap iov_value (tail iovs).

Lemma iov_bytes_length h v b : iov_bytes h v = Ok b -> length b = iov_len v.
Proof.
  intros Hb. unfold iov_bytes in Hb. apply bind_Ok in Hb as (c & _ & Hb).
  apply bind_Ok in Hb as (u & Hu & Hb). apply check_Ok, Nat.eqb_eq in Hu. by apply Ok_inj in Hb as <-.
Qed.

(** A partly written entry keeps its value and its bytes. *)
Lemma progress_ok h r iovs base bs :
  iovs_bytes h iovs = Ok bs -> (r <= length bs)%nat ->
  (forall v rest, iovs = v :: rest -> base = iov_value v) ->
  let '(iovs', base', evs) := progress r iovs base in
  iovs_bytes h iovs' = Ok (drop r bs) /\ released evs ++ kept iovs' base' = kept iovs base /\
  Forall (fun ev => exists p, ev = Released p) evs /\ (forall v rest, iovs' = v :: rest -> base' = iov_value v).
Proof.
  revert r base bs. induction iovs as [|v iovs IH]; intros r base bs Hbs Hr Hbase.
  - injection Hbs as <-. assert (r = 0%nat) as -> by (simpl in Hr; lia). simpl. done.
  - destruct r as [|r]; [simpl; by rewrite ?drop_0|]. cbn [iovs_bytes] in Hbs.
    apply bind_Ok in Hbs as (b & Hb & Hbs). apply bind_Ok in Hbs as (bs' & Hbs' & Hbs).
    apply Ok_inj in Hbs as <-. cbn [progress].
    pose proof (iov_bytes_length _ _ _ Hb) as Hlb.
    rewrite length_app, Hlb in Hr.
    destruct (Nat.leb_spec (iov_len v) (S r)) as [Hle|Hgt].
    + destruct iovs as [|v' iovs].
      * injection Hbs' as <-. rewrite app_nil_r. rewrite drop_ge by lia. done.
      * specialize (IH (S r - iov_len v)%nat (iov_value v') bs' Hbs' ltac:(lia) ltac:(naive_solver)).
        destruct (progress (S r - iov_len v) (v' :: iovs) (iov_value v')) as [[iovs' base'] evs].
        destruct IH as (Hd & Hk & Hw & Hb').
        split; [rewrite Hd; f_equal; rewrite drop_app, (drop_ge b) by lia; simpl; f_equal; lia|].
        rewrite released_app. destruct (give_back_log base) as [-> _].
        rewrite <- app_assoc, Hk.
        split; [|split; [apply Forall_app; split; [|exact Hw]; destruct base; repeat constructor; eauto | done]].
        unfold kept. cbn [tail omap list_omap].
        f_equal. by destruct (iov_value v').
    + rewrite (Hbase v iovs eq_refl). split; [|split; [done|]; split; [constructor | by intros ? ? [= <- _]]].
      cbn [iovs_bytes]. unfold iov_bytes in Hb |- *. cbn [iov_value iov_done iov_len].
      apply bind_Ok in Hb as (c & Hc & Hb). rewrite Hc. cbn [mbind result_bind].
      apply bind_Ok in Hb as (u & Hu & Hb). apply Ok_inj in Hb as <-.
      rewrite <- drop_drop.
      assert (take (iov_len v - S r) (drop (S r) (drop (iov_done v) c)) =
                drop (S r) (take (iov_len v) (drop (iov_done v) c))) as ->
        by (by rewrite skipn_firstn_comm).
      rewrite length_drop, Hlb, Nat.eqb_refl. cbn [check mbind result_bind].
      rewrite Hbs'. cbn [mbind result_bind]. do 2 f_equal. rewrite drop_app_le by lia. done.
Qed.

(** A log that reads only from values that are held, [held] at its start. *)
Fixpoint reads_held (held : list Z) (evs : list effect) : Prop :=
  match evs with
  | [] => True
  | Wrote ps _ :: evs => ps = held /\ reads_held held evs
  | Released p :: evs => exists held', held = p :: held' /\ reads_held held' evs
  | MarkedReady _ :: evs => reads_held held evs
  end.

Lemma reads_held_releases evs held evs' :
  Forall (fun ev => exists p, ev = Released p) evs -> reads_held held evs' ->
  reads_held (released evs ++ held) (evs ++ evs').
Proof. induction 1 as [|ev evs [p ->] _ IH]; intros Hr; [done|]. exists (released evs ++ held). auto. Qed.

Lemma releases_held evs held :
  Forall (fun ev => exists p, ev = Released p) evs -> released evs = held -> reads_held held evs.
Proof.
  intros Hf <-. pose proof (reads_held_releases evs [] [] Hf I) as H. by rewrite !app_nil_r in H.
Qed.

Lemma releases_written evs : Forall (fun ev => exists p, ev = Released p) evs -> written evs = [].
Proof. induction 1 as [|ev evs [p ->] _ IH]; [done|]. unfold written in *. by rewrite fmap_cons. Qed.

Lemma kept_all v iovs : kept (v :: iovs) (iov_value v) = omap iov_value (v :: iovs).
Proof. unfold kept. simpl. by destruct (iov_value v). Qed.

Lemma write_loop_ok h rs iovs base bs ret evs rest base' rs' :
  iovs_bytes h iovs = Ok bs -> (forall v l, iovs = v :: l -> base = iov_value v) ->
  write_loop h rs iovs base = Ok (ret, evs, rest, base', rs') ->
  released evs ++ kept rest base' = kept iovs base /\
  (forall tl, Forall (fun ev => exists p, ev = Released p) tl -> released tl = kept rest base' ->
     reads_held (kept iovs base) (evs ++ tl)) /\
  (ret = 0 /\ rest = [] /\ written evs = bs \/ ret = 2 /\ written evs `prefix_of` bs).
Proof.
  revert iovs base bs evs. induction rs as [|a rs IH]; intros iovs base bs evs Hbs Hbase H;
    (destruct iovs as [|v iovs];
     [injection Hbs as <-; injection H as <- <- <- <- <-; split; [done|]; split; [|auto];
      intros tl Htl Hrel; by apply releases_held|]); [done|].
  assert (kept (v :: iovs) base = omap iov_value (v :: iovs)) as Hkept
    by (rewrite (Hbase v iovs eq_refl); apply kept_all).
  destruct a as [n| |]; cbn [write_loop] in H.
  - rewrite Hbs in H. cbn [mbind result_bind] in H.
    pose proof (progress_ok h (length (take n bs)) (v :: iovs) base bs Hbs) as Hp.
    rewrite length_take in Hp at 1. specialize (Hp ltac:(lia) Hbase).
    destruct (progress _ _ base) as [[iovs1 base1] evs1]. destruct Hp as (Hd & Hk & Hf & Hb1).
    apply bind_Ok in H as ([[[[ret1 evs2] rest1] base2] rs1] & Hloop & H).
    injection H as <- <- <- <- <-.
    destruct (IH iovs1 base1 _ evs2 Hd Hb1 Hloop) as (Hrel & Hheld & Hw).
    rewrite released_wrote, released_app.
    rewrite <- app_assoc, Hrel, Hk. split; [done|]. split.
    + intros tl Htl Hrt. cbn [app]. rewrite Hkept. split; [done|]. rewrite <- Hkept, <- Hk, <- app_assoc.
      apply reads_held_releases; auto.
    + rewrite written_wrote, written_app, (releases_written evs1 Hf). cbn [app].
      assert (take n bs ++ drop (length (take n bs)) bs = bs) as Hcat.
      { rewrite length_take. destruct (Nat.min_spec n (length bs)) as [[_ ->]|[Hle ->]].
        - apply take_drop.
        - rewrite take_ge by lia. rewrite drop_ge by lia. apply app_nil_r. }
      destruct Hw as [(-> & -> & ->)|[-> [k Hpre]]]; [by left|]. right. split; [done|].
      exists k. by rewrite <- app_assoc, <- Hpre.
  - by apply (IH (v :: iovs) base bs).
  - injection H as <- <- <- <- <-. split; [done|]. split; [|right; split; [done | apply prefix_nil]].
    intros tl Htl Hrt. by apply releases_held.
Qed.

(** Replies. Whatever [writev] takes of the replies of a socket, in whatever
    pieces, [write_iovs] gives the value of every reply back exactly once, in
    order, and reads only from values it has not given back; on success it has written
    exactly the bytes of all replies, in order, and after an error a prefix of
    them. An error at some point is enough for it to return. *)
Theorem write_iovs_once h rs v iovs bs :
  iovs_bytes h (v :: iovs) = Ok bs -> Refused ∈ rs ->
  exists ret evs rs', write_iovs h rs (v :: iovs) = Ok (ret, evs, rs') /\
    released evs = omap iov_value (v :: iovs) /\
    reads_held (omap iov_value (v :: iovs)) evs /\
    (ret = 0 /\ written evs = bs \/ ret = 2 /\ written evs `prefix_of` bs).
Proof.
  intros Hbs Hrs.
  assert (exists ret evs rest base rs', write_loop h rs (v :: iovs) (iov_value v)
            = Ok (ret, evs, rest, base, rs')) as (ret & evs & rest & base & rs' & Hloop).
  { assert (forall v0 l, v :: iovs = v0 :: l -> iov_value v = iov_value v0) as Hb by naive_solver.
    revert Hb Hbs. generalize (v :: iovs), (iov_value v), bs. clear v iovs bs.
    induction rs as [|a rs IH]; [set_solver|]. intros iovs base bs Hb Hbs.
    destruct iovs as [|v iovs]; [simpl; eauto 10|]. destruct a as [n| |]; cbn [write_loop].
    - rewrite Hbs. cbn [mbind result_bind].
      pose proof (progress_ok h (length (take n bs)) (v :: iovs) base bs Hbs) as Hp.
      rewrite length_take in Hp at 1. specialize (Hp ltac:(lia) Hb).
      destruct (progress _ _ base) as [[iovs1 base1] evs1]. destruct Hp as (Hd & _ & _ & Hb1).
      apply elem_of_cons in Hrs as [?|Hrs]; [done|].
      destruct (IH Hrs iovs1 base1 _ Hb1 Hd) as (? & ? & ? & ? & ? & ->). cbn [mbind result_bind]. eauto 10.
    - apply elem_of_cons in Hrs as [?|Hrs]; [done|]. by apply (IH Hrs _ _ bs).
    - eauto 10. }
  unfold write_iovs. cbn [head deref mbind result_bind]. rewrite Hloop. cbn [mbind result_bind].
  destruct (write_loop_ok _ _ _ _ _ _ _ _ _ _ Hbs ltac:(naive_solver) Hloop) as (Hrel & Hheld & Hw).
  rewrite kept_all in Hrel, Hheld.
  assert (Forall (fun ev => exists p, ev = Released p) (give_back base ++ give_back_rest rest)) as Hf.
  { apply Forall_app. split; [by destruct base; repeat constructor; eauto|].
    unfold give_back_rest. apply Forall_concat, Forall_fmap, Forall_true. intros x. simpl.
    by destruct (iov_value x); repeat constructor; eauto. }
  assert (released (give_back base ++ give_back_rest rest) = kept rest base) as Hr.
  { rewrite released_app. unfold kept. f_equal; [by destruct base|]. unfold give_back_rest.
    induction (tail rest) as [|x l IH]; [done|]. rewrite fmap_cons. cbn [concat omap list_omap].
    rewrite released_app, IH. by destruct (iov_value x). }
  eexists ret, _, rs'. split; [reflexivity|]. rewrite released_app, Hr. split; [done|].
  split; [by apply Hheld|]. rewrite written_app, (releases_written _ Hf), app_nil_r.
  destruct Hw as [(-> & _ & ->)|[-> ?]]; auto.
Qed.
