(* ===== verification/ReplyThms.v ===== *)
(** * ReplyThms: every answer of a batch is delivered or given back

    The loops of [clientgo] behind [doqueries]: insertions are filled in and
    marked ready, lookups become replies in the format of the client library, and
    the values of the replies are given back by [write_iovs]. *)
From stdpp Require Import base list gmap.
From Stdlib Require Import ZArith Lia.
From S2P Require Import Prelude Protocol Value Stream HashClient Gather Reply.

Local Open Scope Z_scope.

Section batch.
Context (batch_size : Z) (cd : client_data) (buf : list Z).

(** The contents of the values that lookups found; NULL reads as the empty value. *)
Context (data : Z -> list Z) (data_null : data 0 = []).

(** An answer that can be worked on: a value that a client filled in, or the memory of an
    insertion whose block has room for the value. *)
Definition granted (h : heap) (e : gathered) (v : Z) : Prop :=
  match gq_place e with
  | ReplyTo _ _ => v = 0 \/ exists el junk, h !! elem_of_ptr v = Some el /\
      value el = value_bytes (data v) ++ junk /\ Z.of_nat (length (data v)) < 2 ^ 32
  | ValueAt _ => v <> 0 /\ exists el, h !! elem_of_ptr v = Some el /\
      q_size (gq_query e) <= Z.of_nat (length (value el))
  end.

(** The elements that are filled in, and those that are only read. *)
Definition filled (xs : list (gathered * Z)) : list Z :=
  omap (fun x => match gq_place x.1 with ValueAt _ => Some (elem_of_ptr x.2) | _ => None end) xs.

Definition looked_up (xs : list (gathered * Z)) : list Z :=
  omap (fun x => match gq_place x.1 with
                 | ReplyTo _ _ => if x.2 =? 0 then None else Some (elem_of_ptr x.2)
                 | _ => None end) xs.

(** The answers that go to place [i]: those of lookups whose socket is still
    there. *)
Definition goes_to (i : nat) (x : gathered * Z) : bool :=
  match gq_place x.1 with
  | ReplyTo sid sock => (sid =? Z.of_nat i) && bool_decide (sockets cd !! i = Some sock)
  | ValueAt _ => false
  end.

Definition answers_to (i : nat) (xs : list (gathered * Z)) : list Z :=
  (filter (fun x => goes_to i x = true) xs).*2.

Definition reply_iov (v : Z) : iovec :=
  Iov (if v =? 0 then None else Some v) 0 (4 + length (data v)).

Lemma value_bytes_length d : length (value_bytes d) = (4 + length d)%nat.
Proof. unfold value_bytes. by rewrite length_app, le_length. Qed.

Lemma answers_to_cons i e v xs :
  answers_to i ((e, v) :: xs) = (if goes_to i (e, v) then [v] else []) ++ answers_to i xs.
Proof. unfold answers_to. rewrite filter_cons. by destruct (goes_to i (e, v)). Qed.

Lemma answers_to_app i xs ys : answers_to i (xs ++ ys) = answers_to i xs ++ answers_to i ys.
Proof. unfold answers_to. by rewrite filter_app, fmap_app. Qed.

(** ** One answer *)
Lemma handle_lookup_ok sid sock v o i l :
  sid = Z.of_nat i -> rp_iovs o !! i = Some l -> is_Some (sockets cd !! i) ->
  length (rp_iovs o) = length (sockets cd) ->
  Z.of_nat (length l) < batch_size ->
  (v = 0 \/ exists el junk, rp_heap o !! elem_of_ptr v = Some el /\
     value el = value_bytes (data v) ++ junk /\ Z.of_nat (length (data v)) < 2 ^ 32) ->
  handle_lookup batch_size cd sid sock v o =
    Ok (if bool_decide (sockets cd !! i = Some sock)
        then Replies (rp_heap o) (<[i := l ++ [reply_iov v]]> (rp_iovs o)) (rp_log o) else o).
Proof.
  intros -> Hl [s Hs] Hlen Hb Hv. unfold handle_lookup.
  assert (aget (sockets cd) (Z.of_nat i) = Ok s) as ->
    by (apply aget_Ok; rewrite Nat2Z.id; split; [lia | done]).
  cbn [mbind result_bind]. rewrite Hs. destruct (Z.eqb_spec s sock) as [->|Hne].
  2: { rewrite bool_decide_eq_false_2 by congruence. done. }
  rewrite bool_decide_eq_true_2 by done.
  assert ((if v =? 0 then mret (Iov None 0 4)
           else el ← deref (rp_heap o !! elem_of_ptr v); n ← value_size el;
                mret (Iov (Some v) 0 (Z.to_nat (4 + n)))) = Ok (reply_iov v)) as ->.
  { unfold reply_iov. destruct (Z.eqb_spec v 0) as [->|Hne]; [by rewrite data_null|].
    destruct Hv as [?|(el & junk & -> & Hval & Hd)]; [done|]. cbn [deref mbind result_bind].
    unfold value_size. rewrite Hval, length_app, value_bytes_length.
    rewrite (proj2 (Z.leb_le _ _)) by lia. cbn [check mbind result_bind mret result_ret].
    unfold value_bytes. rewrite <- app_assoc, take_app_length' by (by rewrite le_length).
    rewrite unle_le by (change (8 * Z.of_nat 4) with 32; lia). do 2 f_equal. lia. }
  cbn [mbind result_bind].
  assert (aget (rp_iovs o) (Z.of_nat i) = Ok l) as ->
    by (apply aget_Ok; rewrite Nat2Z.id; split; [lia | done]).
  cbn [mbind result_bind]. rewrite (proj2 (Z.ltb_lt _ _) Hb). cbn [check mbind result_bind].
  apply lookup_lt_Some in Hs. rewrite aset_in by lia. by rewrite Nat2Z.id.
Qed.

(** An insertion fills its value in when that fits the block it was given. *)
Lemma handle_insert_spec e off v o el :
  gq_place e = ValueAt off -> entry_ok buf e -> v <> 0 -> rp_heap o !! elem_of_ptr v = Some el ->
  handle_insert buf (gq_query e) off v o =
    if decide (q_size (gq_query e) <= Z.of_nat (length (value el))) then
      Ok (Replies (<[elem_of_ptr v := overwritten (value_bytes (entry_view buf e).2) el]> (rp_heap o))
            (rp_iovs o) (rp_log o ++ [MarkedReady v]))
    else Fault Undefined.
Proof.
  intros Hp Hok Hv Hel. unfold entry_ok in Hok. unfold entry_view. rewrite Hp in *. destruct Hok as (_ & Ho & Hs & Hin).
  change MAX_VALUE_SIZE with 1048576 in Hs. unfold handle_insert.
  rewrite (proj2 (Z.eqb_neq _ _) Hv). cbn [negb check mbind result_bind].
  rewrite Hel, u32_small by lia. cbn [deref mbind result_bind].
  rewrite (proj2 (Z.leb_le _ _)) by lia. cbn [check mbind result_bind].
  set (d := take (Z.to_nat (q_size (gq_query e) - 4)) (drop (Z.to_nat off) buf)).
  assert (length d = Z.to_nat (q_size (gq_query e) - 4)) as Hd
    by (unfold d; rewrite length_take, length_drop; lia).
  unfold fill_value. case_decide.
  - by rewrite write_bytes_fits by (rewrite value_bytes_length; lia).
  - by rewrite write_bytes_past by (rewrite value_bytes_length; lia).
Qed.

Lemma handle_insert_ok e off v o :
  gq_place e = ValueAt off -> entry_ok buf e -> granted (rp_heap o) e v ->
  exists el junk, rp_heap o !! elem_of_ptr v = Some el /\
    handle_insert buf (gq_query e) off v o =
      Ok (Replies (<[elem_of_ptr v := Elem (key el) (ref_count el) (size el)
                        (value_bytes (entry_view buf e).2 ++ junk)]> (rp_heap o))
            (rp_iovs o) (rp_log o ++ [MarkedReady v])).
Proof.
  intros Hp Hok Hg. unfold granted in Hg. rewrite Hp in Hg. destruct Hg as (Hv & el & Hel & Hcap).
  rewrite (handle_insert_spec e off v o el), decide_True by done. by eexists el, _.
Qed.

(** ** The whole batch *)
Record handled (xs : list (gathered * Z)) (o o' : replies) : Prop := {
  hd_log : rp_log o' = rp_log o ++
    omap (fun x => match gq_place x.1 with ValueAt _ => Some (MarkedReady x.2) | _ => None end) xs;
  hd_length : length (rp_iovs o') = length (rp_iovs o);
  hd_iovs : forall i l, rp_iovs o !! i = Some l ->
    rp_iovs o' !! i = Some (l ++ (reply_iov <$> answers_to i xs));
  hd_same : forall a, a ∉ filled xs -> rp_heap o' !! a = rp_heap o !! a;
  hd_filled : forall e v off, (e, v) ∈ xs -> gq_place e = ValueAt off ->
    exists el junk, rp_heap o !! elem_of_ptr v = Some el /\
      rp_heap o' !! elem_of_ptr v = Some (Elem (key el) (ref_count el) (size el)
        (value_bytes (entry_view buf e).2 ++ junk))
}.

(** Entries and answers that the loop can work on. *)
Record batch_ok (xs : list (gathered * Z)) (o : replies) : Prop := {
  bo_entries : Forall (fun x => entry_ok buf x.1 /\ granted (rp_heap o) x.1 x.2 /\
    forall sid sock, gq_place x.1 = ReplyTo sid sock -> 0 <= sid < Z.of_nat (length (sockets cd))) xs;
  bo_nodup : NoDup (filled xs);
  bo_apart : forall a, a ∈ looked_up xs -> a ∉ filled xs;
  bo_length : length (rp_iovs o) = length (sockets cd);
  bo_room : forall i l, rp_iovs o !! i = Some l -> Z.of_nat (length l + length xs) <= batch_size
}.

Lemma filled_app xs ys : filled (xs ++ ys) = filled xs ++ filled ys.
Proof. apply omap_app. Qed.

Lemma looked_up_app xs ys : looked_up (xs ++ ys) = looked_up xs ++ looked_up ys.
Proof. apply omap_app. Qed.

Lemma filled_member e v off xs : (e, v) ∈ xs -> gq_place e = ValueAt off -> elem_of_ptr v ∈ filled xs.
Proof.
  intros Hin Hp. unfold filled. apply list_elem_of_omap. exists (e, v). split; [done|]. simpl. by rewrite Hp.
Qed.

Lemma looked_up_member e v sid sock xs :
  (e, v) ∈ xs -> gq_place e = ReplyTo sid sock -> v <> 0 -> elem_of_ptr v ∈ looked_up xs.
Proof.
  intros Hin Hp Hv. unfold looked_up. apply list_elem_of_omap. exists (e, v). split; [done|]. simpl.
  by rewrite Hp, (proj2 (Z.eqb_neq _ _) Hv).
Qed.

Lemma handled_cons x xs o o1 o' :
  NoDup (filled (x :: xs)) -> handled [x] o o1 -> handled xs o1 o' -> handled (x :: xs) o o'.
Proof.
  change (x :: xs) with ([x] ++ xs). intros Hnd [L1 N1 I1 S1 F1] [L2 N2 I2 S2 F2].
  rewrite filled_app in Hnd. apply NoDup_app in Hnd as (_ & Hdis & _). split.
  - by rewrite L2, L1, omap_app, app_assoc.
  - congruence.
  - intros i l Hl. by rewrite (I2 _ _ (I1 _ _ Hl)), answers_to_app, fmap_app, app_assoc.
  - intros a Ha. rewrite filled_app in Ha. rewrite S2, S1; [done | set_solver..].
  - intros e v off Hin Hp. apply elem_of_app in Hin as [Hin|Hin].
    + destruct (F1 e v off Hin Hp) as (el & junk & Hel & Hel1). exists el, junk. split; [done|].
      rewrite S2; [done|]. apply Hdis. by eapply filled_member.
    + destruct (F2 e v off Hin Hp) as (el & junk & Hel & Hel1). exists el, junk. split; [|done].
      rewrite <- S1; [done|]. intros Ha. apply (Hdis _ Ha). by eapply filled_member.
Qed.

Lemma batch_ok_next x xs o o1 : batch_ok (x :: xs) o -> handled [x] o o1 -> batch_ok xs o1.
Proof.
  change (x :: xs) with ([x] ++ xs). intros [He Hnd Hap Hlen Hb] [_ N1 I1 S1 _].
  rewrite filled_app in Hnd. apply NoDup_app in Hnd as (_ & Hdis & Hnd).
  assert (forall a, a ∈ looked_up xs -> (a ∉ filled [x]) /\ (a ∉ filled xs)) as Hap'.
  { intros a Ha. specialize (Hap a). rewrite looked_up_app, filled_app in Hap. set_solver. }
  apply Forall_app in He as [_ He]. split; [|done| | congruence |].
  - rewrite Forall_forall in He |- *. intros [e v] Hin. destruct (He _ Hin) as (Hok & Hg & Hs).
    split; [done|]. split; [|done]. simpl in *. unfold granted in *.
    destruct (gq_place e) as [sid sock|off] eqn:Hp.
    + destruct (Z.eq_dec v 0) as [->|Hv]; [by left|].
      destruct Hg as [?|Hg]; [done|]. right. rewrite S1; [done|]. intros Ha.
      revert Ha. apply (Hap' (elem_of_ptr v)). by eapply looked_up_member.
    + destruct Hg as (Hv & Hg). split; [done|]. rewrite S1; [done|]. intros Ha.
      apply (Hdis _ Ha). by eapply filled_member.
  - intros a Ha. by apply Hap'.
  - intros i l Hl. destruct (lookup_lt_is_Some_2 (rp_iovs o) i) as [l0 Hl0];
      [apply lookup_lt_Some in Hl; congruence|].
    specialize (Hb i l0 Hl0). rewrite (I1 _ _ Hl0) in Hl. injection Hl as <-. destruct x as [e v].
    change [(e, v)] with ((e, v) :: []). rewrite answers_to_cons.
    rewrite length_app in Hb |- *. simpl in Hb. destruct (goes_to i (e, v)); simpl; lia.
Qed.

Lemma handled_lookup e v sid sock o o1 i l :
  gq_place e = ReplyTo sid sock -> sid = Z.of_nat i -> rp_iovs o !! i = Some l ->
  o1 = (if bool_decide (sockets cd !! i = Some sock)
        then Replies (rp_heap o) (<[i := l ++ [reply_iov v]]> (rp_iovs o)) (rp_log o) else o) ->
  handled [(e, v)] o o1.
Proof.
  intros Hp -> Hl ->.
  assert (forall j, goes_to j (e, v) = bool_decide (j = i) && bool_decide (sockets cd !! i = Some sock)) as Hgo.
  { intros j. unfold goes_to. simpl. rewrite Hp. destruct (decide (j = i)) as [->|Hne].
    - by rewrite Z.eqb_refl, (bool_decide_eq_true_2 (i = i)).
    - rewrite (bool_decide_eq_false_2 (j = i)) by done. by rewrite (proj2 (Z.eqb_neq _ _)) by lia. }
  split; simpl; rewrite ?Hp.
  - rewrite app_nil_r. by case_bool_decide.
  - case_bool_decide; simpl; by rewrite ?length_insert.
  - intros j lj Hj. change [(e, v)] with ((e, v) :: []). rewrite answers_to_cons, Hgo.
    destruct (decide (j = i)) as [->|Hne].
    + rewrite (bool_decide_eq_true_2 (i = i)) by done. rewrite Hl in Hj. injection Hj as <-.
      case_bool_decide; simpl; [|by rewrite app_nil_r]. apply list_lookup_insert_eq.
      by apply lookup_lt_Some in Hl.
    + rewrite (bool_decide_eq_false_2 (j = i)) by done. simpl. rewrite app_nil_r. case_bool_decide; [|done].
      simpl. by rewrite list_lookup_insert_ne.
  - intros a _. by case_bool_decide.
  - intros e0 v0 off Hin Hp0. apply list_elem_of_singleton in Hin as [= -> ->]. congruence.
Qed.

Lemma handled_insert e v off el junk o :
  gq_place e = ValueAt off -> rp_heap o !! elem_of_ptr v = Some el ->
  handled [(e, v)] o (Replies (<[elem_of_ptr v := Elem (key el) (ref_count el) (size el)
      (value_bytes (entry_view buf e).2 ++ junk)]> (rp_heap o)) (rp_iovs o) (rp_log o ++ [MarkedReady v])).
Proof.
  intros Hp Hel. split; simpl; rewrite ?Hp; [done..| | |].
  - intros i l Hl. change [(e, v)] with ((e, v) :: []). rewrite answers_to_cons. unfold goes_to. simpl.
    by rewrite Hp, app_nil_r.
  - intros a Ha. rewrite lookup_insert_ne; [done|]. intros <-. apply Ha. by left.
  - intros e0 v0 off0 Hin Hp0. apply list_elem_of_singleton in Hin as [= -> ->].
    exists el, junk. by rewrite lookup_insert_eq.
Qed.

Lemma handle_value_ok x xs o :
  batch_ok (x :: xs) o ->
  exists o1, handle_value batch_size cd buf x.1 x.2 o = Ok o1 /\ handled [x] o o1.
Proof.
  destruct x as [e v]. intros [He _ _ Hlen Hb]. apply Forall_cons in He as [(Hok & Hg & Hsid) _].
  simpl in *. unfold handle_value. unfold entry_ok in Hok. destruct (gq_place e) as [sid sock|off] eqn:Hp.
  - rewrite Hok. change (optype_code OPTYPE_LOOKUP =? optype_code OPTYPE_LOOKUP) with true. cbn iota.
    destruct (Hsid sid sock eq_refl) as [H0 Hlt].
    destruct (lookup_lt_is_Some_2 (rp_iovs o) (Z.to_nat sid)) as [l Hl]; [lia|].
    pose proof (Hb _ l Hl) as Hbl. unfold granted in Hg. rewrite Hp in Hg.
    eexists. split; [|eapply (handled_lookup e v sid sock o _ (Z.to_nat sid)); (done || lia)].
    apply handle_lookup_ok; (done || lia || idtac). apply lookup_lt_is_Some_2. lia.
  - destruct Hok as (Ho & Hrest). rewrite Ho.
    change (optype_code OPTYPE_INSERT =? optype_code OPTYPE_LOOKUP) with false.
    change (optype_code OPTYPE_INSERT =? optype_code OPTYPE_INSERT) with true. cbn iota.
    destruct (handle_insert_ok e off v o Hp) as (el & junk & Hel & Hins);
      [unfold entry_ok; by rewrite Hp | done |].
    eexists. split; [exact Hins | by apply (handled_insert e v off)].
Qed.

Lemma handle_values_ok xs o :
  batch_ok xs o -> exists o', handle_values batch_size cd buf xs.*1 xs.*2 o = Ok o' /\ handled xs o o'.
Proof.
  revert o. induction xs as [|x xs IH]; intros o Hbo.
  { exists o. split; [done|]. split; simpl; [by rewrite app_nil_r | done | | done | set_solver].
    intros i l Hl. by rewrite app_nil_r. }
  destruct (handle_value_ok x xs o Hbo) as (o1 & Ho1 & Hh1).
  destruct (IH o1 (batch_ok_next _ _ _ _ Hbo Hh1)) as (o' & Ho' & Hh').
  exists o'. rewrite !fmap_cons. cbn [handle_values]. rewrite Ho1. cbn [mbind result_bind].
  split; [done|]. by apply (handled_cons x xs o o1); [apply (bo_nodup _ _ Hbo)|..].
Qed.
(** ** Writing the replies *)
Definition readable (h : heap) (v : Z) : Prop :=
  v = 0 \/ exists el junk, h !! elem_of_ptr v = Some el /\ value el = value_bytes (data v) ++ junk.

Lemma iov_bytes_reply h v : readable h v -> iov_bytes h (reply_iov v) = Ok (value_bytes (data v)).
Proof.
  intros Hv. unfold iov_bytes, reply_iov. cbn [iov_value iov_done iov_len]. rewrite <- value_bytes_length.
  destruct (Z.eqb_spec v 0) as [->|Hne].
  - rewrite data_null. reflexivity.
  - destruct Hv as [?|(el & junk & -> & Hval)]; [done|]. cbn [deref mbind result_bind mret result_ret].
    rewrite Hval. by rewrite drop_0, take_app_length, Nat.eqb_refl.
Qed.

Lemma iovs_bytes_replies h vs :
  (forall v, v ∈ vs -> readable h v) ->
  iovs_bytes h (reply_iov <$> vs) = Ok (concat ((fun v => value_bytes (data v)) <$> vs)).
Proof.
  induction vs as [|v vs IH]; intros Hv; [done|]. rewrite !fmap_cons. cbn [iovs_bytes concat].
  rewrite iov_bytes_reply by (apply Hv; by left). cbn [mbind result_bind].
  rewrite IH by (intros; apply Hv; by right). done.
Qed.

Lemma reply_values (vs : list Z) : omap iov_value (reply_iov <$> vs) = filter (fun v => v <> 0) vs.
Proof.
  induction vs as [|v vs IH]; [done|]. rewrite fmap_cons, filter_cons, <- IH.
  change (omap iov_value (reply_iov v :: (reply_iov <$> vs))) with
    (match iov_value (reply_iov v) with
     | Some y => y :: omap iov_value (reply_iov <$> vs)
     | None => omap iov_value (reply_iov <$> vs) end).
  unfold reply_iov at 1. cbn [iov_value]. destruct (Z.eqb_spec v 0); case_decide; done.
Qed.

(** What a socket got: all replies, or a prefix of their bytes when it broke. *)
Definition delivered (ret : Z) (evs : list effect) (vs : list Z) : Prop :=
  let bs := concat ((fun v => value_bytes (data v)) <$> vs) in
  reads_held (filter (fun v => v <> 0) vs) evs /\
  (ret = 0 /\ written evs = bs \/ ret = 2 /\ written evs `prefix_of` bs).

Definition prepared (vss : list (list Z)) : list (list iovec) :=
  (fun vs : list Z => reply_iov <$> vs) <$> vss.

(** The values that a round of writing gave back. *)
Definition given_back (ws : list (nat * Z * list effect)) : list Z :=
  concat ((fun w : nat * Z * list effect => released w.2) <$> ws).

Lemma write_replies_ok h rs k (vss : list (list Z)) :
  (forall vs v, vs ∈ vss -> v ∈ vs -> readable h v) -> (forall k, Refused ∈ rs k) ->
  exists ws : list (nat * Z * list effect), write_replies h rs k (prepared vss) = Ok ws /\
    given_back ws = filter (fun v => v <> 0) (concat vss) /\
    forall j vs, vss !! j = Some vs -> vs <> [] ->
      exists ret evs, ((k + j)%nat, ret, evs) ∈ ws /\ delivered ret evs vs.
Proof.
  intros Hv Hrs. revert k. induction vss as [|vs vss IH]; intros k; [by exists []|].
  destruct (IH ltac:(intros vs' v Hin; apply Hv; by right) (S k)) as (ws & Hws & Hrel & Hdel).
  unfold prepared. rewrite fmap_cons. cbn [write_replies concat].
  fold (prepared vss). rewrite Hws, filter_app.
  destruct vs as [|v vs].
  - exists ws. split; [done|]. split; [done|]. intros [|j] vs Hj Hne; simpl in Hj; [by simplify_eq|].
    destruct (Hdel j vs Hj Hne) as (ret & evs & Hin & Hd). exists ret, evs.
    by rewrite Nat.add_succ_r.
  - pose proof (iovs_bytes_replies h (v :: vs)) as Hbs. rewrite fmap_cons in Hbs at 1.
    specialize (Hbs ltac:(intros; apply (Hv (v :: vs)); [by left | done])).
    destruct (write_iovs_once h (rs k) _ _ _ Hbs (Hrs k)) as (ret & evs & rs' & Hw & Hr & Hh & Hcase).
    rewrite fmap_cons, Hw. cbn [mbind result_bind].
    change (reply_iov v :: (reply_iov <$> vs)) with (reply_iov <$> (v :: vs)) in Hr, Hh.
    rewrite reply_values in Hr, Hh. eexists. split; [reflexivity|]. split.
    + unfold given_back in *. cbn [app]. rewrite fmap_cons. cbn [concat snd]. by rewrite Hrel, Hr.
    + intros [|j] vs0 Hj Hne; simpl in Hj.
      * injection Hj as <-. exists ret, evs. rewrite Nat.add_0_r. split; [by left | by split].
      * destruct (Hdel j vs0 Hj Hne) as (ret0 & evs0 & Hin & Hd). exists ret0, evs0.
        rewrite Nat.add_succ_r. split; [by right | done].
Qed.

(** The batch as [clientgo] starts on it. *)
Definition fresh_replies (h : heap) : replies := Replies h (replicate (Z.to_nat MAX_SOCKETS) []) [].

(** All lookup answers that go to a socket that is still there. *)
Definition deliverable (xs : list (gathered * Z)) : list Z :=
  concat ((fun i => answers_to i xs) <$> seq 0 (Z.to_nat MAX_SOCKETS)).

(** C24: every answer is used once. The loops behind [doqueries] run without a
    fault on the answers of a batch, when the block of each insertion has room for its value
    ([granted]). Each insertion's memory holds the size and the
    bytes that its client sent and is marked ready, once, in order; no other memory
    changes. Each socket that is still connected gets the answers to its lookups, in
    order, in the format that [readvalue] reads, all of them or, when it breaks, a
    prefix of the bytes. And the values given back are exactly the answers to
    lookups whose socket is still there, once each, read from only before: the
    answer to a lookup whose connection was closed within the batch is never
    given back. *)
Theorem batch_answered xs h rs :
  length (sockets cd) = Z.to_nat MAX_SOCKETS -> batch_ok xs (fresh_replies h) ->
  (forall k, Refused ∈ rs k) ->
  exists o (ws : list (nat * Z * list effect)),
    handle_values batch_size cd buf xs.*1 xs.*2 (fresh_replies h) = Ok o /\
    write_replies (rp_heap o) rs 0 (rp_iovs o) = Ok ws /\
    made_ready (rp_log o) =
      omap (fun x => match gq_place x.1 with ValueAt _ => Some x.2 | _ => None end) xs /\
    (forall e v off, (e, v) ∈ xs -> gq_place e = ValueAt off ->
       exists el junk, rp_heap o !! elem_of_ptr v = Some el /\
         value el = value_bytes (entry_view buf e).2 ++ junk) /\
    (forall a, a ∉ filled xs -> rp_heap o !! a = h !! a) /\
    (forall i, (i < Z.to_nat MAX_SOCKETS)%nat -> answers_to i xs <> [] ->
       exists ret evs, (i, ret, evs) ∈ ws /\ delivered ret evs (answers_to i xs)) /\
    released (rp_log o) = [] /\
    given_back ws = filter (fun v => v <> 0) (deliverable xs).
Proof.
  intros Hcd Hbo Hrs. destruct (handle_values_ok xs _ Hbo) as (o & Ho & [Hlog Hlen Hiovs Hsame Hfill]).
  simpl in Hlog.
  assert (rp_iovs o = prepared ((fun i => answers_to i xs) <$> seq 0 (Z.to_nat MAX_SOCKETS))) as Heq.
  { apply list_eq. intros i. unfold prepared. rewrite !list_lookup_fmap.
    destruct (decide (i < Z.to_nat MAX_SOCKETS)%nat) as [Hi|Hi].
    - rewrite lookup_seq_lt by done. rewrite (Hiovs i []); [done|]. by apply lookup_replicate_2.
    - rewrite !lookup_ge_None_2; [done | rewrite length_seq; lia |].
      rewrite Hlen. unfold fresh_replies. cbn [rp_iovs]. rewrite length_replicate. lia. }
  destruct (write_replies_ok (rp_heap o) rs 0
              ((fun i => answers_to i xs) <$> seq 0 (Z.to_nat MAX_SOCKETS))) as (ws & Hws & Hrel & Hdel);
    [|done|].
  { intros vs v Hvs Hv. apply list_elem_of_fmap in Hvs as (i & -> & _).
    apply list_elem_of_fmap in Hv as ([e v0] & -> & Hin). apply list_elem_of_filter in Hin as [Hgo Hin].
    pose proof (bo_entries _ _ Hbo) as Hent. rewrite Forall_forall in Hent.
    destruct (Hent _ Hin) as (_ & Hg & _). unfold goes_to in Hgo. simpl in *. unfold granted in Hg.
    destruct (gq_place e) as [sid sock|] eqn:Hp; [|done]. unfold readable.
    destruct (Z.eq_dec v0 0) as [->|Hv0]; [by left|].
    destruct Hg as [?|(el & junk & Hel & Hval & _)]; [by left|]. right. exists el, junk.
    split; [|done]. rewrite Hsame; [done|]. apply (bo_apart _ _ Hbo).
    by apply (looked_up_member e v0 sid sock). }
  exists o, ws. split; [exact Ho|]. split; [by rewrite Heq|].
  assert (forall l : list (gathered * Z), made_ready (omap (fun x => match gq_place x.1 with
            ValueAt _ => Some (MarkedReady x.2) | _ => None end) l) =
          omap (fun x => match gq_place x.1 with ValueAt _ => Some x.2 | _ => None end) l /\
          released (omap (fun x => match gq_place x.1 with
            ValueAt _ => Some (MarkedReady x.2) | _ => None end) l) = []) as Hmr.
  { intros l. induction l as [|[e v] l [IH1 IH2]]; [done|]. simpl. destruct (gq_place e); [done|].
    simpl. split; [f_equal; exact IH1 | exact IH2]. }
  rewrite Hlog. split; [apply Hmr|]. split; [|split; [exact Hsame|]].
  { intros e v off Hin Hp. destruct (Hfill e v off Hin Hp) as (el & junk & _ & Hel').
    eexists _, junk. split; [exact Hel' | done]. }
  split; [|split; [apply Hmr | exact Hrel]].
  intros i Hi Hne. apply (Hdel i); [|done]. by rewrite list_lookup_fmap, lookup_seq_lt.
Qed.
End batch.

(** ** Instances *)
Definition demo_entries : list (gathered * Z) :=
  [(Gathered (HashQuery 1 7 7) (ValueAt 0), 4160); (Gathered (HashQuery 0 0 7) (ReplyTo 5 9), 8256);
   (Gathered (HashQuery 0 0 3) (ReplyTo 5 9), 0)].

Definition demo_heap : heap :=
  <[4096 := Elem 7 1 128 (replicate 64 0)]> (<[8192 := Elem 7 2 128 (value_bytes [8; 9])]> ∅).

Definition demo_contents (v : Z) : list Z := if v =? 8256 then [8; 9] else [].

Definition demo_sockets (s : Z) : client_data :=
  ClientData 1 (<[5%nat := s]> (replicate 128 (-1))) (replicate 128 (Stream [] [])).

Definition demo_results (k : nat) : list accept := [Took 3; Later; Took 100; Refused].

Lemma demo_batch_ok s :
  batch_ok 10 (demo_sockets s) [1; 2; 3] demo_contents demo_entries (fresh_replies demo_heap).
Proof.
  split.
  - constructor; [|constructor; [|constructor; [|constructor]]]; (split; [|split]).
    + split; [reflexivity|]. split; [discriminate|].
      split; [split; vm_compute; reflexivity || discriminate | vm_compute; discriminate].
    + split; [discriminate|]. eexists. split; [vm_compute; reflexivity | vm_compute; discriminate].
    + intros sid sock Hp. discriminate Hp.
    + reflexivity.
    + right. eexists _, []. split; [vm_compute; reflexivity|]. split; vm_compute; reflexivity.
    + intros sid sock [= <- _]. split; vm_compute; reflexivity || discriminate.
    + reflexivity.
    + left. reflexivity.
    + intros sid sock [= <- _]. split; vm_compute; reflexivity || discriminate.
  - vm_compute. repeat constructor. intros H. inversion H.
  - intros a Ha Hb. vm_compute in Ha, Hb. apply list_elem_of_singleton in Ha as ->.
    apply list_elem_of_singleton in Hb. discriminate Hb.
  - reflexivity.
  - intros i l Hl. unfold fresh_replies in Hl. cbn [rp_iovs] in Hl.
    apply lookup_replicate in Hl as [-> _]. vm_compute. discriminate.
Qed.

Lemma demo_results_ok k : Refused ∈ demo_results k.
Proof. unfold demo_results. set_solver. Qed.

Lemma write_iovs_once_witness :
  exists ret evs rs', write_iovs demo_heap (demo_results 0) [Iov None 0 4; Iov (Some 8256) 0 6] = Ok (ret, evs, rs') /\
    released evs = [8256] /\ written evs = [0; 0; 0; 0; 2; 0; 0; 0; 8; 9].
Proof.
  destruct (write_iovs_once demo_heap (demo_results 0) (Iov None 0 4) [Iov (Some 8256) 0 6]
    [0; 0; 0; 0; 2; 0; 0; 0; 8; 9] ltac:(vm_compute; reflexivity) (demo_results_ok 0))
    as (ret & evs & rs' & Hw & Hr & _ & [[_ Hb]|[Hret _]]).
  - exists ret, evs, rs'. split; [exact Hw|]. split; [exact Hr | exact Hb].
  - exfalso. subst ret. vm_compute in Hw. discriminate Hw.
Defined.

Lemma batch_answered_witness :
  exists o (ws : list (nat * Z * list effect)),
    handle_values 10 (demo_sockets 9) [1; 2; 3] demo_entries.*1 demo_entries.*2 (fresh_replies demo_heap) = Ok o /\
    write_replies (rp_heap o) demo_results 0 (rp_iovs o) = Ok ws /\ given_back ws = [8256].
Proof.
  destruct (batch_answered 10 (demo_sockets 9) [1; 2; 3] demo_contents eq_refl demo_entries demo_heap
    demo_results eq_refl (demo_batch_ok 9) demo_results_ok)
    as (o & ws & Ho & Hw & _ & _ & _ & _ & _ & Hg).
  exists o, ws. split; [exact Ho|]. split; [exact Hw|]. rewrite Hg. vm_compute. reflexivity.
Defined.

(** The same batch when the connection was closed meanwhile: the value 8256 is
    held and not given back. *)
Example closed_connection_keeps_value :
  (o ← handle_values 10 (demo_sockets (-1)) [1; 2; 3] demo_entries.*1 demo_entries.*2 (fresh_replies demo_heap);
   ws ← write_replies (rp_heap o) demo_results 0 (rp_iovs o); mret (made_ready (rp_log o), given_back ws)) =
  Ok ([4160], []).
Proof. vm_compute. reflexivity. Qed.
