(* ===== verification/HashServer.v ===== *)
(** * HashServer: a client thread of the server and the table ([hashserver2.c])

    [doqueries] runs a batch of queries on the table in the design of the
    command line: with the calls of the client library (1), with the batch call
    (2) or with the locking calls (3). The first two are programs of a client of
    the table; the third is a thread of the locking table, which has one action
    for the start of a query and then those of its call. Here too is [tcpserver], which
    gives new connections to the client threads. *)
From stdpp Require Import base list gmap.
From Stdlib Require Import ZArith Lia.
From S2P Require Import Prelude Protocol Value Partition ALock HashTable Client Locking Stream Gather.

Local Open Scope Z_scope.

(** ** Designs 1 and 2 *)

(** [assert(r == 1)]. *)
Definition assert_one (r : Z) : prog unit :=
  Step (fun c => _ ← check (r =? 1) AssertFailed; mret (c, Done tt)).

Definition issue_query (q : hash_query) : prog Z :=
  if q_optype q =? optype_code OPTYPE_LOOKUP then smp_hash_lookup (q_key q)
  else smp_hash_insert (q_key q) (q_size q).

(** The first loop. *)
Fixpoint issue_all (queries : list hash_query) : prog unit :=
  match queries with
  | [] => Done tt
  | q :: queries =>
      andthen (issue_query q) (fun r => andthen (assert_one r) (fun _ => issue_all queries))
  end.

(** [smp_get_next(hash_table, cid, &values[k])] and its assertion. *)
Definition store_next (k : Z) (values : list Z) (o : option Z) : prog (list Z) :=
  Step (fun c =>
    match o with
    | Some v => vs ← aset values k v; mret (c, Done vs)
    | None => Fault AssertFailed
    end).

(** The second loop, over [todo] indices from [k] on. *)
Fixpoint take_all (todo : nat) (k : Z) (values : list Z) : prog (list Z) :=
  match todo with
  | O => Done values
  | S todo => andthen smp_get_next (fun o =>
              andthen (store_next k values o) (take_all todo (k + 1)))
  end.

Definition doqueries_calls (queries : list hash_query) (values : list Z) : prog (list Z) :=
  andthen (issue_all queries) (fun _ => take_all (length queries) 0 values).

(** ** Design 3 *)

(** [k], [values], and the call under way on the shared table. *)
Record lbatch := LBatch { lb_k : Z; lb_values : list Z }.

Definition query_call (nservers : Z) (q : hash_query) : lcall :=
  if q_optype q =? optype_code OPTYPE_LOOKUP then locking_hash_lookup nservers (q_key q)
  else locking_hash_insert nservers (q_key q) (q_size q).

Section locked.
Context `{Machine} (spins : nat) (nservers : Z) (t : nat).

(** The next action of the loop as thread [t]; [true] is its end. *)
Definition lbatch_act (queries : list hash_query) (st : lstate) (b : lbatch)
    : result (bool * lstate * lbatch) :=
  o ← deref (calls st !! t);
  match o with
  | None =>
      if Z.of_nat (length queries) <=? lb_k b then mret (true, st, b) else
      q ← aget queries (lb_k b);
      mret (false, LState (parts st) (lmem st) (<[t := Some (query_call nservers q)]> (calls st)), b)
  | Some _ =>
      '(st, v) ← locking_step spins t st;
      match v with
      | None => mret (false, st, b)
      | Some v => vs ← aset (lb_values b) (lb_k b) v; mret (false, st, LBatch (lb_k b + 1) vs)
      end
  end.
End locked.

(** ** The switch *)
Inductive batch_program :=
  | ByMessages (r : prog (list Z))
  | ByLocking (b : lbatch).

Definition doqueries (design : Z) (queries : list hash_query) (values : list Z) : result batch_program :=
  if design =? 1 then mret (ByMessages (doqueries_calls queries values))
  else if design =? 2 then mret (ByMessages (smp_hash_doall queries values))
  else if design =? 3 then mret (ByLocking (LBatch 0 values))
  else Fault AssertFailed.

(** ** Values of the table

    The message designs send a message to the server of the value; the locking
    design works on the reference count in place. *)
Inductive value_op :=
  | Send (r : prog unit)
  | InPlace (r : result heap).

Definition release_value (design : Z) (h : heap) (ptr : Z) : value_op :=
  if (design =? 1) || (design =? 2) then Send (mp_release_value h ptr)
  else InPlace (atomic_release_value h ptr).

Definition mark_ready (design : Z) (h : heap) (ptr : Z) : value_op :=
  if (design =? 1) || (design =? 2) then Send (mp_mark_ready h ptr)
  else InPlace (atomic_mark_ready h ptr).

(** ** New connections

    [tcpserver] runs beside the client threads, which close sockets meanwhile. It reads the
    count of one thread at a time, keeps the thread that it has chosen while it waits and while it
    looks for a place, and then opens the place. *)

(** Where [tcpserver] is in its loop. [sock] is what [accept] gave and [file] what [fdopen]
    will give, [None] for NULL. In [Comparing], [n] is the count of thread [i] that was read. *)
Inductive listener :=
  | Listening
  | Scanning (sock : Z) (file : option stream) (cid i : Z)
  | Comparing (sock : Z) (file : option stream) (cid i n : Z)
  | Waiting (sock : Z) (file : option stream) (cid : Z)
  | Searching (sock : Z) (file : option stream) (cid i : Z)
  | Counting.

(** [accept] gives a connection. *)
Definition connected (sock : Z) (file : option stream) : listener := Scanning sock file 0 1.

(** The next action of [tcpserver] on the data of the client threads and [active_clients]. A round of
    the loop that waits for the chosen thread leaves it where it is. *)
Definition tcpserver (cds : list client_data) (acs : Z) (l : listener) : result (list client_data * Z * listener) :=
  match l with
  | Listening => Fault Blocked
  | Scanning sock file cid i =>
      if i <? Z.of_nat (length cds) then cd ← aget cds i; mret (cds, acs, Comparing sock file cid i (nsockets cd))
      else mret (cds, acs, Waiting sock file cid)
  | Comparing sock file cid i n =>
      cd ← aget cds cid;
      mret (cds, acs, Scanning sock file (if n <? nsockets cd then i else cid) (i + 1))
  | Waiting sock file cid =>
      cd ← aget cds cid;
      mret (cds, acs, if MAX_SOCKETS <=? nsockets cd then Waiting sock file cid else Searching sock file cid 0)
  | Searching sock file cid i =>
      cd ← aget cds cid;
      '(o, cd) ← open_socket cd i sock file;
      cds ← aset cds cid cd;
      mret (cds, acs, match o with
                      | None => Searching sock file cid (Z.land (i + 1) (MAX_SOCKETS - 1))
                      | Some r => if r =? 0 then Listening else Counting
                      end)
  | Counting => mret (cds, i32 (acs + 1), Listening)
  end.

(** [tcpserver] makes [m] actions while the client threads do nothing. *)
Fixpoint tcpserver_alone (m : nat) (x : list client_data * Z * listener) : result (list client_data * Z * listener) :=
  match m with
  | O => mret x
  | S m => y ← tcpserver x.1.1 x.1.2 x.2; tcpserver_alone m y
  end.

(** The data of a client thread at the start. *)
Definition client_data_init (files : list stream) : client_data :=
  ClientData 0 (replicate (Z.to_nat MAX_SOCKETS) (-1)) files.
