(* ===== verification/HashServerThms.v ===== *)
(** * HashServerThms: batches of the server

    [doqueries] in the two message designs, run batch after batch by a client
    thread that releases and marks values in between: never stuck, always
    completed, and the answers are those of the queries, in order. In the locking
    design every action of the loop is a step of the locking table. New
    connections go to the client thread with the fewest, into a free place. *)
From stdpp Require Import base list gmap relations.
From Stdlib Require Import ZArith Lia.
From S2P Require Import Prelude Protocol MPBuffers Value Partition Server HashTable Estates Client Locking LockingThms.
From S2P Require Import Link LinkInv ClientInv SystemThms DoallThms Stream Gather HashServer.

Local Open Scope Z_scope.

Section messages.
Context (answers : request -> Z -> Prop) (Hans : forall r, answering r -> exists v, answers r v).

Lemma issue_query_ok q bk bufs :
  query_ok q ->
  safe answers pd_inv any_request (fun bk' bufs' n => length bufs' = length bufs /\
      (n = 0 /\ bk' = bk /\ Z.of_nat (length (queue bk)) = MAX_PENDING_SIZE \/
       n = 1 /\ queue bk' = queue bk ++ [query_request q]))
    bk bufs (issue_query q).
Proof.
  intros [Ho Hr]. eapply (safe_mono answers pd_inv any_request (fun bk' bufs' n => length bufs' = length bufs /\
    spent bk' = spent bk /\ (n = 0 /\ bk' = bk /\ Z.of_nat (length (queue bk)) = MAX_PENDING_SIZE \/
       n = 1 /\ queue bk' = queue bk ++ [query_request q]))); [|naive_solver].
  destruct Ho as [Ho|Ho]; unfold issue_query, query_request in *; rewrite Ho in *.
  - by apply (issue_ok answers any_request bk bufs (Lookup (q_key q))).
  - by apply (issue_ok answers any_request bk bufs (Insert (q_key q) (q_size q))).
Qed.

Lemma assert_one_ok bk bufs : safe answers pd_inv any_request (fun bk' _ _ => bk' = bk) bk bufs (assert_one 1).
Proof. intros c ls Hinv Hb. exists bk, ls. done. Qed.

(** The loop that sends: no query is refused. *)
Lemma issue_all_ok qs bk bufs :
  Forall query_ok qs -> Z.of_nat (length (queue bk) + length qs) <= MAX_PENDING_SIZE ->
  safe answers pd_inv any_request (fun bk' _ _ => queue bk' = queue bk ++ (query_request <$> qs))
    bk bufs (issue_all qs).
Proof.
  intros Hqs. revert bk bufs. induction Hqs as [|q qs Hq Hqs IH]; intros bk bufs Hfit.
  { unfold safe. simpl. by rewrite app_nil_r. }
  cbn [issue_all]. simpl length in Hfit.
  eapply (safe_bind answers pd_inv any_request); [by apply issue_query_ok|].
  intros bk1 bufs1 n (_ & [(-> & _ & Hfull)|[-> Hq1]]); [lia|].
  eapply (safe_bind answers pd_inv any_request); [apply assert_one_ok|].
  intros bk2 bufs2 _ ->. eapply (safe_mono answers pd_inv any_request); [apply IH|].
  - rewrite Hq1, length_app. simpl. lia.
  - intros bk3 bufs3 _ ->. by rewrite Hq1, <- app_assoc.
Qed.

(** The loop that takes: one answer for each outstanding query. *)
Lemma take_all_ok todo k values bk bufs :
  todo = length (queue bk) -> (k + todo <= length values)%nat ->
  safe answers pd_inv any_request (fun bk' _ vs => queue bk' = [] /\ length vs = length values /\
      take k vs = take k values /\ Forall2 answers (queue bk) (take todo (drop k vs)))
    bk bufs (take_all todo (Z.of_nat k) values).
Proof.
  revert k values bk bufs. induction todo as [|todo IH]; intros k values bk bufs Htodo Hk.
  { symmetry in Htodo. apply length_zero_iff_nil in Htodo. unfold safe. simpl. rewrite Htodo.
    split_and!; done. }
  cbn [take_all]. eapply (safe_bind answers pd_inv any_request); [apply get_next_ok|].
  intros bk1 bufs1 o (_ & Htook & Hnone). destruct o as [v|]; [|by rewrite Hnone in Htodo].
  destruct Htook as (r & Hq & Hr & _). rewrite Hq in Htodo. simpl in Htodo.
  eapply (safe_bind answers pd_inv any_request _ _ bk1 bufs1 (store_next (Z.of_nat k) values (Some v)) _).
  { intros c ls Hinv Hb. rewrite aset_in by lia. rewrite Nat2Z.id. cbn [mbind result_bind mret result_ret].
    exists bk1, ls. split; [exact Hinv|]. split; [done|]. unfold safe.
    instantiate (1 := fun bk' _ vs => bk' = bk1 /\ vs = <[k := v]> values). done. }
  intros bk2 bufs2 vs [-> ->]. replace (Z.of_nat k + 1) with (Z.of_nat (S k)) by lia.
  eapply (safe_mono answers pd_inv any_request); [apply (IH (S k)); [lia | rewrite length_insert; lia]|].
  intros bk3 bufs3 vs (He & Hl & Ht & Hf). rewrite length_insert in Hl.
  split; [done|]. split; [done|].
  assert (vs !! k = Some v) as Hvk.
  { rewrite <- (lookup_take_lt vs (S k)) by lia. rewrite Ht, lookup_take_lt by lia.
    apply list_lookup_insert_eq. lia. }
  split.
  - apply (f_equal (take k)) in Ht. rewrite !take_take, !Nat.min_l in Ht by lia.
    by rewrite Ht, take_insert_ge by lia.
  - rewrite Hq, (drop_S _ _ _ Hvk). simpl. by constructor.
Qed.

Lemma doqueries_calls_ok qs values sp bufs :
  Forall query_ok qs -> Z.of_nat (length qs) <= MAX_PENDING_SIZE -> (length qs <= length values)%nat ->
  safe answers pd_inv any_request (fun bk' _ vs => queue bk' = [] /\ length vs = length values /\
      Forall2 answers (query_request <$> qs) (take (length qs) vs))
    (Books [] [] sp) bufs (doqueries_calls qs values).
Proof.
  intros Hqs Hfit Hlen. unfold doqueries_calls.
  eapply (safe_bind answers pd_inv any_request); [by apply issue_all_ok|].
  intros bk1 bufs1 u Hq1. change (queue bk1 = query_request <$> qs) in Hq1.
  eapply (safe_mono answers pd_inv any_request); [apply (take_all_ok (length qs) 0)|].
  - by rewrite Hq1, length_fmap.
  - lia.
  - intros bk2 bufs2 vs (He & Hl & _ & Hf). by rewrite Hq1 in Hf.
Qed.

Lemma calls_run c qs values :
  idle answers c -> Forall query_ok qs -> Z.of_nat (length qs) <= MAX_PENDING_SIZE ->
  (length qs <= length values)%nat ->
  batch_run answers c (doqueries_calls qs values) qs (length values).
Proof.
  intros (sp & ls & Hinv) Hqs Hfit Hlen c1 r1 Hrun.
  pose proof (doqueries_calls_ok qs values sp (lk_buffered <$> ls) Hqs Hfit Hlen) as Hsafe.
  destruct (safe_steps answers pd_inv any_request _ _ _ _ _ Hrun Hinv Hsafe) as (bk1 & ls1 & Hinv1 & Hsafe1).
  split; [by eapply safe_not_stuck|]. split; [by eapply safe_completes|].
  intros vs ->. destruct Hsafe1 as (He & Hl & Hf). apply queue_nil in He. rewrite He in Hinv1.
  split; [done|]. split; [by exists (spent bk1), ls1 | done].
Qed.

(** ** Batch after batch *)
Definition batch_ok (qs : list hash_query) (values : list Z) : Prop :=
  Forall query_ok qs /\ Z.of_nat (length qs) <= MAX_PENDING_SIZE /\ (length qs <= length values)%nat.

(** The history of a client thread in a message design: batches, releases and
    marks of values it holds, and visits of the servers. *)
Inductive served (design : Z) : client -> client -> Prop :=
  | served_none c : served design c c
  | served_visit c c1 c2 : env_step answers c c1 -> served design c1 c2 -> served design c c2
  | served_batch qs values r vs c c1 c2 :
      batch_ok qs values -> doqueries design qs values = Ok (ByMessages r) ->
      rtc (call_step answers) (c, r) (c1, Done vs) -> served design c1 c2 -> served design c c2
  | served_give r h ptr c c1 c2 :
      addr_ok (elem_of_ptr ptr) -> is_Some (h !! elem_of_ptr ptr) ->
      release_value design h ptr = Send r \/ mark_ready design h ptr = Send r ->
      rtc (call_step answers) (c, r) (c1, Done tt) -> served design c1 c2 -> served design c c2.

Lemma batch_runs design qs values r c :
  batch_ok qs values -> doqueries design qs values = Ok (ByMessages r) -> idle answers c ->
  batch_run answers c r qs (length values).
Proof.
  intros (Hqs & Hfit & Hlen) Hd Hc. unfold doqueries in Hd.
  assert (Z.of_nat (length qs) < 2 ^ 31) by (change MAX_PENDING_SIZE with 65536 in Hfit; lia).
  destruct (design =? 1); [injection Hd as <-; by apply calls_run|].
  destruct (design =? 2); [injection Hd as <-; by apply doall_run|].
  by destruct (design =? 3).
Qed.

Lemma give_idle r h ptr force c c1 :
  addr_ok (elem_of_ptr ptr) -> is_Some (h !! elem_of_ptr ptr) -> r = mp_send_release_msg_ h ptr force ->
  rtc (call_step answers) (c, r) (c1, Done tt) -> idle answers c -> idle answers c1.
Proof.
  intros Ha [el Hel] -> Hrun (sp & ls & Hinv).
  pose proof (send_release_msg_ok answers pd_inv any_request (Books [] [] sp) (lk_buffered <$> ls) h ptr force el I Ha Hel) as Hsafe.
  destruct (safe_steps answers pd_inv any_request _ _ _ _ _ Hrun Hinv Hsafe) as (bk1 & ls1 & Hinv1 & [_ ->]).
  by exists sp, ls1.
Qed.

Lemma served_idle design c c' : served design c c' -> idle answers c -> idle answers c'.
Proof.
  induction 1 as [c|c c1 c2 Henv _ IH|qs values r vs c c1 c2 Hok Hd Hrun _ IH
                 |r h ptr c c1 c2 Ha Hel Hr Hrun _ IH]; intros Hc; [done|..]; apply IH.
  - destruct Hc as (sp & ls & Hinv). destruct (env_ok answers pd_inv c c1 _ ls Hinv Henv) as (ls1 & Hinv1 & _).
    by exists sp, ls1.
  - destruct (batch_runs design qs values r c Hok Hd Hc c1 (Done vs) Hrun) as (_ & _ & Hdone).
    by apply (Hdone vs eq_refl).
  - unfold release_value, mark_ready in Hr.
    destruct ((design =? 1) || (design =? 2)); [|by destruct Hr].
    destruct Hr as [[= <-]|[= <-]]; by eapply give_idle.
Qed.

(** C22: batches of the server. In the two message designs, after any earlier
    batches and releases of a client thread, [doqueries] is never stuck under any
    interleaving with the servers, meets its assertions, can be completed from
    every point, and stores in the first places of [values] an answer to each
    query of the batch, in order. *)
Theorem doqueries_answers design n c qs values r c1 r1 :
  0 < n < 2 ^ 31 -> served design (new_client n) c -> batch_ok qs values ->
  doqueries design qs values = Ok (ByMessages r) -> rtc (call_step answers) (c, r) (c1, r1) ->
  not_stuck answers (c1, r1) /\ (exists c2 vs, rtc (call_step answers) (c1, r1) (c2, Done vs)) /\
  forall vs, r1 = Done vs -> length vs = length values /\
    Forall2 answers (query_request <$> qs) (take (length qs) vs).
Proof.
  intros Hn Hs Hok Hd Hrun.
  assert (idle answers (new_client n)) as Hnew by (eexists _, _; by apply new_client_inv).
  destruct (batch_runs design qs values r c Hok Hd (served_idle _ _ _ Hs Hnew) c1 r1 Hrun)
    as (Hns & Hc & Hdone).
  split; [done|]. split; [done|]. intros vs Hr. by destruct (Hdone vs Hr) as (? & _ & ?).
Qed.
End messages.

(** ** The locking design *)

(** The arguments of a query in this design: any key, and a size that is a
    non-negative [int]. *)
Definition locked_query_ok (q : hash_query) : Prop := 0 <= q_size q < 2 ^ 31.

(** What one action of the loop may do: nothing at its end, otherwise a step of
    the locking table; it may fail only as a call of its batch may. *)
Lemma lbatch_act_step `{M : Machine} h0 n ms ev spins k st owns t qs b :
  0 <= k < 2 ^ 62 -> ms < 2 ^ 63 -> linv h0 n ms ev k st owns -> (t < length (calls st))%nat ->
  Forall locked_query_ok qs -> 0 <= lb_k b -> Z.of_nat (length qs) <= Z.of_nat (length (lb_values b)) ->
  lb_k b < Z.of_nat (length qs) \/ calls st !! t = Some None ->
  match lbatch_act spins n t qs st b with
  | Ok (stop, st', b') =>
      stop = true /\ st' = st /\ b' = b /\ Z.of_nat (length qs) <= lb_k b \/
      stop = false /\ (exists owns', lstep spins n (st, owns) (st', owns')) /\ 0 <= lb_k b' /\
      length (lb_values b') = length (lb_values b) /\
      (lb_k b' < Z.of_nat (length qs) \/ calls st' !! t = Some None)
  | Fault f => exists c, calls st !! t = Some (Some c) /\ may_fail ms ev (base.size (hp (lmem st))) (lc_op c) f
  end.
Proof.
  intros Hk Hms Hinv Ht Hqs Hb0 Hvs Hb. destruct (lookup_lt_is_Some_2 _ _ Ht) as [o Ho].
  unfold lbatch_act. rewrite Ho. cbn [deref mbind result_bind]. destruct o as [c|].
  - destruct Hb as [Hb|Hb]; [|congruence].
    destruct (lv_calls _ _ _ _ _ _ _ Hinv t c Ho) as (Hs & _).
    pose proof (lv_n _ _ _ _ _ _ _ Hinv) as Hln.
    destruct (lookup_lt_is_Some_2 (parts st) (Z.to_nat (lc_server c))) as [p Hp]; [lia|].
    destruct (es_books (lv_estates _ _ _ _ _ _ _ Hinv) _ p Hp) as [own Hown].
    pose proof (action_ok h0 n ms ev spins k st owns Hk Hms Hinv t c p own Ho Hp Hown) as Hact.
    destruct (locking_step spins t st) as [[st' v]|f] eqn:Hstep; pose proof Hstep as Hstep';
      unfold locking_step in Hstep; rewrite Ho in Hstep; cbn [deref mbind result_bind] in Hstep;
      rewrite (proj2 (aget_Ok _ _ p)) in Hstep by (split; [lia | done]);
      cbn [mbind result_bind] in Hstep;
      destruct (locking_act spins (lc_op c) (lc_phase c) (lmem st) p) as [[[m' p'] r]|f'] eqn:Ha;
      cbn [mbind result_bind] in Hstep; try done;
      try (rewrite aset_in in Hstep by (apply lookup_lt_Some in Hp; lia); done).
    + destruct Hact as (own' & Hown' & _).
      assert (exists owns', lstep spins n (st, owns) (st', owns')) as Hl
        by (eexists; by eapply lstep_act).
      rewrite aset_in in Hstep by (apply lookup_lt_Some in Hp; lia). cbn [mbind result_bind] in Hstep.
      injection Hstep as <- <-. cbn [mbind result_bind]. destruct r as [ph|w]; cbn [Locking.returned].
      * right. cbn [mret result_ret]. split_and!; try done. by left.
      * rewrite aset_in by lia. cbn [mbind result_bind mret result_ret]. right.
        simpl. split_and!; try done; [lia | by rewrite length_insert | right].
        by apply list_lookup_insert_eq.
    + injection Hstep as <-. exists c. done.
  - destruct (Z.leb_spec (Z.of_nat (length qs)) (lb_k b)) as [Hge|Hlt].
    { left. done. }
    destruct (lookup_lt_is_Some_2 qs (Z.to_nat (lb_k b))) as [q Hq]; [lia|].
    rewrite (proj2 (aget_Ok _ _ q)) by (split; [lia | done]). cbn [mbind result_bind mret result_ret].
    right. split; [done|]. split; [|auto]. exists owns.
    assert (locked_query_ok q) as Hqok by (by eapply Forall_lookup_1).
    unfold query_call. destruct (q_optype q =? optype_code OPTYPE_LOOKUP).
    + by apply (lstep_begin spins n st owns t (LLookup (q_key q))).
    + by apply (lstep_begin spins n st owns t (LInsert (q_key q) (q_size q))).
Qed.

(** ** Connections *)

(** The places in use. *)
Definition used (ss : list Z) : nat := length (filter (fun s => s <> -1) ss).

(** A [client_data] in order: [MAX_SOCKETS] places and their number in use. *)
Record cd_ok (cd : client_data) : Prop := {
  cd_sockets : length (sockets cd) = Z.to_nat MAX_SOCKETS;
  cd_fins : length (fins cd) = Z.to_nat MAX_SOCKETS;
  cd_count : nsockets cd = Z.of_nat (used (sockets cd))
}.

Lemma used_bound ss : (used ss <= length ss)%nat.
Proof. apply length_filter. Qed.

Lemma used_insert ss j s s' :
  ss !! j = Some s ->
  (used (<[j := s']> ss) + (if decide (s <> (-1)%Z) then 1 else 0)
     = used ss + (if decide (s' <> (-1)%Z) then 1 else 0))%nat.
Proof.
  unfold used. revert j. induction ss as [|x ss IH]; intros [|j] Hj; simplify_eq/=.
  - rewrite !filter_cons. repeat case_decide; simpl; lia.
  - rewrite !filter_cons. specialize (IH j Hj). destruct (decide (x <> (-1)%Z)); simpl; lia.
Qed.

Lemma used_taken ss j s : ss !! j = Some (-1) -> s <> -1 -> used (<[j := s]> ss) = S (used ss).
Proof.
  intros Hj Hs. pose proof (used_insert ss j (-1) s Hj) as Hu.
  destruct (decide (-1 <> -1)); [done|]. destruct (decide (s <> -1)); [lia | done].
Qed.

Lemma used_freed ss j s : ss !! j = Some s -> s <> -1 -> S (used (<[j := -1]> ss)) = used ss.
Proof.
  intros Hj Hs. pose proof (used_insert ss j s (-1) Hj) as Hu.
  destruct (decide (-1 <> -1)); [done|]. destruct (decide (s <> -1)); [lia | done].
Qed.

(** A thread that is not full has a free place. *)
Lemma free_place cd : cd_ok cd -> nsockets cd < MAX_SOCKETS -> exists j, (j < 128)%nat /\ sockets cd !! j = Some (-1).
Proof.
  intros [Hl _ Hc] Hlt. change (Z.to_nat MAX_SOCKETS) with 128%nat in Hl. change MAX_SOCKETS with 128 in Hlt.
  destruct (decide (Exists (fun s => s = -1) (sockets cd))) as [He|He].
  - apply Exists_exists in He as (s & Hin & ->). apply list_elem_of_lookup in Hin as [j Hj]. exists j.
    split; [|done]. apply lookup_lt_Some in Hj. lia.
  - exfalso. apply not_Exists_Forall in He; [|solve_decision]. unfold used in Hc.
    assert (filter (fun s => s <> -1) (sockets cd) = sockets cd) as Hf.
    { clear -He. induction He as [|s ss Hs _ IH]; [done|]. rewrite filter_cons, IH. by rewrite decide_True. }
    rewrite Hf, Hl in Hc. lia.
Qed.

Lemma count_range cd : cd_ok cd -> 0 <= nsockets cd <= MAX_SOCKETS.
Proof. intros [Hl _ Hc]. pose proof (used_bound (sockets cd)). change MAX_SOCKETS with 128 in *. simpl in Hl. lia. Qed.

(** A place taken. *)
Definition opened (i : nat) (sock : Z) (f : stream) (cd : client_data) : client_data :=
  ClientData (nsockets cd + 1) (<[i := sock]> (sockets cd)) (<[i := f]> (fins cd)).

Lemma opened_ok i sock f cd : cd_ok cd -> sockets cd !! i = Some (-1) -> sock <> -1 -> cd_ok (opened i sock f cd).
Proof.
  intros [Hl Hf Hc] Hi Hsock. pose proof (used_taken (sockets cd) i sock Hi Hsock) as Hu.
  split; simpl; rewrite ?length_insert; try done. lia.
Qed.

Lemma open_socket_ok cd i sock file s :
  cd_ok cd -> sockets cd !! i = Some s ->
  open_socket cd (Z.of_nat i) sock file =
    Ok (if s =? -1 then match file with Some f => (Some 1, opened i sock f cd) | None => (Some 0, cd) end else (None, cd)).
Proof.
  intros Hcd Hi. pose proof (lookup_lt_Some _ _ _ Hi) as Hlt. pose proof (count_range cd Hcd) as Hr.
  destruct Hcd as [Hl Hf Hc]. change MAX_SOCKETS with 128 in *. unfold open_socket.
  rewrite (proj2 (aget_Ok _ _ s)) by (rewrite Nat2Z.id; split; [lia | done]). cbn [mbind result_bind].
  destruct (s =? -1); [|done]. destruct file as [f|]; [|done].
  rewrite aset_in by lia. cbn [mbind result_bind]. rewrite aset_in by lia. cbn [mbind result_bind mret result_ret].
  rewrite i32_small by lia. by rewrite Nat2Z.id.
Qed.

Lemma close_socket_ok cd sid s :
  cd_ok cd -> aget (sockets cd) sid = Ok s -> s <> -1 ->
  exists cd', close_socket cd sid = Ok cd' /\ nsockets cd' = nsockets cd - 1 /\ cd_ok cd'.
Proof.
  intros Hcd Hs Hne. apply aget_Ok in Hs as [H0 Hs]. pose proof (lookup_lt_Some _ _ _ Hs) as Hlt.
  unfold close_socket. rewrite aset_in by lia. cbn [mbind result_bind]. eexists. split; [done|]. simpl.
  pose proof (used_freed (sockets cd) (Z.to_nat sid) s Hs Hne) as Hu. destruct Hcd as [Hl Hf Hc].
  pose proof (used_bound (sockets cd)). change (Z.to_nat MAX_SOCKETS) with 128%nat in *.
  rewrite i32_small by lia. split; [done|].
  split; simpl; rewrite ?length_insert; try done. lia.
Qed.

(** ** The listener *)

(** [tcpserver] is between threads and places that there are; the thread it looks for a place of is not
    full. *)
Definition listener_ok (cds : list client_data) (l : listener) : Prop :=
  match l with
  | Listening | Counting => True
  | Scanning sock _ cid i => sock <> -1 /\ 0 <= cid < i /\ i <= Z.of_nat (length cds)
  | Comparing sock _ cid i _ => sock <> -1 /\ 0 <= cid < i /\ i < Z.of_nat (length cds)
  | Waiting sock _ cid => sock <> -1 /\ 0 <= cid < Z.of_nat (length cds)
  | Searching sock _ cid i => sock <> -1 /\ 0 <= i < MAX_SOCKETS /\ 0 <= cid /\
      exists cd, cds !! Z.to_nat cid = Some cd /\ nsockets cd < MAX_SOCKETS
  end.

(** The connection gets a place that was free at a thread that was not full, and nothing else
    changes. *)
Definition opens (l : listener) (cds cds' : list client_data) : Prop :=
  exists sock f cid i cd, l = Searching sock (Some f) cid i /\ cds !! Z.to_nat cid = Some cd /\
    nsockets cd < MAX_SOCKETS /\ sockets cd !! Z.to_nat i = Some (-1) /\
    cds' = <[Z.to_nat cid := opened (Z.to_nat i) sock f cd]> cds.

(** The client threads only close sockets meanwhile. *)
Lemma listener_ok_less cds cds' l :
  Forall2 (fun cd cd' => nsockets cd' <= nsockets cd) cds cds' -> listener_ok cds l -> listener_ok cds' l.
Proof.
  intros Hle. pose proof (Forall2_length _ _ _ Hle) as Hlen. destruct l as [|sock f cid i|sock f cid i n|sock f cid|sock f cid i|];
    simpl; rewrite ?Hlen; try done.
  intros (H1 & H2 & H3 & cd & Hcd & Hn). do 3 (split; [done|]).
  destruct (Forall2_lookup_l _ _ _ _ _ Hle Hcd) as (cd' & Hcd' & Hc). exists cd'. split; [done | lia].
Qed.

Lemma place_after i : 0 <= i < MAX_SOCKETS -> Z.land (i + 1) (MAX_SOCKETS - 1) = (i + 1) mod 128.
Proof. intros Hi. change (MAX_SOCKETS - 1) with (Z.ones 7). by rewrite Z.land_ones by lia. Qed.

Lemma thread_at (cds : list client_data) i :
  0 <= i < Z.of_nat (length cds) -> exists cd, cds !! Z.to_nat i = Some cd /\ aget cds i = Ok cd.
Proof.
  intros Hi. destruct (lookup_lt_is_Some_2 cds (Z.to_nat i)) as [cd Hcd]; [lia|]. exists cd. split; [done|].
  apply aget_Ok. split; [lia | done].
Qed.

(** A round of the search. *)
Lemma search_step cds acs sock file cid i cd s :
  cd_ok cd -> cds !! Z.to_nat cid = Some cd -> 0 <= cid -> 0 <= i -> sockets cd !! Z.to_nat i = Some s ->
  tcpserver cds acs (Searching sock file cid i) = Ok (
    if s =? -1 then
      match file with
      | Some f => (<[Z.to_nat cid := opened (Z.to_nat i) sock f cd]> cds, acs, Counting)
      | None => (cds, acs, Listening)
      end
    else (cds, acs, Searching sock file cid (Z.land (i + 1) (MAX_SOCKETS - 1)))).
Proof.
  intros Hcd Hk Hcid Hi Hs. cbn [tcpserver]. rewrite (proj2 (aget_Ok _ _ cd)) by done. cbn [mbind result_bind].
  pose proof (open_socket_ok cd (Z.to_nat i) sock file s Hcd Hs) as Ho. rewrite Z2Nat.id in Ho by done. rewrite Ho.
  pose proof (lookup_lt_Some _ _ _ Hk) as Hlt. cbn [mbind result_bind].
  destruct (s =? -1); [destruct file as [f|]|]; rewrite aset_in by lia; cbn [mbind result_bind mret result_ret];
    [done | by rewrite list_insert_id | by rewrite list_insert_id].
Qed.

(** Every action goes through; it takes a place as [opens] says, or changes no thread. *)
Lemma tcpserver_ok cds acs l :
  Forall cd_ok cds -> listener_ok cds l ->
  match tcpserver cds acs l with
  | Ok (cds', acs', l') => Forall cd_ok cds' /\ listener_ok cds' l' /\ length cds' = length cds /\
      ((cds' = cds /\ l' <> Counting) \/ (opens l cds cds' /\ l' = Counting)) /\
      acs' = match l with Counting => i32 (acs + 1) | _ => acs end
  | Fault e => e = Blocked /\ l = Listening
  end.
Proof.
  intros Hok Hl. destruct l as [|sock f cid i|sock f cid i n|sock f cid|sock f cid i|]; simpl in Hl.
  - done.
  - cbn [tcpserver]. destruct (Z.ltb_spec i (Z.of_nat (length cds))).
    + destruct (thread_at cds i) as (cd & _ & ->); [lia|]. cbn [mbind result_bind mret result_ret].
      split; [done|]. split; [simpl; lia|]. split; [done|]. split; [by left | done].
    + cbn [mret result_ret]. split; [done|]. split; [simpl; lia|]. split; [done|]. split; [by left | done].
  - cbn [tcpserver]. destruct (thread_at cds cid) as (cd & _ & ->); [lia|]. cbn [mbind result_bind mret result_ret].
    split; [done|]. split; [simpl; case_match; lia|]. split; [done|]. split; [by left | done].
  - cbn [tcpserver]. destruct (thread_at cds cid) as (cd & Hcd & ->); [lia|]. cbn [mbind result_bind mret result_ret].
    destruct (Z.leb_spec MAX_SOCKETS (nsockets cd)); (split; [done|]); (split; [|split; [done|]; split; [by left | done]]); simpl.
    + lia.
    + split; [by apply Hl|]. split; [change MAX_SOCKETS with 128; lia|]. split; [lia | by exists cd].
  - destruct Hl as (Hsock & Hi & Hcid & cd & Hcd & Hn). assert (cd_ok cd) as Hcdok by (by eapply Forall_lookup_1).
    change MAX_SOCKETS with 128 in Hi.
    destruct (lookup_lt_is_Some_2 (sockets cd) (Z.to_nat i)) as [s Hs].
    { rewrite (cd_sockets _ Hcdok). change (Z.to_nat MAX_SOCKETS) with 128%nat. lia. }
    rewrite (search_step cds acs sock f cid i cd s) by (done || lia). destruct (Z.eqb_spec s (-1)) as [->|Hne].
    + destruct f as [f|]; [|split; [done|]; split; [done|]; split; [done|]; split; [by left | done]].
      split; [apply Forall_insert; [done | by apply opened_ok]|]. split; [done|]. split; [by rewrite length_insert|].
      split; [|done]. right. split; [|done]. by exists sock, f, cid, i, cd.
    + split; [done|]. split; [|split; [done|]; split; [by left | done]]. simpl. split; [done|].
      rewrite place_after by (change MAX_SOCKETS with 128; lia). split; [|split; [done | by exists cd]].
      change MAX_SOCKETS with 128. by apply Z.mod_pos_bound.
  - split; [done|]. split; [done|]. split; [done|]. split; [by left | done].
Qed.

(** ** The listener while nobody else acts *)
Lemma alone_app m1 m2 x y : tcpserver_alone m1 x = Ok y -> tcpserver_alone (m1 + m2) x = tcpserver_alone m2 y.
Proof.
  revert x. induction m1 as [|m1 IH]; intros x Hx; [by injection Hx as ->|].
  cbn [tcpserver_alone Nat.add] in *. apply bind_Ok in Hx as (z & Hz & Hx). rewrite Hz. cbn [mbind result_bind]. by apply IH.
Qed.

(** [k] is the first thread with the fewest sockets among the first [i]. *)
Definition fewest (cds : list client_data) (i k : nat) : Prop :=
  exists cd, cds !! k = Some cd /\ (k < i)%nat /\ forall j cd', (j < i)%nat -> cds !! j = Some cd' ->
    nsockets cd <= nsockets cd' /\ ((j < k)%nat -> nsockets cd < nsockets cd').

Lemma scan_ends cds acs sock file d i k :
  (i + d = length cds)%nat -> fewest cds i k ->
  exists k', fewest cds (length cds) k' /\
    tcpserver_alone (2 * d + 1) (cds, acs, Scanning sock file (Z.of_nat k) (Z.of_nat i)) =
      Ok (cds, acs, Waiting sock file (Z.of_nat k')).
Proof.
  revert i k. induction d as [|d IH]; intros i k Hd Hk.
  - exists k. rewrite Nat.add_0_r in Hd. subst i. split; [done|]. cbn [Nat.mul Nat.add tcpserver_alone tcpserver fst snd].
    by rewrite (proj2 (Z.ltb_ge _ _)) by lia.
  - destruct Hk as (cd & Hcd & Hki & Hmin). destruct (lookup_lt_is_Some_2 cds i) as [ci Hci]; [lia|].
    destruct (IH (S i) (if nsockets ci <? nsockets cd then i else k)) as (k' & Hk' & Hrun); [lia| |].
    { destruct (Z.ltb_spec (nsockets ci) (nsockets cd)) as [Hlt|Hge].
      - exists ci. split; [done|]. split; [lia|]. intros j cd' Hj Hcd'.
        destruct (decide (j = i)) as [->|Hne]; [rewrite Hci in Hcd'; injection Hcd' as <-; lia|].
        destruct (Hmin j cd' ltac:(lia) Hcd'). lia.
      - exists cd. split; [done|]. split; [lia|]. intros j cd' Hj Hcd'.
        destruct (decide (j = i)) as [->|Hne]; [rewrite Hci in Hcd'; injection Hcd' as <-; lia|].
        apply Hmin; [lia | done]. }
    exists k'. split; [done|]. replace (2 * S d + 1)%nat with (2 + (2 * d + 1))%nat by lia. rewrite <- Hrun.
    apply alone_app. cbn [tcpserver_alone tcpserver fst snd]. rewrite (proj2 (Z.ltb_lt _ _)) by lia.
    rewrite (proj2 (aget_Ok _ _ ci)) by (rewrite Nat2Z.id; split; [lia | done]).
    cbn [mbind result_bind mret result_ret fst snd tcpserver].
    rewrite (proj2 (aget_Ok _ _ cd)) by (rewrite Nat2Z.id; split; [lia | done]).
    cbn [mbind result_bind mret result_ret fst snd]. case_match; do 3 f_equal; lia.
Qed.

(** The search ends at a free place, at most once around. *)
Lemma search_alone cds acs sock f cid cd d i :
  cd_ok cd -> cds !! cid = Some cd -> 0 <= i < 128 -> sockets cd !! Z.to_nat ((i + Z.of_nat d) mod 128) = Some (-1) ->
  exists m j, (m <= d + 2)%nat /\ sockets cd !! j = Some (-1) /\
    tcpserver_alone m (cds, acs, Searching sock (Some f) (Z.of_nat cid) i) =
      Ok (<[cid := opened j sock f cd]> cds, i32 (acs + 1), Listening).
Proof.
  intros Hcd Hk. revert i. induction d as [|d IH]; intros i Hi Hfree;
    (destruct (lookup_lt_is_Some_2 (sockets cd) (Z.to_nat i)) as [s Hs];
      [rewrite (cd_sockets _ Hcd); change (Z.to_nat MAX_SOCKETS) with 128%nat; lia|]);
    assert (cds !! Z.to_nat (Z.of_nat cid) = Some cd) as Hk' by (by rewrite Nat2Z.id);
    pose proof (search_step cds acs sock (Some f) (Z.of_nat cid) i cd s Hcd Hk' ltac:(lia) ltac:(lia) Hs) as Hstep;
    rewrite Nat2Z.id in Hstep.
  - rewrite Z.add_0_r, Z.mod_small in Hfree by lia. rewrite Hfree in Hs. injection Hs as <-.
    exists 2%nat, (Z.to_nat i). split; [lia|]. split; [done|]. cbn [tcpserver_alone fst snd]. rewrite Hstep.
    cbn [Z.eqb Pos.eqb mbind result_bind tcpserver mret result_ret fst snd]. done.
  - destruct (Z.eqb_spec s (-1)) as [->|Hne].
    + exists 2%nat, (Z.to_nat i). split; [lia|]. split; [done|]. cbn [tcpserver_alone fst snd]. rewrite Hstep.
      cbn [mbind result_bind tcpserver mret result_ret fst snd]. done.
    + destruct (IH ((i + 1) mod 128)) as (m & j & Hm & Hj & Hrun).
      * by apply Z.mod_pos_bound.
      * rewrite Z.add_mod_idemp_l by lia. replace (i + 1 + Z.of_nat d) with (i + Z.of_nat (S d)) by lia. done.
      * exists (S m), j. split; [lia|]. split; [done|]. cbn [tcpserver_alone fst snd]. rewrite Hstep.
        cbn [mbind result_bind]. by rewrite place_after by (change MAX_SOCKETS with 128; lia).
Qed.

(** What a thread with room ends at, once it is chosen. *)
Lemma wait_alone cds acs sock f cid cd :
  cd_ok cd -> cds !! cid = Some cd -> nsockets cd < MAX_SOCKETS ->
  exists m j, (m <= 130)%nat /\ sockets cd !! j = Some (-1) /\
    tcpserver_alone m (cds, acs, Waiting sock (Some f) (Z.of_nat cid)) =
      Ok (<[cid := opened j sock f cd]> cds, i32 (acs + 1), Listening).
Proof.
  intros Hcd Hk Hlt. destruct (free_place cd Hcd Hlt) as (j0 & Hj0 & Hfree).
  destruct (search_alone cds acs sock f cid cd j0 0 Hcd Hk ltac:(lia)) as (m & j & Hm & Hj & Hrun).
  { rewrite Z.mod_small by lia. by rewrite Z.add_0_l, Nat2Z.id. }
  exists (S m), j. split; [lia|]. split; [done|]. cbn [tcpserver_alone tcpserver fst snd].
  pose proof (lookup_lt_Some _ _ _ Hk). rewrite (proj2 (aget_Ok _ _ cd)) by (rewrite Nat2Z.id; split; [lia | done]).
  cbn [mbind result_bind mret result_ret]. by rewrite (proj2 (Z.leb_gt _ _)) by done.
Qed.

(** ** Connections that come and go

    The listener, and the client threads as far as they change the data it reads: they close
    sockets, count them off, and read from streams. *)
Inductive connecting : list client_data * Z * listener -> list client_data * Z * listener -> Prop :=
  | conn_arrive cds acs sock file : sock <> -1 -> connecting (cds, acs, Listening) (cds, acs, connected sock file)
  | conn_listen cds acs l x : tcpserver cds acs l = Ok x -> connecting (cds, acs, l) x
  | conn_close cds acs l k cd sid s cd' :
      cds !! k = Some cd -> aget (sockets cd) sid = Ok s -> s <> -1 -> close_socket cd sid = Ok cd' ->
      connecting (cds, acs, l) (<[k := cd']> cds, acs, l)
  | conn_count cds acs l : connecting (cds, acs, l) (cds, i32 (acs - 1), l)
  | conn_read cds acs l k cd fs :
      cds !! k = Some cd -> length fs = length (fins cd) ->
      connecting (cds, acs, l) (<[k := ClientData (nsockets cd) (sockets cd) fs]> cds, acs, l).

Lemma less_changed cds k cd cd' :
  cds !! k = Some cd -> nsockets cd' <= nsockets cd ->
  Forall2 (fun cd cd' => nsockets cd' <= nsockets cd) cds (<[k := cd']> cds).
Proof.
  intros Hk Hle. apply Forall2_same_length_lookup_2; [by rewrite length_insert|]. intros j x y Hx Hy.
  apply list_lookup_insert_Some in Hy as [(<- & <- & _)|[_ Hy]]; [|assert (x = y) as -> by congruence; lia].
  rewrite Hk in Hx. by injection Hx as <-.
Qed.

Lemma connecting_ok x y :
  connecting x y -> x.1.1 <> [] -> Forall cd_ok x.1.1 -> listener_ok x.1.1 x.2 ->
  length y.1.1 = length x.1.1 /\ Forall cd_ok y.1.1 /\ listener_ok y.1.1 y.2.
Proof.
  intros Hstep Hne Hok Hl. destruct Hstep as [cds acs sock f Hs|cds acs l x Hx|cds acs l k cd sid s cd1 Hk Hs Hsne Hc|
    |cds acs l k cd fs Hk Hfs]; simpl in Hne, Hok, Hl |- *.
  - split; [done|]. split; [done|]. simpl. destruct cds; [done|]. simpl. lia.
  - pose proof (tcpserver_ok cds acs l Hok Hl) as H. rewrite Hx in H. destruct x as [[cds1 acs1] l1]. by destruct H as (? & ? & ? & _).
  - assert (cd_ok cd) as Hcd by (by eapply Forall_lookup_1).
    destruct (close_socket_ok cd sid s Hcd Hs Hsne) as (cd2 & Hc2 & Hn & Hok2). rewrite Hc in Hc2. injection Hc2 as <-.
    split; [by rewrite length_insert|]. split; [by apply Forall_insert|].
    eapply listener_ok_less; [|exact Hl]. apply (less_changed _ _ cd); [done | lia].
  - done.
  - assert (cd_ok cd) as [H1 H2 H3] by (by eapply Forall_lookup_1).
    split; [by rewrite length_insert|]. split; [apply Forall_insert; [done | by split; simpl; rewrite ?Hfs]|].
    eapply listener_ok_less; [|exact Hl]. by apply (less_changed _ _ cd).
Qed.

Lemma connections_ok x y :
  rtc connecting x y -> x.1.1 <> [] -> Forall cd_ok x.1.1 -> listener_ok x.1.1 x.2 ->
  length y.1.1 = length x.1.1 /\ Forall cd_ok y.1.1 /\ listener_ok y.1.1 y.2.
Proof.
  induction 1 as [x|x x1 y H1 _ IH]; intros Hne Hok Hl; [done|].
  destruct (connecting_ok _ _ H1 Hne Hok Hl) as (Hlen & Hok1 & Hl1). rewrite <- Hlen. apply IH; [|done..].
  intros Hnil. rewrite Hnil in Hlen. by apply Hne, nil_length_inv.
Qed.

(** C36: connections. While connections come and the client threads close them, in any
    interleaving with the single actions of [tcpserver], every client thread has [MAX_SOCKETS]
    places and [nsockets] is the number of those in use. No action of [tcpserver] fails;
    one that changes a thread takes a place that was free, at a thread that was not full, and
    changes nothing else. A scan that nobody disturbs ends at the first of the threads with the
    fewest connections. From then on [tcpserver] keeps to that thread: it waits as long as that thread
    is full, even when another is not, and once it has room finds a place, within 130 actions of
    its own when nobody interferes. *)
Theorem connections_well_formed fss cds acs0 acs l :
  fss <> [] -> Forall (fun fs => length fs = Z.to_nat MAX_SOCKETS) fss ->
  rtc connecting (client_data_init <$> fss, acs0, Listening) (cds, acs, l) ->
  length cds = length fss /\ Forall cd_ok cds /\
  match tcpserver cds acs l with
  | Ok (cds', acs', l') =>
      ((cds' = cds /\ l' <> Counting) \/ (opens l cds cds' /\ l' = Counting)) /\
      acs' = match l with Counting => i32 (acs + 1) | _ => acs end
  | Fault e => e = Blocked /\ l = Listening
  end /\
  (forall sock file, exists k, fewest cds (length cds) k /\
     tcpserver_alone (2 * (length cds - 1) + 1) (cds, acs, connected sock file) =
       Ok (cds, acs, Waiting sock file (Z.of_nat k))) /\
  (forall sock f cid, l = Waiting sock (Some f) cid -> exists cd, cds !! Z.to_nat cid = Some cd /\
     (nsockets cd = MAX_SOCKETS -> tcpserver cds acs l = Ok (cds, acs, l)) /\
     (nsockets cd <> MAX_SOCKETS -> exists m j, (m <= 130)%nat /\ sockets cd !! j = Some (-1) /\
        tcpserver_alone m (cds, acs, l) = Ok (<[Z.to_nat cid := opened j sock f cd]> cds, i32 (acs + 1), Listening))) /\
  (forall sock f cid i, l = Searching sock (Some f) cid i -> exists cd m j, cds !! Z.to_nat cid = Some cd /\
     (m <= 130)%nat /\ sockets cd !! j = Some (-1) /\
     tcpserver_alone m (cds, acs, l) = Ok (<[Z.to_nat cid := opened j sock f cd]> cds, i32 (acs + 1), Listening)).
Proof.
  intros Hne Hfss Hconn.
  destruct (connections_ok _ _ Hconn) as (Hlen & Hok & Hl); simpl in *.
  { by destruct fss. }
  { apply Forall_fmap. eapply Forall_impl; [exact Hfss|]. intros fs Hfs. split; simpl; [reflexivity | done | reflexivity]. }
  { done. }
  rewrite length_fmap in Hlen. split; [done|]. split; [done|]. split_and!.
  - pose proof (tcpserver_ok cds acs l Hok Hl) as H. destruct (tcpserver cds acs l) as [[[cds' acs'] l']|e]; [|done].
    destruct H as (_ & _ & _ & ? & ?). done.
  - intros sock file. assert (1 <= length cds)%nat as Hpos by (rewrite Hlen; destruct fss; [done | simpl; lia]).
    destruct (lookup_lt_is_Some_2 cds 0) as [cd Hcd]; [lia|].
    apply (scan_ends cds acs sock file (length cds - 1) 1 0); [lia|]. exists cd. split; [done|]. split; [lia|].
    intros j cd' Hj Hcd'. replace j with 0%nat in * by lia. rewrite Hcd in Hcd'. injection Hcd' as <-. lia.
  - intros sock f cid ->. destruct Hl as [_ Hcid]. destruct (thread_at cds cid Hcid) as (cd & Hcd & Hget).
    assert (cd_ok cd) as Hcdok by (by eapply Forall_lookup_1). pose proof (count_range cd Hcdok). exists cd. split; [done|].
    split; intros Hfull.
    + cbn [tcpserver]. rewrite Hget. cbn [mbind result_bind]. by rewrite Hfull, Z.leb_refl.
    + destruct (wait_alone cds acs sock f (Z.to_nat cid) cd Hcdok Hcd ltac:(lia)) as (m & j & Hm & Hj & Hrun).
      rewrite Z2Nat.id in Hrun by lia. by exists m, j.
  - intros sock f cid i ->. destruct Hl as (_ & Hi & Hcid & cd & Hcd & Hlt). change MAX_SOCKETS with 128 in Hi.
    assert (cd_ok cd) as Hcdok by (by eapply Forall_lookup_1). destruct (free_place cd Hcdok Hlt) as (j0 & Hj0 & Hfree).
    pose proof (Z.mod_pos_bound (Z.of_nat j0 - i) 128 ltac:(lia)) as Hd.
    destruct (search_alone cds acs sock f (Z.to_nat cid) cd (Z.to_nat ((Z.of_nat j0 - i) mod 128)) i Hcdok Hcd Hi)
      as (m & j & Hm & Hj & Hrun).
    { rewrite Z2Nat.id by lia. rewrite Z.add_mod_idemp_r by lia. replace (i + (Z.of_nat j0 - i)) with (Z.of_nat j0) by lia.
      rewrite Z.mod_small by lia. by rewrite Nat2Z.id. }
    rewrite Z2Nat.id in Hrun by lia. exists cd, m, j. split; [done|]. split; [lia | done].
Qed.

(** ** Instances *)

(** Two batches of the first design, with a value marked ready in between. *)
Definition demo_first : list hash_query := [HashQuery 1 64 6; HashQuery 0 0 5].

Definition demo_held : heap := <[4096 := Elem 6 1 (64 + sizeof_elem) []]> ∅.

Lemma batch_ok_demo qs values :
  Forall query_ok qs -> (length qs <= length values)%nat -> (length qs <= 10)%nat -> batch_ok qs values.
Proof. intros H1 H2 H3. split; [done|]. split; [change MAX_PENDING_SIZE with 65536; lia | done]. Qed.

Lemma demo_first_ok : Forall query_ok demo_first.
Proof.
  repeat constructor; simpl; try (left; reflexivity); try (right; reflexivity);
    vm_compute; (reflexivity || discriminate).
Qed.

Lemma demo_served :
  exists c, served (gives plus_100) 1 (new_client 2) c /\
    exists c1, exec 80 plus_100 c (doqueries_calls demo_batch_queries [0; 0; 0; 0; 7]) =
      Some (c1, [105; 106; 108; 107; 7]).
Proof.
  assert (exists c1 c2,
    exec 40 plus_100 (new_client 2) (doqueries_calls demo_first [0; 0]) = Some (c1, [106; 105]) /\
    exec 40 plus_100 c1 (mp_mark_ready demo_held (value_ptr 4096)) = Some (c2, tt) /\
    exists c3, exec 80 plus_100 c2 (doqueries_calls demo_batch_queries [0; 0; 0; 0; 7]) =
      Some (c3, [105; 106; 108; 107; 7])) as (c1 & c2 & H1 & H2 & H3).
  { do 2 eexists. split; [vm_compute; reflexivity|]. split; [vm_compute; reflexivity|].
    eexists. vm_compute. reflexivity. }
  exists c2. split; [|exact H3].
  apply (served_batch _ 1 demo_first [0; 0] (doqueries_calls demo_first [0; 0]) [106; 105] _ c1 c2);
    [apply batch_ok_demo; [apply demo_first_ok | simpl; lia..] | reflexivity |
     exact (exec_sound plus_100 40 _ _ _ _ H1) |].
  apply (served_give _ 1 (mp_mark_ready demo_held (value_ptr 4096)) demo_held (value_ptr 4096) _ c2 c2);
    [vm_compute; repeat split; discriminate | by eexists | right; reflexivity |
     exact (exec_sound plus_100 40 _ _ _ _ H2) | constructor].
Qed.

Lemma doqueries_answers_witness :
  Forall2 (gives plus_100) [Lookup 5; Insert 6 64; Lookup 8; Lookup 7] [105; 106; 108; 107].
Proof.
  destruct demo_served as (c & Hs & c1 & Hx).
  assert (batch_ok demo_batch_queries [0; 0; 0; 0; 7]) as Hok
    by (apply batch_ok_demo; [apply demo_batch_queries_ok | simpl; lia..]).
  exact (proj2 (proj2 (proj2 (doqueries_answers (gives plus_100) plus_100_total 1 2 c demo_batch_queries
    [0; 0; 0; 0; 7] _ c1 (Done [105; 106; 108; 107; 7]) ltac:(split; reflexivity) Hs Hok eq_refl
    (exec_sound plus_100 80 c _ c1 _ Hx))) _ eq_refl)).
Defined.

(** Two client threads. The first connection goes to the first, and while the second is on its way
    the first is closed. *)
Definition no_streams : list stream := replicate (Z.to_nat MAX_SOCKETS) (Stream [] []).

Definition demo_threads : list client_data := client_data_init <$> [no_streams; no_streams].

Definition alone_or {A} (r : result A) (x : A) : A := match r with Ok y => y | Fault _ => x end.

Definition demo_one : list client_data * Z * listener :=
  alone_or (tcpserver_alone 6 (demo_threads, 0, connected 7 (Some (Stream [] [])))) (demo_threads, 0, Listening).

(** It has compared the counts and waits for the second thread, which has room. *)
Definition demo_two : list client_data * Z * listener :=
  alone_or (tcpserver_alone 3 (demo_one.1.1, demo_one.1.2, connected 8 (Some (Stream [] [])))) demo_one.

Lemma alone_connecting m x y : tcpserver_alone m x = Ok y -> rtc connecting x y.
Proof.
  revert x. induction m as [|m IH]; intros [[cds acs] l] Hx; [by injection Hx as <-|].
  cbn [tcpserver_alone fst snd] in Hx. apply bind_Ok in Hx as (z & Hz & Hx).
  eapply rtc_l; [by apply conn_listen | by apply IH].
Qed.

Lemma demo_connecting : rtc connecting (demo_threads, 0, Listening) demo_two.
Proof.
  eapply rtc_l; [by apply (conn_arrive _ _ 7 (Some (Stream [] [])))|].
  transitivity demo_one; [by apply (alone_connecting 6); vm_compute|].
  eapply rtc_l; [|apply (alone_connecting 3 (demo_one.1.1, demo_one.1.2, connected 8 (Some (Stream [] [])))); by vm_compute].
  replace demo_one with (demo_one.1.1, demo_one.1.2, Listening) at 1 by (by vm_compute).
  by apply conn_arrive.
Qed.

Lemma connections_well_formed_witness :
  Forall cd_ok demo_two.1.1 /\ exists cd m j, demo_two.1.1 !! 1%nat = Some cd /\ sockets cd !! j = Some (-1) /\
    tcpserver_alone m demo_two = Ok (<[1%nat := opened j 8 (Stream [] []) cd]> demo_two.1.1, 2, Listening).
Proof.
  assert (demo_two = (demo_two.1.1, demo_two.1.2, Waiting 8 (Some (Stream [] [])) 1)) as Heq by (vm_compute; reflexivity).
  assert (demo_two.1.2 = 1) as Hacs by (vm_compute; reflexivity).
  pose proof demo_connecting as Hc. rewrite Heq in Hc.
  destruct (connections_well_formed [no_streams; no_streams] demo_two.1.1 0 demo_two.1.2 _ ltac:(discriminate)
    ltac:(repeat constructor) Hc) as (_ & Hok & _ & _ & Hwait & _).
  split; [exact Hok|]. destruct (Hwait 8 (Stream [] []) 1 eq_refl) as (cd & Hcd & _ & Hroom).
  destruct Hroom as (m & j & _ & Hj & Hrun).
  - change (Z.to_nat 1) with 1%nat in Hcd. intros Hfull. assert (nsockets <$> (demo_two.1.1 !! 1%nat) = Some 0) as H0 by (vm_compute; reflexivity).
    rewrite Hcd in H0. simpl in H0. rewrite Hfull in H0. discriminate H0.
  - exists cd, m, j. split; [exact Hcd|]. split; [exact Hj|]. rewrite Heq at 1. rewrite Hacs in Hrun at 2. exact Hrun.
Defined.
