(* ===== verification/System.v ===== *)
(** * System: clients, servers and the memory of one table

    A table with its servers and the memory its values live in. A client call
    runs on the part of the table that belongs to the client, a server turn on
    one box and one partition. A thread of a program that uses the library is a
    [script]: library calls, locking calls, and accesses to the memory of values
    it was given. *)
From stdpp Require Import base list gmap relations.
From Stdlib Require Import ZArith Lia.
From S2P Require Import Prelude Protocol ALock MPBuffers Value Partition PartitionInv Server HashTable.
From S2P Require Import Client Locking Stream.

Local Open Scope Z_scope.

(** ** Client [i] of a table *)
Definition client_of (i : Z) (t : hash_table) : result client :=
  o ← aget (pending t) i; pd ← deref o;
  o ← aget (boxes t) i; bs ← deref o;
  mret (Client (ht_nservers t) pd bs).

Definition put_client (i : Z) (c : client) (t : hash_table) : result hash_table :=
  ps ← aset (pending t) i (Some (cl_pd c));
  bs ← aset (boxes t) i (Some (cl_boxes c));
  mret (HashTable (ht_nservers t) (nclients t) (ht_max_size t) (quitting t) (partitions t) ps bs
          (track_cpu_usage t)).

(** A step of a call of client [i]. *)
Definition client_turn {A} (i : Z) (f : client -> result (client * prog A)) (t : hash_table)
    : result (hash_table * prog A) :=
  c ← client_of i t;
  '(c, r) ← f c;
  t ← put_client i c t;
  mret (t, r).

(** The clients of a program are created one after the other. *)
Fixpoint create_clients (k : nat) (t : hash_table) : result hash_table :=
  match k with
  | O => mret t
  | S k => '(_, t) ← create_hash_table_client t; create_clients k t
  end.

(** ** [*(long * )value] *)
Definition i64 (x : Z) : Z := (x + 2 ^ 63) mod 2 ^ 64 - 2 ^ 63.

Definition store_long (h : heap) (ptr val : Z) : result heap := write_value h ptr (le 8 (u64 val)).

Definition load_long (h : heap) (ptr : Z) : result Z :=
  el ← deref (h !! elem_of_ptr ptr);
  _ ← check (8 <=? Z.of_nat (length (value el))) Undefined;
  mret (i64 (unle (take 8 (value el)))).

(** ** The system *)
Record sys := Sys { sy_table : hash_table; sy_mem : mem; sy_locals : list locals }.

Definition set_heap (h : heap) (sy : sys) : sys :=
  Sys (sy_table sy) (Mem h (tick (sy_mem sy))) (sy_locals sy).

Definition set_sys_table (t : hash_table) (sy : sys) : sys := Sys t (sy_mem sy) (sy_locals sy).

Inductive script :=
  | Stop
  | Call {A} (i : Z) (r : prog A) (k : A -> script)
  | CallLocking (op : table_call) (k : Z -> script)
  | Touch (f : heap -> result (heap * script)).

Section run.
Context `{M : Machine} (spins : nat).

(** Server [s] looks at the box of client [i]. *)
Definition server_turn (s i : nat) (sy : sys) : result sys :=
  l ← deref (sy_locals sy !! s);
  '(t, m, l) ← server_visit spins (negb (track_cpu_usage (sy_table sy) =? 0)) (Z.of_nat s) (Z.of_nat i)
                 (sy_table sy) (sy_mem sy) l;
  mret (Sys t m (<[s := l]> (sy_locals sy))).

(** A locking call of the only thread: the actions of [Locking], which are at
    most seven. *)
Fixpoint locking_alone (fuel : nat) (st : lstate) : result (lstate * Z) :=
  match fuel with
  | O => Fault Blocked
  | S fuel =>
      '(st, o) ← locking_step spins 0 st;
      match o with Some v => mret (st, v) | None => locking_alone fuel st end
  end.

Definition table_lcall (n : Z) (op : table_call) : lcall :=
  match op with
  | LLookup k => locking_hash_lookup n k
  | LInsert k sz => locking_hash_insert n k sz
  end.

Definition locking_turn (op : table_call) (sy : sys) : result (sys * Z) :=
  let t := sy_table sy in
  '(st, v) ← locking_alone 7 (LState (partitions t) (sy_mem sy) [Some (table_lcall (ht_nservers t) op)]);
  mret (Sys (set_partitions (parts st) t) (lmem st) (sy_locals sy), v).

(** The script makes its next step, or a server makes a turn. *)
Inductive sys_step : sys * script -> sys * script -> Prop :=
  | step_return A i (a : A) k sy : sys_step (sy, Call i (Done a) k) (sy, k a)
  | step_call A i f (k : A -> script) sy t r :
      client_turn i f (sy_table sy) = Ok (t, r) ->
      sys_step (sy, Call i (Step f) k) (set_sys_table t sy, Call i r k)
  | step_locking op k sy sy' v :
      locking_turn op sy = Ok (sy', v) -> sys_step (sy, CallLocking op k) (sy', k v)
  | step_touch f sy h s :
      f (hp (sy_mem sy)) = Ok (h, s) -> sys_step (sy, Touch f) (set_heap h sy, s)
  | step_server s i sy sy' r : server_turn s i sy = Ok sy' -> sys_step (sy, r) (sy', r).

(** ** A schedule

    The servers get a turn each when the client waits. *)
Definition turns (sy : sys) : list (nat * nat) :=
  i ← seq 0 (Z.to_nat (nclients (sy_table sy)));
  s ← seq 0 (Z.to_nat (ht_nservers (sy_table sy)));
  [(s, i)].

Fixpoint server_turns (l : list (nat * nat)) (sy : sys) : result sys :=
  match l with
  | [] => mret sy
  | (s, i) :: l => sy ← server_turn s i sy; server_turns l sy
  end.

Fixpoint run_script (fuel : nat) (sy : sys) (r : script) : result sys :=
  match r, fuel with
  | Stop, _ => mret sy
  | _, O => Fault Blocked
  | Call i (Done a) k, S fuel => run_script fuel sy (k a)
  | Call i (Step f) k, S fuel =>
      match client_turn i f (sy_table sy) with
      | Ok (t, r) => run_script fuel (set_sys_table t sy) (Call i r k)
      | Fault Blocked => sy ← server_turns (turns sy) sy; run_script fuel sy (Call i (Step f) k)
      | Fault e => Fault e
      end
  | CallLocking op k, S fuel => '(sy, v) ← locking_turn op sy; run_script fuel sy (k v)
  | Touch f, S fuel => '(h, r) ← f (hp (sy_mem sy)); run_script fuel (set_heap h sy) r
  end.

Lemma server_turns_sound l sy sy' r :
  server_turns l sy = Ok sy' -> rtc sys_step (sy, r) (sy', r).
Proof.
  revert sy. induction l as [|[s i] l IH]; intros sy Hr; simpl in Hr.
  - injection Hr as <-. apply rtc_refl.
  - apply bind_Ok in Hr as (sy1 & H1 & Hr). eapply rtc_l; [by eapply step_server | by apply IH].
Qed.

Lemma run_sound fuel sy r sy' : run_script fuel sy r = Ok sy' -> rtc sys_step (sy, r) (sy', Stop).
Proof.
  revert sy r. induction fuel as [|fuel IH]; intros sy r Hr.
  - destruct r as [|A i [a|f] k|op k|f]; simpl in Hr; try done. injection Hr as <-. apply rtc_refl.
  - destruct r as [|A i [a|f] k|op k|f]; simpl in Hr.
    + injection Hr as <-. apply rtc_refl.
    + eapply rtc_l; [apply step_return | by apply IH].
    + destruct (client_turn i f (sy_table sy)) as [[t r]|[]] eqn:Hc; try done.
      * eapply rtc_l; [by eapply step_call | by apply IH].
      * apply bind_Ok in Hr as (sy1 & H1 & Hr).
        etrans; [by eapply server_turns_sound | by apply IH].
    + apply bind_Ok in Hr as ([sy1 v] & H1 & Hr). eapply rtc_l; [by eapply step_locking | by apply IH].
    + apply bind_Ok in Hr as ([h s] & H1 & Hr). eapply rtc_l; [by eapply step_touch | by apply IH].
Qed.
End run.
