(* ===== verification/Concurrent.v ===== *)
(** * Concurrent: a program with many threads on one table

    The threads of a program that uses the message-passing table, one for every
    client, and the server threads of the table, interleaved. A thread makes one
    call after the other, any call with any arguments that the interface allows; it
    remembers the values that it was given, and may write into them and release
    them. *)
From stdpp Require Import base list gmap relations.
From Stdlib Require Import ZArith Lia.
From S2P Require Import Prelude Protocol ALock MPBuffers Value Partition PartitionInv Server HashTable.
From S2P Require Import Ownership Holders Shares Client Link LinkInv ClientInv SystemThms System.

Local Open Scope Z_scope.

(** What a thread can ask for. *)
Inductive request_of_thread :=
  | WantLookup (k : Z)
  | WantInsert (k size : Z)
  | WantNext
  | WantTryNext
  | WantRelease (ptr : Z) (mark : bool).

(** The call; a release or a mark looks at the element in the memory [h]. *)
Definition call_of (h : heap) (o : request_of_thread) : call :=
  match o with
  | WantLookup k => CallLookup k
  | WantInsert k sz => CallInsert k sz
  | WantNext => CallGet
  | WantTryNext => CallTryGet
  | WantRelease ptr mark => CallRelease h ptr mark
  end.

(** The queries of a thread that are still to be answered, oldest first, the values
    it holds with the queries they answered, and the call it is in. *)
Record thread := Thread {
  th_asked : list request;
  th_held : list (request * Z);
  th_call : option (call * prog outcome)
}.

Record world := World { w_sys : sys; w_threads : list thread }.

Definition w_table (w : world) : hash_table := sy_table (w_sys w).
Definition w_heap (w : world) : heap := hp (sy_mem (w_sys w)).

(** One step of the program: thread [i] begins a call, makes a step of it, takes
    its result, or writes [bs] into a value; or server [s] makes a turn on the
    box of client [i]. *)
Inductive world_action :=
  | Begin (i : nat) (o : request_of_thread)
  | Run (i : nat)
  | Return (i : nat)
  | Write (i : nat) (ptr : Z) (bs : list Z)
  | Serve (s i : nat).

(** What the interface asks of a thread: 60-bit keys, sizes that fit into a partition
    ([ms]), and releases and writes only of values it holds. *)
Definition allowed (ms : Z) (w : world) (a : world_action) : Prop :=
  match a with
  | Begin i (WantLookup k) => request_ok (Lookup k)
  | Begin i (WantInsert k sz) => request_ok (Insert k sz) /\ elem_size sz <= ms
  | Begin i (WantRelease ptr _) | Write i ptr _ =>
      match w_threads w !! i with Some th => ptr ∈ (th_held th).*2 | None => False end
  | _ => True
  end.

(** A release gives the value up. *)
Fixpoint without (ptr : Z) (held : list (request * Z)) : list (request * Z) :=
  match held with
  | [] => []
  | x :: held => if x.2 =? ptr then held else x :: without ptr held
  end.

Definition held_after (o : request_of_thread) (held : list (request * Z)) : list (request * Z) :=
  match o with WantRelease ptr _ => without ptr held | _ => held end.

(** The thread after its call [a] with the result [o]: a query that was accepted
    joins those it has asked, an answer is for the oldest of them, and it holds the
    value if it is not NULL. *)
Definition after_call (a : call) (o : outcome) (th : thread) : thread :=
  let asked := th_asked th ++ accepted (a, o) in
  let vs := returned (a, o) in
  Thread (drop (length vs) asked) (th_held th ++ filter (fun x => x.2 <> 0) (zip asked vs)) None.

Definition set_thread (i : nat) (th : thread) (sy : sys) (w : world) : world :=
  World sy (<[i := th]> (w_threads w)).

Section machine.
Context `{M : Machine} (spins : nat).

(** [None]: the action does not apply; [Fault]: it applies, and fails or waits. *)
Definition world_act (a : world_action) (w : world) : option (result world) :=
  let sy := w_sys w in
  match a with
  | Begin i o =>
      th ← w_threads w !! i;
      match th_call th with
      | Some _ => None
      | None =>
          let c := call_of (w_heap w) o in
          Some (Ok (set_thread i (Thread (th_asked th) (held_after o (th_held th)) (Some (c, call_prog c))) sy w))
      end
  | Run i =>
      th ← w_threads w !! i;
      match th_call th with
      | Some (c, Step f) => Some (
          '(t, r) ← client_turn (Z.of_nat i) f (sy_table sy);
          mret (set_thread i (Thread (th_asked th) (th_held th) (Some (c, r))) (set_sys_table t sy) w))
      | _ => None
      end
  | Return i =>
      th ← w_threads w !! i;
      match th_call th with
      | Some (c, Done o) => Some (Ok (set_thread i (after_call c o th) sy w))
      | _ => None
      end
  | Write i ptr bs =>
      Some (h ← write_value (w_heap w) ptr bs; mret (World (set_heap h sy) (w_threads w)))
  | Serve s i =>
      if decide ((s < Z.to_nat (ht_nservers (sy_table sy)))%nat /\ (i < length (w_threads w))%nat)
      then Some (sy' ← server_turn spins s i sy; mret (World sy' (w_threads w)))
      else None
  end.

Definition world_step (ms : Z) (w w' : world) : Prop :=
  exists a, allowed ms w a /\ world_act a w = Some (Ok w').

(** A schedule; [None] when some action does not apply, is not allowed, or fails. *)
#[export] Instance arg_ok_dec k : Decision (arg_ok k).
Proof. unfold arg_ok. apply _. Defined.

#[export] Instance request_ok_dec r : Decision (request_ok r).
Proof. destruct r; simpl; apply _. Defined.

#[export] Instance allowed_dec ms w a : Decision (allowed ms w a).
Proof. destruct a as [i [| | | |]| | |i|]; simpl; try apply _; destruct (w_threads w !! i); apply _. Defined.

Fixpoint run_world (ms : Z) (l : list world_action) (w : world) : option world :=
  match l with
  | [] => Some w
  | a :: l =>
      if decide (allowed ms w a) then
        match world_act a w with Some (Ok w) => run_world ms l w | _ => None end
      else None
  end.

Lemma run_world_steps ms l w w' : run_world ms l w = Some w' -> nsteps (world_step ms) (length l) w w'.
Proof.
  revert w. induction l as [|a l IH]; intros w Hw; simpl in Hw; [injection Hw as <-; constructor|].
  destruct (decide _) as [Ha|]; [|done]. destruct (world_act a w) as [[w1|]|] eqn:Hx; try done.
  apply (nsteps_l _ _ _ w1); [by exists a | by apply IH].
Qed.
End machine.

(** ** The start of a program: the table and its clients are made, and nobody holds
    anything. *)
Definition start_world (t : hash_table) (m : mem) (ls : list locals) (nc : nat) : world :=
  World (Sys t m ls) (replicate nc (Thread [] [] None)).
