(* ===== verification/ConcurrentInv.v ===== *)
(** * ConcurrentInv: the invariant of a program with many threads

    The parts proved apart come together here: the partitions agree with their
    books ([Estates]), every client with its own ([ClientInv]), and the shares in a
    value, which the servers count, are spread over the threads that hold it, the
    answers on their way, and the release messages on their way. *)
From stdpp Require Import base list gmap relations.
From Stdlib Require Import ZArith Lia.
From S2P Require Import Prelude Protocol ALock MPBuffers Value Partition PartitionInv PartitionThms.
From S2P Require Import Ownership Server ServerThms HashTable Estates Holders Shares.
From S2P Require Import Client Link LinkInv ClientInv SystemThms System Concurrent.

Local Open Scope Z_scope.

(** What the servers answer, and what a call other than a release may send. *)
Definition like (r : request) (v : Z) : Prop := value_like v.

Definition may_send (ms : Z) (r : request) : Prop := answering r /\ fits ms r.

(** The account of a client: its books and links, the values in the hands of its
    thread, and the answers that were returned before the call it is in. Values
    and answers are kept with their queries. *)
Record account := Account {
  ac_books : books;
  ac_links : list link_state;
  ac_hold : list (request * Z);
  ac_since : list (request * Z)
}.

(** A sum over the answers that are with the client: in the hands of its thread, or
    on their way there. *)
Definition in_account (f : request * Z -> Z) (ac : account) : Z :=
  zsum f (ac_hold ac) + (answers_at f (ac_books ac) (ac_links ac) - zsum f (ac_since ac)).

(** Counts the answers that are [v]. *)
Definition value_at (v : Z) (x : request * Z) : Z := if x.2 =? v then 1 else 0.

Definition flying (e : Z) (ls : list link_state) : Z := zsum (fun l => all_given_up e (in_flight l)) ls.

(** The shares of one account in [e]. *)
Definition tokens (e : Z) (ac : account) : Z :=
  in_account (value_at (value_ptr e)) ac + flying e (ac_links ac).

Definition all_tokens (acs : list account) (e : Z) : Z := zsum (tokens e) acs.
Section invariant.
Context (h0 : heap) (n ms ev : Z).

(** A thread between calls; in a call that has sent no release; or in a release whose
    message is still to be sent. *)
Definition calling (a : call) (r : prog outcome) (th : thread) (ac : account) : Prop :=
  ac_hold ac = th_held th /\ exists bk0, spent bk0 = ac_since ac /\ queue bk0 = th_asked th /\
    safe like pd_inv (may_send ms) (fun bk' _ o => call_effect like a bk0 bk' o)
      (ac_books ac) (lk_buffered <$> ac_links ac) r.

Definition releasing (owns : list ownership) (a : call) (r : prog outcome) (th : thread) (ac : account)
    : Prop :=
  exists q h ptr mark el, a = CallRelease h ptr mark /\ r = call_prog a /\
    spent (ac_books ac) = ac_since ac /\ queue (ac_books ac) = th_asked th /\
    ac_hold ac = (q, ptr) :: th_held th /\ h !! elem_of_ptr ptr = Some el /\
    home owns (Z.to_nat (hash_get_server n (key el))) (elem_of_ptr ptr).

Definition thread_ok (owns : list ownership) (th : thread) (ac : account) : Prop :=
  match th_call th with
  | None => ac_hold ac = th_held th /\ spent (ac_books ac) = ac_since ac /\ queue (ac_books ac) = th_asked th
  | Some (a, r) => calling a r th ac \/ releasing owns a r th ac
  end.

Definition since_ok (ac : account) : Prop :=
  forall f, (forall x, 0 <= f x) -> zsum f (ac_since ac) <= answers_at f (ac_books ac) (ac_links ac).

Record client_ok (owns : list ownership) (t : hash_table) (i : nat) (th : thread) (ac : account) : Prop := {
  co_client : exists pd bs, pending t !! i = Some (Some pd) /\ boxes t !! i = Some (Some bs) /\
    client_inv like (Client n pd bs) (ac_books ac) (ac_links ac);
  co_thread : thread_ok owns th ac;
  co_hold : Forall is_value (ac_hold ac).*2;
  co_since : since_ok ac;
  co_fits : Forall (fun l => Forall (fits ms) (in_flight l)) (ac_links ac);
  co_home : forall s l e, ac_links ac !! s = Some l -> Release e ∈ in_flight l -> home owns s e
}.

Record world_inv (k : Z) (w : world) (owns : list ownership) (acs : list account) : Prop := {
  wi_estates : estates mp_release_value_ h0 ms ev k (sy_mem (w_sys w)) (partitions (w_table w)) owns;
  wi_keys : forall s own, owns !! s = Some own ->
    keys_in (fun key => hash_get_server n key = Z.of_nat s) own (w_heap w);
  wi_n : 0 < n < 2 ^ 31 /\ ht_nservers (w_table w) = n /\ length (partitions (w_table w)) = Z.to_nat n;
  wi_locals : length (sy_locals (w_sys w)) = Z.to_nat n /\
    Forall (fun lc => length (localbuf lc) = Z.to_nat INPB_SIZE) (sy_locals (w_sys w));
  wi_nclients : nclients (w_table w) = Z.of_nat (length (w_threads w));
  wi_len : length acs = length (w_threads w);
  wi_clients : forall i th ac, w_threads w !! i = Some th -> acs !! i = Some ac ->
    client_ok owns (w_table w) i th ac;
  wi_shares : forall e, addr_ok e -> all_tokens acs e = all_shares owns e;
  wi_answers : forall i ac x, acs !! i = Some ac -> 0 < in_account (is_at x) ac ->
    answered_in owns (w_heap w) x
}.

(** ** Tokens *)
Lemma flying_nonneg e ls : 0 <= flying e ls.
Proof. apply zsum_nonneg. intros l _. apply all_given_up_nonneg. Qed.

Lemma flying_at e ls s l : ls !! s = Some l -> all_given_up e (in_flight l) <= flying e ls.
Proof.
  intros Hl. apply (zsum_member (fun l => all_given_up e (in_flight l))).
  - intros x _. apply all_given_up_nonneg.
  - by eapply list_elem_of_lookup_2.
Qed.

Lemma value_at_nonneg v x : 0 <= value_at v x.
Proof. unfold value_at. case_match; lia. Qed.

Lemma zsum_value_at v l : zsum (value_at v) l = occurs v l.*2.
Proof. unfold occurs. by rewrite zsum_fmap. Qed.

Section tokens.
Context (ac : account) (Hs : since_ok ac).

Lemma in_account_hold f : (forall x, 0 <= f x) -> zsum f (ac_hold ac) <= in_account f ac.
Proof. intros Hf. unfold in_account. specialize (Hs f Hf). lia. Qed.

Lemma in_account_nonneg f : (forall x, 0 <= f x) -> 0 <= in_account f ac.
Proof.
  intros Hf. pose proof (in_account_hold f Hf). pose proof (zsum_nonneg f (ac_hold ac) (fun x _ => Hf x)). lia.
Qed.

Lemma in_account_le f g : (forall x, 0 <= f x <= g x) -> in_account f ac <= in_account g ac.
Proof.
  intros Hfg. assert (0 <= in_account (fun x => g x - f x) ac) as H
    by (apply in_account_nonneg; intros x; specialize (Hfg x); lia).
  unfold in_account, answers_at in *. rewrite !zsum_sub in H.
  rewrite (zsum_ext (fun l => zsum (fun x => g x - f x) (lk_unread l))
             (fun l => zsum g (lk_unread l) - zsum f (lk_unread l))), zsum_sub in H
    by (intros l _; apply zsum_sub). lia.
Qed.

Lemma tokens_nonneg e : 0 <= tokens e ac.
Proof.
  unfold tokens. pose proof (in_account_nonneg _ (value_at_nonneg (value_ptr e))).
  pose proof (flying_nonneg e (ac_links ac)). lia.
Qed.

Lemma tokens_hold e : occurs (value_ptr e) (ac_hold ac).*2 <= tokens e ac.
Proof.
  unfold tokens. pose proof (in_account_hold _ (value_at_nonneg (value_ptr e))) as H.
  rewrite zsum_value_at in H. pose proof (flying_nonneg e (ac_links ac)). lia.
Qed.

Lemma tokens_flying e s l : ac_links ac !! s = Some l -> all_given_up e (in_flight l) <= tokens e ac.
Proof.
  intros Hl. unfold tokens. pose proof (in_account_nonneg _ (value_at_nonneg (value_ptr e))).
  pose proof (flying_at e _ _ _ Hl). lia.
Qed.

(** An answer that is with the client counts as a share. *)
Lemma answer_share x : 0 < in_account (is_at x) ac -> 0 < in_account (value_at x.2) ac.
Proof.
  intros Hx. enough (in_account (is_at x) ac <= in_account (value_at x.2) ac) by lia.
  apply in_account_le. intros y. unfold is_at, value_at. case_decide as Hy; [subst y|].
  - rewrite Z.eqb_refl. lia.
  - case_match; lia.
Qed.
End tokens.

Lemma all_tokens_at acs i ac e :
  (forall j ac, acs !! j = Some ac -> since_ok ac) -> acs !! i = Some ac -> tokens e ac <= all_tokens acs e.
Proof.
  intros Hs Hi. apply (zsum_member (tokens e)); [|by eapply list_elem_of_lookup_2].
  intros ac2 Hin. apply list_elem_of_lookup in Hin as [j Hj]. by apply tokens_nonneg, (Hs j).
Qed.

(** ** A client takes a step *)

(** What belongs to the other clients, and all that no client writes. *)
Definition only_client (i : nat) (t t' : hash_table) : Prop :=
  ht_nservers t' = ht_nservers t /\ nclients t' = nclients t /\ partitions t' = partitions t /\
  forall j, j <> i -> pending t' !! j = pending t !! j /\ boxes t' !! j = boxes t !! j.

Lemma only_client_refl i t : only_client i t t.
Proof. done. Qed.

Definition with_client (i : nat) (c : client) (t : hash_table) : hash_table :=
  HashTable (ht_nservers t) (nclients t) (ht_max_size t) (quitting t) (partitions t)
    (<[i := Some (cl_pd c)]> (pending t)) (<[i := Some (cl_boxes c)]> (boxes t)) (track_cpu_usage t).

Lemma with_client_only i c t : only_client i t (with_client i c t).
Proof. do 3 (split; [done|]). intros j Hj. simpl. by rewrite !list_lookup_insert_ne. Qed.

Lemma client_turn_eq {A} t i pd bs (f : client -> result (client * prog A)) :
  pending t !! i = Some (Some pd) -> boxes t !! i = Some (Some bs) ->
  client_turn (Z.of_nat i) f t =
    match f (Client (ht_nservers t) pd bs) with
    | Ok (c, r) => Ok (with_client i c t, r)
    | Fault e => Fault e
    end.
Proof.
  intros Hpd Hbs. unfold client_turn, client_of.
  assert (aget (pending t) (Z.of_nat i) = Ok (Some pd)) as ->
    by (apply aget_Ok; rewrite Nat2Z.id; split; [lia | done]).
  assert (aget (boxes t) (Z.of_nat i) = Ok (Some bs)) as ->
    by (apply aget_Ok; rewrite Nat2Z.id; split; [lia | done]).
  cbn [deref mbind result_bind mret result_ret].
  destruct (f _) as [[c r]|e]; [|done]. cbn [mbind result_bind]. unfold put_client.
  apply lookup_lt_Some in Hpd, Hbs. rewrite !aset_in by lia. cbn [mbind result_bind mret result_ret].
  by rewrite !Nat2Z.id.
Qed.

Section step.
Context (k : Z) (w : world) (owns : list ownership) (acs : list account).
Context (Hinv : world_inv k w owns acs).

Lemma account_of i th : w_threads w !! i = Some th -> exists ac, acs !! i = Some ac.
Proof. intros Ht. apply lookup_lt_is_Some_2. rewrite (wi_len _ _ _ _ Hinv). by eapply lookup_lt_Some. Qed.

Lemma thread_of i ac : acs !! i = Some ac -> exists th, w_threads w !! i = Some th.
Proof. intros Ht. apply lookup_lt_is_Some_2. rewrite <- (wi_len _ _ _ _ Hinv). by eapply lookup_lt_Some. Qed.

Lemma client_elsewhere t' i j th ac :
  only_client i (w_table w) t' -> j <> i -> client_ok owns (w_table w) j th ac -> client_ok owns t' j th ac.
Proof.
  intros (_ & _ & _ & Hj) Hne [Hc Ht Hh Hs Hf Hr]. destruct (Hj j Hne) as [Hp Hb]. split; try done.
  by rewrite Hp, Hb.
Qed.

(** The client and its thread changed; its shares did not. *)
Lemma inv_client i th ac th' ac' t' :
  w_threads w !! i = Some th -> acs !! i = Some ac -> only_client i (w_table w) t' ->
  client_ok owns t' i th' ac' -> (forall e, addr_ok e -> tokens e ac' = tokens e ac) ->
  (forall x, in_account (is_at x) ac' <= in_account (is_at x) ac) ->
  world_inv k (set_thread i th' (set_sys_table t' (w_sys w)) w) owns (<[i := ac']> acs).
Proof.
  intros Hth Hac Ht Hco Htok Hless. pose proof Ht as (Hn & Hnc & Hp & _). destruct Hinv. split; simpl; try done.
  - unfold w_table. simpl. by rewrite Hp.
  - unfold w_table. simpl. by rewrite Hn, Hp.
  - unfold w_table. simpl. by rewrite Hnc, length_insert.
  - by rewrite !length_insert.
  - intros j th0 ac0 H1 H2. destruct (decide (j = i)) as [->|Hne].
    + rewrite list_lookup_insert_eq in H1 by (by eapply lookup_lt_Some).
      rewrite list_lookup_insert_eq in H2 by (by eapply lookup_lt_Some). by simplify_eq.
    + rewrite list_lookup_insert_ne in H1 by done. rewrite list_lookup_insert_ne in H2 by done.
      apply (client_elsewhere t' i); [done..|]. by apply wi_clients0.
  - intros e He. rewrite <- wi_shares0 by done. unfold all_tokens.
    rewrite (zsum_insert _ _ _ _ _ Hac), (Htok e He). lia.
  - intros j ac2 x Hj Hx. apply list_lookup_insert_Some in Hj as [(<- & <- & _)|[_ Hj]]; [|by apply (wi_answers0 j ac2)].
    apply (wi_answers0 i ac); [done|]. specialize (Hless x). lia.
Qed.

Lemma set_table_self : set_sys_table (w_table w) (w_sys w) = w_sys w.
Proof. unfold w_table. by destruct (w_sys w). Qed.

(** The same, when only the thread changed. *)
Lemma inv_thread i th ac th' ac' :
  w_threads w !! i = Some th -> acs !! i = Some ac -> client_ok owns (w_table w) i th' ac' ->
  (forall e, addr_ok e -> tokens e ac' = tokens e ac) ->
  (forall x, in_account (is_at x) ac' <= in_account (is_at x) ac) ->
  world_inv k (set_thread i th' (w_sys w) w) owns (<[i := ac']> acs).
Proof.
  intros. rewrite <- set_table_self at 1.
  by apply (inv_client i th ac); [| | apply only_client_refl | | |].
Qed.

Lemma all_since j ac : acs !! j = Some ac -> since_ok ac.
Proof.
  intros Hj. destruct (thread_of j ac Hj) as [th Hth].
  apply (co_since _ _ _ _ _ (wi_clients _ _ _ _ Hinv j th ac Hth Hj)).
Qed.

(** What somebody has shares in is allocated, and its key tells its server. *)
Lemma token_elem e ac i :
  acs !! i = Some ac -> 0 < tokens e ac -> addr_ok e ->
  exists el, w_heap w !! e = Some el /\ home owns (Z.to_nat (hash_get_server n (key el))) e.
Proof.
  intros Hac Hp He.
  assert (0 < all_shares owns e) as Hs.
  { rewrite <- (wi_shares _ _ _ _ Hinv e He). unfold all_tokens.
    pose proof (all_tokens_at acs i ac e all_since Hac). unfold all_tokens in *. lia. }
  apply shares_home in Hs as (s & own & Ho & x & Hx).
  destruct (es_elem (wi_estates _ _ _ _ Hinv) s own e x Ho Hx) as (_ & _ & el & Hel & _).
  exists el. split; [done|]. exists own. split; [|by eexists].
  rewrite (wi_keys _ _ _ _ Hinv s own Ho e el ltac:(by eexists) Hel). by rewrite Nat2Z.id.
Qed.

(** What a thread holds is allocated. *)
Lemma held_elem i ac v :
  acs !! i = Some ac -> v ∈ (ac_hold ac).*2 ->
  exists el, w_heap w !! elem_of_ptr v = Some el /\
    home owns (Z.to_nat (hash_get_server n (key el))) (elem_of_ptr v).
Proof.
  intros Hac Hv. destruct (thread_of i ac Hac) as [th Hth].
  pose proof (wi_clients _ _ _ _ Hinv i th ac Hth Hac) as Hco.
  pose proof (proj1 (Forall_forall _ _) (co_hold _ _ _ _ _ Hco) v Hv) as Hval.
  apply is_value_addr in Hval as [Haddr Heq]. apply (token_elem _ ac i Hac); [|done].
  pose proof (tokens_hold ac (all_since i ac Hac) (elem_of_ptr v)) as Ht. rewrite <- Heq in Ht.
  apply occurs_pos in Hv. lia.
Qed.

Lemma thread_hold th ac : thread_ok owns th ac -> th_held th ⊆ ac_hold ac.
Proof.
  unfold thread_ok. destruct (th_call th) as [[a r]|]; [|by intros [-> _]].
  intros [[-> _]|(? & ? & ? & ? & ? & _ & _ & _ & _ & -> & _)]; [done|]. by apply list_subseteq_cons.
Qed.

Lemma thread_hold_value th ac v : thread_ok owns th ac -> v ∈ (th_held th).*2 -> v ∈ (ac_hold ac).*2.
Proof.
  intros Ht Hv. apply list_elem_of_fmap in Hv as (x & -> & Hx). apply list_elem_of_fmap_2.
  by apply (thread_hold th ac Ht).
Qed.

Lemma held_pointer j th2 v :
  w_threads w !! j = Some th2 -> v ∈ (th_held th2).*2 -> addr_ok (elem_of_ptr v) /\ v = value_ptr (elem_of_ptr v).
Proof.
  intros Hj Hv. destruct (account_of j th2 Hj) as [ac2 Hac2].
  pose proof (wi_clients _ _ _ _ Hinv j th2 ac2 Hj Hac2) as Hco.
  apply is_value_addr, (proj1 (Forall_forall _ _) (co_hold _ _ _ _ _ Hco)).
  by apply (thread_hold_value th2 ac2 v (co_thread _ _ _ _ _ Hco)).
Qed.

(** The threads hold no more than the shares. *)
Lemma thread_hold_le th ac v : thread_ok owns th ac -> occurs v (th_held th).*2 <= occurs v (ac_hold ac).*2.
Proof.
  unfold thread_ok. destruct (th_call th) as [[a r]|]; [|by intros [-> _]].
  intros [[-> _]|(q & h & ptr & ? & ? & _ & _ & _ & _ & -> & _)]; [done|].
  rewrite fmap_cons. autorewrite with smp. case_match; lia.
Qed.

Lemma held_tokens_le e :
  zsum (fun th => occurs (value_ptr e) (th_held th).*2) (w_threads w) <= all_tokens acs e.
Proof.
  apply zsum_Forall2, Forall2_same_length_lookup. split; [symmetry; apply Hinv|]. intros i th ac Hth Hac.
  pose proof (co_thread _ _ _ _ _ (wi_clients _ _ _ _ Hinv i th ac Hth Hac)) as Hok.
  pose proof (thread_hold_le th ac (value_ptr e) Hok). pose proof (tokens_hold ac (all_since i ac Hac) e). lia.
Qed.

(** ** The beginning of a call *)
Lemma held_after_release ptr mark held :
  ptr ∈ held.*2 -> exists q, held ≡ₚ (q, ptr) :: held_after (WantRelease ptr mark) held.
Proof.
  induction held as [|[q v] held IH]; simpl; intros Hp; [by apply elem_of_nil in Hp|].
  destruct (Z.eqb_spec v ptr) as [->|Hne]; [by exists q|].
  apply elem_of_cons in Hp as [->|Hp]; [done|]. destruct (IH Hp) as [q2 Hq]. exists q2.
  rewrite Hq at 1. apply Permutation_swap.
Qed.

Lemma in_account_perm f bk ls hold1 hold2 since :
  hold1 ≡ₚ hold2 -> in_account f (Account bk ls hold1 since) = in_account f (Account bk ls hold2 since).
Proof. intros Hp. unfold in_account. simpl. by rewrite (zsum_perm _ _ _ Hp). Qed.

Lemma begin_inv i th o :
  w_threads w !! i = Some th -> th_call th = None -> allowed ms w (Begin i o) ->
  exists acs', world_inv k
    (set_thread i (Thread (th_asked th) (held_after o (th_held th))
       (Some (call_of (w_heap w) o, call_prog (call_of (w_heap w) o)))) (w_sys w) w) owns acs'.
Proof.
  intros Hth Hidle Ha. destruct (account_of i th Hth) as [ac Hac].
  pose proof (wi_clients _ _ _ _ Hinv i th ac Hth Hac) as Hco.
  pose proof (co_thread _ _ _ _ _ Hco) as Hok. unfold thread_ok in Hok. rewrite Hidle in Hok.
  destruct Hok as (Hhold & Hspent & Hqueue).
  assert ((exists ptr mark, o = WantRelease ptr mark) \/
          call_ok (call_of (w_heap w) o) /\ Forall (may_send ms) (sent_by (call_of (w_heap w) o)) /\
          held_after o (th_held th) = th_held th) as [(ptr & mark & ->)|(Hcall & Hmay & Hheld)].
  { destruct o as [key|key sz| | |ptr mark]; [right..|left; eauto]; simpl in *; repeat (split || constructor);
      done || apply Ha. }
  - simpl in Ha. rewrite Hth in Ha. destruct (held_elem i ac ptr Hac) as (el & Hel & Hhome); [by rewrite Hhold|].
    destruct (held_after_release ptr mark (th_held th) Ha) as [q Hperm].
    set (held' := held_after _ _) in *. clearbody held'.
    exists (<[i := Account (ac_books ac) (ac_links ac) ((q, ptr) :: held') (ac_since ac)]> acs).
    assert (forall f, in_account f (Account (ac_books ac) (ac_links ac) ((q, ptr) :: held') (ac_since ac))
              = in_account f ac) as Hsame.
    { intros f. rewrite <- (in_account_perm f _ _ _ _ _ Hperm), <- Hhold. by destruct ac. }
    apply (inv_thread i th ac); [done..| | |].
    + destruct Hco as [Hc Ht Hh Hs Hf Hr]. split; try done.
      * right. exists q, (w_heap w), ptr, mark, el. done.
      * cbn [ac_hold]. by rewrite <- Hperm, <- Hhold.
    + intros e He. unfold tokens. by rewrite Hsame.
    + intros x. by rewrite Hsame.
  - rewrite Hheld. exists acs. rewrite <- (list_insert_id acs i ac Hac).
    apply (inv_thread i th ac); [done..| |done|done].
    destruct Hco as [Hc Ht Hh Hs Hf Hr]. split; try done. left. split; [done|].
    exists (ac_books ac). split; [done|]. split; [done|]. by apply call_safe.
Qed.

(** ** The result of a call *)
Lemma answered_values taken l :
  Forall2 like taken l -> Forall is_value (filter (fun x : request * Z => x.2 <> 0) (zip taken l)).*2.
Proof.
  induction 1 as [|r v rs l Hv _ IH]; [constructor|]. cbn [zip_with]. rewrite filter_cons. case_decide; [|done].
  rewrite fmap_cons. constructor; [|done]. by destruct Hv.
Qed.

(** The call took the oldest queries of the thread. *)
Lemma call_taken bk bk' taken a o th :
  queue bk = th_asked th -> queue bk ++ accepted (a, o) = taken ++ queue bk' -> length taken = length (returned (a, o)) ->
  th_asked (after_call a o th) = queue bk' /\ zip (th_asked th ++ accepted (a, o)) (returned (a, o)) = zip taken (returned (a, o)).
Proof.
  intros Hq Ht Hl. rewrite <- Hq. cbn [after_call th_asked]. rewrite <- Hq, Ht, <- Hl. split; [apply drop_app_length|].
  rewrite zip_with_app_l. rewrite Hl, firstn_all, drop_all. by rewrite zip_with_nil_r, app_nil_r.
Qed.

Lemma return_inv i th a o :
  w_threads w !! i = Some th -> th_call th = Some (a, Done o) ->
  exists acs', world_inv k (set_thread i (after_call a o th) (w_sys w) w) owns acs'.
Proof.
  intros Hth Hcall. destruct (account_of i th Hth) as [ac Hac].
  pose proof (wi_clients _ _ _ _ Hinv i th ac Hth Hac) as Hco.
  pose proof (co_thread _ _ _ _ _ Hco) as Hok. unfold thread_ok in Hok. rewrite Hcall in Hok.
  destruct Hok as [(Hhold & bk0 & Hsp & Hqueue & taken & Htaken & Hans & Hspent)|(q & h & ptr & mark & el & -> & Hr & _)];
    [|done].
  destruct (call_taken _ _ taken a o th Hqueue Htaken (Forall2_length _ _ _ Hans)) as [Hasked Hzip].
  rewrite Hsp in Hspent. set (new := filter (fun x : request * Z => x.2 <> 0) (zip taken (returned (a, o)))).
  assert (forall f, (forall x, x.2 = 0 -> 0 <= f x) ->
    in_account f (Account (ac_books ac) (ac_links ac) (ac_hold ac ++ new) (spent (ac_books ac))) <= in_account f ac /\
    ((forall x, x.2 = 0 -> f x = 0) ->
     in_account f (Account (ac_books ac) (ac_links ac) (ac_hold ac ++ new) (spent (ac_books ac))) = in_account f ac))
    as Hacc.
  { intros f Hf. unfold in_account. cbn [ac_hold ac_books ac_links ac_since]. rewrite Hspent.
    rewrite !zsum_app. pose proof (zsum_filter_le f (fun x => x.2 <> 0) (zip taken (returned (a, o)))) as Hle.
    fold new in Hle. split.
    - assert (zsum f new <= zsum f (zip taken (returned (a, o)))); [|lia]. apply Hle.
      intros x _ Hx. apply Hf. destruct (Z.eq_dec x.2 0); [done | by destruct Hx].
    - intros Hz. unfold new. rewrite zsum_filter; [lia|]. intros x _ Hx. apply Hz.
      destruct (Z.eq_dec x.2 0); [done | by destruct Hx]. }
  exists (<[i := Account (ac_books ac) (ac_links ac) (ac_hold ac ++ new) (spent (ac_books ac))]> acs).
  apply (inv_thread i th ac); [done..| | |].
  - destruct Hco as [Hc Ht Hh Hs Hf Hrel]. split; try done.
    + split; [|done]. simpl. rewrite Hhold. unfold new. by rewrite <- Hzip.
    + cbn [ac_hold]. rewrite fmap_app. apply Forall_app. split; [done|]. by eapply answered_values.
    + intros f Hf0. simpl. unfold answers_at. pose proof (zsum_nonneg f (got (ac_books ac)) (fun x _ => Hf0 x)).
      assert (0 <= zsum (fun l => zsum f (lk_unread l)) (ac_links ac))
        by (apply zsum_nonneg; intros l _; by apply zsum_nonneg). lia.
  - intros e He. unfold tokens. f_equal. apply Hacc.
    + intros x _. apply value_at_nonneg.
    + intros x Hx. unfold value_at. rewrite Hx. pose proof (value_ptr_nonzero e He). by rewrite (proj2 (Z.eqb_neq _ _)).
  - intros x. apply Hacc. intros y _. apply is_at_nonneg.
Qed.

(** ** A step of a call *)
Lemma grown_flight ls ls' s l' :
  Forall2 (grown (may_send ms)) ls ls' -> ls' !! s = Some l' ->
  exists l new, ls !! s = Some l /\ in_flight l' = in_flight l ++ new /\ Forall (may_send ms) new.
Proof.
  intros H Hl. destruct (Forall2_lookup_r _ _ _ _ _ H Hl) as (l & Hl0 & new & Hf & Hn). eauto 10.
Qed.

Lemma no_release new e : Forall (may_send ms) new -> all_given_up e new = 0.
Proof.
  induction 1 as [|r rs [Hr _] _ IH]; [done|]. autorewrite with smp. rewrite IH. by destruct r.
Qed.

Lemma grown_flying ls ls' e : Forall2 (grown (may_send ms)) ls ls' -> flying e ls' = flying e ls.
Proof.
  unfold flying. induction 1 as [|l l' ls ls' (new & Hf & Hn) _ IH]; [done|]. autorewrite with smp.
  rewrite IH, Hf, all_given_up_app, (no_release new) by done. lia.
Qed.

Lemma grown_fits ls ls' :
  Forall2 (grown (may_send ms)) ls ls' -> Forall (fun l => Forall (fits ms) (in_flight l)) ls ->
  Forall (fun l => Forall (fits ms) (in_flight l)) ls'.
Proof.
  induction 1 as [|l l' ls ls' (new & Hf & Hn) _ IH]; intros Ho; [done|].
  apply Forall_cons in Ho as [Hl Ho]. constructor; [|by apply IH]. rewrite Hf. apply Forall_app.
  split; [done|]. eapply Forall_impl; [exact Hn|]. by intros r [_ ?].
Qed.

(** The clients of the table have as many boxes as it has servers. *)
Lemma client_servers c bk (ls ls' : list link_state) :
  client_inv like c bk ls' -> length ls' = length ls -> length ls = Z.to_nat n -> cl_nservers c = n.
Proof.
  intros [Hl _] He Hn. pose proof (li_ls _ _ _ _ _ Hl). pose proof (li_n _ _ _ _ _ Hl).
  pose proof (wi_n _ _ _ _ Hinv). lia.
Qed.

Lemma with_client_inv i pd bs c bk ls :
  pending (w_table w) !! i = Some (Some pd) -> boxes (w_table w) !! i = Some (Some bs) ->
  cl_nservers c = n -> client_inv like c bk ls ->
  exists pd bs, pending (with_client i c (w_table w)) !! i = Some (Some pd) /\
    boxes (with_client i c (w_table w)) !! i = Some (Some bs) /\ client_inv like (Client n pd bs) bk ls.
Proof.
  intros Hpd Hbs Hc Hi. exists (cl_pd c), (cl_boxes c). simpl.
  rewrite !list_lookup_insert_eq by (by eapply lookup_lt_Some). split; [done|]. split; [done|].
  rewrite <- Hc. by destruct c.
Qed.

Lemma links_length c bk ls : client_inv like c bk ls -> cl_nservers c = n -> length ls = Z.to_nat n.
Proof. intros [Hl _] <-. apply (li_ls _ _ _ _ _ Hl). Qed.

(** A call that has sent no release: its steps, and what they wait for. *)
Lemma calling_step i th ac a f :
  w_threads w !! i = Some th -> acs !! i = Some ac -> th_call th = Some (a, Step f) ->
  calling a (Step f) th ac ->
  match client_turn (Z.of_nat i) f (w_table w) with
  | Ok (t', r) => exists ac', world_inv k
      (set_thread i (Thread (th_asked th) (th_held th) (Some (a, r))) (set_sys_table t' (w_sys w)) w) owns (<[i := ac']> acs)
  | Fault Blocked => has_work (ac_links ac)
  | Fault _ => False
  end.
Proof.
  intros Hth Hac Hcall (Hhold & bk0 & Hsp & Hqueue & Hsafe).
  pose proof (wi_clients _ _ _ _ Hinv i th ac Hth Hac) as Hco.
  destruct (co_client _ _ _ _ _ Hco) as (pd & bs & Hpd & Hbs & Hci).
  rewrite (client_turn_eq _ _ _ _ f Hpd Hbs), (proj1 (proj2 (wi_n _ _ _ _ Hinv))).
  specialize (Hsafe _ _ Hci eq_refl). destruct (f _) as [[c r]|e]; [|done].
  destruct Hsafe as (bk' & ls' & Hci' & [Hans Hgrown] & Hsafe').
  assert (cl_nservers c = n) as Hcn.
  { apply (client_servers c bk' (ac_links ac) ls' Hci'); [by rewrite (Forall2_length _ _ _ Hgrown)|].
    by apply (links_length _ _ _ Hci). }
  exists (Account bk' ls' (ac_hold ac) (ac_since ac)).
  apply (inv_client i th ac); [done | done | apply with_client_only | | |].
  - destruct Hco as [_ _ Hh Hs Hf Hr]. split; simpl; try done.
    + by eapply with_client_inv.
    + left. split; [done|]. by exists bk0.
    + intros w0 Hw0. rewrite Hans. by apply Hs.
    + by eapply grown_fits.
    + intros s l' e Hl' He. destruct (grown_flight _ _ _ _ Hgrown Hl') as (l & new & Hl & Hfl & Hnew).
      rewrite Hfl in He. apply elem_of_app in He as [He|He]; [by apply (Hr s l)|].
      by destruct (proj1 (Forall_forall _ _) Hnew _ He).
  - intros e He. unfold tokens, in_account. simpl. by rewrite Hans, (grown_flying _ _ e Hgrown).
  - intros x. unfold in_account. simpl. by rewrite Hans.
Qed.

(** The message of a release goes out: the share that the thread gave up is now on
    its way to the server of the element. *)
Lemma releasing_step i th ac a f :
  w_threads w !! i = Some th -> acs !! i = Some ac -> th_call th = Some (a, Step f) ->
  releasing owns a (Step f) th ac ->
  match client_turn (Z.of_nat i) f (w_table w) with
  | Ok (t', r) => exists ac', world_inv k
      (set_thread i (Thread (th_asked th) (th_held th) (Some (a, r))) (set_sys_table t' (w_sys w)) w) owns (<[i := ac']> acs)
  | Fault Blocked => has_work (ac_links ac)
  | Fault _ => False
  end.
Proof.
  intros Hth Hac Hcall (q & h & ptr & mark & el & -> & Hprog & Hsp & Hqueue & Hhold & Hel & Hhome).
  pose proof (wi_clients _ _ _ _ Hinv i th ac Hth Hac) as Hco.
  destruct (co_client _ _ _ _ _ Hco) as (pd & bs & Hpd & Hbs & Hci).
  rewrite (client_turn_eq _ _ _ _ f Hpd Hbs), (proj1 (proj2 (wi_n _ _ _ _ Hinv))).
  assert (is_value ptr) as Hval.
  { pose proof (co_hold _ _ _ _ _ Hco) as Hh. rewrite Hhold, fmap_cons in Hh. by apply Forall_cons in Hh as [? _]. }
  apply is_value_addr in Hval as [Haddr Hptr].
  pose proof (release_sends_ok like pd_inv (may_send ms) _ _ _ h ptr mark el Haddr Hel Hci) as Hsend.
  cbn [call_prog] in Hprog.
  destruct (mp_send_release_msg_ h ptr mark) as [u|g]; [done|]. injection Hprog as ->.
  unfold release_sends in Hsend. cbn [cl_nservers] in Hsend.
  destruct (g _) as [[c r]|e]; [|done]. destruct Hsend as (l & l' & Hl & (Hf & Hu & _) & Hci' & Hsafe).
  set (s := Z.to_nat (hash_get_server n (key el))) in *.
  assert (cl_nservers c = n) as Hcn.
  { apply (client_servers c _ (ac_links ac) _ Hci'); [apply length_insert|]. by apply (links_length _ _ _ Hci). }
  exists (Account (ac_books ac) (<[s := l']> (ac_links ac)) (th_held th) (ac_since ac)).
  assert (forall f, in_account f (Account (ac_books ac) (<[s := l']> (ac_links ac)) (th_held th) (ac_since ac))
            = in_account f ac - f (q, ptr)) as Hacc.
  { intros w0. unfold in_account, answers_at. simpl. rewrite (zsum_insert _ _ _ _ _ Hl), Hu, Hhold.
    autorewrite with smp. lia. }
  apply (inv_client i th ac); [done | done | apply with_client_only | | |].
  - destruct Hco as [_ _ Hh Hs Hfit Hr]. split; simpl; try done.
    + by eapply with_client_inv.
    + left. split; [done|]. exists (ac_books ac). split; [done|]. split; [done|].
      eapply (safe_bind like pd_inv (may_send ms)); [exact Hsafe|].
      intros bk' bufs' _ [_ ->]. exists []. simpl. by rewrite !app_nil_r.
    + rewrite Hhold, fmap_cons in Hh. by apply Forall_cons in Hh as [_ ?].
    + intros w0 Hw0. unfold answers_at. simpl. rewrite (zsum_insert _ _ _ _ _ Hl), Hu. specialize (Hs w0 Hw0).
      unfold answers_at in Hs. lia.
    + apply Forall_insert; [done|]. rewrite Hf. apply Forall_app.
      split; [by apply (Forall_lookup_1 _ _ s _ Hfit Hl)|]. by constructor.
    + intros s2 l2 e Hl2 He. apply list_lookup_insert_Some in Hl2 as [(<- & <- & _)|[Hne Hl2]]; [|by apply (Hr s2 l2)].
      rewrite Hf in He. apply elem_of_app in He as [He|He]; [by apply (Hr s l)|].
      apply list_elem_of_singleton in He as [= ->]. exact Hhome.
  - intros e He. unfold tokens, flying. simpl. rewrite Hacc, !(zsum_insert _ _ _ _ _ Hl), Hf.
    autorewrite with smp. unfold value_at. simpl. destruct (Z.eqb_spec (elem_of_ptr ptr) e) as [<-|Hne].
    + rewrite <- Hptr, Z.eqb_refl. lia.
    + rewrite (proj2 (Z.eqb_neq _ _)); [lia|]. intros ->. by rewrite elem_of_value_ptr in Hne.
  - intros x. rewrite Hacc. pose proof (is_at_nonneg x (q, ptr)). lia.
Qed.

Lemma run_step i th a f :
  w_threads w !! i = Some th -> th_call th = Some (a, Step f) ->
  match client_turn (Z.of_nat i) f (w_table w) with
  | Ok (t', r) => exists acs', world_inv k
      (set_thread i (Thread (th_asked th) (th_held th) (Some (a, r))) (set_sys_table t' (w_sys w)) w) owns acs'
  | Fault Blocked => exists ac, acs !! i = Some ac /\ has_work (ac_links ac)
  | Fault _ => False
  end.
Proof.
  intros Hth Hcall. destruct (account_of i th Hth) as [ac Hac].
  pose proof (co_thread _ _ _ _ _ (wi_clients _ _ _ _ Hinv i th ac Hth Hac)) as Hok.
  unfold thread_ok in Hok. rewrite Hcall in Hok. destruct Hok as [Hok|Hok].
  - pose proof (calling_step i th ac a f Hth Hac Hcall Hok) as Hs.
    destruct (client_turn _ _ _) as [[t' r]|[]]; [destruct Hs as [ac' Hs]; eauto | done | done | eauto].
  - pose proof (releasing_step i th ac a f Hth Hac Hcall Hok) as Hs.
    destruct (client_turn _ _ _) as [[t' r]|[]]; [destruct Hs as [ac' Hs]; eauto | done | done | eauto].
Qed.

(** ** A thread writes into a value *)
Lemma write_inv i th ptr bs h' :
  w_threads w !! i = Some th -> ptr ∈ (th_held th).*2 -> write_value (w_heap w) ptr bs = Ok h' ->
  world_inv k (World (set_heap h' (w_sys w)) (w_threads w)) owns acs.
Proof.
  intros Hth Hptr Hw. destruct (account_of i th Hth) as [ac Hac].
  pose proof (wi_clients _ _ _ _ Hinv i th ac Hth Hac) as Hco.
  pose proof (thread_hold_value th ac ptr (co_thread _ _ _ _ _ Hco) Hptr) as Hin.
  destruct (held_elem i ac ptr Hac Hin) as (el & Hel & own & Ho & Hown).
  destruct (write_heads _ _ _ _ Hw) as (Hsame & Hother & _). destruct Hinv. split; simpl; try done.
  - eapply estates_rewrite; [exact wi_estates0 | done |]. intros a Ha. apply Hother. intros ->.
    destruct Hown as [x Hx]. by rewrite (Ha _ own Ho) in Hx.
  - intros s own2 Ho2 a el2 Ha Hel2. unfold w_heap in Hel2. simpl in Hel2.
    destruct (Hsame a) as [Heq|(el1 & el3 & H1 & H3 & Hk & _)].
    + apply (wi_keys0 s own2 Ho2 a el2 Ha). by rewrite <- Heq.
    + rewrite Hel2 in H3. injection H3 as <-. rewrite Hk. by apply (wi_keys0 s own2 Ho2 a el1).
  - intros j ac2 x Hj Hx. apply (answered_rewrite _ (w_heap w)); [done|]. by apply (wi_answers0 j ac2).
Qed.

(** ** A server makes a turn *)
Lemma after_visit_batch l vs rs rest :
  lk_batches l = rs :: rest -> length (filter answering rs) = length vs ->
  in_flight l = rs ++ in_flight (after_visit l vs) /\ owed (after_visit l vs) = owed l /\
  lk_unread (after_visit l vs) = lk_unread l ++ zip (filter answering rs) vs /\
  lk_buffered (after_visit l vs) = lk_buffered l.
Proof.
  intros Hb Hl. unfold after_visit. rewrite Hb. simpl. split; [|split; [|split; [|done]]].
  - unfold in_flight. rewrite Hb. simpl. by rewrite app_assoc.
  - apply (answered_owed (zip (filter answering rs) vs)). exists rs. simpl.
    rewrite fst_zip by lia. done.
  - done.
Qed.

Lemma all_like rs vs : Forall value_like vs -> Forall (fun pr => like pr.1 pr.2) (zip (filter answering rs) vs).
Proof.
  intros H. apply Forall_forall. intros [r v] Hp. apply elem_of_zip_r in Hp.
  by apply (proj1 (Forall_forall _ _) H).
Qed.

Section serve.
Context (s i : nat) (th : thread) (ac : account) (l : link_state) (rs : list request)
  (rest : list (list request)) (own : ownership).
Context (Hth : w_threads w !! i = Some th) (Hac : acs !! i = Some ac) (Hl : ac_links ac !! s = Some l).
Context (Hb : lk_batches l = rs :: rest) (Hown : owns !! s = Some own).

Lemma batch_flight r : r ∈ rs -> r ∈ in_flight l.
Proof. intros Hr. unfold in_flight. rewrite Hb. simpl. rewrite !elem_of_app. auto. Qed.

(** The releases of a batch are backed by the shares that the books show. *)
Lemma batch_backed : backed own rs.
Proof.
  intros e He. pose proof (wi_clients _ _ _ _ Hinv i th ac Hth Hac) as Hco.
  pose proof (co_home _ _ _ _ _ Hco s l e Hl (batch_flight _ He)) as Hhome.
  pose proof (home_addr (wi_estates _ _ _ _ Hinv) s e Hhome) as Haddr.
  destruct Hhome as (own2 & Ho2 & He2). rewrite Hown in Ho2. injection Ho2 as <-.
  rewrite <- (shares_at_home (wi_estates _ _ _ _ Hinv) s own e Hown He2).
  rewrite <- (wi_shares _ _ _ _ Hinv e Haddr). unfold all_tokens.
  pose proof (tokens_flying ac (all_since i ac Hac) e s l Hl) as Ht.
  assert (all_given_up e rs <= all_given_up e (in_flight l)).
  { unfold in_flight. rewrite Hb. simpl. autorewrite with smp.
    pose proof (all_given_up_nonneg e (concat rest)). pose proof (all_given_up_nonneg e (lk_buffered l)). lia. }
  pose proof (all_tokens_at acs i ac e all_since Hac). unfold all_tokens in *. lia.
Qed.

(** The insertions of a batch belong to the server. *)
Lemma batch_routed : Forall (inserts_in (fun key => hash_get_server n key = Z.of_nat s)) rs.
Proof.
  apply Forall_forall. intros r Hr. destruct r as [key|key sz|e]; try done. simpl.
  pose proof (wi_clients _ _ _ _ Hinv i th ac Hth Hac) as Hco.
  destruct (co_client _ _ _ _ _ Hco) as (pd & bs2 & _ & _ & Hlk & Hpd).
  pose proof (li_owed _ _ _ _ _ Hlk s l Hl) as Ho.
  assert (Insert key sz ∈ owed l) as Hin.
  { unfold owed. apply elem_of_app. right. apply list_elem_of_filter. split; [done | by apply batch_flight]. }
  rewrite Ho in Hin. unfold queries_of in Hin. apply list_elem_of_fmap in Hin as ([s2 r2] & Hr2 & Hin).
  simpl in Hr2. subst r2. apply list_elem_of_filter in Hin as [Hs2 Hin]. simpl in Hs2. subst s2.
  symmetry. apply (pi_routed _ _ _ Hpd _ Hin).
Qed.

Lemma batch_fits : Forall (fits ms) rs.
Proof.
  pose proof (co_fits _ _ _ _ _ (wi_clients _ _ _ _ Hinv i th ac Hth Hac)) as Hf.
  pose proof (Forall_lookup_1 _ _ s _ Hf Hl) as Hfl. cbv beta in Hfl. unfold in_flight in Hfl. rewrite Hb in Hfl. simpl in Hfl.
  by apply Forall_app in Hfl as [[? _]%Forall_app _].
Qed.

Lemma batch_ok : Forall request_ok rs /\ (length rs <= 8)%nat.
Proof.
  destruct (co_client _ _ _ _ _ (wi_clients _ _ _ _ Hinv i th ac Hth Hac)) as (pd & bs2 & _ & _ & Hlk & _).
  destruct (Forall2_lookup_r _ _ _ _ _ (li_boxes _ _ _ _ _ Hlk) Hl) as (b & _ & Hrep).
  destruct (take_batch b l scratch rs rest Hrep eq_refl Hb) as (ib & _ & _ & Hok & Hlen).
  split; [done|]. pose proof (encode_all_length rs). lia.
Qed.

Lemma batch_nonempty : rs <> [].
Proof.
  destruct (co_client _ _ _ _ _ (wi_clients _ _ _ _ Hinv i th ac Hth Hac)) as (pd & bs2 & _ & _ & Hlk & _).
  destruct (Forall2_lookup_r _ _ _ _ _ (li_boxes _ _ _ _ _ Hlk) Hl) as (b & _ & Hrep).
  destruct (take_batch b l scratch rs rest Hrep eq_refl Hb) as (ib & _ & _ & _ & Hlen). intros ->.
  simpl in Hlen. lia.
Qed.

(** A turn with a batch, as what it did. *)
Section served.
Context (own' : ownership) (vs : list Z).
Context (Hlen : length (filter answering rs) = length vs).
Context (Hsh : forall e, addr_ok e ->
  shares_of own' e = shares_of own e + occurs (value_ptr e) vs - all_given_up e rs).
Context (Hlike : Forall value_like vs).

Definition served_account : account :=
  Account (ac_books ac) (<[s := after_visit l vs]> (ac_links ac)) (ac_hold ac) (ac_since ac).

Lemma served_answers f : answers_at f (ac_books ac) (<[s := after_visit l vs]> (ac_links ac)) =
  answers_at f (ac_books ac) (ac_links ac) + zsum f (zip (filter answering rs) vs).
Proof.
  destruct (after_visit_batch l vs rs rest Hb Hlen) as (_ & _ & Hu & _).
  unfold answers_at. rewrite (zsum_insert _ _ _ _ _ Hl), Hu, zsum_app. lia.
Qed.

Lemma served_in_account f :
  in_account f served_account = in_account f ac + zsum f (zip (filter answering rs) vs).
Proof. unfold in_account. simpl. rewrite served_answers. lia. Qed.

Lemma served_tokens e : tokens e served_account = tokens e ac + occurs (value_ptr e) vs - all_given_up e rs.
Proof.
  destruct (after_visit_batch l vs rs rest Hb Hlen) as (Hf & _).
  unfold tokens. rewrite served_in_account, zsum_value_at, snd_zip by lia. unfold flying. simpl.
  rewrite (zsum_insert _ _ _ _ _ Hl), Hf. autorewrite with smp. lia.
Qed.

Lemma served_since j ac2 : <[i := served_account]> acs !! j = Some ac2 -> since_ok ac2.
Proof.
  intros Hj. apply list_lookup_insert_Some in Hj as [(<- & <- & _)|[_ Hj]]; [|by apply (all_since j)].
  intros f Hf. simpl. rewrite served_answers. pose proof (all_since i ac Hac f Hf).
  pose proof (zsum_nonneg f (zip (filter answering rs) vs) (fun x _ => Hf x)). lia.
Qed.

Lemma served_shares e : addr_ok e -> all_tokens (<[i := served_account]> acs) e = all_shares (<[s := own']> owns) e.
Proof.
  intros He. pose proof (wi_shares _ _ _ _ Hinv e He) as Hs. unfold all_tokens, all_shares in *.
  rewrite (zsum_insert _ _ _ _ _ Hac), (zsum_insert _ _ _ _ _ Hown), served_tokens, (Hsh e He). lia.
Qed.

Lemma served_home j ac2 s2 e :
  <[i := served_account]> acs !! j = Some ac2 -> 0 < tokens e ac2 -> home owns s2 e ->
  home (<[s := own']> owns) s2 e.
Proof.
  intros Hj Ht Hh. apply (still_home (wi_estates _ _ _ _ Hinv)); [done|].
  rewrite <- served_shares by (by apply (home_addr (wi_estates _ _ _ _ Hinv) s2)).
  pose proof (all_tokens_at _ j ac2 e served_since Hj). lia.
Qed.

(** A thread stays where it is in its call. *)
Lemma thread_moves owns' th2 ac1 ac2 :
  ac_books ac2 = ac_books ac1 -> ac_hold ac2 = ac_hold ac1 -> ac_since ac2 = ac_since ac1 ->
  lk_buffered <$> ac_links ac2 = lk_buffered <$> ac_links ac1 ->
  (forall ptr s2, ptr ∈ (ac_hold ac2).*2 -> home owns s2 (elem_of_ptr ptr) -> home owns' s2 (elem_of_ptr ptr)) ->
  thread_ok owns th2 ac1 -> thread_ok owns' th2 ac2.
Proof.
  intros Hbk Hh Hs Hbf Hhome. unfold thread_ok, calling, releasing. rewrite Hbk, Hh, Hs, Hbf in *.
  destruct (th_call th2) as [[a r]|]; [|done].
  intros [?|(q & h & ptr & mark & el & Ha & Hr & Hsp & Hqu & Hhold & Hel & Hho)]; [by left|]. right.
  exists q, h, ptr, mark, el. do 6 (split; [done|]). apply Hhome; [rewrite Hhold; by left | done].
Qed.

Lemma held_tokens j ac2 ptr :
  <[i := served_account]> acs !! j = Some ac2 -> Forall is_value (ac_hold ac2).*2 -> ptr ∈ (ac_hold ac2).*2 ->
  0 < tokens (elem_of_ptr ptr) ac2.
Proof.
  intros Hj Hv Hin. pose proof (tokens_hold ac2 (served_since j ac2 Hj) (elem_of_ptr ptr)) as Ht.
  pose proof (proj1 (Forall_forall _ _) Hv ptr Hin) as Hval. apply is_value_addr in Hval as [_ Heq].
  rewrite <- Heq in Ht. apply occurs_pos in Hin. lia.
Qed.

(** The other clients. *)
Lemma served_other t' j th2 ac2 :
  j <> i -> acs !! j = Some ac2 -> pending t' = pending (w_table w) ->
  boxes t' !! j = boxes (w_table w) !! j ->
  client_ok owns (w_table w) j th2 ac2 -> client_ok (<[s := own']> owns) t' j th2 ac2.
Proof.
  intros Hne Hj Hpd Hbs Hco. assert (<[i := served_account]> acs !! j = Some ac2) as Hj'
    by (by rewrite list_lookup_insert_ne).
  destruct Hco as [Hc Ht Hh Hs Hf Hr]. split; try done.
  - by rewrite Hpd, Hbs.
  - apply (thread_moves _ th2 ac2 ac2); [done..| |exact Ht]. intros ptr s2 Hin. apply (served_home j ac2); [done|].
    by apply (held_tokens j).
  - intros s2 l2 e Hl2 He. apply (served_home j ac2); [done | | by apply (Hr s2 l2)].
    apply all_given_up_pos in He. pose proof (tokens_flying ac2 Hs e s2 l2 Hl2). lia.
Qed.

(** The client itself. *)
Lemma served_self t' b' pd bxs :
  pending (w_table w) !! i = Some (Some pd) -> boxes (w_table w) !! i = Some (Some bxs) ->
  client_inv like (Client n pd bxs) (ac_books ac) (ac_links ac) -> link_rep b' (after_visit l vs) ->
  pending t' = pending (w_table w) -> boxes t' = <[i := Some (<[s := b']> bxs)]> (boxes (w_table w)) ->
  client_ok (<[s := own']> owns) t' i th served_account.
Proof.
  intros Hpd Hbs [Hlk Hpi] Hrep Hpd' Hbs'.
  assert (<[i := served_account]> acs !! i = Some served_account) as Hi
    by (apply list_lookup_insert_eq; by eapply lookup_lt_Some).
  destruct (after_visit_batch l vs rs rest Hb Hlen) as (Hf & Ho & _ & Hbuf).
  destruct (wi_clients _ _ _ _ Hinv i th ac Hth Hac) as [Hc Ht Hh Hs Hfit Hr]. split; try done.
  - exists pd, (<[s := b']> bxs). rewrite Hpd', Hbs'. split; [done|].
    split; [apply list_lookup_insert_eq; by eapply lookup_lt_Some|]. split; [|done].
    apply (li_set_box like n bxs (ac_books ac) (ac_links ac) Hlk s b' l); try done.
    unfold after_visit. rewrite Hb. simpl. apply Forall_app.
    split; [by apply (li_unread_at _ _ _ _ _ Hlk s) | by apply all_like].
  - apply (thread_moves _ th ac served_account); [done..| | |exact Ht].
    + by apply (fmap_insert_same _ _ _ l).
    + intros ptr s2 Hin. apply (served_home i served_account); [done|]. by apply (held_tokens i).
  - by apply (served_since i).
  - apply Forall_insert; [done|]. pose proof (Forall_lookup_1 _ _ s _ Hfit Hl) as Hfl. cbv beta in Hfl.
    rewrite Hf in Hfl. by apply Forall_app in Hfl as [_ ?].
  - intros s2 l2 e Hl2 He. apply (served_home i served_account); [done | |].
    + apply all_given_up_pos in He. pose proof (tokens_flying served_account (served_since i _ Hi) e s2 l2 Hl2). lia.
    + simpl in Hl2. apply list_lookup_insert_Some in Hl2 as [(<- & <- & _)|[_ Hl2]]; [|by apply (Hr s2 l2)].
      apply (Hr s l); [done|]. rewrite Hf. apply elem_of_app. by right.
Qed.

(** Values that somebody holds go through the turn: the server cannot have been told
    to give up all shares, and other servers' memory it does not touch. *)
Section values.
Context (h' : heap) (Hfp : footprint own (w_heap w) own' h').
Context (Hsv : forall e, all_given_up e rs < shares_of own e -> survives own own' (w_heap w) h' e).
Context (Hab : Forall2 (answered_by own' h') (filter answering rs) vs).

Lemma batch_leaves j ac2 e :
  acs !! j = Some ac2 -> addr_ok e -> 0 < in_account (value_at (value_ptr e)) ac2 ->
  all_given_up e rs < all_shares owns e.
Proof.
  intros Hj He Hx. rewrite <- (wi_shares _ _ _ _ Hinv e He). unfold all_tokens, tokens. rewrite zsum_add.
  assert (in_account (value_at (value_ptr e)) ac2 <= zsum (in_account (value_at (value_ptr e))) acs) as H1.
  { apply zsum_member; [|by eapply list_elem_of_lookup_2]. intros ac3 Hin.
    apply list_elem_of_lookup in Hin as [j3 Hj3].
    apply (in_account_nonneg ac3 (all_since j3 ac3 Hj3)), value_at_nonneg. }
  assert (flying e (ac_links ac) <= zsum (fun ac => flying e (ac_links ac)) acs) as H2.
  { apply (zsum_member (fun ac => flying e (ac_links ac)));
      [intros; apply flying_nonneg | by eapply list_elem_of_lookup_2]. }
  pose proof (flying_at e _ _ _ Hl) as H3. unfold in_flight in H3. rewrite Hb in H3. cbn [concat] in H3.
  autorewrite with smp in H3. pose proof (all_given_up_nonneg e (concat rest)).
  pose proof (all_given_up_nonneg e (lk_buffered l)). lia.
Qed.

(** Somebody else than this batch holds [e]. *)
Lemma value_survives j ac2 e :
  acs !! j = Some ac2 -> 0 < in_account (value_at (value_ptr e)) ac2 -> addr_ok e -> is_Some (own !! e) ->
  survives own own' (w_heap w) h' e.
Proof.
  intros Hj Hx Haddr He. apply Hsv. pose proof (batch_leaves j ac2 e Hj Haddr Hx) as Hlt.
  by rewrite (shares_at_home (wi_estates _ _ _ _ Hinv) s own e Hown He) in Hlt.
Qed.

Lemma held_kept j th2 v :
  w_threads w !! j = Some th2 -> v ∈ (th_held th2).*2 -> kept (w_heap w) h' (elem_of_ptr v).
Proof.
  intros Hj Hv. destruct (account_of j th2 Hj) as [ac2 Hac2].
  pose proof (wi_clients _ _ _ _ Hinv j th2 ac2 Hj Hac2) as Hco.
  pose proof (thread_hold_value th2 ac2 v (co_thread _ _ _ _ _ Hco) Hv) as Hin.
  destruct (held_elem j ac2 v Hac2 Hin) as (el & Hel & own2 & Ho2 & Hhs).
  destruct (held_pointer j th2 v Hj Hv) as [Haddr Heq].
  assert (0 < in_account (value_at (value_ptr (elem_of_ptr v))) ac2) as Hx.
  { rewrite <- Heq. pose proof (in_account_hold ac2 (all_since j ac2 Hac2) _ (value_at_nonneg v)) as Hle.
    rewrite zsum_value_at in Hle. apply occurs_pos in Hin. lia. }
  destruct (books_survive (wi_estates _ _ _ _ Hinv) s own own' h' Hown Hfp _ own2 _ Ho2 Hhs)
    as (own3 & _ & hs & hs' & el2 & rc & _ & _ & _ & Hel2 & Hel3).
  - intros Hs2. rewrite Hs2 in Ho2. rewrite Hown in Ho2. injection Ho2 as <-. by apply (value_survives j ac2).
  - by exists el2, rc.
Qed.

Lemma served_answers_in j ac2 x :
  <[i := served_account]> acs !! j = Some ac2 -> 0 < in_account (is_at x) ac2 ->
  answered_in (<[s := own']> owns) h' x.
Proof.
  intros Hj Hx.
  assert (forall j ac2, acs !! j = Some ac2 -> 0 < in_account (is_at x) ac2 ->
    answered_in (<[s := own']> owns) h' x) as Hold.
  { clear j ac2 Hj Hx. intros j ac2 Hj Hx.
    apply (answered_moved (wi_estates _ _ _ _ Hinv) s own own' h' Hown Hfp x); [|by apply (wi_answers _ _ _ _ Hinv j ac2)].
    intros e Haddr Hv He. apply (answer_share ac2 (all_since j ac2 Hj)) in Hx. rewrite Hv in Hx.
    by apply (value_survives j ac2). }
  apply list_lookup_insert_Some in Hj as [(<- & <- & _)|[_ Hj]]; [|by apply (Hold j ac2)].
  rewrite served_in_account in Hx.
  destruct (Z.lt_ge_cases 0 (in_account (is_at x) ac)) as [?|Hz]; [by apply (Hold i ac)|].
  assert (x ∈ zip (filter answering rs) vs) as Hin by (apply zsum_is_at; lia).
  right. exists s, own'. rewrite list_lookup_insert_eq by (by eapply lookup_lt_Some). split; [done|].
  destruct x as [r v]. apply list_elem_of_lookup in Hin as [q Hq].
  apply lookup_zip_Some in Hq as [Hq1 Hq2]. apply (Forall2_lookup_lr _ _ _ _ _ _ Hab Hq1 Hq2).
Qed.
End values.
End served.
End serve.

(** Nothing but counters and clocks changed: a turn without a batch. *)
Lemma idle_turn i th s sy' pd bxs b' l lc' :
  w_threads w !! i = Some th ->
  pending (w_table w) !! i = Some (Some pd) -> boxes (w_table w) !! i = Some (Some bxs) ->
  link_rep b' l -> (exists ac, acs !! i = Some ac /\ ac_links ac !! s = Some l /\
    client_inv like (Client n pd bxs) (ac_books ac) (ac_links ac)) ->
  same_clients (w_table w) (sy_table sy') -> boxes (sy_table sy') = <[i := Some (<[s := b']> bxs)]> (boxes (w_table w)) ->
  partitions (sy_table sy') = partitions (w_table w) -> hp (sy_mem sy') = w_heap w ->
  sy_locals sy' = <[s := lc']> (sy_locals (w_sys w)) -> length (localbuf lc') = Z.to_nat INPB_SIZE ->
  world_inv k (World sy' (w_threads w)) owns acs.
Proof.
  intros Hth Hpd Hbs Hrep (ac & Hac & Hl & Hlk & Hpi) (Hns & Hnc & Hpd' & _) Hbx Hparts Hhp Hloc Hlc.
  destruct Hinv. split; simpl; try done.
  - unfold w_table. simpl. rewrite Hparts. eapply estates_rewrite; [exact wi_estates0 | |]; intros a; rewrite Hhp; [by left | done].
  - intros s2 own2. unfold w_heap. simpl. rewrite Hhp. apply wi_keys0.
  - unfold w_table. simpl. by rewrite Hns, Hparts.
  - rewrite Hloc, length_insert. split; [apply wi_locals0|]. by apply Forall_insert; [apply wi_locals0|].
  - unfold w_table. simpl. by rewrite Hnc.
  - intros j th2 ac2 Hj1 Hj2. specialize (wi_clients0 j th2 ac2 Hj1 Hj2). destruct wi_clients0 as [Hc Ht Hh Hs Hf Hr].
    split; try done. unfold w_table. simpl. rewrite Hpd', Hbx. destruct (decide (j = i)) as [->|Hne].
    + exists pd, (<[s := b']> bxs). split; [done|].
      split; [apply list_lookup_insert_eq; by eapply lookup_lt_Some|].
      assert (ac2 = ac) as -> by congruence. split; [|done]. simpl.
      rewrite <- (list_insert_id (ac_links ac) s l Hl).
      apply (li_set_box like n bxs (ac_books ac) (ac_links ac) Hlk s b' l l); try done.
      by apply (li_unread_at _ _ _ _ _ Hlk s).
    + by rewrite list_lookup_insert_ne by done.
  - intros j ac2 x. unfold w_heap. simpl. rewrite Hhp. apply wi_answers0.
Qed.

Lemma owned_heap m1 m2 own p j :
  hp m2 = hp m1 -> owned mp_release_value_ j own m1 p -> owned mp_release_value_ j own m2 p.
Proof. intros He Ho. eapply owned_rewrite; [exact Ho|]. intros a. left. by rewrite He. Qed.

Lemma batch_served `{M : Machine} spins s i th ac l rs rest own p m1 :
  0 <= k -> k + 8 < 2 ^ 62 -> ms < 2 ^ 63 ->
  w_threads w !! i = Some th -> acs !! i = Some ac -> ac_links ac !! s = Some l -> lk_batches l = rs :: rest ->
  owns !! s = Some own -> partitions (w_table w) !! s = Some p -> hp m1 = w_heap w ->
  match serve_all spins rs m1 p with
  | Ok (vs, m', p') => exists own', Forall value_like vs /\
      (forall e, addr_ok e -> shares_of own' e = shares_of own e + occurs (value_ptr e) vs - all_given_up e rs) /\
      keys_in (fun key => hash_get_server n key = Z.of_nat s) own' (hp m') /\
      footprint own (w_heap w) own' (hp m') /\
      estates mp_release_value_ h0 ms ev (k + 8) m' (<[s := p']> (partitions (w_table w))) (<[s := own']> owns) /\
      (forall e, all_given_up e rs < shares_of own e -> survives own own' (w_heap w) (hp m') e) /\
      Forall2 (answered_by own' (hp m')) (filter answering rs) vs
  | Fault Undefined => False
  | Fault Blocked => ev = EVICT_RANDOM
  | Fault AssertFailed => exists sz, elem_size sz <= ms /\ refused (base.size (w_heap w) + 8) sz
  end.
Proof.
  intros Hk Hk8 Hms Hth Hac Hl Hb Hown Hp Hhp.
  destruct (batch_ok s i th ac l rs rest Hth Hac Hl Hb) as [Hok Hlen].
  pose proof (batch_fits s i th ac l rs rest Hth Hac Hl Hb) as Hfit.
  pose proof (batch_routed s i th ac l rs rest Hth Hac Hl Hb) as Hroute.
  pose proof (batch_backed s i th ac l rs rest own Hth Hac Hl Hb Hown) as Hback.
  pose proof (wi_keys _ _ _ _ Hinv s own Hown) as Hkeys. rewrite <- Hhp in Hkeys.
  destruct (es_part (wi_estates _ _ _ _ Hinv) s p own Hp Hown) as (Hpo & Hmx & Hpev).
  pose proof (owned_heap _ m1 own p k Hhp Hpo) as Hpo1.
  pose proof (serve_all_ok spins _ ms rs k own m1 p Hk ltac:(lia) Hpo1 Hms Hmx Hok Hfit Hroute Hback Hkeys) as Hs.
  destruct (serve_all spins rs m1 p) as [[[vs m'] p']|[]]; [|
    destruct Hs as (key & sz & Hin & Href); exists sz; split; [|apply (refused_more _ _ _ Href); rewrite Hhp; lia];
      exact (proj1 (Forall_forall _ _) Hfit _ Hin) | done | congruence].
  destruct Hs as (own' & Hinv' & Hfp & Hmx' & Hev' & Hsh & Hlike & Hkeys' & Hsv & Hab). exists own'.
  rewrite Hhp in Hfp. rewrite Hhp in Hsv. do 4 (split; [done|]). split; [|done].
  destruct (decide (rs = [])) as [->|Hne].
  { by destruct (batch_nonempty s i th ac l [] rest Hth Hac Hl Hb). }
  assert (1 <= length rs)%nat by (destruct rs; simpl; [done | lia]).
  apply (estates_le _ _ _ _ (k + Z.of_nat (length rs))); [lia|].
  replace (k + Z.of_nat (length rs)) with ((k + (Z.of_nat (length rs) - 1)) + 1) in * by lia.
  eapply (estates_update _ _ _ _ (k + (Z.of_nat (length rs) - 1)) (sy_mem (w_sys w))
    (partitions (w_table w)) owns); [|done..].
  apply (estates_le _ _ _ _ k); [lia | apply Hinv].
Qed.

(** Keys tell the server also after a batch. *)
Lemma served_keys s own own' p' m2 :
  owns !! s = Some own -> footprint own (w_heap w) own' (hp m2) ->
  keys_in (fun key => hash_get_server n key = Z.of_nat s) own' (hp m2) ->
  estates mp_release_value_ h0 ms ev (k + 8) m2 (<[s := p']> (partitions (w_table w))) (<[s := own']> owns) ->
  forall s2 own2, <[s := own']> owns !! s2 = Some own2 ->
    keys_in (fun key => hash_get_server n key = Z.of_nat s2) own2 (hp m2).
Proof.
  intros Hown Hfp Hkeys Hes' s2 own2 Ho2.
  apply list_lookup_insert_Some in Ho2 as [(<- & <- & _)|[Hne Ho2]]; [done|].
  intros a el Ha Hel. apply (wi_keys _ _ _ _ Hinv s2 own2 Ho2 a); [done|].
  pose proof (es_apart (wi_estates _ _ _ _ Hinv) s2 s own2 own a Ho2 Hown (not_eq_sym Hne) Ha) as H1.
  pose proof (es_apart Hes' s2 s own2 own' a) as H2. rewrite list_lookup_insert_ne in H2 by done.
  rewrite list_lookup_insert_eq in H2 by (by eapply lookup_lt_Some).
  specialize (H2 Ho2 eq_refl (not_eq_sym Hne) Ha). specialize (Hfp a). rewrite H1, H2 in Hfp. congruence.
Qed.

Lemma served_world s i th ac l rs rest own p' own' vs pd bxs b' m2 sy' lc' :
  w_threads w !! i = Some th -> acs !! i = Some ac -> ac_links ac !! s = Some l -> lk_batches l = rs :: rest ->
  owns !! s = Some own -> length (filter answering rs) = length vs -> Forall value_like vs ->
  (forall e, addr_ok e -> shares_of own' e = shares_of own e + occurs (value_ptr e) vs - all_given_up e rs) ->
  keys_in (fun key => hash_get_server n key = Z.of_nat s) own' (hp m2) ->
  footprint own (w_heap w) own' (hp m2) ->
  estates mp_release_value_ h0 ms ev (k + 8) m2 (<[s := p']> (partitions (w_table w))) (<[s := own']> owns) ->
  (forall e, all_given_up e rs < shares_of own e -> survives own own' (w_heap w) (hp m2) e) ->
  Forall2 (answered_by own' (hp m2)) (filter answering rs) vs ->
  pending (w_table w) !! i = Some (Some pd) -> boxes (w_table w) !! i = Some (Some bxs) ->
  client_inv like (Client n pd bxs) (ac_books ac) (ac_links ac) -> link_rep b' (after_visit l vs) ->
  same_clients (w_table w) (sy_table sy') ->
  boxes (sy_table sy') = <[i := Some (<[s := b']> bxs)]> (boxes (w_table w)) ->
  partitions (sy_table sy') = <[s := p']> (partitions (w_table w)) -> hp (sy_mem sy') = hp m2 ->
  sy_locals sy' = <[s := lc']> (sy_locals (w_sys w)) -> length (localbuf lc') = Z.to_nat INPB_SIZE ->
  world_inv (k + 8) (World sy' (w_threads w)) (<[s := own']> owns) (<[i := served_account s ac l vs]> acs).
Proof.
  intros Hth Hac Hl Hb Hown Hvl Hlike Hsh Hkeys Hfp Hes' Hsv Hab Hpd Hbs Hci Hrep (Hns & Hnc & Hpend & _)
    Hbx Hparts Hhp Hloc Hlc.
  split; simpl.
  - unfold w_table. simpl. rewrite Hparts. eapply estates_rewrite; [exact Hes' | |]; intros a; rewrite Hhp;
      [by left | done].
  - unfold w_heap. simpl. rewrite Hhp. by apply (served_keys s own own' p').
  - unfold w_table. simpl. rewrite Hns, Hparts, length_insert. apply Hinv.
  - rewrite Hloc, length_insert. split; [apply Hinv|]. by apply Forall_insert; [apply (wi_locals _ _ _ _ Hinv)|].
  - unfold w_table. simpl. rewrite Hnc. apply Hinv.
  - rewrite length_insert. apply Hinv.
  - intros j th2 ac2 Hj1 Hj2. apply list_lookup_insert_Some in Hj2 as [(<- & <- & _)|[Hne Hj2]].
    + assert (th2 = th) as -> by congruence.
      by apply (served_self s i th ac l rs rest own Hth Hac Hl Hb Hown own' vs Hvl Hsh Hlike _ b' pd bxs).
    + apply (served_other s i ac l rs rest own Hac Hl Hb Hown own' vs Hvl Hsh); try done; [|by apply Hinv].
      unfold w_table at 1. simpl. rewrite Hbx. by apply list_lookup_insert_ne.
  - by apply (served_shares s i ac l rs rest own Hac Hl Hb Hown own' vs Hvl Hsh).
  - intros j ac2 x. unfold w_heap. simpl. rewrite Hhp.
    by apply (served_answers_in s i ac l rs rest own).
Qed.

Lemma held_same j th2 v :
  w_threads w !! j = Some th2 -> v ∈ (th_held th2).*2 -> kept (w_heap w) (w_heap w) (elem_of_ptr v).
Proof.
  intros Hj Hv. destruct (account_of j th2 Hj) as [ac2 Hac2].
  pose proof (co_thread _ _ _ _ _ (wi_clients _ _ _ _ Hinv j th2 ac2 Hj Hac2)) as Hok.
  destruct (held_elem j ac2 v Hac2 (thread_hold_value th2 ac2 v Hok Hv)) as (el & Hel & _).
  exists el, (ref_count el). split; [done|]. rewrite Hel. by destruct el.
Qed.

Lemma turn_inv `{M : Machine} spins s i th :
  0 <= k -> k + 8 < 2 ^ 62 -> ms < 2 ^ 63 -> (s < Z.to_nat n)%nat -> w_threads w !! i = Some th ->
  match server_turn spins s i (w_sys w) with
  | Ok sy' => (exists owns' acs', world_inv (k + 8) (World sy' (w_threads w)) owns' acs') /\
      forall j th2 v, w_threads w !! j = Some th2 -> v ∈ (th_held th2).*2 ->
        kept (w_heap w) (hp (sy_mem sy')) (elem_of_ptr v)
  | Fault Undefined => False
  | Fault Blocked => ev = EVICT_RANDOM
  | Fault AssertFailed => exists sz, elem_size sz <= ms /\ refused (base.size (w_heap w) + 8) sz
  end.
Proof.
  intros Hk Hk8 Hms Hs Hth. destruct (account_of i th Hth) as [ac Hac].
  pose proof (wi_clients _ _ _ _ Hinv i th ac Hth Hac) as Hco.
  destruct (co_client _ _ _ _ _ Hco) as (pd & bxs & Hpd & Hbs & Hlk & Hpi).
  destruct (wi_n _ _ _ _ Hinv) as (Hn & Hns & Hnp). destruct (wi_locals _ _ _ _ Hinv) as [Hnl Hlb].
  destruct (lookup_lt_is_Some_2 (partitions (w_table w)) s) as [p Hp]; [lia|].
  destruct (lookup_lt_is_Some_2 (sy_locals (w_sys w)) s) as [lc Hlc]; [lia|].
  destruct (es_books (wi_estates _ _ _ _ Hinv) s p Hp) as [own Hown].
  pose proof (li_ls _ _ _ _ _ Hlk) as Hlen. cbn [cl_nservers] in Hlen.
  destruct (li_box like n bxs _ _ Hlk s) as (b & l & Hb & Hl & Hrep); [lia|].
  pose proof (li_owed_room _ _ _ _ _ Hlk s l Hl) as Howed.
  unfold server_turn. rewrite Hlc. cbn [deref mbind result_bind].
  pose proof (server_visit_link spins (negb (track_cpu_usage (w_table w) =? 0)) s i (w_table w) (sy_mem (w_sys w)) lc
    bxs b l p Hbs Hb Hrep Howed Hp (Forall_lookup_1 _ _ _ _ Hlb Hlc)) as Hv.
  unfold w_table in Hv. destruct (server_visit _ _ _ _ _ _ _) as [[[t' m'] lc']|f].
  - cbn [mbind result_bind mret result_ret].
    destruct Hv as (Hlc' & Hsame & b' & vs & Hbx & Hrep' & Hv).
    destruct (lk_batches l) as [|rs rest] eqn:Hbt.
    + destruct Hv as [Hparts Hhp]. split; [|intros j th2 v Hj Hv2; simpl; rewrite Hhp; by apply (held_same j th2)].
      exists owns, acs.
      assert (after_visit l vs = l) as Hav by (unfold after_visit; by rewrite Hbt). rewrite Hav in Hrep'.
      pose proof (idle_turn i th s (Sys t' m' (<[s := lc']> (sy_locals (w_sys w)))) pd bxs b' l lc' Hth Hpd Hbs
        Hrep' ltac:(exists ac; done) Hsame Hbx Hparts Hhp eq_refl Hlc') as Hw.
      destruct Hw. split; try done. by apply (estates_le _ _ _ _ k); [lia|].
    + destruct Hv as (m1 & m2 & p' & Hhp1 & Hsrv & _ & _ & Hparts & Hhp').
      pose proof (batch_served spins s i th ac l rs rest own p m1 Hk Hk8 Hms Hth Hac Hl Hbt Hown Hp Hhp1) as Hbs'.
      rewrite Hsrv in Hbs'. destruct Hbs' as (own' & Hlike & Hsh & Hkeys' & Hfp & Hes' & Hsv & Hab).
      pose proof (Forall2_length _ _ _ (serve_all_answers _ _ _ _ _ _ _ Hsrv)) as Hvl.
      split; [|intros j th2 v; simpl; rewrite Hhp'; by eapply (held_kept s i ac l rs rest own)].
      exists (<[s := own']> owns), (<[i := served_account s ac l vs]> acs).
      by eapply (served_world s i th ac l rs rest own p' own' vs pd bxs b' m2).
  - cbn [mbind result_bind]. destruct Hv as (rs & rest & m1 & Hbt & Hhp1 & Hsrv).
    pose proof (batch_served spins s i th ac l rs rest own p m1 Hk Hk8 Hms Hth Hac Hl Hbt Hown Hp Hhp1) as Hbs'.
    rewrite Hsrv in Hbs'. by destruct f.
Qed.
End step.

(** ** Reachable worlds *)
Section reach.
Context `{M : Machine} (spins : nat) (Hms : ms < 2 ^ 63).

Lemma inv_le k k' w owns acs : k <= k' -> world_inv k w owns acs -> world_inv k' w owns acs.
Proof. intros Hk []. split; try done. by apply (estates_le _ _ _ _ k). Qed.

Lemma step_inv k w w' owns acs :
  0 <= k -> k + 8 < 2 ^ 62 -> world_inv k w owns acs -> world_step spins ms w w' ->
  exists owns' acs', world_inv (k + 8) w' owns' acs'.
Proof.
  intros Hk Hk8 Hinv (a & Ha & Hact).
  assert ((exists owns' acs', world_inv k w' owns' acs') \/ exists owns' acs', world_inv (k + 8) w' owns' acs')
    as [(owns' & acs' & Hi)|Hi]; [|exists owns', acs'; by apply (inv_le k); [lia|] | done].
  destruct a as [i o|i|i|i ptr bs|s i]; simpl in Hact.
  - destruct (w_threads w !! i) as [th|] eqn:Hth; [|done]. cbn [mbind option_bind] in Hact.
    destruct (th_call th) eqn:Hc; [done|]. injection Hact as <-. left. exists owns.
    by apply (begin_inv k w owns acs Hinv).
  - destruct (w_threads w !! i) as [th|] eqn:Hth; [|done]. cbn [mbind option_bind] in Hact.
    destruct (th_call th) as [[c [o|f]]|] eqn:Hc; try done. injection Hact as Hact.
    pose proof (run_step k w owns acs Hinv i th c f Hth Hc) as Hr. unfold w_table in Hr.
    destruct (client_turn _ _ _) as [[t r]|]; [|done]. cbn [mbind result_bind mret result_ret] in Hact.
    injection Hact as <-. left. by exists owns.
  - destruct (w_threads w !! i) as [th|] eqn:Hth; [|done]. cbn [mbind option_bind] in Hact.
    destruct (th_call th) as [[c [o|f]]|] eqn:Hc; try done. injection Hact as <-. left. exists owns.
    by apply (return_inv k w owns acs Hinv i th c o).
  - simpl in Ha. destruct (w_threads w !! i) as [th|] eqn:Hth; [|done]. injection Hact as Hact.
    apply bind_Ok in Hact as (h' & Hh & Hact). injection Hact as <-. left. exists owns, acs.
    by apply (write_inv k w owns acs Hinv i th ptr bs).
  - destruct (decide _) as [[Hs Hi]|]; [|done]. injection Hact as Hact.
    apply bind_Ok in Hact as (sy' & Ht & Hact). injection Hact as <-. right.
    destruct (lookup_lt_is_Some_2 _ _ Hi) as [th Hth].
    pose proof (wi_n _ _ _ _ Hinv) as (_ & Hns & _). unfold w_table in Hns. rewrite Hns in Hs.
    pose proof (turn_inv k w owns acs Hinv spins s i th Hk Hk8 Hms Hs Hth) as Hturn.
    rewrite Ht in Hturn. apply Hturn.
Qed.

Lemma steps_inv j k w w' owns acs :
  nsteps (world_step spins ms) j w w' -> 0 <= k -> k + 8 * Z.of_nat j < 2 ^ 62 -> world_inv k w owns acs ->
  exists owns' acs', world_inv (k + 8 * Z.of_nat j) w' owns' acs'.
Proof.
  intros Hs. revert k owns acs. induction Hs as [w|j w1 w2 w3 H1 _ IH]; intros k owns acs Hk Hlt Hinv.
  - exists owns, acs. by rewrite Z.add_0_r.
  - destruct (step_inv k w1 w2 owns acs Hk ltac:(lia) Hinv H1) as (owns2 & acs2 & Hinv2).
    destruct (IH (k + 8) owns2 acs2 ltac:(lia) ltac:(lia) Hinv2) as (owns3 & acs3 & Hinv3).
    exists owns3, acs3. replace (k + 8 * Z.of_nat (S j)) with (k + 8 + 8 * Z.of_nat j) by lia. done.
Qed.
(** What a thread holds is changed by nobody but a thread that holds it too. *)
Lemma step_kept k w a w' owns acs j th v :
  0 <= k -> k + 8 < 2 ^ 62 -> world_inv k w owns acs -> allowed ms w a -> world_act spins a w = Some (Ok w') ->
  w_threads w !! j = Some th -> v ∈ (th_held th).*2 -> (forall i bs, a <> Write i v bs) ->
  kept (w_heap w) (w_heap w') (elem_of_ptr v).
Proof.
  intros Hk Hk8 Hinv Ha Hact Hj Hv Hnw.
  assert (w_heap w' = w_heap w -> kept (w_heap w) (w_heap w') (elem_of_ptr v)) as Hsame
    by (intros ->; by apply (held_same k w owns acs Hinv j th)).
  destruct a as [i o|i|i|i ptr bs|s i]; simpl in Hact.
  - destruct (w_threads w !! i) as [thi|]; [|done]. cbn [mbind option_bind] in Hact.
    destruct (th_call thi); [done|]. apply Hsame. by injection Hact as <-.
  - destruct (w_threads w !! i) as [thi|]; [|done]. cbn [mbind option_bind] in Hact.
    destruct (th_call thi) as [[c [o|f]]|]; try done. injection Hact as Hact.
    destruct (client_turn _ _ _) as [[t r]|]; [|done]. apply Hsame. by injection Hact as <-.
  - destruct (w_threads w !! i) as [thi|]; [|done]. cbn [mbind option_bind] in Hact.
    destruct (th_call thi) as [[c [o|f]]|]; try done. apply Hsame. by injection Hact as <-.
  - simpl in Ha. destruct (w_threads w !! i) as [thi|] eqn:Hi; [|done]. injection Hact as Hact.
    apply bind_Ok in Hact as (h' & Hh & Hact). injection Hact as <-.
    destruct (held_same k w owns acs Hinv j th v Hj Hv) as (el & rc & Hel & Hrc).
    exists el, rc. split; [done|]. unfold w_heap. simpl.
    apply write_value_Ok in Hh as (el2 & _ & _ & ->). rewrite lookup_insert_ne; [done|].
    intros He. apply (Hnw i bs). f_equal.
    destruct (held_pointer k w owns acs Hinv i thi ptr Hi Ha) as [_ ->].
    destruct (held_pointer k w owns acs Hinv j th v Hj Hv) as [_ ->]. by rewrite He.
  - destruct (decide _) as [[Hs Hi]|]; [|done]. injection Hact as Hact.
    apply bind_Ok in Hact as (sy' & Ht & Hact). injection Hact as <-.
    destruct (lookup_lt_is_Some_2 _ _ Hi) as [thi Hthi].
    pose proof (wi_n _ _ _ _ Hinv) as (_ & Hns & _). unfold w_table in Hns. rewrite Hns in Hs.
    pose proof (turn_inv k w owns acs Hinv spins s i thi Hk Hk8 Hms Hs Hthi) as Hturn.
    rewrite Ht in Hturn. destruct Hturn as [_ Hkept]. by apply (Hkept j th).
Qed.
End reach.
End invariant.
