(* ===== verification/ConcurrentThms.v ===== *)
(** * ConcurrentThms: programs with many threads, from creation to destruction

    What the invariant of [ConcurrentInv] means for the threads, the servers and
    the memory: the whole message-passing table is safe under every interleaving, and
    when all is released and at rest its destruction gives all memory back. *)
From stdpp Require Import base list gmap relations.
From Stdlib Require Import ZArith Lia.
From S2P Require Import Prelude Protocol ALock MPBuffers Value Partition PartitionInv PartitionThms.
From S2P Require Import Ownership Server ServerThms HashTable Estates Holders Shares.
From S2P Require Import LockingThms Client Link LinkInv ClientInv SystemThms DoallThms HashTableThms.
From S2P Require Import System Concurrent ConcurrentInv.

Local Open Scope Z_scope.

(** ** The start *)
Lemma create_client_made t c t' :
  create_hash_table_client t = Ok (c, t') -> 0 <= nclients t -> length (boxes t) = Z.to_nat MAX_CLIENTS ->
  nclients t' = nclients t + 1 /\ ht_nservers t' = ht_nservers t /\ partitions t' = partitions t /\
  length (boxes t') = Z.to_nat MAX_CLIENTS /\
  forall j, (boxes t' !! j = if decide (j = Z.to_nat (nclients t))
               then Some (Some (cl_boxes (new_client (ht_nservers t)))) else boxes t !! j) /\
            (pending t' !! j = if decide (j = Z.to_nat (nclients t))
               then Some (Some (cl_pd (new_client (ht_nservers t)))) else pending t !! j).
Proof.
  unfold create_hash_table_client. intros Hc Hn Hlen. apply bind_Ok in Hc as (u & _ & Hc).
  apply bind_Ok in Hc as (bs & [Hr ->]%aset_Ok & Hc). apply bind_Ok in Hc as (ps & [Hr2 ->]%aset_Ok & Hc).
  injection Hc as _ <-. simpl. rewrite Hlen in *. change (Z.of_nat (Z.to_nat MAX_CLIENTS)) with 1024 in *.
  rewrite length_insert, i32_small by lia. split_and!; try done. intros j. case_decide as Hj; [subst j|].
  - rewrite !list_lookup_insert_eq by (rewrite ?Hlen; unfold MAX_CLIENTS; lia). done.
  - by rewrite !list_lookup_insert_ne by done.
Qed.

Lemma clients_made nc t t' :
  create_clients nc t = Ok t' -> 0 <= nclients t -> length (boxes t) = Z.to_nat MAX_CLIENTS ->
  nclients t' = nclients t + Z.of_nat nc /\ ht_nservers t' = ht_nservers t /\ partitions t' = partitions t /\
  (forall j, (j < Z.to_nat (nclients t))%nat -> boxes t' !! j = boxes t !! j /\ pending t' !! j = pending t !! j) /\
  forall j, (Z.to_nat (nclients t) <= j < Z.to_nat (nclients t) + nc)%nat ->
    boxes t' !! j = Some (Some (cl_boxes (new_client (ht_nservers t)))) /\
    pending t' !! j = Some (Some (cl_pd (new_client (ht_nservers t)))).
Proof.
  revert t. induction nc as [|nc IH]; intros t Hc Hn Hlen; cbn [create_clients] in Hc.
  - injection Hc as <-. split_and!; try done; lia.
  - apply bind_Ok in Hc as ([c t1] & H1 & Hc).
    destruct (create_client_made t c t1 H1 Hn Hlen) as (Hn1 & Hs1 & Hp1 & Hl1 & Hj1).
    destruct (IH t1 Hc ltac:(lia) Hl1) as (Hn2 & Hs2 & Hp2 & Hold & Hnew). rewrite Hn1, Hs1 in *.
    split_and!; [lia | done | congruence | |].
    + intros j Hj. destruct (Hold j) as [-> ->]; [lia|]. destruct (Hj1 j) as [-> ->].
      by rewrite !decide_False by lia.
    + intros j Hj. destruct (decide (j = Z.to_nat (nclients t))) as [->|Hne].
      * destruct (Hold (Z.to_nat (nclients t))) as [-> ->]; [lia|].
        destruct (Hj1 (Z.to_nat (nclients t))) as [-> ->]. by rewrite !decide_True.
      * apply Hnew. lia.
Qed.

Definition new_account (n : Z) : account :=
  Account (Books [] [] []) (replicate (Z.to_nat n) (LinkState [] [] [])) [] [].

Lemma new_in_account n f : in_account f (new_account n) = 0.
Proof.
  unfold in_account, answers_at. cbn [ac_hold ac_books ac_links ac_since new_account spent got].
  rewrite zsum_replicate. autorewrite with smp. cbn [lk_unread]. autorewrite with smp. lia.
Qed.

Lemma new_tokens n e : tokens e (new_account n) = 0.
Proof.
  unfold tokens. rewrite new_in_account. unfold flying. cbn [ac_links new_account].
  rewrite zsum_replicate. unfold in_flight. simpl. autorewrite with smp. lia.
Qed.

Lemma new_client_ok ms n owns t i :
  0 < n < 2 ^ 31 ->
  boxes t !! i = Some (Some (cl_boxes (new_client n))) -> pending t !! i = Some (Some (cl_pd (new_client n))) ->
  client_ok n ms owns t i (Thread [] [] None) (new_account n).
Proof.
  intros Hn Hb Hp. split; simpl; try done.
  - eexists _, _. split; [exact Hp|]. split; [exact Hb|]. by apply (new_client_inv like n).
  - intros f Hf. pose proof (new_in_account n f) as H. unfold in_account in H.
    cbn [ac_hold ac_since new_account] in H |- *. autorewrite with smp in *. lia.
  - by apply Forall_replicate.
  - intros s l e Hl He. apply lookup_replicate in Hl as [-> _]. inversion He.
Qed.

Section program.
Context `{M : Machine} (spins : nat).
Context (raw : hash_table) (raws : list (partition * list alock)) (total n ev : Z) (ht t : hash_table).
Context (nc : nat) (m : mem) (ls : list locals).
Context (Hht : create_hash_table raw raws total n ev = Ok ht) (Hev : ev = EVICT_LRU \/ ev = EVICT_RANDOM)
  (Htotal : 0 <= total < 2 ^ 63) (Ht : create_clients nc ht = Ok t).
Context (Hls : length ls = Z.to_nat n /\ Forall (fun lc => length (localbuf lc) = Z.to_nat INPB_SIZE) ls).

(** The size of every partition. *)
Definition share : Z := total / u64 n.

Lemma start_inv :
  world_inv (hp m) n share ev 0 (start_world t m ls nc) (no_holders (partitions ht)) (replicate nc (new_account n)).
Proof.
  destruct (created_parts _ _ _ _ _ _ Hht) as (Hpos & Hlen & _).
  pose proof (created_bound _ _ _ _ _ _ Hht) as Hb. unfold MAX_CLIENTS in Hb.
  pose proof (estates_created mp_release_value_ raw raws total n ev ht Hht Hev Htotal m) as Hes.
  assert (nclients ht = 0 /\ ht_nservers ht = n /\ length (boxes ht) = Z.to_nat MAX_CLIENTS) as (H0 & Hn & Hbl).
  { unfold create_hash_table in Hht. apply bind_Ok in Hht as (u & _ & H). apply bind_Ok in H as (ps & _ & H).
    apply Ok_inj in H. rewrite <- H. split; [done|]. split; [done|]. apply length_replicate. }
  destruct (clients_made nc ht t Ht ltac:(lia) Hbl) as (Hnc & Hns & Hps & _ & Hnew).
  rewrite H0, Hn in *. split; simpl.
  - unfold w_table. simpl. by rewrite Hps.
  - intros s own Ho a el [x Hx]. apply lookup_replicate in Ho as [-> _]. done.
  - unfold w_table. simpl. rewrite Hns, Hps. split_and!; [lia | lia | done | lia].
  - done.
  - unfold w_table. simpl. by rewrite length_replicate.
  - by rewrite !length_replicate.
  - intros i th ac Hi1 Hi2. apply lookup_replicate in Hi1 as [-> Hi]. apply lookup_replicate in Hi2 as [-> _].
    destruct (Hnew i) as [Hb1 Hp1]; [lia|]. apply new_client_ok; [lia | done..].
  - intros e _. unfold all_tokens, all_shares, no_holders.
    rewrite !zsum_replicate, new_tokens. unfold shares_of. rewrite lookup_empty. lia.
  - intros i ac x Hac Hx. apply lookup_replicate in Hac as [-> _]. rewrite new_in_account in Hx. lia.
Qed.

Section reached.
Context (j : nat) (w : world) (Hj : 8 * Z.of_nat (S j) < 2 ^ 62).
Context (Hsteps : nsteps (world_step spins share) j (start_world t m ls nc) w).

Lemma reached_world : 0 < n < 2 ^ 31 /\ share < 2 ^ 63 /\ exists owns acs,
  world_inv (hp m) n share ev (8 * Z.of_nat j) w owns acs.
Proof.
  pose proof start_inv as Hstart. pose proof (wi_n _ _ _ _ _ _ _ _ Hstart) as (Hn & _).
  pose proof (share_bound _ _ _ _ _ _ Hht Htotal (created_bound _ _ _ _ _ _ Hht)) as Hshare.
  split; [done|]. split; [apply Hshare|].
  destruct (steps_inv (hp m) n share ev spins (proj2 Hshare) j 0 _ w _ _ Hsteps ltac:(lia) ltac:(lia) Hstart)
    as (owns & acs & Hinv). by exists owns, acs.
Qed.

(** Server [s] has a batch of client [i] to serve. *)
Definition has_batch (s i : nat) : Prop :=
  exists bs b count buf ib, boxes (w_table w) !! i = Some (Some bs) /\ bs !! s = Some b /\
    inpb_read (bin b) scratch = Ok (count, buf, ib) /\ count <> 0.

Lemma work_batch owns acs i ac k :
  world_inv (hp m) n share ev k w owns acs -> acs !! i = Some ac -> has_work (ac_links ac) ->
  exists s, (s < Z.to_nat n)%nat /\ has_batch s i.
Proof.
  intros Hinv Hac (s & l & Hl & Hne). destruct (thread_of _ _ _ _ _ _ _ _ Hinv i ac Hac) as [th Hth].
  destruct (co_client _ _ _ _ _ _ _ (wi_clients _ _ _ _ _ _ _ _ Hinv i th ac Hth Hac)) as (pd & bs & _ & Hbs & Hlk & _).
  pose proof (li_ls _ _ _ _ _ Hlk) as Hlen. cbn [cl_nservers] in Hlen.
  destruct (Forall2_lookup_r _ _ _ _ _ (li_boxes _ _ _ _ _ Hlk) Hl) as (b & Hb & Hrep).
  exists s. split; [apply lookup_lt_Some in Hl; lia|].
  destruct (lk_batches l) as [|rs rest] eqn:Hbt; [done|].
  destruct (take_batch b l scratch rs rest Hrep eq_refl Hbt) as (ib & Hr & _ & _ & Hcount).
  eexists bs, b, _, _, ib. split; [done|]. split; [done|]. split; [exact Hr | lia].
Qed.

(** C3: the message-passing table as a whole, under every interleaving of the
    threads of its clients, the turns of its servers, and writes into values.
    What a thread holds is allocated, and was not before the program began. A
    call goes on, or waits for a server that has a batch of that client to
    serve; no call fails. No server ever touches freed or foreign memory: its
    turn can only fail in the random search for a victim or for want of memory.
    Every element has the count of its holders, no thread holds it more often
    than it is counted, and all other memory is as it was. *)
Theorem table_safe :
  (forall i th v, w_threads w !! i = Some th -> v ∈ (th_held th).*2 ->
     hp m !! elem_of_ptr v = None /\ is_Some (w_heap w !! elem_of_ptr v)) /\
  (forall i th a f, w_threads w !! i = Some th -> th_call th = Some (a, Step f) ->
     match client_turn (Z.of_nat i) f (w_table w) with
     | Ok _ => True
     | Fault Blocked => exists s, (s < Z.to_nat n)%nat /\ has_batch s i
     | Fault _ => False
     end) /\
  (forall s i, (s < Z.to_nat n)%nat -> (i < length (w_threads w))%nat ->
     match server_turn spins s i (w_sys w) with
     | Ok _ => True
     | Fault Undefined => False
     | Fault Blocked => ev = EVICT_RANDOM
     | Fault AssertFailed => exists sz, elem_size sz <= share /\ refused (base.size (w_heap w) + 8) sz
     end) /\
  exists owns : list ownership,
    (forall s own e hs, owns !! s = Some own -> own !! e = Some hs ->
       zsum (fun th => occurs (value_ptr e) (th_held th).*2) (w_threads w) <= b2z (writing hs) + readers hs /\
       exists el, w_heap w !! e = Some el /\ ref_count el = mp_count hs) /\
    (forall e, (forall s own, owns !! s = Some own -> own !! e = None) -> w_heap w !! e = hp m !! e).
Proof.
  destruct reached_world as (Hn & Hms & owns & acs & Hinv). pose proof (wi_estates _ _ _ _ _ _ _ _ Hinv) as Hes.
  split_and!.
  - intros i th v Hth Hv. destruct (account_of _ _ _ _ _ _ _ _ Hinv i th Hth) as [ac Hac].
    pose proof (wi_clients _ _ _ _ _ _ _ _ Hinv i th ac Hth Hac) as Hco.
    destruct (held_elem _ _ _ _ _ _ _ _ Hinv i ac v Hac) as (el & Hel & own & Ho & Hown).
    { by apply (thread_hold_value n share owns th ac v (co_thread _ _ _ _ _ _ _ Hco)). }
    split; [by apply (es_in Hes _ own _ Ho) | by eexists].
  - intros i th a f Hth Hc. pose proof (run_step _ _ _ _ _ _ _ _ Hinv i th a f Hth Hc) as Hr.
    destruct (client_turn _ _ _) as [[t' r]|[]]; try done. destruct Hr as (ac & Hac & Hwork).
    by apply (work_batch owns acs i ac (8 * Z.of_nat j)).
  - intros s i Hs Hi. destruct (lookup_lt_is_Some_2 _ _ Hi) as [th Hth].
    pose proof (turn_inv _ _ _ _ _ _ _ _ Hinv spins s i th ltac:(lia) ltac:(lia) Hms Hs Hth) as Hturn.
    by destruct (server_turn _ _ _ _) as [sy'|[]].
  - exists owns. split; [|apply (es_out Hes)]. intros s own e hs Ho He.
    destruct (es_elem Hes s own e hs Ho He) as (_ & Haddr & Hel). split; [|exact Hel].
    pose proof (wi_shares _ _ _ _ _ _ _ _ Hinv e Haddr) as Hs.
    rewrite (shares_at_home Hes s own e Ho ltac:(by eexists)) in Hs.
    unfold shares_of in Hs. rewrite He in Hs. change (b2z (writing hs) + readers hs) with (shares hs).
    rewrite <- Hs. apply (held_tokens_le _ _ _ _ _ _ _ _ Hinv).
Qed.

(** What a thread holds, in the books. *)
Lemma held_answer owns acs i th x :
  world_inv (hp m) n share ev (8 * Z.of_nat j) w owns acs -> w_threads w !! i = Some th -> x ∈ th_held th ->
  exists s own e hs el, owns !! s = Some own /\ x.2 = value_ptr e /\ addr_ok e /\ own !! e = Some hs /\
    own_ok (8 * Z.of_nat j) hs /\ w_heap w !! e = Some el /\ ref_count el = mp_count hs /\
    match x.1 with
    | Lookup k => key el = k /\ writing hs = false
    | Insert k sz => key el = k /\ size el = elem_size sz /\ writing hs = true
    | Release _ => False
    end.
Proof.
  intros Hinv Hth Hx. destruct (account_of _ _ _ _ _ _ _ _ Hinv i th Hth) as [ac Hac].
  pose proof (wi_clients _ _ _ _ _ _ _ _ Hinv i th ac Hth Hac) as Hco.
  assert (0 < in_account (is_at x) ac) as Hin.
  { pose proof (in_account_hold ac (co_since _ _ _ _ _ _ _ Hco) _ (is_at_nonneg x)) as Hle.
    pose proof (thread_hold _ _ _ _ _ (co_thread _ _ _ _ _ _ _ Hco) x Hx) as Hh.
    apply zsum_is_at in Hh. lia. }
  destruct (wi_answers _ _ _ _ _ _ _ _ Hinv i ac x Hac Hin) as [Hz|(s & own & Ho & [Hz|Ha])].
  3: { destruct Ha as (e & hs & el & Haddr & Hv & He & Hel & Hr).
       destruct (es_elem (wi_estates _ _ _ _ _ _ _ _ Hinv) s own e hs Ho He) as (Hok & _ & el2 & Hel2 & Hrc).
       exists s, own, e, hs, el. do 6 (split; [done|]). split; [|done]. unfold w_heap in Hel. rewrite Hel in Hel2.
       injection Hel2 as <-. exact Hrc. }
  all: exfalso; destruct (held_pointer _ _ _ _ _ _ _ _ Hinv i th x.2 Hth) as [Haddr Hv];
    [by apply list_elem_of_fmap_2 | apply (value_ptr_nonzero _ Haddr); congruence].
Qed.

(** C4: answers are right and values are stable, under every interleaving. What a
    thread holds as the answer to a lookup is the ready value of an element with the
    key of that query; what it holds as the answer to an insertion is an element
    with the key, to which the size of that query is accounted, and nobody else
    holds it. As long as a thread holds a value, key, size and bytes stay the same
    unless a thread that holds the value too writes into it: the bytes that a
    reader sees are those that the writer left. A write into a value that is held
    goes through exactly when its bytes lie in the block that the allocator gave,
    and then changes these bytes and nothing else; past the end of the block it is
    undefined. That the block has room for the size of the query is not promised:
    [hash_insert] requests 64 bytes. *)
Theorem answers_right :
  (forall i th r v, w_threads w !! i = Some th -> (r, v) ∈ th_held th ->
     exists el, w_heap w !! elem_of_ptr v = Some el /\
       match r with
       | Lookup k => key el = k /\ is_value_ready el = true
       | Insert k sz => key el = k /\ size el = elem_size sz /\
           forall j th', w_threads w !! j = Some th' ->
             occurs v (th_held th').*2 = if decide (j = i) then 1 else 0
       | Release _ => False
       end) /\
  (forall a w' i th v, allowed share w a -> world_act spins a w = Some (Ok w') ->
     w_threads w !! i = Some th -> v ∈ (th_held th).*2 -> (forall j bs, a <> Write j v bs) ->
     exists el rc, w_heap w !! elem_of_ptr v = Some el /\ w_heap w' !! elem_of_ptr v = Some (set_ref_count rc el)) /\
  (forall i th v bs, w_threads w !! i = Some th -> v ∈ (th_held th).*2 ->
     exists el, w_heap w !! elem_of_ptr v = Some el /\
       world_act spins (Write i v bs) w = Some (
         if decide (length bs <= length (value el))%nat then
           Ok (World (set_heap (<[elem_of_ptr v := Elem (key el) (ref_count el) (size el)
                                    (bs ++ drop (length bs) (value el))]> (w_heap w)) (w_sys w)) (w_threads w))
         else Fault Undefined)).
Proof.
  destruct reached_world as (Hn & Hms & owns & acs & Hinv). pose proof (wi_estates _ _ _ _ _ _ _ _ Hinv) as Hes.
  split_and!.
  - intros i th r v Hth Hx.
    destruct (held_answer owns acs i th (r, v) Hinv Hth Hx)
      as (s & own & e & hs & el & Ho & Hv & Haddr & He & (Hrd & Hwr & _) & Hel & Hrc & Hr).
    simpl in Hv, Hr. subst v. rewrite elem_of_value_ptr by done. exists el. split; [done|].
    destruct r as [k|k sz|]; [|destruct Hr as (Hk & Hz & Hw)|done].
    + split; [apply Hr|]. destruct Hr as [_ Hw]. unfold is_value_ready. rewrite Hrc, mp_count_split, marked.
      * by rewrite Hw, andb_false_r.
      * rewrite Hw. unfold b2z. case_match; lia.
    + split; [done|]. split; [done|]. intros j2 th' Hth'.
      pose proof (held_tokens_le _ _ _ _ _ _ _ _ Hinv e) as Hle. rewrite (wi_shares _ _ _ _ _ _ _ _ Hinv e Haddr) in Hle.
      rewrite (shares_at_home Hes s own e Ho ltac:(by eexists)) in Hle.
      unfold shares_of in Hle. rewrite He in Hle. unfold shares in Hle. rewrite Hw, (Hwr Hw) in Hle. simpl in Hle.
      assert (0 < occurs (value_ptr e) (th_held th).*2) as Hpos
        by (apply occurs_pos, list_elem_of_fmap; by exists (Insert k sz, value_ptr e)).
      case_decide as Hj2; [subst j2|].
      * assert (th' = th) as -> by congruence.
        pose proof (zsum_member (fun th => occurs (value_ptr e) (th_held th).*2) (w_threads w) th
          ltac:(intros; apply occurs_nonneg) ltac:(by eapply list_elem_of_lookup_2)). simpl in *. lia.
      * pose proof (zsum_two (fun th => occurs (value_ptr e) (th_held th).*2) (w_threads w) i j2 th th'
          ltac:(intros; apply occurs_nonneg) Hth Hth' (not_eq_sym Hj2)) as H2. simpl in H2.
        pose proof (occurs_nonneg (value_ptr e) (th_held th').*2). lia.
  - intros a w' i th v Ha Hact Hth Hv Hnw.
    by apply (step_kept (hp m) n share ev spins Hms (8 * Z.of_nat j) w a w' owns acs i th v); [lia..| | | | | |].
  - intros i th v bs Hth Hv. apply list_elem_of_fmap in Hv as (x & -> & Hx).
    destruct (held_answer owns acs i th x Hinv Hth Hx) as (s & own & e & hs & el & _ & Hp & Haddr & _ & _ & Hel & _).
    exists el. rewrite Hp, elem_of_value_ptr by done. split; [done|]. cbn [world_act].
    rewrite (write_value_spec _ _ _ el) by (by rewrite elem_of_value_ptr). rewrite elem_of_value_ptr by done.
    by case_decide.
Qed.
End reached.
End program.

(** ** At rest

    No thread holds anything, waits for an answer or is in a call, and every request
    has been served. *)
Definition quiet_box (b : box) : Prop :=
  local_index (bin b) = 0 /\ exists buf ib, inpb_read (bin b) scratch = Ok (0, buf, ib).

Definition at_rest (w : world) : Prop :=
  (forall th, th ∈ w_threads w -> th = Thread [] [] None) /\
  forall i bs, boxes (w_table w) !! i = Some (Some bs) -> Forall quiet_box bs.

Lemma quiet_link b l : link_rep b l -> quiet_box b -> owed l = [] -> in_flight l = [] /\ lk_unread l = [].
Proof.
  intros Hrep [Hi (buf & ib & Hr)] Ho.
  assert (lk_batches l = []) as Hb.
  { destruct (lk_batches l) as [|rs rest] eqn:Hb; [done|].
    destruct (take_batch b l scratch rs rest Hrep eq_refl Hb) as (ib2 & Hr2 & _ & _ & Hc).
    rewrite Hr in Hr2. injection Hr2 as Hz _ _. lia. }
  pose proof (ir_index _ _ _ (lr_in _ _ Hrep)) as Hx. rewrite Hi in Hx.
  assert (lk_buffered l = []) as Hbuf by (apply encode_all_nil, length_zero_iff_nil; lia).
  unfold owed in Ho. apply app_nil in Ho as [Hu _]. apply fmap_nil_inv in Hu.
  unfold in_flight. by rewrite Hb, Hbuf.
Qed.

Section rest.
Context (h0 : heap) (n ms ev k : Z) (w : world) (owns : list ownership) (acs : list account).
Context (Hinv : world_inv h0 n ms ev k w owns acs) (Hrest : at_rest w).

Lemma rest_tokens i ac e : acs !! i = Some ac -> tokens e ac = 0.
Proof.
  intros Hac. destruct (thread_of _ _ _ _ _ _ _ _ Hinv i ac Hac) as [th Hth].
  pose proof (wi_clients _ _ _ _ _ _ _ _ Hinv i th ac Hth Hac) as Hco. destruct Hrest as [Hths Hcl].
  pose proof (Hths th ltac:(by eapply list_elem_of_lookup_2)) as ->.
  destruct (co_thread _ _ _ _ _ _ _ Hco) as (Hh & Hsp & Hqu). cbn [th_held th_asked] in Hh, Hqu.
  destruct (co_client _ _ _ _ _ _ _ Hco) as (pd & bs & Hpd & Hbs & Hlk & _).
  pose proof (Hcl i bs Hbs) as Hq. apply queue_nil in Hqu.
  assert (forall l, l ∈ ac_links ac -> in_flight l = [] /\ lk_unread l = []) as Hl.
  { intros l Hin. apply list_elem_of_lookup in Hin as [s Hs].
    destruct (Forall2_lookup_r _ _ _ _ _ (li_boxes _ _ _ _ _ Hlk) Hs) as (b & Hb & Hrep).
    apply (quiet_link b); [done | by apply (Forall_lookup_1 _ _ _ _ Hq Hb)|].
    rewrite (li_owed _ _ _ _ _ Hlk s l Hs), Hqu. done. }
  unfold tokens, in_account, answers_at, flying. rewrite Hh, Hsp.
  rewrite (zsum_zero (fun l => zsum _ (lk_unread l))) by (intros l Hin; by destruct (Hl l Hin) as [_ ->]).
  rewrite (zsum_zero (fun l => all_given_up e _)) by (intros l Hin; by destruct (Hl l Hin) as [-> _]).
  rewrite Hqu. simpl. autorewrite with smp. lia.
Qed.

(** Every element is in a table, with one reference. *)
Lemma rest_element s own a hs :
  owns !! s = Some own -> own !! a = Some hs ->
  in_table hs = true /\ exists el, w_heap w !! a = Some el /\ ref_count el = 1.
Proof.
  intros Ho Ha. pose proof (wi_estates _ _ _ _ _ _ _ _ Hinv) as Hes.
  destruct (es_elem Hes s own a hs Ho Ha) as ((Hr & _ & Hnb) & Haddr & el & Hel & Hrc).
  pose proof (wi_shares _ _ _ _ _ _ _ _ Hinv a Haddr) as Hs. unfold all_tokens in Hs.
  rewrite zsum_zero in Hs by (intros ac Hin; apply list_elem_of_lookup in Hin as [i Hi]; by apply (rest_tokens i)).
  rewrite (shares_at_home Hes s own a Ho ltac:(by eexists)) in Hs. unfold shares_of in Hs.
  rewrite Ha in Hs. unfold shares in Hs. rewrite nobody_count in Hnb by lia. apply Z.eqb_neq in Hnb.
  destruct hs as [[] [] r]; unfold b2z in *; simpl in *; try lia.
  split; [done|]. exists el. split; [done|]. rewrite Hrc. change (mp_count (Holds true false r) = 1).
  unfold mp_count, b2z. simpl. lia.
Qed.
End rest.

Section whole.
Context `{M : Machine} (spins : nat).
Context (raw : hash_table) (raws : list (partition * list alock)) (total n ev : Z) (ht t : hash_table).
Context (nc : nat) (m : mem) (ls : list locals) (j : nat) (w : world).

(** C5: nothing leaks. Whatever a program did on the table, once it holds
    nothing, has taken all answers and the servers have served all requests,
    destroying the table succeeds, and the memory is as it was before the table
    was made. *)
Theorem table_returns_memory :
  create_hash_table raw raws total n ev = Ok ht -> ev = EVICT_LRU \/ ev = EVICT_RANDOM ->
  0 <= total < 2 ^ 63 -> create_clients nc ht = Ok t ->
  length ls = Z.to_nat n /\ Forall (fun lc => length (localbuf lc) = Z.to_nat INPB_SIZE) ls ->
  8 * Z.of_nat (S j) < 2 ^ 62 ->
  nsteps (world_step spins (share total n)) j (start_world t m ls nc) w -> at_rest w ->
  destroy_hash_table (w_heap w) (w_table w) = Ok (hp m).
Proof.
  intros Hht Hev Htotal Ht Hls Hj Hsteps Hrest.
  destruct (reached_world spins raw raws total n ev ht t nc m ls Hht Hev Htotal Ht Hls j w Hj Hsteps)
    as (Hn & _ & owns & acs & Hinv).
  pose proof (wi_estates _ _ _ _ _ _ _ _ Hinv) as Hes.
  apply (unheld_memory Hes).
  - intros i Hi. rewrite (wi_nclients _ _ _ _ _ _ _ _ Hinv), Nat2Z.id in Hi.
    destruct (lookup_lt_is_Some_2 _ _ Hi) as [th Hth]. destruct (account_of _ _ _ _ _ _ _ _ Hinv i th Hth) as [ac Hac].
    destruct (co_client _ _ _ _ _ _ _ (wi_clients _ _ _ _ _ _ _ _ Hinv i th ac Hth Hac)) as (pd & bs & Hpd & Hbs & _).
    by exists pd, bs.
  - intros s own a hs. by apply (rest_element (hp m) n (share total n) ev _ w owns acs Hinv Hrest).
Qed.
End whole.

(** ** A program with two threads on two partitions

    Thread 0 inserts under key 4, writes the value and marks it ready; thread 1 looks
    the key up, gets the value, and releases it. *)
Definition program_table : hash_table :=
  match create_clients 2 LockingThms.demo_table with Ok t => t | Fault _ => LockingThms.demo_raw end.

Definition program_start : world :=
  start_world program_table (Mem ∅ 0) (replicate 2 (Locals scratch 0 0 0 0)) 2.

Definition program_insert : list world_action :=
  [Begin 0 (WantInsert 4 100); Run 0; Run 0; Run 0; Return 0;
   Begin 0 WantNext; Run 0; Run 0; Run 0; Serve 0 0; Run 0; Run 0; Return 0;
   Write 0 4160 [7]; Begin 0 (WantRelease 4160 true); Run 0; Run 0; Return 0; Serve 0 0].

Definition program_lookup : list world_action :=
  [Begin 1 (WantLookup 4); Run 1; Run 1; Run 1; Return 1;
   Begin 1 WantNext; Run 1; Run 1; Run 1; Serve 0 1; Run 1; Run 1; Return 1].

Definition program_release : list world_action :=
  [Begin 1 (WantRelease 4160 true); Run 1; Run 1; Return 1; Serve 0 1].

Definition program_after (l : list world_action) : world :=
  default program_start (run_world 8 512 l program_start).

Lemma program_steps l :
  run_world 8 512 l program_start = Some (program_after l) ->
  nsteps (world_step 8 512) (length l) program_start (program_after l).
Proof. apply run_world_steps. Qed.

Lemma program_created : create_clients 2 LockingThms.demo_table = Ok program_table.
Proof. vm_compute. reflexivity. Qed.

Lemma program_locals :
  length (replicate 2 (Locals scratch 0 0 0 0)) = Z.to_nat 2 /\
  Forall (fun lc => length (localbuf lc) = Z.to_nat INPB_SIZE) (replicate 2 (Locals scratch 0 0 0 0)).
Proof. split; [reflexivity|]. repeat constructor. Qed.

(** A world is at rest when its threads are and the clients that exist are. *)
Definition quiet_boxb (b : box) : bool :=
  (local_index (bin b) =? 0) && match inpb_read (bin b) scratch with Ok (0, _, _) => true | _ => false end.

Definition rest_clientb (x : option (list box)) : bool :=
  match x with Some bs => forallb quiet_boxb bs | None => true end.

Lemma at_rest_check w :
  w_threads w = replicate (length (w_threads w)) (Thread [] [] None) ->
  forallb rest_clientb (boxes (w_table w)) = true -> at_rest w.
Proof.
  intros Hth Hcl. split.
  - intros th Hin. rewrite Hth in Hin. by apply elem_of_replicate in Hin as [-> _].
  - intros i bs Hbs. rewrite forallb_forall in Hcl.
    assert (In (Some bs) (boxes (w_table w))) as Hin
      by (apply list_elem_of_In; by eapply list_elem_of_lookup_2).
    pose proof (Hcl (Some bs) Hin) as Hq. simpl in Hq. apply Forall_forall. intros b Hb.
    rewrite forallb_forall in Hq. apply list_elem_of_In in Hb.
    specialize (Hq b Hb). apply andb_true_iff in Hq as [Hi Hr]. split; [by apply Z.eqb_eq|].
    destruct (inpb_read _ _) as [[[[] buf] ib]|]; try done. eauto.
Qed.

Lemma table_safe_witness :
  is_Some (w_heap (program_after (program_insert ++ program_lookup)) !! 4096).
Proof.
  destruct (table_safe 8 LockingThms.demo_raw LockingThms.demo_raws 1024 2 EVICT_LRU LockingThms.demo_table
    program_table 2 (Mem ∅ 0) (replicate 2 (Locals scratch 0 0 0 0)) LockingThms.demo_table_created
    (or_introl eq_refl) ltac:(split; reflexivity || discriminate) program_created program_locals
    32 (program_after (program_insert ++ program_lookup)) ltac:(reflexivity)
    (program_steps (program_insert ++ program_lookup) ltac:(vm_compute; reflexivity))) as (H & _).
  destruct (H 1%nat (Thread [] [(Lookup 4, 4160)] None) 4160) as [_ Hel].
  - vm_compute. reflexivity.
  - left.
  - exact Hel.
Defined.

Lemma answers_right_witness :
  exists el, w_heap (program_after (program_insert ++ program_lookup)) !! 4096 = Some el /\
    key el = 4 /\ is_value_ready el = true.
Proof.
  destruct (answers_right 8 LockingThms.demo_raw LockingThms.demo_raws 1024 2 EVICT_LRU LockingThms.demo_table
    program_table 2 (Mem ∅ 0) (replicate 2 (Locals scratch 0 0 0 0)) LockingThms.demo_table_created
    (or_introl eq_refl) ltac:(split; reflexivity || discriminate) program_created program_locals
    32 (program_after (program_insert ++ program_lookup)) ltac:(reflexivity)
    (program_steps (program_insert ++ program_lookup) ltac:(vm_compute; reflexivity))) as (H & _).
  apply (H 1%nat (Thread [] [(Lookup 4, 4160)] None) (Lookup 4) 4160).
  - vm_compute. reflexivity.
  - left.
Defined.

Lemma table_returns_memory_witness :
  let w := program_after (program_insert ++ program_lookup ++ program_release) in
  destroy_hash_table (w_heap w) (w_table w) = Ok ∅.
Proof.
  exact (table_returns_memory 8 LockingThms.demo_raw LockingThms.demo_raws 1024 2 EVICT_LRU LockingThms.demo_table
    program_table 2 (Mem ∅ 0) (replicate 2 (Locals scratch 0 0 0 0)) 37
    (program_after (program_insert ++ program_lookup ++ program_release)) LockingThms.demo_table_created
    (or_introl eq_refl) ltac:(split; reflexivity || discriminate) program_created program_locals
    ltac:(reflexivity)
    (program_steps (program_insert ++ program_lookup ++ program_release) ltac:(vm_compute; reflexivity))
    (at_rest_check (program_after (program_insert ++ program_lookup ++ program_release))
       ltac:(vm_compute; reflexivity) ltac:(vm_compute; reflexivity))).
Defined.
