(* ===== verification/Tests.v ===== *)
(** * Tests: the test program ([testhashtable.c])

    Its four tests as scripts, with the counts of elements and queries as
    arguments, and their runs on the model, with and without locking: every
    assertion holds, and when the table is destroyed no element is left
    allocated. *)
From stdpp Require Import base list gmap relations.
From Stdlib Require Import ZArith Lia.
From S2P Require Import Prelude Protocol ALock MPBuffers Value Partition PartitionInv PartitionThms Server HashTable.
From S2P Require Import Client Locking Stream System.

Local Open Scope Z_scope.

Definition assert_that (b : bool) (k : script) : script :=
  Touch (fun h => _ ← check b AssertFailed; mret (h, k)).

(** [r = smp_get_next(table, c, &value); assert(r == 1);] *)
Definition get_value (c : Z) (k : Z -> script) : script :=
  Call c smp_get_next (fun o =>
    match o with Some v => k v | None => assert_that false Stop end).

(** ** [insert] and [lookup] *)
Definition insert (use_locking : bool) (c key val : Z) (k : script) : script :=
  let store value :=
    Touch (fun h =>
      _ ← check (negb (value =? 0)) AssertFailed;
      h ← store_long h value val;
      if use_locking then h ← atomic_mark_ready h value; mret (h, k)
      else mret (h, Call c (mp_mark_ready h value) (fun _ => k))) in
  if use_locking then CallLocking (LInsert key 8) store
  else Call c (smp_hash_insert key 8) (fun r => assert_that (r =? 1) (get_value c store)).

Definition lookup (use_locking : bool) (c key : Z) (k : Z -> script) : script :=
  let load value :=
    if value =? 0 then k 0 else
    Touch (fun h =>
      val ← load_long h value;
      if use_locking then h ← atomic_release_value h value; mret (h, k val)
      else mret (h, Call c (mp_release_value h value) (fun _ => k val))) in
  if use_locking then CallLocking (LLookup key) load
  else Call c (smp_hash_lookup key) (fun r => assert_that (r =? 1) (get_value c load)).

Definition lookup_is (use_locking : bool) (c key val : Z) (k : script) : script :=
  lookup use_locking c key (fun v => assert_that (v =? val) k).

(** ** The tests between the creation and the destruction of their table *)
Definition test1 (ul : bool) : script :=
  insert ul 0 123 1 (insert ul 0 1234 2 (insert ul 0 12345 3
  (lookup_is ul 0 123 1 (lookup_is ul 0 1234 2 (lookup_is ul 0 12345 3
  (lookup_is ul 0 122 0 (lookup_is ul 0 123 1 Stop))))))).

(** [for (long i = ...)], over the values of [i]. *)
Fixpoint for_each (idx : list Z) (body : Z -> script -> script) (k : script) : script :=
  match idx with [] => k | i :: idx => body i (for_each idx body k) end.

Definition range (a b : Z) : list Z := (fun i => a + Z.of_nat i) <$> seq 0 (Z.to_nat (b - a)).

Definition test2 (max_count : Z) (ul : bool) : script :=
  for_each (range 0 max_count) (fun i => insert ul 0 (Z.shiftl i 1) i)
  (for_each (range 0 max_count) (fun i => lookup_is ul 0 (Z.shiftl i 1) i)
  (insert ul 0 (Z.shiftl max_count 1) max_count
  (lookup_is ul 0 (Z.shiftl 0 1) 0
  (for_each (range 1 (max_count + 1)) (fun i => lookup_is ul 0 (Z.shiftl i 1) i) Stop)))).

(** [usleep] has no effect that the program could rely on and is left out. *)
Definition test3 (ul : bool) : script :=
  let c1 := 0 in let c2 := if ul then 0 else 1 in
  insert ul c1 123 0xDEADBEEF (insert ul c1 1234 0xFACEDEAD
  (lookup_is ul c2 123 0xDEADBEEF (lookup_is ul c2 1234 0xFACEDEAD
  (insert ul c2 123 0xACEACEACE
  (lookup_is ul c2 123 0xACEACEACE Stop))))).

(** The two loops of the fourth test over [values]. *)
Fixpoint write_all (c i : Z) (values : list Z) (k : script) : script :=
  match values with
  | [] => k
  | v :: values =>
      assert_that (negb (v =? 0))
      (Touch (fun h => h ← store_long h v i;
        mret (h, Call c (mp_mark_ready h v) (fun _ => write_all c (i + 1) values k))))
  end.

Fixpoint check_all (c i : Z) (values : list Z) (k : script) : script :=
  match values with
  | [] => k
  | v :: values =>
      assert_that (negb (v =? 0))
      (Touch (fun h => val ← load_long h v; _ ← check (val =? i) AssertFailed;
        mret (h, Call c (mp_release_value h v) (fun _ => check_all c (i + 1) values k))))
  end.

(** The size of a lookup is left as it was in memory. *)
Definition test4 (nqueries : Z) (raw : list Z) : script :=
  let inserts := (fun i => HashQuery (optype_code OPTYPE_INSERT) 8 i) <$> range 0 nqueries in
  let lookups := (fun i => HashQuery (optype_code OPTYPE_LOOKUP) 0 i) <$> range 0 nqueries in
  Call 0 (smp_hash_doall inserts raw) (fun values =>
  write_all 0 0 (take (Z.to_nat nqueries) values)
  (Call 0 (smp_hash_doall lookups values) (fun values =>
  check_all 0 0 (take (Z.to_nat nqueries) values) Stop))).

(** ** The table of a test *)
Section tables.
Context `{M : Machine} (spins : nat).

(** [raws] is the memory of the partitions; locks start clear. *)
Definition start_table (use_locking : bool) (raws : list (partition * list alock)) (max_size : Z)
    (clients : nat) : result sys :=
  t ← create_hash_table (HashTable 0 0 0 0 [] [] [] 0) raws max_size 2 EVICT_LRU;
  t ← (if use_locking then mret t else create_clients clients (start_hash_table_servers t));
  mret (Sys t (Mem ∅ 0) (replicate 2 (Locals (replicate (Z.to_nat INPB_SIZE) 0) 0 0 0 0))).

(** In this schedule the servers have emptied the buffers when the table is
    stopped, and every one makes its last round. *)
Definition finish_table (use_locking : bool) (sy : sys) : result heap :=
  sy ← (if use_locking then mret sy
        else sy ← server_turns spins (concat (replicate (Z.to_nat INPB_COUNT) (turns sy))) sy;
             t ← stop_hash_table_servers (sy_table sy);
             let sy := set_sys_table t sy in server_turns spins (turns sy) sy);
  destroy_hash_table (hp (sy_mem sy)) (sy_table sy).

Definition run_test (use_locking : bool) (raws : list (partition * list alock)) (max_size : Z)
    (clients fuel : nat) (s : script) : result heap :=
  sy ← start_table use_locking raws max_size clients;
  sy ← run_script spins fuel sy s;
  finish_table use_locking sy.
End tables.

Definition test_raws (max_size : Z) : list (partition * list alock) :=
  replicate 2 (raw_partition, replicate (Z.to_nat (bucket_count (max_size / 2) 2)) lock_memory).

(** A machine that never gives an address twice. *)
Definition next_page (k : nat) (h : heap) : option Z :=
  let e := 4096 * (Z.of_nat k + 1) in
  if decide (h !! e = None /\ addr_ok e) then Some e else None.

#[local] Program Instance paged_machine : Machine := {
  memalign k h align n := (fun e => (e, Elem 0 0 0 (pool_spare n))) <$> next_page k h;
  read_tsc k := 7 * Z.of_nat k
}.
Next Obligation.
  intros k h align n e raw H. simpl in H. unfold next_page in H. case_decide as Hd; [|done].
  injection H as <- _. done.
Qed.
Next Obligation.
  intros k h align n e raw H. simpl in H. unfold next_page in H. case_decide as Hd; [|done].
  injection H as _ <-. apply pool_spare_enough.
Qed.
(** ** [main] *)
Definition run_with_servers (max_size : Z) (clients : nat) (s : script) : result heap :=
  run_test 8 false (test_raws max_size) max_size clients (Z.to_nat 200000) s.

Definition run_with_locks (max_size : Z) (s : script) : result heap :=
  run_test 8 true (test_raws max_size) max_size 0 (Z.to_nat 200000) s.

(** The seven runs of the program, each with the size that its test gives the table, and
    what is left in memory at its end. The counts of the second and the fourth
    test are arguments; the program has 1024 and 1000. *)
Definition main (max_count nqueries : Z) : list (result heap) :=
  [ run_with_servers 65536 1 (test1 false); run_with_locks 65536 (test1 true);
    run_with_servers (2 * max_count * 128) 1 (test2 max_count false);
    run_with_locks (2 * max_count * 128) (test2 max_count true);
    run_with_servers 65536 2 (test3 false); run_with_locks 65536 (test3 true);
    run_with_servers 131072 1 (test4 nqueries (replicate (Z.to_nat nqueries) 0)) ].

(** The tests pass. Run on the model, with the buffers, the servers, the partitions,
    the locks and the reference counts that the library has, every test
    of the repository meets all its assertions: what was inserted is looked up,
    the least recently used element is the one evicted, a second client sees and
    replaces the values of the first, and batches keep their order. In the end no
    element is left in memory. The counts are smaller than those of the program,
    to keep the check of the proof short. *)
Theorem tests_pass : main 128 200 = replicate 7 (Ok ∅).
Proof. vm_compute. reflexivity. Qed.
