(* ===== verification/Bench.v ===== *)
(** * Bench: the clients of the benchmark ([benchhashtable.c])

    The query generator, what is done with an answer, and the clients of the two
    message designs: the first keeps [batch_size - 1] queries in flight, the
    second sends a batch at a time. [rand_r] of the C library is a parameter: it
    takes the seed to a number and a new seed. *)
From stdpp Require Import base list gmap.
From Stdlib Require Import ZArith Lia.
From S2P Require Import Prelude Protocol Value HashTable Client Stream HashServer System.

Local Open Scope Z_scope.

(** The options the clients use. *)
Record options := Options { batch_size : Z; query_shift : Z; query_mask : Z; write_threshold : Z }.

Section bench.
Context (rand_r : Z -> Z * Z) (opt : options).

Definition get_random_query (seed : Z) : hash_query * Z :=
  let '(a, seed) := rand_r seed in
  let optype := if a <? write_threshold opt then OPTYPE_INSERT else OPTYPE_LOOKUP in
  let '(r, seed) := rand_r seed in
  (HashQuery (optype_code optype) (match optype with OPTYPE_INSERT => 8 | OPTYPE_LOOKUP => 0 end)
     (Z.land (Z.shiftr r (query_shift opt)) (query_mask opt)), seed).

(** The memory after the call, whether it printed its message, and what it does
    with the value. *)
Definition handle_query_result (design : Z) (h : heap) (query : hash_query) (val : Z)
    : result (heap * bool * option value_op) :=
  if q_optype query =? optype_code OPTYPE_LOOKUP then
    if val =? 0 then mret (h, false, None)
    else k ← load_long h val;
         mret (h, negb (u64 k =? q_key query), Some (release_value design h val))
  else
    _ ← check (negb (val =? 0)) AssertFailed;
    h ← store_long h val (q_key query);
    mret (h, false, Some (mark_ready design h val)).

(** ** In the message designs

    [view v] is the memory when the answer [v] is handled. *)
Section clients.
Context (view : Z -> heap).

Definition lift {A} (r : result A) : prog A := Step (fun c => a ← r; mret (c, Done a)).

Definition handle (design : Z) (query : hash_query) (val : Z) : prog unit :=
  andthen (lift (handle_query_result design (view val) query val)) (fun x =>
    match x.2 with Some (Send r) => r | _ => Done tt end).

(** [r = smp_get_next(hash_table, cid, &value); assert(r == 1)]. *)
Definition get_answer : prog Z :=
  andthen smp_get_next (fun o => lift (match o with Some v => mret v | None => Fault AssertFailed end)).

(** *** The pipelined client: its local variables, and the pairs it has handled *)
Record pipeline := Pipeline {
  pl_queries : list hash_query;
  pl_seed : Z;
  pl_k : Z;
  pl_j : Z;
  pl_handled : list (hash_query * Z)
}.

Definition handle_at (k : Z) (queries : list hash_query) (v : Z) (seed j : Z)
    (handled : list (hash_query * Z)) : prog pipeline :=
  andthen (lift (aget queries k)) (fun q =>
  andthen (handle 1 q v) (fun _ => Done (Pipeline queries seed k j (handled ++ [(q, v)])))).

(** The body of the [for] loop. *)
Definition pipeline_round (d : pipeline) : prog pipeline :=
  let '(q, seed) := get_random_query (pl_seed d) in
  andthen (lift (aset (pl_queries d) (pl_k d) q)) (fun queries =>
  andthen (issue_query q) (fun r =>
  andthen (assert_one r) (fun _ =>
  let k := Z.rem (pl_k d + 1) (batch_size opt) in
  if pl_j d =? 1 then
    andthen get_answer (fun v => handle_at k queries v seed 1 (pl_handled d))
  else Done (Pipeline queries seed k (if k =? batch_size opt - 1 then 1 else pl_j d) (pl_handled d))))).

Fixpoint pipeline_rounds (iters : nat) (d : pipeline) : prog pipeline :=
  match iters with
  | O => Done d
  | S iters => andthen (pipeline_round d) (pipeline_rounds iters)
  end.

(** The [while] loop behind it; it ends when no query is outstanding. *)
Fixpoint pipeline_drain (fuel : nat) (d : pipeline) : prog pipeline :=
  match fuel with
  | O => lift (Fault Blocked)
  | S fuel =>
      andthen smp_get_next (fun o =>
      match o with
      | None => Done d
      | Some v =>
          andthen (handle_at (Z.rem (pl_k d + 1) (batch_size opt)) (pl_queries d) v (pl_seed d) (pl_j d)
                     (pl_handled d)) (pipeline_drain fuel)
      end)
  end.

(** [raw] is the array as [memalign] gave it. *)
Definition client_design1 (iters : nat) (raw : list hash_query) (seed : Z) : prog pipeline :=
  andthen (pipeline_rounds iters (Pipeline raw seed 0 0 [])) (pipeline_drain (S (length raw))).

(** *** The client with a batch at a time *)
Fixpoint random_queries (n : nat) (seed : Z) : list hash_query * Z :=
  match n with
  | O => ([], seed)
  | S n => let '(q, seed) := get_random_query seed in
           let '(qs, seed) := random_queries n seed in (q :: qs, seed)
  end.

Fixpoint handle_batch (queries : list hash_query) (values : list Z) : prog unit :=
  match queries, values with
  | q :: queries, v :: values => andthen (handle 2 q v) (fun _ => handle_batch queries values)
  | [], _ => Done tt
  | _ :: _, [] => lift (Fault Undefined)
  end.

(** [todo] is [iters_per_client - i]. The array [queries] is filled again for
    every batch, and so are the cells of [values] the batch uses. *)
Fixpoint batches (fuel : nat) (todo seed : Z) (values : list Z) (handled : list (hash_query * Z))
    : prog (list (hash_query * Z)) :=
  if todo <=? 0 then Done handled else
  match fuel with
  | O => lift (Fault Blocked)
  | S fuel =>
      let n := Z.to_nat (int_min todo (batch_size opt)) in
      let '(queries, seed) := random_queries n seed in
      andthen (smp_hash_doall queries (replicate n 0 ++ drop n values)) (fun values =>
      andthen (handle_batch queries values) (fun _ =>
      batches fuel (todo - Z.of_nat n) seed values (handled ++ zip queries values)))
  end.

(** Every batch takes at least one query. *)
Definition client_design2 (iters : nat) (raw : list Z) (seed : Z) : prog (list (hash_query * Z)) :=
  batches iters (Z.of_nat iters) seed raw [].
End clients.
End bench.
