(* ===== verification/BenchThms.v ===== *)
(** * BenchThms: the clients of the benchmark handle every answer with its query

    The pipelined client reuses the cells of its array while queries are in
    flight; the index arithmetic is right as long as the pipeline is filled once. The
    other client handles batch after batch. *)
From stdpp Require Import base list gmap relations.
From Stdlib Require Import ZArith Lia.
From S2P Require Import Prelude Protocol MPBuffers Value Server HashTable Client Link LinkInv ClientInv.
From S2P Require Import SystemThms DoallThms Stream HashServer HashServerThms System Bench.

Local Open Scope Z_scope.

Section bench.
Context (rand_r : Z -> Z * Z) (Hrand : forall seed, 0 <= (rand_r seed).1).
Context (opt : options) (Hmask : 0 <= query_mask opt < 2 ^ 31).
Context (answers : request -> Z -> Prop) (view : Z -> heap).

(** A value that a client may read or write: it holds the element, whose block has room
    for a [long]. *)
Definition holds_long (v : Z) : Prop :=
  addr_ok (elem_of_ptr v) /\ exists el, view v !! elem_of_ptr v = Some el /\
    (8 <= length (value el))%nat.

(** Lookups may answer NULL, insertions do not. *)
Context (Hview : forall r v, answers r v ->
  match r with
  | Lookup _ => v = 0 \/ holds_long v
  | Insert _ _ => v <> 0 /\ holds_long v
  | Release _ => True
  end).

Lemma random_query_ok seed : query_ok (get_random_query rand_r opt seed).1.
Proof.
  unfold get_random_query. destruct (rand_r seed) as [a s1] eqn:H1. destruct (rand_r s1) as [b s2] eqn:H2.
  simpl. assert (0 <= Z.land (Z.shiftr b (query_shift opt)) (query_mask opt) < 2 ^ 60) as Hk.
  { split; [apply Z.land_nonneg; right; lia|].
    pose proof (Hrand s1) as Hr. rewrite H2 in Hr. simpl in Hr.
    assert (0 <= Z.shiftr b (query_shift opt)) as Hs by (by apply Z.shiftr_nonneg).
    pose proof (Z.log2_land (Z.shiftr b (query_shift opt)) (query_mask opt) Hs ltac:(lia)) as Hlog.
    destruct (Z.eq_dec (Z.land (Z.shiftr b (query_shift opt)) (query_mask opt)) 0) as [->|Hne]; [lia|].
    apply Z.log2_lt_pow2; [assert (0 <= Z.land (Z.shiftr b (query_shift opt)) (query_mask opt))
      by (apply Z.land_nonneg; right; lia); lia|].
    assert (Z.log2 (query_mask opt) < 31); [|lia].
    destruct (Z.eq_dec (query_mask opt) 0) as [->|]; [done|]. apply Z.log2_lt_pow2; lia. }
  destruct (a <? write_threshold opt); split; simpl; auto; unfold query_request; simpl; done.
Qed.

Section safety.
Context (P : Z -> pending_data -> books -> Prop).

Lemma lift_ok {A} (Q : books -> list (list request) -> A -> Prop) bk bufs r a :
  r = Ok a -> Q bk bufs a -> safe answers P any_request Q bk bufs (lift r).
Proof. intros -> HQ c ls Hinv Hb. exists bk, ls. split; [done|]. by rewrite Hb. Qed.

Lemma handle_ok design q v bk bufs :
  query_ok q -> answers (query_request q) v ->
  safe answers P any_request (fun bk' bufs' _ => length bufs' = length bufs /\ bk' = bk) bk bufs (handle view design q v).
Proof.
  intros [Ho _] Hv. apply Hview in Hv. unfold handle.
  assert (forall h el force, h !! elem_of_ptr v = Some el -> addr_ok (elem_of_ptr v) ->
    safe answers P any_request (fun bk' bufs' _ => length bufs' = length bufs /\ bk' = bk) bk bufs
      (mp_send_release_msg_ h v force)) as Hsend.
  { intros h el force Hel Ha. by apply (send_release_msg_ok answers P any_request bk bufs h v force el). }
  eapply (safe_bind answers P any_request (fun bk' bufs' x => (bk' = bk /\ bufs' = bufs) /\
    match x.2 with
    | Some (Send r) => safe answers P any_request (fun bk' bufs' _ => length bufs' = length bufs /\ bk' = bk) bk bufs r
    | _ => True
    end)).
  2: { intros bk1 bufs1 x [[-> ->] Hx]. destruct x.2 as [[r|r]|]; [exact Hx | done..]. }
  unfold handle_query_result. destruct Ho as [Ho|Ho]; rewrite Ho; unfold query_request in Hv; rewrite Ho in Hv.
  - change (optype_code OPTYPE_LOOKUP =? optype_code OPTYPE_LOOKUP) with true in *. cbn iota in *.
    destruct (Z.eqb_spec v 0) as [->|Hne]; [by eapply lift_ok|].
    destruct Hv as [?|(Ha & el & Hel & Hl)]; [done|].
    eapply lift_ok; [unfold load_long; rewrite Hel; cbn [deref mbind result_bind];
      rewrite (proj2 (Z.leb_le _ _)) by lia; reflexivity|].
    split; [done|]. cbn [snd]. unfold release_value.
    destruct ((design =? 1) || (design =? 2)); [by eapply Hsend | done].
  - change (optype_code OPTYPE_INSERT =? optype_code OPTYPE_LOOKUP) with false in *. cbn iota in *.
    destruct Hv as (Hne & Ha & el & Hel & Hl).
    eapply lift_ok; [unfold store_long; rewrite (proj2 (Z.eqb_neq v 0)) by done; cbn [negb check mbind result_bind];
      rewrite (write_value_spec _ _ _ el Hel), decide_True by (by rewrite le_length); reflexivity|].
    split; [done|]. cbn [snd]. unfold mark_ready.
    destruct ((design =? 1) || (design =? 2)); [|done]. eapply Hsend; [apply lookup_insert_eq | done].
Qed.
End safety.

(** ** The pipelined client *)
Abbreviation b := (batch_size opt).

(** What it has handled: pairs of the generated queries and answers to them. *)
Definition handled_ok (m : nat) (gs : list hash_query) (l : list (hash_query * Z)) : Prop :=
  l.*1 = take m gs /\ Forall2 answers (query_request <$> l.*1) l.*2.

(** The array after the queries [gs], of which the first [m] are handled: those in
    flight lie in their cells. *)
Record flight (gs : list hash_query) (m : nat) (queries : list hash_query) (bk : books) : Prop := {
  fl_ok : Forall query_ok gs;
  fl_le : (m <= length gs)%nat;
  fl_len : Z.of_nat (length queries) = b;
  fl_queue : queue bk = query_request <$> drop m gs;
  fl_cells : forall i q, (m <= i)%nat -> gs !! i = Some q ->
    queries !! Z.to_nat (Z.of_nat i mod b) = Some q
}.

Context (Hb : 2 <= b <= MAX_PENDING_SIZE).

Lemma next_k x : 0 <= x -> Z.rem (x mod b + 1) b = (x + 1) mod b.
Proof.
  intros Hx. pose proof (Z.mod_pos_bound x b ltac:(lia)).
  rewrite Z.rem_mod_nonneg by lia. by rewrite Z.add_mod_idemp_l by lia.
Qed.

(** Filling a cell that is not in flight. *)
Lemma fill_cell gs m queries bk q :
  flight gs m queries bk -> Z.of_nat (length gs - m) < b -> query_ok q ->
  exists queries', aset queries (Z.of_nat (length gs) mod b) q = Ok queries' /\
    forall bk', queue bk' = queue bk ++ [query_request q] -> flight (gs ++ [q]) m queries' bk'.
Proof.
  intros [Hok Hle Hlen Hq Hcells] Hroom Hqok.
  pose proof (Z.mod_pos_bound (Z.of_nat (length gs)) b ltac:(lia)) as Hr.
  rewrite aset_in by lia. eexists. split; [reflexivity|]. intros bk' Hq'. split.
  - apply Forall_app. split; [done|]. by constructor.
  - rewrite length_app. lia.
  - by rewrite length_insert.
  - rewrite Hq', Hq, drop_app_le, fmap_app by done. done.
  - intros i q' Hi Hl. destruct (decide (i = length gs)) as [->|Hne].
    + rewrite lookup_app_r, Nat.sub_diag in Hl by done. injection Hl as <-.
      apply list_lookup_insert_eq. lia.
    + pose proof (lookup_lt_Some _ _ _ Hl) as Hlt. rewrite length_app in Hlt. simpl in Hlt.
      rewrite lookup_app_l in Hl by lia. rewrite list_lookup_insert_ne; [by apply Hcells|].
      intros He. apply Z2Nat.inj in He; [|apply Z.mod_pos_bound; lia..].
      assert (Z.of_nat (length gs) - Z.of_nat i = 0) as Hz; [|lia].
      assert ((Z.of_nat (length gs) - Z.of_nat i) mod b = 0) as Hd
        by (rewrite Zminus_mod, He, Z.sub_diag; apply Z.mod_0_l; lia).
      rewrite Z.mod_small in Hd; lia.
Qed.

(** Handling the oldest query in flight. *)
Lemma handle_at_ok gs m queries bk bk1 bufs v seed j handled :
  flight gs m queries bk -> took answers bk bk1 (Some v) -> handled_ok m gs handled ->
  (m < length gs)%nat /\
  safe answers pd_inv any_request (fun bk' _ d => queue bk' = queue bk1 /\ flight gs (S m) queries bk' /\
      exists q, d = Pipeline queries seed (Z.of_nat m mod b) j (handled ++ [(q, v)]) /\
        handled_ok (S m) gs (handled ++ [(q, v)]))
    bk1 bufs (handle_at view (Z.of_nat m mod b) queries v seed j handled).
Proof.
  intros Hfl (r & Hq & Hr & _) [Hh1 Hh2]. pose proof (fl_queue _ _ _ _ Hfl) as Hq0. rewrite Hq in Hq0.
  destruct (drop m gs) as [|q rest] eqn:Hd; [done|]. rewrite fmap_cons in Hq0. injection Hq0 as -> Hq1.
  assert (m < length gs)%nat as Hlt.
  { apply (f_equal length) in Hd. rewrite length_drop in Hd. simpl in Hd. lia. }
  assert (gs !! m = Some q) as Hgm.
  { rewrite <- (Nat.add_0_r m), <- lookup_drop, Hd. done. }
  split; [done|]. unfold handle_at.
  pose proof (Z.mod_pos_bound (Z.of_nat m) b ltac:(lia)) as Hbd.
  eapply (safe_bind answers pd_inv any_request (fun bk' bufs' q' => bk' = bk1 /\ q' = q)).
  { eapply lift_ok; [|done]. apply aget_Ok. split; [lia|]. by apply (fl_cells _ _ _ _ Hfl). }
  intros bk2 bufs2 q' [-> ->]. assert (query_ok q) as Hqok
    by (eapply Forall_lookup_1; [apply (fl_ok _ _ _ _ Hfl) | done]).
  eapply (safe_bind answers pd_inv any_request); [by apply handle_ok|].
  intros bk3 bufs3 _ [_ ->]. unfold safe. split; [done|]. split.
  - destruct Hfl as [Hok Hle Hlen Hqq Hcells]. split; try done.
    + rewrite Hq1. f_equal. rewrite <- Nat.add_1_r, <- drop_drop, Hd. done.
    + intros i q' Hi Hl. apply Hcells; [lia | done].
  - exists q. split; [done|]. split.
    + rewrite fmap_app, Hh1. simpl. by rewrite (take_S_r _ _ q).
    + rewrite !fmap_app. apply Forall2_app; [done|]. by constructor.
Qed.

(** Between two rounds: the pipeline is being filled, or it is full. *)
Definition between (seed0 : Z) (n : nat) (d : pipeline) (bk : books) : Prop :=
  exists gs m, random_queries rand_r opt n seed0 = (gs, pl_seed d) /\ length gs = n /\
    flight gs m (pl_queries d) bk /\ handled_ok m gs (pl_handled d) /\
    pl_k d = Z.of_nat n mod b /\
    (pl_j d = 1 /\ Z.of_nat (n - m) = b - 1 \/ pl_j d = 0 /\ m = 0%nat /\ Z.of_nat n < b - 1).

Lemma random_queries_snoc n seed gs s1 :
  random_queries rand_r opt n seed = (gs, s1) ->
  random_queries rand_r opt (S n) seed =
    (gs ++ [(get_random_query rand_r opt s1).1], (get_random_query rand_r opt s1).2).
Proof.
  revert seed gs. induction n as [|n IH]; intros seed gs Hg; simpl in Hg.
  - injection Hg as <- <-. simpl. by destruct (get_random_query rand_r opt seed).
  - cbn [random_queries]. destruct (get_random_query rand_r opt seed) as [q s2].
    destruct (random_queries rand_r opt n s2) as [qs s3] eqn:Hr. injection Hg as <- <-.
    specialize (IH s2 qs Hr). cbn [random_queries] in IH. rewrite IH. done.
Qed.

Lemma round_ok seed0 n d bk bufs :
  between seed0 n d bk ->
  safe answers pd_inv any_request (fun bk' _ d' => between seed0 (S n) d' bk') bk bufs
    (pipeline_round rand_r opt view d).
Proof.
  intros (gs & m & Hgen & Hlen & Hfl & Hh & Hk & Hj). unfold pipeline_round.
  pose proof (random_query_ok (pl_seed d)) as Hq. apply random_queries_snoc in Hgen.
  destruct (get_random_query rand_r opt (pl_seed d)) as [q seed]. simpl in Hq, Hgen.
  pose proof (fl_le _ _ _ _ Hfl) as Hle.
  destruct (fill_cell gs m _ bk q Hfl ltac:(lia) Hq) as (queries & Hset & Hfl').
  subst n. rewrite Hk, Hset.
  eapply (safe_bind answers pd_inv any_request (fun bk' _ qs => bk' = bk /\ qs = queries)); [by eapply lift_ok|].
  intros bk1 bufs1 qs [-> ->].
  eapply (safe_bind answers pd_inv any_request); [by apply issue_query_ok|].
  intros bk2 bufs2 r (_ & [(-> & _ & Hfull)|[-> Hq2]]).
  { rewrite (fl_queue _ _ _ _ Hfl), length_fmap, length_drop in Hfull. lia. }
  apply Hfl' in Hq2 as Hfl2.
  eapply (safe_bind answers pd_inv any_request); [apply assert_one_ok|].
  intros bk3 bufs3 _ ->. cbn zeta. rewrite next_k by lia.
  assert (handled_ok m (gs ++ [q]) (pl_handled d)) as Hh2.
  { destruct Hh as [Hh1 Hh2]. split; [|done]. by rewrite take_app_le. }
  assert (length (gs ++ [q]) = S (length gs)) as Hlen2 by (rewrite length_app; simpl; lia).
  destruct Hj as [[-> Hm]|(-> & -> & Hn)].
  - change (1 =? 1) with true. cbn iota.
    assert ((Z.of_nat (length gs) + 1) mod b = Z.of_nat m mod b) as ->.
    { replace (Z.of_nat (length gs) + 1) with (Z.of_nat m + 1 * b) by lia. by apply Z.mod_add; lia. }
    unfold get_answer.
    eapply (safe_bind answers pd_inv any_request (fun bk' _ v => took answers bk2 bk' (Some v))).
    { eapply (safe_bind answers pd_inv any_request); [apply get_next_ok|].
      intros bk4 bufs4 o (_ & Ht & Hnone). destruct o as [v|]; [by eapply lift_ok|].
      specialize (Hnone eq_refl). rewrite Hq2 in Hnone. by apply app_nil in Hnone as [_ ?]. }
    intros bk4 bufs4 v Ht.
    destruct (handle_at_ok _ m queries bk2 bk4 bufs4 v seed 1 _ Hfl2 Ht Hh2) as [Hlt Hsafe].
    eapply (safe_mono answers pd_inv any_request); [exact Hsafe|].
    intros bk5 bufs5 d' (_ & Hfl5 & q' & -> & Hh5). exists (gs ++ [q]), (S m). cbn [pl_queries pl_seed pl_k pl_j pl_handled].
    split_and!; try done.
    + replace (Z.of_nat (S (length gs))) with (Z.of_nat m + 1 * b) by lia. by rewrite Z.mod_add by lia.
    + left. split; [done | lia].
  - change (0 =? 1) with false. cbn iota. unfold safe. exists (gs ++ [q]), 0%nat. cbn [pl_queries pl_seed pl_k pl_j pl_handled].
    rewrite Z.mod_small by lia. split_and!; try done.
    + rewrite Z.mod_small; lia.
    + destruct (Z.eqb_spec (Z.of_nat (length gs) + 1) (b - 1)); [left; split; [done | lia]|].
      right. split_and!; [done..| lia].
Qed.

Lemma rounds_ok seed0 iters n d bk bufs :
  between seed0 n d bk ->
  safe answers pd_inv any_request (fun bk' _ d' => between seed0 (iters + n) d' bk') bk bufs
    (pipeline_rounds rand_r opt view iters d).
Proof.
  revert n d bk bufs. induction iters as [|iters IH]; intros n d bk bufs Hd; [done|].
  cbn [pipeline_rounds]. eapply (safe_bind answers pd_inv any_request); [by apply round_ok|].
  intros bk1 bufs1 d1 H1. replace (S iters + n)%nat with (iters + S n)%nat by lia. by apply IH.
Qed.

(** Draining: [k] is one before the cell of the next query. *)
Lemma drain_ok gs m fuel d bk bufs :
  flight gs m (pl_queries d) bk -> handled_ok m gs (pl_handled d) -> 0 <= pl_k d ->
  Z.rem (pl_k d + 1) b = Z.of_nat m mod b -> (length gs - m < fuel)%nat ->
  safe answers pd_inv any_request (fun bk' _ d' => queue bk' = [] /\ handled_ok (length gs) gs (pl_handled d'))
    bk bufs (pipeline_drain opt view fuel d).
Proof.
  revert m d bk bufs. induction fuel as [|fuel IH]; intros m d bk bufs Hfl Hh Hk0 Hk Hfuel; [lia|].
  cbn [pipeline_drain]. eapply (safe_bind answers pd_inv any_request); [apply get_next_ok|].
  intros bk1 bufs1 o (_ & Ht & Hnone). destruct o as [v|].
  - rewrite Hk. destruct (handle_at_ok gs m _ bk bk1 bufs1 v (pl_seed d) (pl_j d) _ Hfl Ht Hh) as [Hlt Hsafe].
    eapply (safe_bind answers pd_inv any_request); [exact Hsafe|].
    intros bk2 bufs2 d' (_ & Hfl2 & q & -> & Hh2). apply (IH (S m)); simpl; try done; [| |lia].
    + apply Z.mod_pos_bound. lia.
    + rewrite next_k by lia. f_equal. lia.
  - simpl in Ht. subst bk1. specialize (Hnone eq_refl). unfold safe. split; [done|].
    rewrite (fl_queue _ _ _ _ Hfl) in Hnone. apply fmap_nil_inv in Hnone.
    apply (f_equal length) in Hnone. rewrite length_drop in Hnone. simpl in Hnone.
    pose proof (fl_le _ _ _ _ Hfl). by replace (length gs) with m by lia.
Qed.

(** What client calls may do to [c], ending with [Q]. *)
Definition runs_well {A} (c : client) (r : prog A) (Q : A -> Prop) : Prop :=
  forall c1 r1, rtc (call_step answers) (c, r) (c1, r1) ->
    not_stuck answers (c1, r1) /\ (exists c2 a, rtc (call_step answers) (c1, r1) (c2, Done a)) /\
    forall a, r1 = Done a -> Q a.

Lemma safe_runs {A} P (Q : A -> Prop) c bk ls (r : prog A) :
  (forall r, answering r -> exists v, answers r v) -> inv answers P c bk ls ->
  safe answers P any_request (fun _ _ a => Q a) bk (lk_buffered <$> ls) r -> runs_well c r Q.
Proof.
  intros Hans Hinv Hsafe c1 r1 Hrun.
  destruct (safe_steps answers P any_request _ _ _ _ _ Hrun Hinv Hsafe) as (bk1 & ls1 & Hinv1 & Hsafe1).
  split; [by eapply safe_not_stuck|]. split; [by eapply safe_completes|]. intros a ->. exact Hsafe1.
Qed.

(** All queries of the run, with their answers, in order. *)
Definition all_handled (seed : Z) (iters : nat) (l : list (hash_query * Z)) : Prop :=
  l.*1 = (random_queries rand_r opt iters seed).1 /\ Forall2 answers (query_request <$> l.*1) l.*2.


(** ** The client with a batch at a time *)
Lemma handle_batch_ok P qs vs bk bufs :
  Forall query_ok qs -> Forall2 answers (query_request <$> qs) (take (length qs) vs) ->
  safe answers P any_request (fun bk' bufs' _ => length bufs' = length bufs /\ bk' = bk) bk bufs (handle_batch view qs vs).
Proof.
  intros Hok. revert vs bufs. induction Hok as [|q qs Hq _ IH]; intros vs bufs Hf; [done|].
  destruct vs as [|v vs]; simpl in Hf; [by inversion Hf|].
  apply Forall2_cons in Hf as [Hv Hf]. cbn [handle_batch].
  eapply (safe_bind answers P any_request); [by apply handle_ok|].
  intros bk1 bufs1 _ [Hl ->]. eapply (safe_mono answers P any_request); [by apply IH|].
  intros bk2 bufs2 _ [Hl2 ->]. split; [congruence | done].
Qed.

Lemma random_queries_ok n seed :
  length (random_queries rand_r opt n seed).1 = n /\ Forall query_ok (random_queries rand_r opt n seed).1.
Proof.
  revert seed. induction n as [|n IH]; intros seed; [done|]. cbn [random_queries].
  pose proof (random_query_ok seed) as Hq. destruct (get_random_query rand_r opt seed) as [q s1].
  specialize (IH s1). destruct (random_queries rand_r opt n s1) as [qs s2]. simpl in *. destruct IH as [Hl IH].
  split; [lia|]. by constructor.
Qed.

Lemma random_queries_app n1 n2 seed :
  random_queries rand_r opt (n1 + n2) seed =
    let '(qs1, s1) := random_queries rand_r opt n1 seed in
    let '(qs2, s2) := random_queries rand_r opt n2 s1 in (qs1 ++ qs2, s2).
Proof.
  revert seed. induction n1 as [|n1 IH]; intros seed; cbn [random_queries Nat.add].
  - by destruct (random_queries rand_r opt n2 seed).
  - destruct (get_random_query rand_r opt seed) as [q s0]. rewrite IH.
    destruct (random_queries rand_r opt n1 s0) as [qs1 s1].
    by destruct (random_queries rand_r opt n2 s1) as [qs2 s2].
Qed.

Lemma batches_ok n pd0 fuel todo seed0 done_n seed values handled sp bufs :
  0 < n < 2 ^ 31 -> length bufs = Z.to_nat n -> Z.of_nat (length values) = b -> (todo <= fuel)%nat ->
  random_queries rand_r opt done_n seed0 = (handled.*1, seed) ->
  Forall2 answers (query_request <$> handled.*1) handled.*2 ->
  safe answers (untouched n pd0) any_request (fun _ _ l => all_handled seed0 (done_n + todo) l)
    (Books [] [] sp) bufs (batches rand_r opt view fuel (Z.of_nat todo) seed values handled).
Proof.
  intros Hn. revert todo done_n seed values handled sp bufs.
  induction fuel as [|fuel IH]; intros todo done_n seed values handled sp bufs Hbufs Hval Hfuel Hgen Hf;
    cbn [batches]; destruct (Z.leb_spec (Z.of_nat todo) 0) as [Hz|Hz].
  1,3: (assert (todo = 0%nat) as -> by lia; rewrite Nat.add_0_r; unfold safe; split; [by rewrite Hgen | done]).
  { lia. }
  set (k := Z.to_nat (int_min (Z.of_nat todo) b)).
  assert ((0 < k)%nat /\ (k <= todo)%nat /\ Z.of_nat k <= b) as (Hk0 & Hkt & Hkb)
    by (subst k; unfold int_min; case_match; lia).
  pose proof (random_queries_ok k seed) as [Hlq Hqs].
  pose proof (random_queries_app done_n k seed0) as Happ. rewrite Hgen in Happ.
  destruct (random_queries rand_r opt k seed) as [qs s1]. simpl in Hlq, Hqs.
  change MAX_PENDING_SIZE with 65536 in Hb.
  set (vals := replicate k 0 ++ drop k values).
  assert (Z.of_nat (length vals) = b) as Hvl
    by (subst vals; rewrite length_app, length_replicate, length_drop; lia).
  assert (Z.of_nat (length qs) < 2 ^ 31) as Hq31 by lia.
  eapply (safe_bind answers (untouched n pd0) any_request).
  { apply safe_answered; [constructor|].
    apply (doall_safe answers any_request n pd0 qs sp Hn Hqs (any_queries qs) Hq31 bufs vals Hbufs). lia. }
  intros bk1 bufs1 vs (((Hl1 & Ht1 & _) & Hlv & Hg1 & Hg2) & Hga).
  pose proof (answered_pairs answers _ _ _ Hga Hg1 (eq_sym Hg2)) as Hans.
  eapply (safe_bind answers (untouched n pd0) any_request); [by apply handle_batch_ok|].
  intros bk2 bufs2 _ [Hl2 ->]. destruct bk1 as [g t sp1]. simpl in Ht1. subst t.
  apply safe_forget; [done..|].
  replace (Z.of_nat todo - Z.of_nat k) with (Z.of_nat (todo - k)) by lia.
  replace (done_n + todo)%nat with (done_n + k + (todo - k))%nat by lia.
  assert (zip qs vs = zip qs (take (length qs) vs)) as Hzip.
  { clear. revert vs. induction qs as [|q qs IH]; intros [|v vs]; simpl; try done. by rewrite IH. }
  apply Forall2_length in Hans as Hlen. rewrite length_fmap in Hlen.
  assert ((zip qs vs).*1 = qs) as Hz1 by (rewrite Hzip; apply fst_zip; lia).
  assert ((zip qs vs).*2 = take (length qs) vs) as Hz2 by (rewrite Hzip; apply snd_zip; lia).
  apply IH; [congruence | congruence | lia | |].
  - by rewrite Happ, fmap_app, Hz1.
  - rewrite !fmap_app, Hz1, Hz2. by apply Forall2_app.
Qed.

(** The client with a batch at a time handles every query with its answer too. *)
Theorem batches_handle_all n iters raw seed :
  (forall r, answering r -> exists v, answers r v) -> 0 < n < 2 ^ 31 -> Z.of_nat (length raw) = b ->
  runs_well (new_client n) (client_design2 rand_r opt view iters raw seed) (all_handled seed iters).
Proof.
  intros Hans Hn Hraw.
  pose proof (new_client_inv answers n Hn) as [Hl Hp].
  eapply (safe_runs (untouched n (cl_pd (new_client n)))); [done | by split|].
  unfold client_design2. apply (batches_ok n _ iters iters seed 0 _ _ _ []); try done.
  by rewrite length_fmap, length_replicate.
Qed.
End bench.

(** ** An instance

    A linear congruential generator, two cells, keys below 16, half of the queries
    insertions, and servers that answer every query with the same value. *)
Definition demo_rand (seed : Z) : Z * Z :=
  (seed mod 2 ^ 31, (seed * 1103515245 + 12345) mod 2 ^ 31).

Definition demo_options : options := Options 2 20 15 (2 ^ 30).

Definition demo_value (r : request) : Z := value_ptr 4096.

Definition demo_view (v : Z) : heap :=
  <[4096 := Elem 3 1 128 (le 8 3)]> ∅.

Definition demo_raw_queries : list hash_query := replicate 2 (HashQuery 0 0 0).

Lemma demo_rand_nonneg seed : 0 <= (demo_rand seed).1.
Proof. simpl. apply Z.mod_pos_bound. reflexivity. Qed.

Lemma demo_view_ok r v :
  gives demo_value r v ->
  match r with
  | Lookup _ => v = 0 \/ holds_long demo_view v
  | Insert _ _ => v <> 0 /\ holds_long demo_view v
  | Release _ => True
  end.
Proof.
  intros ->. assert (holds_long demo_view (value_ptr 4096)) as Hh.
  { split; [vm_compute; repeat split; discriminate|]. eexists.
    split; [vm_compute; reflexivity|]. vm_compute. repeat constructor. }
  destruct r; [by right | by split | done].
Qed.

Lemma demo_pipeline_run :
  exists c d, exec 200 demo_value (new_client 2)
      (client_design1 demo_rand demo_options demo_view 5 demo_raw_queries 42) = Some (c, d) /\
    length (pl_handled d) = 5%nat.
Proof.
  destruct (exec 200 _ _ _) as [[c d]|] eqn:Hd.
  - exists c, d. split; [done|]. apply (f_equal (fmap (fun x => length (pl_handled x.2)))) in Hd.
    assert (Some 5%nat = Some (length (pl_handled d))) as H; [|by injection H].
    etrans; [|exact Hd]. vm_compute. reflexivity.
  - apply (f_equal (fmap (fun x => length (pl_handled x.2)))) in Hd.
    assert (Some 5%nat = None) as H; [|discriminate H]. etrans; [|exact Hd]. vm_compute. reflexivity.
Qed.

