(* ===== verification/BenchLocking.v ===== *)
(** * BenchLocking: the benchmark of the locking table ([benchhashtable.c])

    [client_design3] as a thread: one locking call after the other, with its answer
    handled in between, the actions of all clients interleaving. [run_benchmark]
    makes the table, starts the clients, waits for them and destroys the table. *)
From stdpp Require Import base list gmap.
From Stdlib Require Import ZArith Lia.
From S2P Require Import Prelude Protocol ALock Value Partition HashTable Locking LockingWorld.
From S2P Require Import HashServer System Bench.

Local Open Scope Z_scope.

(** Where a client stands: at the head of its loop, in a locking call, with an answer to
    handle, or done with the contents of the value and about to give it up. *)
Inductive stage3 :=
  | Next
  | Calling (query : hash_query)
  | Answered (query : hash_query) (value : Z)
  | Giving (query : hash_query) (value : Z).

(** The local variables of a client: its seed, the iterations that are left, its stage, and
    how often it has printed its error message. *)
Record client3 := Client3 { c3_seed : Z; c3_left : nat; c3_stage : stage3; c3_errors : nat }.

Definition set_stage (s : stage3) (c : client3) : client3 := Client3 (c3_seed c) (c3_left c) s (c3_errors c).

(** The table and the clients. *)
Record bworld := BWorld { bw_state : lstate; bw_clients : list client3 }.

(** [atomic_release_value(value)] after a lookup, [atomic_mark_ready(value)] after an
    insertion: in memory as it is at that moment. *)
Definition done_with (h : heap) (query : hash_query) (val : Z) : result heap :=
  if q_optype query =? optype_code OPTYPE_LOOKUP then atomic_release_value h val else atomic_mark_ready h val.

Definition returned3 (c : client3) : bool :=
  match c3_stage c, c3_left c with Next, O => true | _, _ => false end.

Section client.
Context `{Machine} (rand_r : Z -> Z * Z) (opt : options) (spins : nat) (nservers : Z).

(** The next action of [client_design3], run by thread [t]. *)
Definition client_design3 (t : nat) (st : lstate) (c : client3) : result (lstate * client3) :=
  match c3_stage c with
  | Next =>
      match c3_left c with
      | O => mret (st, c)
      | S rest =>
          let '(query, seed) := get_random_query rand_r opt (c3_seed c) in
          mret (set_call t (Some (query_call nservers query)) st, Client3 seed rest (Calling query) (c3_errors c))
      end
  | Calling query =>
      '(st, o) ← locking_step spins t st;
      mret (st, match o with Some value => set_stage (Answered query value) c | None => c end)
  | Answered query value =>
      '(h, printed, op) ← handle_query_result 3 (hp (lmem st)) query value;
      mret (set_lheap h st,
            Client3 (c3_seed c) (c3_left c)
              (match op with Some _ => Giving query value | None => Next end)
              (c3_errors c + (if printed : bool then 1 else 0))%nat)
  | Giving query value =>
      h ← done_with (hp (lmem st)) query value;
      mret (set_lheap h st, set_stage Next c)
  end.

(** Thread [t] makes an action; [None] when there is no such thread. *)
Definition bworld_act (t : nat) (w : bworld) : option (result bworld) :=
  c ← bw_clients w !! t;
  Some ('(st, c) ← client_design3 t (bw_state w) c; mret (BWorld st (<[t := c]> (bw_clients w)))).

(** A schedule of the threads. *)
Fixpoint run_clients (schedule : list nat) (w : bworld) : result bworld :=
  match schedule with
  | [] => mret w
  | t :: schedule => w ← default (mret w) (bworld_act t w); run_clients schedule w
  end.

(** The clients are made, each with its seed and [iters_per_client] iterations. *)
Definition start_clients (ht : hash_table) (m : mem) (iters : nat) (seeds : list Z) : bworld :=
  BWorld (LState (partitions ht) m (replicate (length seeds) None))
         ((fun seed => Client3 seed iters Next 0) <$> seeds).

(** [pthread_join] for every client. *)
Definition join_clients (w : bworld) : result unit := check (forallb returned3 (bw_clients w)) Blocked.

(** The benchmark of design 3 along a schedule of its threads; [seeds] are what [rand]
    gives, [raw] and [raws] the memory of the table. *)
Definition run_benchmark (raw : hash_table) (raws : list (partition * list alock)) (size evictalgo niters : Z)
    (seeds : list Z) (schedule : list nat) (m : mem) : result heap :=
  _ ← check (negb (Z.of_nat (length seeds) =? 0)) Undefined;
  ht ← create_hash_table raw raws size nservers evictalgo;
  let iters_per_client := Z.quot niters (Z.of_nat (length seeds)) in
  w ← run_clients schedule (start_clients ht m (Z.to_nat iters_per_client) seeds);
  _ ← join_clients w;
  destroy_hash_table (hp (lmem (bw_state w))) (set_partitions (parts (bw_state w)) ht).
End client.
