(* ===== verification/BenchLockingInv.v ===== *)
(** * BenchLockingInv: the invariant of the locking benchmark

    A client of [BenchLocking] is a thread of the program of [LockingWorld] that
    marks and releases what it was given, so that the invariant of that program is
    there; what the benchmark adds is that every ready value holds its key. *)
From stdpp Require Import base list gmap relations.
From Stdlib Require Import ZArith Lia.
From S2P Require Import Prelude Protocol ALock Value Partition PartitionInv PartitionLru PartitionThms Link.
From S2P Require Import TableOps Ownership HashTable Estates Holders Locking LockingThms LockingLive LockingWorld.
From S2P Require Import LockingWorldInv HashTableThms LockingWorldThms DoallThms Stream HashServer System.
From S2P Require Import Bench BenchThms BenchLocking.

Local Open Scope Z_scope.

(** ** The calls of queries *)
Definition table_op (q : hash_query) : table_call :=
  if q_optype q =? optype_code OPTYPE_LOOKUP then LLookup (q_key q) else LInsert (q_key q) (q_size q).

Lemma query_call_op n q : query_call n q = locking_call n (table_op q).
Proof. unfold query_call, table_op. by case_match. Qed.

Lemma request_of_op q : request_of (table_op q) = query_request q.
Proof. unfold query_request, table_op. by case_match. Qed.

(** What a client holds as a thread of the program. *)
Definition in_stage (s : stage3) : list (request * Z) :=
  match s with
  | Next | Calling _ => []
  | Answered q v => taken (table_op q) (Some v)
  | Giving q v => [(query_request q, v)]
  end.

Definition held_in (w : bworld) : lworld :=
  LWorld (bw_state w) ((fun c => in_stage (c3_stage c)) <$> bw_clients w).

(** The value is the key. *)
Definition keyed (el : elem) : Prop := take 8 (value el) = le 8 (u64 (key el)).

Lemma keyed_contents : of_contents keyed.
Proof. intros el rc H. exact H. Qed.

Lemma keyed_load h ptr el :
  h !! elem_of_ptr ptr = Some el -> keyed el -> load_long h ptr = Ok (i64 (u64 (key el))).
Proof.
  intros Hel Hk. unfold load_long. rewrite Hel. cbn [deref mbind result_bind].
  assert (8 <= length (value el))%nat as Hl.
  { pose proof (f_equal length Hk) as H. rewrite length_take, le_length in H. lia. }
  rewrite (proj2 (Z.leb_le _ _)) by lia. cbn [check mbind result_bind mret result_ret].
  by rewrite Hk, unle_le by apply u64_range.
Qed.

(** The key as the bytes of a value. *)
Lemma keyed_overwritten el : keyed (overwritten (le 8 (u64 (key el))) el).
Proof.
  unfold keyed, overwritten. cbn [value key]. rewrite take_app_le by (by rewrite le_length).
  apply take_ge. by rewrite le_length.
Qed.

(** ** The invariant *)
Section clients.
Context `{M : Machine} (spins : nat) (rand_r : Z -> Z * Z) (Hrand : forall seed, 0 <= (rand_r seed).1).
Context (opt : options) (Hmask : 0 <= query_mask opt < 2 ^ 31).
Context (h0 : heap) (n ms ev : Z) (Hn : 0 < n < 2 ^ 31) (Hms : elem_size 8 <= ms < 2 ^ 63).

(** A query as the clients make them. *)
Definition random_query (q : hash_query) : Prop := exists seed, q = (get_random_query rand_r opt seed).1.

Lemma random_query_op q : random_query q ->
  0 <= q_key q < 2 ^ 60 /\
  ((q_optype q = optype_code OPTYPE_LOOKUP /\ table_op q = LLookup (q_key q) /\ query_request q = Lookup (q_key q)) \/
   (q_optype q = optype_code OPTYPE_INSERT /\ table_op q = LInsert (q_key q) 8 /\ query_request q = Insert (q_key q) 8)).
Proof.
  intros [seed ->]. destruct (random_query_ok rand_r Hrand opt Hmask seed) as [_ Hok]. revert Hok.
  unfold get_random_query. destruct (rand_r seed) as [a s1]. destruct (rand_r s1) as [b s2].
  destruct (a <? write_threshold opt); unfold query_request, table_op; simpl.
  - intros Hok. split; [apply Hok | by right].
  - intros Hok. split; [apply Hok | by left].
Qed.

(** Where a client is, its call and what it is sure of. *)
Definition stage_ok (h : heap) (o : option lcall) (s : stage3) : Prop :=
  match s with
  | Next => o = None
  | Calling q => random_query q /\ exists c, o = Some c /\ lc_op c = table_op q /\ proper (lc_phase c)
  | Answered q v => o = None /\ random_query q /\ (q_optype q = optype_code OPTYPE_INSERT -> v <> 0)
  | Giving q v => o = None /\ random_query q /\ v <> 0 /\
      (q_optype q = optype_code OPTYPE_INSERT -> exists el, h !! elem_of_ptr v = Some el /\ keyed el)
  end.

Definition bw_heap (w : bworld) : heap := hp (lmem (bw_state w)).

Record bench_inv (k : Z) (w : bworld) (owns : list ownership) : Prop := {
  bi_world : lworld_inv h0 n ms ev k (held_in w) owns;
  bi_ready : ready_good keyed owns (bw_heap w);
  bi_stage : forall t c, bw_clients w !! t = Some c ->
    exists o, calls (bw_state w) !! t = Some o /\ stage_ok (bw_heap w) o (c3_stage c);
  bi_silent : forall t c, bw_clients w !! t = Some c -> c3_errors c = 0%nat
}.

Section step.
Context (k : Z) (w : bworld) (owns : list ownership) (Hk : 0 <= k < 2 ^ 62) (Hinv : bench_inv k w owns).
Context (t : nat) (c : client3) (Hc : bw_clients w !! t = Some c).

(** What thread [t] holds changes by [f]. *)
Lemma held_change st' c' f :
  in_stage (c3_stage c') = f (in_stage (c3_stage c)) ->
  held_in (BWorld st' (<[t := c']> (bw_clients w))) = LWorld st' (change_held t f (lw_held (held_in w))).
Proof.
  intros Hf. unfold held_in, change_held. simpl. f_equal. rewrite list_fmap_insert. apply list_eq. intros i.
  destruct (decide (i = t)) as [->|Hne].
  - rewrite list_lookup_alter_eq, !list_lookup_fmap, Hc. simpl. rewrite list_lookup_insert_eq; [by rewrite Hf|].
    rewrite length_fmap. by eapply lookup_lt_Some.
  - by rewrite list_lookup_alter_ne, list_lookup_insert_ne by done.
Qed.

Lemma held_here : held_by (held_in w) t = in_stage (c3_stage c).
Proof. unfold held_by, held_in. simpl. by rewrite list_lookup_fmap, Hc. Qed.

Lemma hand_here w1 i ci : bw_clients w1 !! i = Some ci -> calls (bw_state w1) !! i = Some None ->
  hands (held_in w1) !! i = Some (in_stage (c3_stage ci)).
Proof.
  intros Hi Ho. apply hands_lookup. exists (in_stage (c3_stage ci)), None.
  unfold held_in. simpl. by rewrite list_lookup_fmap, Hi, app_nil_r.
Qed.

(** A client's value that is still to be marked stays keyed, whatever another client does:
    writes are of keys. *)
Lemma elsewhere a w' i ci v el :
  lallowed ms (held_in w) a -> lworld_act spins n a (held_in w) = Some (Ok (held_in w')) ->
  (forall t' ptr bs el, a = LWrite t' ptr bs -> bw_heap w !! elem_of_ptr ptr = Some el ->
     keyed (overwritten bs el)) ->
  bw_clients w !! i = Some ci -> bw_clients w' !! i = Some ci -> c3_stage ci = Giving el v ->
  calls (bw_state w) !! i = Some None -> calls (bw_state w') !! i = Some None -> v <> 0 ->
  (exists el, bw_heap w !! elem_of_ptr v = Some el /\ keyed el) ->
  exists el, bw_heap w' !! elem_of_ptr v = Some el /\ keyed el.
Proof.
  intros Ha Hact Hwr Hi Hi' Hst Ho Ho' Hv (el0 & Hel0 & Hkey0).
  pose proof (hand_here w i ci Hi Ho) as H1. pose proof (hand_here w' i ci Hi' Ho') as H2.
  rewrite Hst in H1, H2. pose proof (bi_world _ _ _ Hinv) as Hw.
  apply list_elem_of_lookup_2 in H1 as Hm1. apply list_elem_of_lookup_2 in H2 as Hm2.
  assert (v ∈ (in_stage (Giving el v)).*2) as Hin by (simpl; left).
  destruct (hand_allocated h0 n ms ev k (held_in w) owns Hw _ v Hm1 Hin Hv) as (s & own & e & hs & _ & Haddr & -> & _).
  pose proof (lstep_ok h0 n ms ev spins Hn (proj2 Hms) k (held_in w) a owns Hk Hw Ha) as Hok. rewrite Hact in Hok.
  destruct Hok as (_ & _ & Hkept & _). rewrite elem_of_value_ptr in * by done.
  assert ((forall t' bs, a <> LWrite t' (value_ptr e) bs) -> exists el, bw_heap w' !! e = Some el /\ keyed el) as Hother.
  { intros Hne. destruct (Hkept e _ _ Haddr Hm1 Hin Hm2 Hin Hne) as (el1 & rc & Hel1 & Hel').
    change (lw_heap (held_in w) !! e) with (bw_heap w !! e) in Hel1. rewrite Hel0 in Hel1. injection Hel1 as <-.
    by exists (set_ref_count rc el0). }
  destruct a as [| | | |t' ptr bs]; try (apply Hother; intros ? ?; discriminate).
  destruct (decide (ptr = value_ptr e)) as [->|Hne]; [|apply Hother; congruence].
  cbn [lworld_act] in Hact. destruct (calls (lw_state (held_in w)) !! t') as [[|]|]; try done.
  injection Hact as Hact. apply bind_Ok in Hact as (h' & Hh' & Hact). apply Ok_inj in Hact.
  assert (bw_heap w' = h') as -> by (unfold bw_heap; change (bw_state w') with (lw_state (held_in w')); by rewrite <- Hact).
  change (write_value (bw_heap w) (value_ptr e) bs = Ok h') in Hh'. apply write_value_Ok in Hh' as (el1 & Hel1 & _ & ->).
  rewrite elem_of_value_ptr, Hel0 in Hel1 by done. injection Hel1 as <-. rewrite elem_of_value_ptr by done.
  eexists. split; [apply lookup_insert_eq|]. apply (Hwr t' (value_ptr e) bs el0 eq_refl). by rewrite elem_of_value_ptr.
Qed.

(** The client makes an action of the program. *)
Lemma moved a st' c' :
  lallowed ms (held_in w) a -> writes_own (held_in w) a ->
  lworld_act spins n a (held_in w) = Some (Ok (held_in (BWorld st' (<[t := c']> (bw_clients w))))) ->
  (forall e el, marks a e -> bw_heap w !! e = Some el -> keyed el) ->
  (forall t' ptr bs el, a = LWrite t' ptr bs -> bw_heap w !! elem_of_ptr ptr = Some el ->
     keyed (overwritten bs el)) ->
  (forall i, i <> t -> calls st' !! i = calls (bw_state w) !! i) ->
  (exists o, calls st' !! t = Some o /\ stage_ok (hp (lmem st')) o (c3_stage c')) ->
  c3_errors c' = 0%nat ->
  exists owns', bench_inv (k + 1) (BWorld st' (<[t := c']> (bw_clients w))) owns'.
Proof.
  intros Ha Hwo Hact Hmk Hwr Hcalls Hstage Herr. pose proof (bi_world _ _ _ Hinv) as Hw.
  pose proof (lstep_ok h0 n ms ev spins Hn (proj2 Hms) k (held_in w) a owns Hk Hw Ha) as Hok. rewrite Hact in Hok.
  destruct Hok as (owns' & Hw' & _ & Hcar). exists owns'. split.
  - exact Hw'.
  - apply (Hcar Hwo keyed keyed_contents (bi_ready _ _ _ Hinv)). exact Hmk.
  - intros i ci Hi. simpl in Hi |- *. pose proof Hi as Hi'.
    apply list_lookup_insert_Some in Hi as [(<- & <- & _)|[Hne Hi]]; [exact Hstage|].
    destruct (bi_stage _ _ _ Hinv i ci Hi) as (o & Ho & Hst). exists o. rewrite Hcalls by done. split; [done|].
    destruct (c3_stage ci) as [|q|q v|q v] eqn:Hs; try exact Hst.
    destruct Hst as (-> & Hq & Hv & Hkey). do 3 (split; [done|]). intros Hop.
    apply (elsewhere a (BWorld st' (<[t := c']> (bw_clients w))) i ci v q Ha Hact Hwr Hi Hi' Hs Ho); [|done|by apply Hkey].
    simpl. by rewrite Hcalls.
  - intros i ci Hi. simpl in Hi. apply list_lookup_insert_Some in Hi as [(_ & <- & _)|[_ Hi]]; [done|].
    by apply (bi_silent _ _ _ Hinv i).
Qed.

(** Nothing happened for the program. *)
Lemma quiet st' c' o :
  st' = bw_state w -> in_stage (c3_stage c') = in_stage (c3_stage c) -> calls (bw_state w) !! t = Some o ->
  stage_ok (bw_heap w) o (c3_stage c') -> c3_errors c' = 0%nat ->
  exists owns', bench_inv (k + 1) (BWorld st' (<[t := c']> (bw_clients w))) owns'.
Proof.
  intros -> Hin Ho Hst Herr. exists owns. split; simpl.
  - rewrite (held_change (bw_state w) c' (fun l => l) Hin). unfold change_held. rewrite list_alter_id by done.
    apply lworld_more. exact (bi_world _ _ _ Hinv).
  - exact (bi_ready _ _ _ Hinv).
  - intros i ci Hi. apply list_lookup_insert_Some in Hi as [(<- & <- & _)|[_ Hi]]; [by exists o|].
    exact (bi_stage _ _ _ Hinv i ci Hi).
  - intros i ci Hi. apply list_lookup_insert_Some in Hi as [(_ & <- & _)|[_ Hi]]; [done|].
    by apply (bi_silent _ _ _ Hinv i).
Qed.

(** What a client was given for its query. *)
Lemma answer_elem q v :
  (c3_stage c = Answered q v \/ c3_stage c = Giving q v) -> v <> 0 -> exists s own e hs el,
  owns !! s = Some own /\ v = value_ptr e /\ addr_ok e /\ own !! e = Some hs /\ bw_heap w !! e = Some el /\
  match query_request q with
  | Lookup key => Value.key el = key /\ writing hs = false
  | Insert key sz => Value.key el = key /\ size el = elem_size sz /\ writing hs = true
  | Release _ => False
  end.
Proof.
  intros Hs Hv. destruct (bi_stage _ _ _ Hinv t c Hc) as (o & Ho & Hst).
  assert (o = None) as -> by (by destruct Hs as [Hs|Hs]; rewrite Hs in Hst; apply Hst).
  pose proof (hand_here w t c Hc Ho) as Hl.
  assert (in_stage (c3_stage c) = [(query_request q, v)]) as Hin.
  { destruct Hs as [-> | ->]; simpl; [|done]. by rewrite (proj2 (Z.eqb_neq v 0)), request_of_op. }
  rewrite Hin in Hl.
  destruct (lwi_answers _ _ _ _ _ _ _ (bi_world _ _ _ Hinv) _ (query_request q, v)
    ltac:(by eapply list_elem_of_lookup_2) ltac:(left))
    as [?|(s & own & Hown & [?|(e & hs & el & Haddr & Hp & He & Hel & Hr)])]; [done..|].
  exists s, own, e, hs, el. done.
Qed.
End step.

(** ** Every action of a client *)
Lemma i64_small x : 0 <= x < 2 ^ 63 -> i64 x = x.
Proof. intros Hx. unfold i64. rewrite Z.mod_small; lia. Qed.

Section actions.
Context (k : Z) (w : bworld) (owns : list ownership) (Hk : 0 <= k < 2 ^ 62) (Hinv : bench_inv k w owns).
Context (t : nat) (c : client3) (Hc : bw_clients w !! t = Some c).

(** The client is about to store its key, and the block it was given has no room for it. *)
Definition stores_past (h : heap) (s : stage3) : Prop :=
  exists q v el, s = Answered q v /\ q_optype q = optype_code OPTYPE_INSERT /\
    h !! elem_of_ptr v = Some el /\ (length (value el) < 8)%nat.

(** What the benchmark may fail with: no victim is found, there is no memory, or the key is
    stored past the end of its block. *)
Definition may_fail3 (h : heap) (s : stage3) (f : fault) : Prop :=
  match f with
  | Undefined => stores_past h s
  | Blocked => ev = EVICT_RANDOM
  | AssertFailed => refused (base.size h) 8 /\ exists q, s = Calling q /\ q_optype q = optype_code OPTYPE_INSERT
  end.

(** The outcome of an action. *)
Definition act_ok (r : result (lstate * client3)) : Prop :=
  match r with
  | Ok (st', c') => exists owns', bench_inv (k + 1) (BWorld st' (<[t := c']> (bw_clients w))) owns'
  | Fault f => may_fail3 (bw_heap w) (c3_stage c) f
  end.

Lemma silent : c3_errors c = 0%nat.
Proof. exact (bi_silent _ _ _ Hinv t c Hc). Qed.

Lemma next_ok : c3_stage c = Next -> act_ok (client_design3 rand_r opt spins n t (bw_state w) c).
Proof.
  intros Hs. destruct (bi_stage _ _ _ Hinv t c Hc) as (o & Ho & Hst). rewrite Hs in Hst. simpl in Hst. subst o.
  unfold client_design3. rewrite Hs. destruct (c3_left c) as [|rest].
  { by apply (quiet k w owns Hinv t c Hc (bw_state w) c None); rewrite ?Hs; [..|apply silent]. }
  pose proof (ex_intro (fun seed => (get_random_query rand_r opt (c3_seed c)).1 = (get_random_query rand_r opt seed).1)
    (c3_seed c) eq_refl : random_query _) as Hq.
  destruct (get_random_query rand_r opt (c3_seed c)) as [q seed]. simpl in Hq |- *.
  pose proof (random_query_op q Hq) as (_ & Hop).
  apply (moved k w owns Hk Hinv t (LBegin t (table_op q))); try done.
  - simpl. destruct Hop as [(_ & -> & _)|(_ & -> & _)]; simpl; [done|]. split; [lia | apply Hms].
  - rewrite (held_change w t c Hc _ _ (fun l => l)) by (by rewrite Hs). unfold change_held. rewrite list_alter_id by done.
    cbn [lworld_act]. change (lw_state (held_in w)) with (bw_state w). rewrite Ho. by rewrite query_call_op.
  - intros i Hi. simpl. by apply list_lookup_insert_ne.
  - simpl. rewrite list_lookup_insert_eq by (by eapply lookup_lt_Some).
    eexists. split; [done|]. split; [done|]. eexists. split; [done|].
    rewrite query_call_op. by destruct (table_op q); (split; [|intros ?]).
  - apply silent.
Qed.

Lemma calling_ok q : c3_stage c = Calling q -> act_ok (client_design3 rand_r opt spins n t (bw_state w) c).
Proof.
  intros Hs. destruct (bi_stage _ _ _ Hinv t c Hc) as (o & Ho & Hst). rewrite Hs in Hst.
  destruct Hst as (Hq & cl & -> & Hcl & Hproper). pose proof (random_query_op q Hq) as (_ & Hop).
  unfold client_design3. rewrite Hs.
  pose proof (lstep_ok h0 n ms ev spins Hn (proj2 Hms) k (held_in w) (LAct t) owns Hk (bi_world _ _ _ Hinv) I) as Hok.
  cbn [lworld_act] in Hok. change (lw_state (held_in w)) with (bw_state w) in Hok. rewrite Ho in Hok.
  destruct (locking_step spins t (bw_state w)) as [[st' o]|f] eqn:Hst; cbn [mbind result_bind mret result_ret act_ok] in *.
  - destruct (locking_step_calls spins (bw_state w) t cl st' o Ho Hproper Hst) as [Hoth Hmine].
    apply (moved k w owns Hk Hinv t (LAct t)); try done.
    + rewrite (held_change w t c Hc _ _ (fun l => l ++ taken (lc_op cl) o)).
      2: { rewrite Hs, Hcl. simpl. destruct o; [done|]. by rewrite Hs. }
      cbn [lworld_act]. change (lw_state (held_in w)) with (bw_state w). by rewrite Ho, Hst.
    + destruct o as [v|]; [|destruct Hmine as (ph & Hph & Hpr)].
      * destruct Hmine as (Hnone & x & Hph). exists None. split; [done|]. do 2 (split; [done|]). intros Hi.
        pose proof (lwi_fits _ _ _ _ _ _ _ (bi_world _ _ _ Hinv) t cl Ho) as Hfit. unfold fits_call in Hfit.
        rewrite Hcl in Hfit. destruct Hop as [(Hl & _)|(_ & Hop & _)]; [by rewrite Hl in Hi|].
        rewrite Hop in Hfit. by apply (proj2 Hfit x).
      * eexists. split; [done|]. rewrite Hs. split; [done|]. by eexists.
    + destruct o; apply silent.
  - destruct Hok as [(t' & c0 & Heq & Hc0 & Hf)|[_ []]]. injection Heq as <-. change (lw_state (held_in w)) with (bw_state w) in Hc0.
    rewrite Ho in Hc0. injection Hc0 as <-. destruct f; try done. destruct Hf as (key & sz & Hi & Hr).
    rewrite Hcl in Hi. destruct Hop as [(_ & Hop & _)|(Ht & Hop & _)]; rewrite Hop in Hi; [done|].
    injection Hi as <- <-. destruct Hr as [Hr|]; [|lia]. split; [done|]. by exists q.
Qed.

Lemma same_memory : set_lheap (bw_heap w) (bw_state w) = bw_state w.
Proof. unfold bw_heap. by destruct (bw_state w) as [ps [h tk] cs]. Qed.

(** What a lookup answers holds its key. *)
Lemma answer_read q v :
  c3_stage c = Answered q v -> q_optype q = optype_code OPTYPE_LOOKUP -> v <> 0 ->
  load_long (bw_heap w) v = Ok (q_key q).
Proof.
  intros Hs Hl Hv. destruct (bi_stage _ _ _ Hinv t c Hc) as (o & Ho & Hst). rewrite Hs in Hst.
  destruct Hst as (-> & Hq & _). pose proof (random_query_op q Hq) as (Hkey & Hop).
  destruct (answer_elem k w owns Hinv t c Hc q v ltac:(by left) Hv) as (s & own & e & hs & el & Hown & -> & Haddr & He & Hel & Hr).
  destruct Hop as [(_ & _ & Hreq)|(Hop & _)]; [|by rewrite Hop in Hl]. rewrite Hreq in Hr. destruct Hr as [Hkel Hwr].
  pose proof (bi_ready _ _ _ Hinv s own e hs el Hown He Hwr Hel) as Hkeyed.
  rewrite (keyed_load (bw_heap w) (value_ptr e) el) by (by rewrite ?elem_of_value_ptr).
  rewrite Hkel, u64_small, i64_small by lia. done.
Qed.

Lemma answered_ok q v : c3_stage c = Answered q v -> act_ok (client_design3 rand_r opt spins n t (bw_state w) c).
Proof.
  intros Hs. destruct (bi_stage _ _ _ Hinv t c Hc) as (o & Ho & Hst). rewrite Hs in Hst.
  destruct Hst as (-> & Hq & Hv). pose proof (random_query_op q Hq) as (Hkey & Hop).
  unfold client_design3. rewrite Hs. change (hp (lmem (bw_state w))) with (bw_heap w). unfold handle_query_result.
  destruct (decide (v = 0)) as [->|Hne].
  { destruct Hop as [(-> & _ & _)|(Hi & _)]; [|by destruct Hv]. simpl.
    apply (quiet k w owns Hinv t c Hc _ _ None); simpl; rewrite ?Hs; try done; [apply same_memory | by rewrite silent]. }
  pose proof (answer_read q v Hs) as Hread.
  destruct (answer_elem k w owns Hinv t c Hc q v ltac:(by left) Hne) as (s & own & e & hs & el & Hown & -> & Haddr & He & Hel & Hr).
  destruct Hop as [(Hop & _ & Hreq)|(Hop & _ & Hreq)]; rewrite Hop; rewrite Hreq in Hr.
  - change (optype_code OPTYPE_LOOKUP =? optype_code OPTYPE_LOOKUP) with true. cbn iota.
    rewrite (proj2 (Z.eqb_neq _ 0)), (Hread Hop Hne) by done.
    cbn [mbind result_bind mret result_ret]. rewrite u64_small, Z.eqb_refl by lia.
    apply (quiet k w owns Hinv t c Hc _ _ None); simpl; try done; [apply same_memory | | | by rewrite silent].
    + rewrite Hs. simpl. by rewrite (proj2 (Z.eqb_neq _ 0)), request_of_op.
    + split; [done|]. split; [done|]. split; [done|]. intros Hi. by rewrite Hop in Hi.
  - change (optype_code OPTYPE_INSERT =? optype_code OPTYPE_LOOKUP) with false. cbn iota.
    rewrite (proj2 (Z.eqb_neq _ 0)) by done. cbn [negb check mbind result_bind]. destruct Hr as (Hkel & Hsz & Hwr).
    pose proof (keyed_overwritten el) as Hkeyed. rewrite Hkel in Hkeyed. set (bs := le 8 (u64 (q_key q))) in *.
    assert (bw_heap w !! elem_of_ptr (value_ptr e) = Some el) as Hel' by (by rewrite elem_of_value_ptr).
    pose proof (write_value_spec _ _ bs el Hel') as Hbs. unfold store_long. fold bs. rewrite Hbs.
    change (length bs) with 8%nat in *. case_decide as Hfit; cbn [mbind result_bind mret result_ret act_ok].
    2: { exists q, (value_ptr e), el. do 3 (split; [done|]). lia. }
    assert (held_by (held_in w) t = [(Insert (q_key q) 8, value_ptr e)]) as Hheld.
    { rewrite (held_here w t c Hc), Hs. simpl. by rewrite (proj2 (Z.eqb_neq _ 0)), request_of_op, Hreq. }
    apply (moved k w owns Hk Hinv t (LWrite t (value_ptr e) bs)); try done.
    + unfold lallowed. rewrite Hheld. left.
    + unfold writes_own. rewrite Hheld. simpl. unfold wrote. simpl. by rewrite Z.eqb_refl.
    + rewrite (held_change w t c Hc _ _ (fun l => l)).
      2: { rewrite Hs. simpl. by rewrite (proj2 (Z.eqb_neq _ 0)), request_of_op. }
      unfold change_held. rewrite list_alter_id by done.
      cbn [lworld_act]. change (lw_state (held_in w)) with (bw_state w). rewrite Ho.
      change (hp (lmem (bw_state w))) with (bw_heap w). by rewrite Hbs.
    + intros t' ptr bs' el' [= <- <- <-] H. rewrite Hel' in H. by injection H as <-.
    + exists None. split; [done|]. simpl. split; [done|]. split; [done|]. split; [done|]. intros _.
      eexists. simpl. rewrite elem_of_value_ptr by done. split; [apply lookup_insert_eq | done].
    + simpl. by rewrite silent.
Qed.

Lemma giving_ok q v : c3_stage c = Giving q v -> act_ok (client_design3 rand_r opt spins n t (bw_state w) c).
Proof.
  intros Hs. destruct (bi_stage _ _ _ Hinv t c Hc) as (o & Ho & Hst). rewrite Hs in Hst.
  destruct Hst as (-> & Hq & Hne & Hkey). pose proof (random_query_op q Hq) as (_ & Hop).
  unfold client_design3. rewrite Hs. change (hp (lmem (bw_state w))) with (bw_heap w).
  assert (exists a f, lallowed ms (held_in w) a /\ writes_own (held_in w) a /\ drop_one f [(query_request q, v)] = [] /\
    (forall e el, marks a e -> bw_heap w !! e = Some el -> keyed el) /\
    (forall t' ptr bs, a <> LWrite t' ptr bs) /\ (forall t', a <> LAct t') /\
    lworld_act spins n a (held_in w) = Some (h ← done_with (bw_heap w) q v;
      mret (LWorld (set_lheap h (bw_state w)) (change_held t (drop_one f) (lw_held (held_in w))))))
    as (a & f & Ha & Hwo & Hdrop & Hmk & Hnw & Hna & Hact).
  { pose proof (held_here w t c Hc) as Hheld. rewrite Hs in Hheld. unfold done_with.
    destruct Hop as [(Hop & _ & Hreq)|(Hop & _ & Hreq)]; rewrite Hop, Hreq in *; simpl in Hheld.
    - exists (LRelease t v), (found v). unfold lallowed, found. simpl. rewrite Hheld, Ho. simpl.
      rewrite Hreq, Z.eqb_refl. done.
    - exists (LMark t v), (wrote v). unfold lallowed, wrote. simpl. rewrite Hheld, Ho. simpl.
      rewrite Hreq, Z.eqb_refl. do 3 (split; [done|]). split; [|done].
      intros e el -> Hel. destruct (Hkey eq_refl) as (el0 & Hel0 & Hk0). assert (el = el0) as -> by congruence. exact Hk0. }
  pose proof (lstep_ok h0 n ms ev spins Hn (proj2 Hms) k (held_in w) a owns Hk (bi_world _ _ _ Hinv) Ha) as Hok.
  rewrite Hact in Hok. destruct (done_with (bw_heap w) q v) as [h|fl]; cbn [mbind result_bind mret result_ret act_ok] in *.
  2: { destruct Hok as [(t' & c0 & -> & _)|[_ Hpast]]; [by destruct (Hna t')|].
       destruct a as [| | | |t' ptr bs]; try done. by destruct (Hnw t' ptr bs). }
  apply (moved k w owns Hk Hinv t a); try done.
  - rewrite (held_change w t c Hc _ _ (drop_one f)); [done|]. by rewrite Hs.
  - intros t' ptr bs el ->. by destruct (Hnw t' ptr bs).
  - exists None. done.
  - apply silent.
Qed.

Lemma client_step : act_ok (client_design3 rand_r opt spins n t (bw_state w) c).
Proof.
  pose proof next_ok as H1. pose proof calling_ok as H2. pose proof answered_ok as H3. pose proof giving_ok as H4.
  destruct (c3_stage c) as [|q|q v|q v]; [by apply H1 | by apply (H2 q) | by apply (H3 q v) | by apply (H4 q v)].
Qed.
End actions.

Lemma bench_act k w owns t :
  0 <= k < 2 ^ 62 -> bench_inv k w owns ->
  match bworld_act rand_r opt spins n t w with
  | Some (Ok w') => exists owns', bench_inv (k + 1) w' owns'
  | Some (Fault f) => exists c, bw_clients w !! t = Some c /\ may_fail3 (bw_heap w) (c3_stage c) f
  | None => True
  end.
Proof.
  intros Hk Hinv. unfold bworld_act. destruct (bw_clients w !! t) as [c|] eqn:Hc; [|done]. cbn [mbind option_bind].
  pose proof (client_step k w owns Hk Hinv t c Hc) as Hok.
  destruct (client_design3 rand_r opt spins n t (bw_state w) c) as [[st' c']|f]; cbn [mbind result_bind mret result_ret];
    [exact Hok | by exists c].
Qed.
End clients.

(** ** What is left to do *)

(** The actions that a client has still to make, if it need not wait. *)
Definition client_rank (o : option lcall) (c : client3) : Z :=
  12 * Z.of_nat (c3_left c) +
  match c3_stage c with
  | Next => 0
  | Calling _ => 3 + from_option (fun cl => phase_rank (lc_phase cl)) 0 o
  | Answered _ _ => 2
  | Giving _ _ => 1
  end.

Definition work (w : bworld) : Z :=
  zsum (fun x => client_rank x.1 x.2) (zip (calls (bw_state w)) (bw_clients w)).

(** The client has returned, or its next action tests a slot that is not set. *)
Definition no_advance (st : lstate) (o : option lcall) (c : client3) : Prop :=
  returned3 c = true \/ exists cl p, o = Some cl /\ parts st !! Z.to_nat (lc_server cl) = Some p /\
    must_wait (plock p) (lc_phase cl).
