(* ===== verification/BenchLockingThms.v ===== *)
(** * BenchLockingThms: the clients of the locking benchmark find what was inserted

    Along any schedule: no client prints its error message, none meets a failed
    assertion, they can always be brought to their end, and the table then gives back all
    of its memory. *)
From stdpp Require Import base list gmap relations.
From Stdlib Require Import ZArith Lia.
From S2P Require Import Prelude Protocol ALock Value Partition PartitionInv PartitionLru PartitionThms Link.
From S2P Require Import TableOps Ownership HashTable Estates Holders Locking LockingThms LockingLive Blocks.
From S2P Require Import LockingWorld.
From S2P Require Import LockingWorldInv HashTableThms LockingWorldThms DoallThms Stream HashServer System.
From S2P Require Import Bench BenchThms BenchLocking BenchLockingInv.

Local Open Scope Z_scope.

Section rank.
Context `{M : Machine} (spins : nat) (rand_r : Z -> Z * Z) (opt : options) (n : Z).

(** An action brings its client nearer to its end, or changes nothing in that. *)
Lemma action_rank t st c o st' c' :
  calls st !! t = Some o ->
  match c3_stage c with Calling q => exists cl, o = Some cl /\ proper (lc_phase cl) | _ => o = None end ->
  client_design3 rand_r opt spins n t st c = Ok (st', c') ->
  exists o', calls st' = <[t := o']> (calls st) /\
    (client_rank o' c' < client_rank o c \/ (client_rank o' c' = client_rank o c /\ no_advance st o c)).
Proof.
  intros Ho Hst Hact. unfold client_design3 in Hact. unfold client_rank.
  destruct (c3_stage c) as [|q|q v|q v] eqn:Hs.
  - destruct (c3_left c) as [|rest] eqn:Hl.
    + apply Ok_inj in Hact. injection Hact as <- <-. exists o. rewrite list_insert_id by done. split; [done|]. right.
      rewrite Hs, Hl. split; [done|]. left. unfold returned3. by rewrite Hs, Hl.
    + destruct (get_random_query rand_r opt (c3_seed c)) as [q seed]. apply Ok_inj in Hact. injection Hact as <- <-.
      eexists. split; [done|]. left. cbn [c3_left c3_stage from_option].
      pose proof (phase_rank_range (lc_phase (query_call n q))) as Hr. unfold query_call in *.
      destruct (q_optype q =? optype_code OPTYPE_LOOKUP); simpl in *; lia.
  - destruct Hst as (cl & -> & Hp). apply bind_Ok in Hact as ([st1 o1] & Hact & Hr). apply Ok_inj in Hr. injection Hr as -> <-.
    destruct (locking_step_act spins st t cl st' o1 Ho Hact) as (p & m' & p' & r & Hpart & Ha & Hcalls & ->).
    exists (call_after cl r). split; [exact Hcalls|]. pose proof (act_rank spins _ _ _ _ _ _ _ Ha Hp) as Hr.
    destruct r as [ph|v]; simpl.
    + rewrite Hs. simpl. destruct Hr as [_ [Hr|[-> Hw]]]; [left; lia|]. right. split; [done|]. right. by exists cl, p.
    + left. destruct Hr as [x ->]. simpl. lia.
  - apply bind_Ok in Hact as ([[h pr] op] & _ & Hr). apply Ok_inj in Hr. injection Hr as <- <-. exists o.
    rewrite list_insert_id by done. split; [done|]. left. simpl. destruct op; lia.
  - apply bind_Ok in Hact as (h & _ & Hr). apply Ok_inj in Hr. injection Hr as <- <-. exists o.
    rewrite list_insert_id by done. split; [done|]. left. simpl. lia.
Qed.

(** ** The blocks of the values *)
Lemma blocks_handled h q v h' pr op :
  handle_query_result 3 h q v = Ok (h', pr, op) -> blocks_from h h'.
Proof.
  unfold handle_query_result. intros Hh. destruct (q_optype q =? optype_code OPTYPE_LOOKUP).
  - destruct (v =? 0); [by injection Hh as <- _ _|]. apply bind_Ok in Hh as (x & _ & Hh). by injection Hh as <- _ _.
  - apply bind_Ok in Hh as (u & _ & Hh). apply bind_Ok in Hh as (h1 & Hs & Hh). injection Hh as <- _ _.
    by apply (blocks_written _ _ _ _ Hs).
Qed.

Lemma blocks_client t st c st' c' :
  client_design3 rand_r opt spins n t st c = Ok (st', c') -> blocks_from (hp (lmem st)) (hp (lmem st')).
Proof.
  unfold client_design3. intros Hact. destruct (c3_stage c) as [|q|q v|q v].
  - destruct (c3_left c); [by injection Hact as <- _|]. destruct (get_random_query _ _ _). by injection Hact as <- _.
  - apply bind_Ok in Hact as ([st1 o] & Hs & Hact). injection Hact as <- _. by apply (blocks_step _ _ _ _ _ Hs).
  - apply bind_Ok in Hact as ([[h pr] op] & Hh & Hact). injection Hact as <- _. by apply (blocks_handled _ _ _ _ _ _ Hh).
  - apply bind_Ok in Hact as (h & Hd & Hact). injection Hact as <- _. unfold done_with in Hd.
    case_match; [by apply (blocks_atomic_release _ _ _ Hd) | by apply (blocks_atomic_mark _ _ _ Hd)].
Qed.

Lemma blocks_run l w w' : run_clients rand_r opt spins n l w = Ok w' -> blocks_from (bw_heap w) (bw_heap w').
Proof.
  revert w. induction l as [|t l IH]; intros w Hrun; [by injection Hrun as ->|].
  apply bind_Ok in Hrun as (w1 & Hact & Hrun). transitivity (bw_heap w1); [|by apply IH]. clear Hrun IH.
  unfold bworld_act in Hact. destruct (bw_clients w !! t) as [c|]; [|by injection Hact as <-].
  cbn [mbind option_bind default] in Hact. apply bind_Ok in Hact as ([st' c'] & Hc & Hact).
  injection Hact as <-. by apply (blocks_client t _ c _ c').
Qed.
End rank.

Section benchmark.
Context `{M : Machine} (spins : nat) (rand_r : Z -> Z * Z) (Hrand : forall seed, 0 <= (rand_r seed).1).
Context (opt : options) (Hmask : 0 <= query_mask opt < 2 ^ 31).
Context (raw : hash_table) (raws : list (partition * list alock)) (total n ev : Z) (ht : hash_table).
Context (Hht : create_hash_table raw raws total n ev = Ok ht).
Context (Hev : ev = EVICT_LRU \/ ev = EVICT_RANDOM) (Htotal : 0 <= total < 2 ^ 63).
Context (Hclear : Forall (fun r => clear_lock n (plock r.1)) raws).
Context (Hroom : elem_size 8 <= lshare total n).
Context (seeds : list Z) (Hnt : Z.of_nat (length seeds) <= n) (m : mem) (iters : nat).

Abbreviation inv := (bench_inv rand_r opt (hp m) n (lshare total n) ev).
Abbreviation start := (start_clients ht m iters seeds).

Lemma share_facts : 0 < n < 2 ^ 31 /\ elem_size 8 <= lshare total n < 2 ^ 63.
Proof.
  destruct (created_parts _ _ _ _ _ _ Hht) as (Hpos & _). pose proof (created_bound _ _ _ _ _ _ Hht) as Hb.
  pose proof (share_bound _ _ _ _ _ _ Hht Htotal Hb) as Hshare. unfold MAX_CLIENTS in Hb.
  split; [lia|]. split; [exact Hroom | apply Hshare].
Qed.

Lemma start_bench : inv 0 start (no_holders (partitions ht)).
Proof.
  assert (held_in start = start_lworld ht m (length seeds)) as Hheld.
  { unfold held_in, start_clients, start_lworld. simpl. f_equal. clear.
    induction seeds as [|x l IH]; [done|]. simpl. f_equal. exact IH. }
  split.
  - rewrite Hheld. by apply (start_linv raw raws total n ev ht Hht Hev Htotal Hclear).
  - intros s own e hs el Ho He. unfold no_holders in Ho. apply lookup_replicate in Ho as [-> _]. by rewrite lookup_empty in He.
  - intros t c Hc. simpl in Hc. apply list_lookup_fmap_Some in Hc as (x & -> & Hx). exists None. split; [|done].
    simpl. apply lookup_replicate_2. by eapply lookup_lt_Some.
  - intros t c Hc. simpl in Hc. by apply list_lookup_fmap_Some in Hc as (x & -> & Hx).
Qed.

(** ** The end of the run *)
Lemma joined_memory k w owns :
  0 <= k < 2 ^ 62 -> inv k w owns -> join_clients w = Ok tt ->
  destroy_hash_table (bw_heap w) (set_partitions (parts (bw_state w)) ht) = Ok (hp m).
Proof.
  intros Hk Hinv Hjoin. apply check_Ok in Hjoin.
  assert (forall c, c ∈ bw_clients w -> c3_stage c = Next) as Hdone.
  { intros c Hc. apply list_elem_of_In in Hc. pose proof (proj1 (forallb_forall _ _) Hjoin c Hc) as Hr.
    unfold returned3 in Hr. by destruct (c3_stage c). }
  apply (idle_memory raw raws total n ev ht Hht 0 m k (held_in w) owns Hk (bi_world _ _ _ _ _ _ _ _ _ Hinv)). split.
  - intros o Ho. apply list_elem_of_lookup in Ho as [t Ht]. simpl in Ht.
    pose proof (lwi_len _ _ _ _ _ _ _ (bi_world _ _ _ _ _ _ _ _ _ Hinv)) as Hlen. simpl in Hlen. rewrite length_fmap in Hlen.
    destruct (lookup_lt_is_Some_2 (bw_clients w) t) as [c Hc]; [rewrite Hlen; by eapply lookup_lt_Some|].
    destruct (bi_stage _ _ _ _ _ _ _ _ _ Hinv t c Hc) as (o' & Ho' & Hst). rewrite Ho' in Ht. injection Ht as <-.
    rewrite (Hdone c) in Hst by (by eapply list_elem_of_lookup_2). exact Hst.
  - intros l Hl. simpl in Hl. apply list_elem_of_fmap in Hl as (c & -> & Hc). by rewrite (Hdone c Hc).
Qed.

(** ** The clients come to their end *)

(** A client has one value in its hands at most, so that memory is bounded. *)
Definition capacity : nat := base.size (hp m) + Z.to_nat n * S (Z.to_nat (lshare total n / sizeof_elem)).

Lemma bench_size k w owns : inv k w owns -> (base.size (bw_heap w) <= capacity)%nat.
Proof.
  intros Hinv. pose proof (bi_world _ _ _ _ _ _ _ _ _ Hinv) as Hw. destruct share_facts as [Hn _].
  pose proof (world_size _ _ _ _ _ _ _ Hw) as Hsz. change (lw_heap (held_in w)) with (bw_heap w) in Hsz.
  assert (length (concat (hands (held_in w))) <= length (hands (held_in w)) * 1)%nat as Hone.
  { apply length_concat_le. intros l Hl. apply list_elem_of_lookup in Hl as [i Hi].
    apply hands_lookup in Hi as (held & o & Hh & Ho & ->). simpl in Hh, Ho.
    apply list_lookup_fmap_Some in Hh as (c & -> & Hc).
    destruct (bi_stage _ _ _ _ _ _ _ _ _ Hinv i c Hc) as (o' & Ho' & Hst). rewrite Ho in Ho'. injection Ho' as <-.
    destruct (c3_stage c) as [|q|q v|q v]; simpl in Hst; [subst o; simpl; lia | | destruct Hst as (-> & _) ..]; simpl.
    - destruct Hst as (_ & cl & -> & _). simpl. destruct (lc_phase cl); simpl; lia.
    - destruct (v =? 0); simpl; lia.
    - lia. }
  pose proof (lwi_table _ _ _ _ _ _ _ Hw) as Htab. pose proof (lv_n _ _ _ _ _ _ _ Htab) as Hlen.
  destruct (lookup_lt_is_Some_2 (parts (lw_state (held_in w))) 0) as [p Hp]; [lia|].
  destruct (lv_lock _ _ _ _ _ _ _ Htab 0%nat p Hp) as (R & q & free & Hl).
  pose proof (li_threads _ _ _ _ _ Hl) as Hth. simpl in Hth. rewrite length_fmap in Hth.
  assert (length (hands (held_in w)) <= length (calls (bw_state w)))%nat.
  { unfold hands. rewrite length_zip_with. simpl. lia. }
  unfold capacity. lia.
Qed.
Lemma work_nonneg w : 0 <= work w.
Proof.
  apply zsum_nonneg. intros [o c] _. unfold client_rank. simpl.
  assert (0 <= from_option (fun cl => phase_rank (lc_phase cl)) 0 o) by (destruct o as [[s op [[]| | |]]|]; simpl; lia).
  destruct (c3_stage c); lia.
Qed.

(** No action makes more work, and only a client that waits or has returned makes none less. *)
Lemma act_work k w owns t w' c o :
  inv k w owns -> bw_clients w !! t = Some c -> calls (bw_state w) !! t = Some o ->
  bworld_act rand_r opt spins n t w = Some (Ok w') ->
  work w' < work w \/ (work w' = work w /\ no_advance (bw_state w) o c).
Proof.
  intros Hinv Hc Ho Hact. unfold bworld_act in Hact. rewrite Hc in Hact. cbn [mbind option_bind] in Hact.
  injection Hact as Hact. apply bind_Ok in Hact as ([st' c'] & Hact & Hw). apply Ok_inj in Hw as <-.
  destruct (bi_stage _ _ _ _ _ _ _ _ _ Hinv t c Hc) as (o' & Ho' & Hst). rewrite Ho in Ho'. injection Ho' as <-.
  destruct (action_rank spins rand_r opt n t (bw_state w) c o st' c' Ho) as (o' & Hcalls & Hr); [|exact Hact|].
  { destruct (c3_stage c); [exact Hst | | apply Hst..]. destruct Hst as (_ & cl & -> & _ & Hp). by exists cl. }
  unfold work. simpl. rewrite Hcalls, <- insert_zip_with, (zsum_insert _ _ _ (o, c)).
  - simpl. destruct Hr as [Hr|[Hr ?]]; [left; lia | right; split; [lia | done]].
  - apply lookup_zip_with_Some. by exists o, c.
Qed.

(** Some client is about to store its key past the end of the block of its value. *)
Definition key_past (w : bworld) : Prop :=
  exists t c, bw_clients w !! t = Some c /\ stores_past (bw_heap w) (c3_stage c).

(** As long as some client has not returned, some action brings one nearer to its end. *)
Lemma advance k w owns t c :
  0 <= k < 2 ^ 62 -> inv k w owns -> ev = EVICT_LRU -> ~ refused capacity 8 ->
  bw_clients w !! t = Some c -> returned3 c = false ->
  key_past w \/ exists t' w', bworld_act rand_r opt spins n t' w = Some (Ok w') /\ work w' < work w.
Proof.
  intros Hk Hinv Hlru Hmem Hc Hr. destruct share_facts as [Hn Hms].
  assert (exists t' c' o, bw_clients w !! t' = Some c' /\ calls (bw_state w) !! t' = Some o /\
    ~ no_advance (bw_state w) o c') as (t' & c' & o & Hc' & Ho' & Hadv).
  { destruct (bi_stage _ _ _ _ _ _ _ _ _ Hinv t c Hc) as (o & Ho & Hst). destruct o as [cl|].
    2: { exists t, c, None. do 2 (split; [done|]). intros [?|(? & ? & ? & _)]; congruence. }
    pose proof (lwi_table _ _ _ _ _ _ _ (bi_world _ _ _ _ _ _ _ _ _ Hinv)) as Htab.
    destruct (someone_advances _ _ _ _ _ _ _ Htab t cl Ho) as (t' & cl' & p & Hcl' & Hp & Hw).
    pose proof (lwi_len _ _ _ _ _ _ _ (bi_world _ _ _ _ _ _ _ _ _ Hinv)) as Hlen. simpl in Hlen. rewrite length_fmap in Hlen.
    destruct (lookup_lt_is_Some_2 (bw_clients w) t') as [c' Hc']; [rewrite Hlen; by eapply lookup_lt_Some|].
    simpl in Hcl', Hp. exists t', c', (Some cl'). do 2 (split; [done|]). intros [Hret|(cl2 & p2 & [= <-] & Hp2 & Hw2)].
    - destruct (bi_stage _ _ _ _ _ _ _ _ _ Hinv t' c' Hc') as (o2 & Ho2 & Hst2). rewrite Hcl' in Ho2. injection Ho2 as <-.
      unfold returned3 in Hret. by destruct (c3_stage c').
    - rewrite Hp in Hp2. by injection Hp2 as <-. }
  pose proof (bench_act spins rand_r Hrand opt Hmask (hp m) n _ ev Hn Hms k w owns t' Hk Hinv) as Ha.
  destruct (bworld_act rand_r opt spins n t' w) as [[w'|f]|] eqn:Hact.
  - right. exists t', w'. split; [done|]. by destruct (act_work k w owns t' w' c' o Hinv Hc' Ho' Hact) as [|[_ ?]].
  - destruct Ha as (c2 & Hc2 & Hf). destruct f; simpl in Hf; [|by left; exists t', c2 | by rewrite Hlru in Hf].
    exfalso. apply Hmem, (refused_more _ _ _ (proj1 Hf)), (bench_size k w owns Hinv).
  - exfalso. unfold bworld_act in Hact. by rewrite Hc' in Hact.
Qed.

Lemma some_left l : forallb returned3 l = false -> exists t c, l !! t = Some c /\ returned3 c = false.
Proof.
  induction l as [|c l IH]; simpl; [done|]. destruct (returned3 c) eqn:Hr; simpl; [|intros _; by exists 0%nat, c].
  intros Hl. destruct (IH Hl) as (t & c' & Hc & Hr'). by exists (S t), c'.
Qed.

Lemma finish N : ev = EVICT_LRU -> ~ refused capacity 8 -> forall w k owns,
  0 <= k -> work w <= Z.of_nat N -> k + Z.of_nat N < 2 ^ 62 -> inv k w owns ->
  exists schedule w' k' owns', run_clients rand_r opt spins n schedule w = Ok w' /\ (length schedule <= N)%nat /\
    (join_clients w' = Ok tt \/ key_past w') /\ 0 <= k' < 2 ^ 62 /\ inv k' w' owns'.
Proof.
  destruct share_facts as [Hn Hms]. intros Hlru Hmem. induction N as [|N IH]; intros w k owns Hk Hwork Hb Hinv;
    (destruct (forallb returned3 (bw_clients w)) eqn:Hall;
      [exists [], w, k, owns; split; [done|]; split; [simpl; lia|]; split; [by left; apply check_Ok | split; [lia | done]]|]);
    destruct (some_left _ Hall) as (t & c & Hc & Hr);
    (destruct (advance k w owns t c ltac:(lia) Hinv Hlru Hmem Hc Hr) as [Hpast|(t' & w' & Hact & Hless)];
      [exists [], w, k, owns; split; [done|]; split; [simpl; lia|]; split; [by right | split; [lia | done]]|]);
    pose proof (work_nonneg w'); [lia|].
  pose proof (bench_act spins rand_r Hrand opt Hmask (hp m) n _ ev Hn Hms k w owns t' ltac:(lia) Hinv) as Ha.
  rewrite Hact in Ha. destruct Ha as [owns' Hinv'].
  destruct (IH w' (k + 1) owns' ltac:(lia) ltac:(lia) ltac:(lia) Hinv') as (l & w2 & k2 & owns2 & Hrun & Hlen & Hrest).
  exists (t' :: l), w2, k2, owns2. split; [simpl; rewrite Hact; exact Hrun|]. split; [simpl; lia | exact Hrest].
Qed.

Lemma run_clients_app l1 l2 w w' :
  run_clients rand_r opt spins n l1 w = Ok w' ->
  run_clients rand_r opt spins n (l1 ++ l2) w = run_clients rand_r opt spins n l2 w'.
Proof.
  revert w. induction l1 as [|t l1 IH]; intros w Hw; simpl in *; [by injection Hw as ->|].
  apply bind_Ok in Hw as (w1 & Hw1 & Hw). rewrite Hw1. simpl. by apply IH.
Qed.

Lemma run_clients_inv l w w' k owns :
  run_clients rand_r opt spins n l w = Ok w' -> inv k w owns -> 0 <= k -> k + Z.of_nat (length l) < 2 ^ 62 ->
  exists owns', inv (k + Z.of_nat (length l)) w' owns' /\ work w' <= work w.
Proof.
  destruct share_facts as [Hn Hms].
  revert w k owns. induction l as [|t l IH]; intros w k owns Hrun Hinv Hk Hb; simpl in Hrun.
  { injection Hrun as <-. exists owns. rewrite Z.add_0_r. split; [done | lia]. }
  simpl length in *. apply bind_Ok in Hrun as (w1 & Hact & Hrun).
  assert (exists owns1, inv (k + 1) w1 owns1 /\ work w1 <= work w) as (owns1 & Hinv1 & Hw1).
  { pose proof (bench_act spins rand_r Hrand opt Hmask (hp m) n _ ev Hn Hms k w owns t ltac:(lia) Hinv) as Ha.
    destruct (bworld_act rand_r opt spins n t w) as [[w2|f]|] eqn:Hx; simpl in Hact; [| done |].
    - injection Hact as ->. destruct Ha as [owns1 Hinv1]. exists owns1. split; [done|].
      destruct (bw_clients w !! t) as [c|] eqn:Hc; [|unfold bworld_act in Hx; by rewrite Hc in Hx].
      destruct (bi_stage _ _ _ _ _ _ _ _ _ Hinv t c Hc) as (o & Ho & _).
      destruct (act_work k w owns t w1 c o Hinv Hc Ho Hx) as [|[? _]]; lia.
    - injection Hact as <-. exists owns. split; [|lia]. destruct Hinv. split; try done. by apply lworld_more. }
  destruct (IH w1 (k + 1) owns1 Hrun Hinv1 ltac:(lia) ltac:(lia)) as (owns2 & Hinv2 & Hw2).
  exists owns2. replace (k + Z.of_nat (S (length l))) with (k + 1 + Z.of_nat (length l)) by lia. split; [done | lia].
Qed.

Lemma start_work : work start = 12 * Z.of_nat iters * Z.of_nat (length seeds).
Proof.
  unfold work, start_clients. simpl. clear. induction seeds as [|x l IH]; [by rewrite Z.mul_0_r|].
  simpl length. simpl replicate. rewrite fmap_cons. simpl zip. rewrite zsum_cons, IH.
  unfold client_rank. simpl. lia.
Qed.

(** A key that is stored past the end of its block is stored into one that the allocator gave
    with fewer than eight bytes behind the header. *)
Lemma past_given k l w owns :
  run_clients rand_r opt spins n l start = Ok w -> inv k w owns -> key_past w ->
  exists e room, given e room /\ (room < 8)%nat.
Proof.
  intros Hrun Hinv (t & c & Hc & q & v & el & Hs & Hop & Hel & Hl).
  destruct (bi_stage _ _ _ _ _ _ _ _ _ Hinv t c Hc) as (o & _ & Hst). rewrite Hs in Hst. destruct Hst as (_ & _ & Hv).
  destruct (answer_elem rand_r opt (hp m) n _ ev k w owns Hinv t c Hc q v ltac:(by left) (Hv Hop))
    as (s & own & e & hs & el2 & Hown & -> & Haddr & He & _). rewrite elem_of_value_ptr in Hel by done.
  destruct (blocks_run spins rand_r opt n l start w Hrun e el Hel) as [(el0 & Hel0 & _)|Hg]; [|by exists e, (length (value el))].
  pose proof (lv_estates _ _ _ _ _ _ _ (lwi_table _ _ _ _ _ _ _ (bi_world _ _ _ _ _ _ _ _ _ Hinv))) as Hes.
  pose proof (es_in Hes s own e Hown ltac:(by eexists)) as Hno. change (bw_heap start) with (hp m) in Hel0. congruence.
Qed.

(** C8: the clients of the locking benchmark, along any schedule: at most [nservers] clients,
    on a table whose lock slots are clear at first and whose partitions have room for a key.
    No action of theirs fails but for want of a victim or memory, or at the place where an
    insertion stores its key, and there only when the block that the allocator gave has
    fewer than eight bytes behind the header; [hash_insert] asks for none. No insertion answers NULL. No
    client prints that values do not match: what a lookup finds holds the key that was asked
    for. When all have returned, destroying the table gives back exactly the memory it took. *)
Theorem locking_clients_right schedule w :
  Z.of_nat (length schedule) < 2 ^ 62 -> run_clients rand_r opt spins n schedule start = Ok w ->
  (forall t, match bworld_act rand_r opt spins n t w with
     | Some (Fault f) => exists c, bw_clients w !! t = Some c /\ may_fail3 ev (bw_heap w) (c3_stage c) f
     | _ => True
     end) /\
  (forall t c, bw_clients w !! t = Some c -> c3_errors c = 0%nat /\
     match c3_stage c with
     | Answered q v =>
         if q_optype q =? optype_code OPTYPE_LOOKUP then v <> 0 -> load_long (bw_heap w) v = Ok (q_key q) else v <> 0
     | _ => True
     end) /\
  (join_clients w = Ok tt -> destroy_hash_table (bw_heap w) (set_partitions (parts (bw_state w)) ht) = Ok (hp m)).
Proof.
  intros Hlen Hrun. destruct share_facts as [Hn Hms].
  destruct (run_clients_inv schedule start w 0 _ Hrun start_bench ltac:(lia) ltac:(lia)) as (owns & Hinv & _).
  assert (0 <= 0 + Z.of_nat (length schedule) < 2 ^ 62) as Hk by lia. split_and!.
  - intros t. pose proof (bench_act spins rand_r Hrand opt Hmask (hp m) n _ ev Hn Hms _ w owns t Hk Hinv) as Ha.
    by destruct (bworld_act rand_r opt spins n t w) as [[|]|].
  - intros t c Hc. split; [exact (bi_silent _ _ _ _ _ _ _ _ _ Hinv t c Hc)|].
    destruct (c3_stage c) as [|q|q v|q v] eqn:Hst; try done.
    destruct (bi_stage _ _ _ _ _ _ _ _ _ Hinv t c Hc) as (o & _ & Hok). rewrite Hst in Hok. destruct Hok as (_ & Hq & Hv).
    destruct (Z.eqb_spec (q_optype q) (optype_code OPTYPE_LOOKUP)) as [Hl|Hl].
    + intros Hne. by apply (answer_read rand_r Hrand opt Hmask _ _ _ _ _ w owns Hinv t c Hc).
    + apply Hv. by destruct (random_query_op rand_r Hrand opt Hmask q Hq) as (_ & [[? _]|[? _]]).
  - by apply (joined_memory _ w owns Hk Hinv).
Qed.

(** C9: the locking benchmark comes to its end, with at most [nservers] clients, on a table
    whose lock slots are clear at first and whose partitions have room for a key, with the LRU policy, and
    when the allocator does not refuse with no more than [capacity] elements in memory. Every
    beginning of a run along some schedule can be continued, by at most twelve actions for every
    iteration of every client, to a run in which all clients return and the destruction of the
    table gives back the memory as it was: no client waits at the lock of a partition for
    ever. The one exception is an allocator that gave an element fewer than eight bytes
    beyond the 64 that [hash_insert] asks for: then the run can come to a client that stores its
    key past the end of that block. *)
Theorem locking_benchmark_completes niters schedule w :
  ev = EVICT_LRU -> ~ refused capacity 8 -> seeds <> [] -> iters = Z.to_nat (Z.quot niters (Z.of_nat (length seeds))) ->
  Z.of_nat (length schedule) + 12 * Z.of_nat iters * Z.of_nat (length seeds) < 2 ^ 62 ->
  run_clients rand_r opt spins n schedule start = Ok w ->
  exists rest, Z.of_nat (length rest) <= 12 * Z.of_nat iters * Z.of_nat (length seeds) /\
    (run_benchmark rand_r opt spins n raw raws total ev niters seeds (schedule ++ rest) m = Ok (hp m) \/
     exists w' e room, run_clients rand_r opt spins n (schedule ++ rest) start = Ok w' /\ key_past w' /\
       given e room /\ (room < 8)%nat).
Proof.
  intros Hlru Hmem Hseeds Hit Hb Hrun. pose proof start_work as Hw0. pose proof (work_nonneg start) as Hpos.
  destruct (run_clients_inv schedule start w 0 _ Hrun start_bench ltac:(lia) ltac:(lia)) as (owns & Hinv & Hwork).
  destruct (finish (Z.to_nat (work start)) Hlru Hmem w (0 + Z.of_nat (length schedule)) owns ltac:(lia) ltac:(lia) ltac:(lia) Hinv)
    as (rest & w' & k' & owns' & Hrest & Hlen & Hjoin & Hk' & Hinv').
  exists rest. split; [lia|]. pose proof (run_clients_app schedule rest start w Hrun) as Happ. rewrite Hrest in Happ.
  destruct Hjoin as [Hjoin|Hpast].
  2: { right. destruct (past_given k' _ w' owns' Happ Hinv' Hpast) as (e & room & Hg). by exists w', e, room. }
  left. unfold run_benchmark. rewrite (proj2 (Z.eqb_neq _ 0)) by (destruct seeds; [done | simpl; lia]).
  cbn [negb check mbind result_bind]. rewrite Hht. cbn [mbind result_bind]. rewrite <- Hit.
  rewrite Happ. cbn [mbind result_bind]. rewrite Hjoin.
  cbn [mbind result_bind]. by apply (joined_memory k' w' owns').
Qed.
End benchmark.

(** ** Two clients on two partitions, two iterations each, taking turns

    All queries are about key 0, so that they meet at one lock: the second client looks the
    key up while the first inserts it, waits at the lock and finds the value ready. *)
Definition demo_rand (seed : Z) : Z * Z := (Z.land seed 255, seed + 90).
Definition demo_opt : options := Options 1 0 0 128.
Definition demo_seeds : list Z := [1; 150].
Definition demo_schedule (k : nat) : list nat := concat (replicate k [0; 1]%nat).

Definition demo_run (k : nat) : bworld :=
  match run_clients demo_rand demo_opt 8 2 (demo_schedule k) (start_clients demo_table (Mem ∅ 0) 2 demo_seeds) with
  | Ok w => w
  | Fault _ => start_clients demo_table (Mem ∅ 0) 2 demo_seeds
  end.

Lemma demo_positive seed : 0 <= (demo_rand seed).1.
Proof. simpl. apply Z.land_nonneg. by right. Qed.

Lemma locking_clients_right_witness : load_long (bw_heap (demo_run 11)) 4160 = Ok 0.
Proof.
  destruct (locking_clients_right 8 demo_rand demo_positive demo_opt ltac:(split; reflexivity || discriminate)
    demo_raw demo_raws 1024 2 EVICT_LRU demo_table demo_table_created (or_introl eq_refl)
    ltac:(split; reflexivity || discriminate) demo_clear ltac:(vm_compute; discriminate)
    demo_seeds ltac:(discriminate) (Mem ∅ 0) 2 (demo_schedule 11) (demo_run 11) ltac:(reflexivity)
    ltac:(vm_compute; reflexivity)) as (_ & H & _).
  destruct (H 1%nat (Client3 330 1 (Answered (HashQuery 0 0 0) 4160) 0)) as [_ Hread].
  - vm_compute. reflexivity.
  - apply Hread. discriminate.
Defined.

Lemma locking_benchmark_completes_witness :
  exists rest, Z.of_nat (length rest) <= 48 /\
    run_benchmark demo_rand demo_opt 8 2 demo_raw demo_raws 1024 EVICT_LRU 4 demo_seeds (demo_schedule 11 ++ rest)
      (Mem ∅ 0) = Ok ∅.
Proof.
  destruct (locking_benchmark_completes 8 demo_rand demo_positive demo_opt ltac:(split; reflexivity || discriminate)
    demo_raw demo_raws 1024 2 EVICT_LRU demo_table demo_table_created (or_introl eq_refl)
    ltac:(split; reflexivity || discriminate) demo_clear ltac:(vm_compute; discriminate)
    demo_seeds ltac:(discriminate) (Mem ∅ 0) 2 4 (demo_schedule 11) (demo_run 11) eq_refl)
    as (rest & Hlen & Hrun).
  - intros (k & h & Hsz & Hnone). revert Hnone. apply pool_granted. eapply Nat.le_lt_trans; [exact Hsz|].
    apply Nat.ltb_lt. vm_compute. reflexivity.
  - discriminate.
  - reflexivity.
  - reflexivity.
  - vm_compute. reflexivity.
  - exists rest. split; [exact Hlen|]. destruct Hrun as [Hrun|(w' & e & room & _ & _ & Hg & Hroom)]; [exact Hrun|].
    exfalso. destruct Hg as (j & h & sz & x & Hal & Hx). simpl in Hal. destruct (first_free h); [|discriminate Hal].
    injection Hal as _ <-. rewrite <- Hx in Hroom. apply (Nat.ltb_lt _ 8) in Hroom. vm_compute in Hroom. discriminate Hroom.
Defined.
