(* ===== verification/BenchServer.v ===== *)
(** * BenchServer: the client of the server benchmark ([benchhashserver.c])

    [client_hashserver2] sends batches of random queries with the client library
    and reads the values that come back, counting lookups and hits and comparing
    the two ends of a value with the key. [rand_r] of the C library is a parameter,
    as in [Bench]. The other two clients of the file, which call memcached, are in
    [BenchMemcached]. *)
From stdpp Require Import base list.
From Stdlib Require Import ZArith QArith Lia.
From S2P Require Import Prelude Protocol Stream HashClient.

Local Open Scope Z_scope.

Definition MAX_VALUE_SIZE : Z := 2048.
Definition MAX_BATCH_SIZE : Z := 1024.

(** [RAND_MAX] of the C library. *)
Definition RAND_MAX : Z := 2147483647.

(** [struct value_buffer]: rows of bytes. *)
Definition rows_ok (data : list (list Z)) : Prop :=
  Forall (fun row => Z.of_nat (length row) = MAX_VALUE_SIZE) data.

Definition value_buffer (data : list (list Z)) : Prop :=
  Z.of_nat (length data) = MAX_BATCH_SIZE /\ rows_ok data.

(** The options the client uses. The [double] is a rational number. *)
Record settings := Settings {
  batch_size : Z;
  iters_per_client : Z;
  query_shift : Z;
  query_mask : Z;
  min_val_length : Z;
  max_val_length : Z;
  write_threshold : Q
}.

(** [val[i]] for a buffer of bytes that is used as an array of [uint64_t]. *)
Definition get_long (val : list Z) (i : Z) : result Z :=
  _ ← check ((0 <=? i) && (8 * i + 8 <=? Z.of_nat (length val))) Undefined;
  mret (unle (take 8 (drop (Z.to_nat (8 * i)) val))).

Definition put_long (val : list Z) (i key : Z) : result (list Z) :=
  _ ← check ((0 <=? i) && (8 * i + 8 <=? Z.of_nat (length val))) Undefined;
  mret (take (Z.to_nat (8 * i)) val ++ le 8 key ++ drop (Z.to_nat (8 * i + 8)) val).

(** What a client has counted, and the iterations it printed an error for. *)
Record tally := Tally { nhit : Z; nlookup : Z; errors : list Z }.

(** The counters that the clients share. *)
Record totals := Totals { total_nhit : Z; total_nlookup : Z }.

Section client.
Context (rand_r : Z -> Z * Z) (opt : settings).

(** [size] and [value] are what the pointers point to: a lookup leaves both as
    they were. *)
Definition get_random_query (threshold : Q) (minval maxval seed size : Z) (value : list Z)
    : result (optype * Z * Z * list Z * Z) :=
  let '(a, seed) := rand_r seed in
  let optype := if Qle_bool (threshold * inject_Z RAND_MAX) (inject_Z a)
                then OPTYPE_LOOKUP else OPTYPE_INSERT in
  let '(b, seed) := rand_r seed in
  let key := u64 (Z.land (Z.shiftr b (query_shift opt)) (query_mask opt)) in
  match optype with
  | OPTYPE_LOOKUP => mret (optype, key, size, value, seed)
  | OPTYPE_INSERT =>
      let '(r, seed) := rand_r seed in
      let range := u64 (maxval - minval + 1) in
      _ ← check (negb (range =? 0)) Undefined;
      let size := Z.land (u64 (u64 r mod range + minval)) 0xFFFFFFF8 in
      _ ← check (0 <? size) AssertFailed;
      _ ← check (size mod 8 =? 0) AssertFailed;
      value ← put_long value 0 key;
      value ← put_long value (Z.shiftr size 3 - 1) key;
      mret (optype, key, size, value, seed)
  end.

(** The first loop over a batch. [data] is [valuesbuf[c].data]; the [value] of
    query [k] points to its row [k]. *)
Fixpoint fill_batch (n : nat) (k seed : Z) (queries : list client_query) (data : list (list Z))
    : result (list client_query * list (list Z) * Z) :=
  match n with
  | O => mret (queries, data, seed)
  | S n =>
      q ← aget queries k;
      row ← aget data k;
      '(optype, key, size, row, seed) ←
        get_random_query (write_threshold opt) (u64 (min_val_length opt)) (u64 (max_val_length opt)) seed
          (cq_size q) row;
      queries ← aset queries k (ClientQuery optype key size row);
      data ← aset data k row;
      fill_batch n (k + 1) seed queries data
  end.

(** What is done for a lookup with the given key at iteration [iter]. *)
Definition check_value (iter key : Z) (conn : hashconn) (t : tally) : result (hashconn * tally) :=
  '(size, val, conn) ← readvalue conn MAX_VALUE_SIZE;
  _ ← check (0 <=? size) AssertFailed;
  if 0 <? size then
    _ ← check (size mod 8 =? 0) AssertFailed;
    first ← get_long val 0;
    last ← get_long val (Z.shiftr size 3 - 1);
    let bad := negb (first =? key) || negb (last =? key) in
    mret (conn, Tally (nhit t + 1) (nlookup t + 1) (errors t ++ if bad then [iter] else []))
  else mret (conn, Tally (nhit t) (nlookup t + 1) (errors t)).

(** The second loop over a batch. *)
Fixpoint check_values (iter : Z) (queries : list client_query) (conn : hashconn) (t : tally)
    : result (hashconn * tally) :=
  match queries with
  | [] => mret (conn, t)
  | q :: queries =>
      '(conn, t) ←
        match cq_optype q with
        | OPTYPE_LOOKUP => check_value iter (cq_key q) conn t
        | OPTYPE_INSERT => mret (conn, t)
        end;
      check_values (iter + 1) queries conn t
  end.

(** The [while] loop. *)
Fixpoint query_rounds (fuel : nat) (i seed : Z) (queries : list client_query) (data : list (list Z))
    (conn : hashconn) (t : tally) : result (hashconn * tally) :=
  if iters_per_client opt <=? i then mret (conn, t) else
  match fuel with
  | O => Fault Blocked
  | S fuel =>
      let nqueries := int_min (iters_per_client opt - i) (batch_size opt) in
      let n := Z.to_nat nqueries in
      '(queries, data, seed) ← fill_batch n 0 seed queries data;
      '(r, conn) ← sendqueries conn (take n queries);
      _ ← check (r =? 1) AssertFailed;
      '(conn, t) ← check_values i (take n queries) conn t;
      query_rounds fuel (i + nqueries) seed queries data conn t
  end.

(** [conn] is what [openconn] gave, [queries] the array as [memalign] gave it. A
    round handles at least one query if [batch_size] is positive. *)
Definition client_hashserver2 (conn : option hashconn) (queries : list client_query)
    (data : list (list Z)) (seed : Z) (total : totals) : result (totals * option (hashconn * tally)) :=
  match conn with
  | None => mret (total, None)
  | Some conn =>
      '(conn, t) ← query_rounds (Z.to_nat (iters_per_client opt)) 0 seed queries data conn (Tally 0 0 []);
      mret (Totals (i32 (total_nhit total + nhit t)) (i32 (total_nlookup total + nlookup t)),
            Some (conn, t))
  end.
End client.

Arguments get_random_query : simpl never.
Arguments check_value : simpl never.

(** ** Values with their key at both ends *)

(** The check of the clients, on the bytes of a value. *)
Definition carries (key : Z) (v : list Z) : bool :=
  (unle (take 8 v) =? key) && (unle (drop (length v - 8) v) =? key).

(** A value as the benchmark stores them, or none at all. *)
Definition value_ok (v : list Z) : Prop :=
  Z.of_nat (length v) mod 8 = 0 /\ Z.of_nat (length v) <= MAX_VALUE_SIZE.

(** The lookups of a sequence of queries: iteration and key. *)
Fixpoint lookups (iter : Z) (qs : list client_query) : list (Z * Z) :=
  match qs with
  | [] => []
  | q :: qs =>
      match cq_optype q with
      | OPTYPE_LOOKUP => (iter, cq_key q) :: lookups (iter + 1) qs
      | OPTYPE_INSERT => lookups (iter + 1) qs
      end
  end.

(** A reply that a client should print an error for. *)
Definition wrong (x : Z * Z * list Z) : bool :=
  bool_decide (x.2 <> []) && negb (carries x.1.2 x.2).

(** What a client should count for its lookups and the values they got. *)
Definition tally_of (asked : list (Z * Z)) (vs : list (list Z)) : tally :=
  Tally (Z.of_nat (length (filter (fun x => x.2 <> []) (zip asked vs)))) (Z.of_nat (length asked))
    (filter wrong (zip asked vs)).*1.*1.

Definition tally_add (t u : tally) : tally :=
  Tally (nhit t + nhit u) (nlookup t + nlookup u) (errors t ++ errors u).
