(* ===== verification/BenchServerThms.v ===== *)
(** * BenchServerThms: the client of the server benchmark

    The queries of [client_hashserver2] are well formed and its insertions carry
    their key at both ends; from a server that replies to its lookups it reads each reply with
    its own query. *)
From stdpp Require Import base list.
From Stdlib Require Import ZArith QArith Lia.
From S2P Require Import Prelude Protocol Stream HashClient BenchServer.

Local Open Scope Z_scope.

#[local] Ltac Zify.zify_post_hook ::= Z.to_euclidean_division_equations.

(** ** Values with a key at both ends *)
Lemma land_8 x : 0 <= x < 2 ^ 32 -> Z.land x 0xFFFFFFF8 = 8 * (x / 8).
Proof.
  intros Hx. change 0xFFFFFFF8 with (Z.shiftl (Z.ones 29) 3). apply Z.bits_inj'. intros n Hn.
  rewrite Z.land_spec, Z.shiftl_spec by done. replace (8 * (x / 8)) with (Z.shiftl (Z.shiftr x 3) 3)
    by (rewrite Z.shiftl_mul_pow2, Z.shiftr_div_pow2 by lia; change (2 ^ 3) with 8; lia).
  rewrite Z.shiftl_spec by done. destruct (decide (n < 3)) as [Hlt|Hge].
  - rewrite !(Z.testbit_neg_r _ (n - 3)) by lia. by rewrite andb_false_r.
  - rewrite Z.shiftr_spec by lia. rewrite Z.sub_add. destruct (decide (n - 3 < 29)) as [H29|H29].
    + by rewrite Z.ones_spec_low, andb_true_r by lia.
    + rewrite Z.ones_spec_high by lia. rewrite andb_false_r. symmetry.
      apply Z.bits_above_log2; [lia|]. destruct (Z.eq_dec x 0) as [->|Hne]; [simpl; lia|].
      assert (Z.log2 x < 32) by (apply Z.log2_lt_pow2; lia). lia.
Qed.

Lemma put_long_in v i key :
  0 <= i -> 8 * i + 8 <= Z.of_nat (length v) ->
  put_long v i key = Ok (take (Z.to_nat (8 * i)) v ++ le 8 key ++ drop (Z.to_nat (8 * i + 8)) v).
Proof.
  intros Hi Hl. unfold put_long. by rewrite (proj2 (Z.leb_le 0 i)), (proj2 (Z.leb_le _ _)) by lia.
Qed.

Lemma put_long_length v i key v' : put_long v i key = Ok v' -> length v' = length v.
Proof.
  intros H. unfold put_long in H. apply bind_Ok in H as ([] & Hc & H). apply check_Ok, andb_true_iff in Hc as [H0 H1].
  apply Z.leb_le in H0, H1. apply Ok_inj in H as <-. rewrite !length_app, le_length, length_take, length_drop. lia.
Qed.

(** The bytes of the key at both ends. *)
Definition keyed (key : Z) (v : list Z) : Prop := take 8 v = le 8 key /\ drop (length v - 8) v = le 8 key.

Lemma keyed_carries key v : 0 <= key < 2 ^ 64 -> keyed key v -> carries key v = true.
Proof.
  intros Hk [H1 H2]. unfold carries. rewrite H1, H2, unle_le by (simpl; lia). by rewrite Z.eqb_refl.
Qed.

(** What an insertion stores is what a lookup checks. *)
Lemma put_ends v m key :
  0 < m -> 8 * m <= Z.of_nat (length v) ->
  exists v1 v2, put_long v 0 key = Ok v1 /\ put_long v1 (m - 1) key = Ok v2 /\
    length v2 = length v /\ keyed key (take (Z.to_nat (8 * m)) v2).
Proof.
  intros Hm Hl. destruct (put_long v 0 key) as [v1|] eqn:H1;
    [|by rewrite put_long_in in H1 by lia]. pose proof (put_long_length _ _ _ _ H1) as Hl1.
  rewrite put_long_in in H1 by lia. simpl take in H1. rewrite app_nil_l in H1. apply Ok_inj in H1.
  exists v1. destruct (put_long v1 (m - 1) key) as [v2|] eqn:H2; [|by rewrite put_long_in in H2 by lia].
  pose proof (put_long_length _ _ _ _ H2) as Hl2. exists v2. split_and!; [done..|congruence|].
  rewrite put_long_in in H2 by lia. apply Ok_inj in H2.
  unfold keyed. rewrite length_take, Nat.min_l by lia. split.
  - rewrite take_take, Nat.min_l by lia. subst v2. destruct (decide (m = 1)) as [->|Hne].
    + change (Z.to_nat (8 * (1 - 1))) with 0%nat. rewrite take_0, app_nil_l.
      by rewrite take_app_length' by (by rewrite le_length).
    + rewrite take_app_le by (rewrite length_take; lia). rewrite take_take, Nat.min_l by lia.
      subst v1. by rewrite take_app_length' by (by rewrite le_length).
  - subst v2. rewrite app_assoc, take_app_length'; [|rewrite length_app, le_length, length_take; lia].
    by rewrite drop_app_length' by (rewrite length_take; lia).
Qed.

(** The checks of [check_value] are the check [carries]. *)
Lemma get_ends v :
  (0 < length v)%nat -> Z.of_nat (length v) mod 8 = 0 ->
  get_long v 0 = Ok (unle (take 8 v)) /\
  get_long v (Z.shiftr (Z.of_nat (length v)) 3 - 1) = Ok (unle (drop (length v - 8) v)).
Proof.
  intros H0 H8. rewrite Z.shiftr_div_pow2 by lia. change (2 ^ 3) with 8. unfold get_long.
  rewrite !(proj2 (Z.leb_le _ _)) by lia. cbn [andb check mbind result_bind]. split; [done|].
  replace (Z.to_nat (8 * (Z.of_nat (length v) / 8 - 1))) with (length v - 8)%nat by lia.
  by rewrite (take_ge (drop _ v)) by (rewrite length_drop; lia).
Qed.

Section client.
Context (rand_r : Z -> Z * Z) (opt : settings).

(** Sizes that the value buffers hold; the smallest value is one [uint64_t]. *)
Context (Hmin : 8 <= min_val_length opt) (Hmax : min_val_length opt <= max_val_length opt)
  (Hsize : max_val_length opt <= MAX_VALUE_SIZE).

(** ** The queries *)
Definition bench_query (q : client_query) : Prop :=
  client_query_ok q /\
  match cq_optype q with
  | OPTYPE_LOOKUP => True
  | OPTYPE_INSERT => cq_size q <= MAX_VALUE_SIZE /\
      carries (cq_key q) (take (Z.to_nat (cq_size q)) (cq_value q)) = true
  end.

Lemma value_buffer_zero :
  value_buffer (replicate (Z.to_nat MAX_BATCH_SIZE) (replicate (Z.to_nat MAX_VALUE_SIZE) 0)).
Proof.
  split; [by rewrite length_replicate|]. apply Forall_replicate. by rewrite length_replicate.
Qed.

Lemma bench_query_ok threshold seed size row :
  Z.of_nat (length row) = MAX_VALUE_SIZE ->
  exists op key size' row' seed',
    get_random_query rand_r opt threshold (u64 (min_val_length opt)) (u64 (max_val_length opt)) seed size row
      = Ok (op, key, size', row', seed') /\
    Z.of_nat (length row') = MAX_VALUE_SIZE /\ bench_query (ClientQuery op key size' row') /\
    (op = OPTYPE_INSERT -> 8 <= size' /\ size' mod 8 = 0 /\ keyed key (take (Z.to_nat size') row')).
Proof.
  intros Hrow. pose proof Hsize as Hsz. change MAX_VALUE_SIZE with 2048 in Hrow, Hsz |- *. unfold get_random_query.
  destruct (rand_r seed) as [a s1], (rand_r s1) as [b s2], (rand_r s2) as [r s3].
  set (key := u64 _). assert (0 <= key < 2 ^ 64) as Hk by (unfold key, u64; apply Z.mod_pos_bound; lia).
  clearbody key. rewrite (u64_small (min_val_length opt)), (u64_small (max_val_length opt)) by lia. case_match.
  { eexists _, _, _, _, _. split; [reflexivity|]. done. }
  rewrite (u64_small (max_val_length opt - min_val_length opt + 1)) by lia.
  set (range := max_val_length opt - min_val_length opt + 1). assert (0 < range) as Hrange by lia.
  rewrite (proj2 (Z.eqb_neq range 0)) by lia. cbn [negb check mbind result_bind].
  pose proof (Z.mod_pos_bound (u64 r) range ltac:(lia)) as Hmod. set (x := u64 r mod range) in *.
  rewrite (u64_small (x + _)), land_8 by lia. set (m := (x + min_val_length opt) / 8).
  assert (1 <= m <= 256) as Hm by (unfold m; lia). clearbody m.
  rewrite (proj2 (Z.ltb_lt 0 (8 * m))) by lia. rewrite (Z.mul_comm 8 m), Z.mod_mul, Z.eqb_refl by lia.
  cbn [check mbind result_bind]. rewrite Z.shiftr_div_pow2 by lia. change (2 ^ 3) with 8.
  rewrite Z.div_mul by lia. rewrite (Z.mul_comm m 8).
  destruct (put_ends row m key ltac:(lia) ltac:(lia)) as (v1 & v2 & H1 & H2 & Hl & Hc).
  rewrite H1. cbn [mbind result_bind]. rewrite H2. cbn [mbind result_bind].
  pose proof (keyed_carries key _ Hk Hc) as Hcar.
  eexists _, _, _, _, _. split; [reflexivity|]. split; [lia|]. split.
  - unfold bench_query, client_query_ok. simpl. change MAX_VALUE_SIZE with 2048. split_and!; [lia.. | done].
  - intros _. split_and!; [lia | rewrite Z.mul_comm; apply Z.mod_mul; lia | done].
Qed.

Lemma fill_batch_ok n : forall k seed queries data,
  rows_ok data -> (k + n <= length queries)%nat -> (k + n <= length data)%nat ->
  exists queries' data' seed',
    fill_batch rand_r opt n (Z.of_nat k) seed queries data = Ok (queries', data', seed') /\
    rows_ok data' /\ length data' = length data /\ length queries' = length queries /\
    take k queries' = take k queries /\ Forall bench_query (take n (drop k queries')).
Proof.
  induction n as [|n IH]; intros k seed queries data Hrows Hq Hd; cbn [fill_batch].
  { exists queries, data, seed. done. }
  destruct (aget_in queries (Z.of_nat k)) as [q Hgq]; [lia|].
  destruct (aget_in data (Z.of_nat k)) as [row Hgd]; [lia|].
  rewrite Hgq, Hgd. cbn [mbind result_bind]. apply aget_Ok in Hgd as [_ Hgd].
  pose proof (proj1 (Forall_lookup _ _) Hrows _ _ Hgd) as Hrow. cbn beta in Hrow.
  destruct (bench_query_ok (write_threshold opt) seed (cq_size q) row Hrow) as (op & key & sz & row' & seed' & -> & Hrow' & Hok & _).
  cbn [mbind result_bind]. rewrite !aset_in by lia. cbn [mbind result_bind]. rewrite Nat2Z.id.
  replace (Z.of_nat k + 1) with (Z.of_nat (S k)) by lia.
  edestruct (IH (S k) seed' (<[k:=ClientQuery op key sz row']> queries) (<[k:=row']> data))
    as (q2 & d2 & s2 & Hf & Hr2 & Hd2 & Hq2 & Ht & Hall); [by apply Forall_insert | rewrite length_insert; lia.. |].
  rewrite length_insert in Hd2. rewrite length_insert in Hq2. exists q2, d2, s2. split; [exact Hf|]. split_and!; [done..| |].
  - apply (f_equal (take k)) in Ht. rewrite !take_take, !Nat.min_l in Ht by lia.
    by rewrite Ht, take_insert_ge by lia.
  - assert (q2 !! k = Some (ClientQuery op key sz row')) as Hk.
    { rewrite <- (lookup_take_lt q2 (S k) k) by lia. rewrite Ht, lookup_take_lt by lia. apply list_lookup_insert_eq. lia. }
    rewrite (drop_S _ _ _ Hk). simpl. by constructor.
Qed.

(** ** The replies *)
Lemma check_value_ok iter key conn t v rest :
  content (fin conn) = value_bytes v ++ rest -> blocking (arrivals (fin conn)) = true ->
  ends (arrivals (fin conn)) = true -> value_ok v ->
  exists f, check_value iter key conn t =
      Ok (HashConn f (unflushed conn) (flushed conn) (room conn), tally_add t (tally_of [(iter, key)] [v])) /\
    content f = rest /\ blocking (arrivals f) = true /\ ends (arrivals f) = true.
Proof.
  intros Hc Hb He [H8 Hl]. change MAX_VALUE_SIZE with 2048 in *.
  destruct (readvalue_value conn v rest 2048 Hc Hb He ltac:(lia) Hl) as (f & Hr & Hf).
  exists f. split; [|exact Hf]. unfold check_value. change MAX_VALUE_SIZE with 2048. rewrite Hr. cbn [mbind result_bind].
  rewrite (proj2 (Z.leb_le 0 _)) by lia. cbn [check mbind result_bind].
  unfold tally_add, tally_of. cbn [zip_with length nhit nlookup errors].
  destruct v as [|x v]; [simpl; by rewrite Z.add_0_r, app_nil_r|]. set (w := x :: v) in *.
  assert (0 < length w)%nat as Hpos by (simpl; lia).
  rewrite (proj2 (Z.ltb_lt 0 _)), H8, Z.eqb_refl by lia. cbn [check mbind result_bind].
  destruct (get_ends w Hpos H8) as [-> ->]. cbn [mbind result_bind].
  rewrite filter_cons_True by done. rewrite <- negb_andb. fold (carries key w).
  unfold wrong. cbn [fst snd]. destruct (carries key w) eqn:Hcar.
  - rewrite filter_cons_False; [done|]. simpl. rewrite Hcar. by intros [].
  - rewrite filter_cons_True; [done|]. simpl. rewrite Hcar; exact I.
Qed.

Lemma tally_app a1 a2 v1 v2 :
  length a1 = length v1 -> tally_of (a1 ++ a2) (v1 ++ v2) = tally_add (tally_of a1 v1) (tally_of a2 v2).
Proof.
  intros Hl. unfold tally_of, tally_add. cbn [nhit nlookup errors].
  rewrite zip_with_app, !filter_app, !fmap_app, !length_app by done. f_equal; lia.
Qed.

Lemma tally_add_assoc t u v : tally_add (tally_add t u) v = tally_add t (tally_add u v).
Proof. unfold tally_add. simpl. rewrite <- app_assoc. f_equal; lia. Qed.

Lemma tally_add_0 t : tally_add t (tally_of [] []) = t.
Proof. destruct t. unfold tally_add. simpl. rewrite app_nil_r. f_equal; lia. Qed.

Lemma lookups_app i q1 q2 : lookups i (q1 ++ q2) = lookups i q1 ++ lookups (i + Z.of_nat (length q1)) q2.
Proof.
  revert i. induction q1 as [|q q1 IH]; intros i; [simpl; by rewrite Z.add_0_r|].
  cbn [app lookups length]. rewrite IH. replace (i + 1 + Z.of_nat (length q1)) with (i + Z.of_nat (S (length q1))) by lia.
  by destruct (cq_optype q).
Qed.

Lemma lookups_length i qs : (length (lookups i qs) <= length qs)%nat.
Proof.
  revert i. induction qs as [|q qs IH]; intros i; [done|]. cbn [lookups length].
  pose proof (IH (i + 1)). destruct (cq_optype q); simpl; lia.
Qed.

(** A connection that will bring the values [vs] and nothing else. *)
Definition brings (vs : list (list Z)) (conn : hashconn) : Prop :=
  content (fin conn) = concat (value_bytes <$> vs) /\ blocking (arrivals (fin conn)) = true /\
  ends (arrivals (fin conn)) = true /\ Forall value_ok vs.

(** The connection [conn] after some reads. *)
Definition after_reads (conn conn' : hashconn) : Prop :=
  unflushed conn' = unflushed conn /\ flushed conn' = flushed conn /\ room conn' = room conn.

Lemma check_values_ok qs : forall iter conn t vs,
  brings vs conn -> (length (lookups iter qs) <= length vs)%nat ->
  let n := length (lookups iter qs) in
  exists conn', check_values iter qs conn t = Ok (conn', tally_add t (tally_of (lookups iter qs) (take n vs))) /\
    brings (drop n vs) conn' /\ after_reads conn conn'.
Proof.
  induction qs as [|q qs IH]; intros iter conn t vs Hbr Hl; cbn [check_values lookups] in *.
  { exists conn. by rewrite tally_add_0. }
  destruct (cq_optype q); cbn [length mbind result_bind] in *; [|by apply IH].
  destruct vs as [|v vs]; [simpl in Hl; lia|]. destruct Hbr as (Hc & Hb & He & Hok).
  apply Forall_cons in Hok as [Hv Hok]. rewrite fmap_cons in Hc. cbn [concat] in Hc.
  destruct (check_value_ok iter (cq_key q) conn t v _ Hc Hb He Hv) as (f & -> & Hf & Hbf & Hef).
  cbn [mbind result_bind take drop].
  edestruct (IH (iter + 1) (HashConn f (unflushed conn) (flushed conn) (room conn)))
    as (conn' & -> & Hbr & Hrd); [by split | simpl in Hl; apply le_S_n, Hl |].
  exists conn'. split; [|by split]. rewrite tally_add_assoc. do 3 f_equal. symmetry.
  by apply (tally_app [_] _ [v]).
Qed.

(** ** The rounds *)
Context (Hbatch : 1 <= batch_size opt).

Lemma request_bytes_length q :
  bench_query q -> Z.of_nat (length (request_bytes q)) <= 16 + MAX_VALUE_SIZE.
Proof.
  intros [_ Hq]. unfold request_bytes. rewrite length_app, query_bytes_length.
  change MAX_VALUE_SIZE with 2048 in *. destruct (cq_optype q); [simpl; lia|]. rewrite length_take. lia.
Qed.

Lemma requests_length qs :
  Forall bench_query qs ->
  Z.of_nat (length (concat (request_bytes <$> qs))) <= (16 + MAX_VALUE_SIZE) * Z.of_nat (length qs).
Proof.
  induction 1 as [|q qs Hq _ IH]; [done|]. rewrite fmap_cons. cbn [concat length]. rewrite length_app.
  apply request_bytes_length in Hq. lia.
Qed.

Lemma query_rounds_ok fuel : forall i seed queries data conn t vs,
  0 <= i -> iters_per_client opt - i <= Z.of_nat fuel ->
  rows_ok data -> batch_size opt <= Z.of_nat (length queries) -> batch_size opt <= Z.of_nat (length data) ->
  brings vs conn -> iters_per_client opt - i <= Z.of_nat (length vs) ->
  (16 + MAX_VALUE_SIZE) * (iters_per_client opt - i) <= Z.of_nat (room conn) ->
  exists qs conn', Forall bench_query qs /\ Z.of_nat (length qs) = Z.max 0 (iters_per_client opt - i) /\
    let n := length (lookups i qs) in
    query_rounds rand_r opt fuel i seed queries data conn t
      = Ok (conn', tally_add t (tally_of (lookups i qs) (take n vs))) /\
    brings (drop n vs) conn' /\
    flushed conn' ++ unflushed conn' = flushed conn ++ unflushed conn ++ concat (request_bytes <$> qs) /\
    (0 < iters_per_client opt - i \/ unflushed conn = [] -> unflushed conn' = []).
Proof.
  induction fuel as [|fuel IH]; intros i seed queries data conn t vs Hi Hf Hrows Hq Hd Hbr Hvs Hroom;
    cbn [query_rounds]; destruct (Z.leb_spec (iters_per_client opt) i) as [Hle|Hgt]; try lia.
  1, 2: exists [], conn; rewrite tally_add_0, app_nil_r; simpl length;
    split_and!; try done; [lia | by intros [?|?]; [lia|]].
  unfold int_min. set (m := if _ : bool then _ else _).
  assert (1 <= m /\ m <= batch_size opt /\ m <= iters_per_client opt - i) as (Hm1 & Hm2 & Hm3)
    by (subst m; case_match; lia).
  clearbody m. destruct (fill_batch_ok (Z.to_nat m) 0 seed queries data Hrows ltac:(lia) ltac:(lia))
    as (q1 & d1 & s1 & Hfill & Hr1 & Hd1 & Hq1 & _ & Hall).
  change (Z.of_nat 0) with 0 in Hfill. rewrite Hfill. cbn [mbind result_bind]. rewrite drop_0 in Hall.
  set (qs := take _ q1) in *. assert (Z.of_nat (length qs) = m) as Hlqs by (subst qs; rewrite length_take; lia).
  clearbody qs. pose proof (requests_length qs Hall) as Hreq. rewrite sendqueries_bytes.
  2: { eapply Forall_impl; [exact Hall|]. by intros q [? _]. }
  2: { change MAX_VALUE_SIZE with 2048 in *. nia. }
  cbn [mbind result_bind]. change (1 =? 1) with true. cbn [check mbind result_bind].
  set (c1 := HashConn _ _ _ _). pose proof (lookups_length i qs) as Hll.
  destruct (check_values_ok qs i c1 t vs Hbr ltac:(lia)) as (c2 & -> & Hbr2 & Hu2 & Hf2 & Hrm2).
  cbn [mbind result_bind].
  edestruct (IH (i + m) s1 q1 d1 c2) as (qs' & c3 & Hall' & Hlen' & Hrun & Hbr3 & Hfl & Hun);
    [lia | lia | exact Hr1 | lia | lia | exact Hbr2 | rewrite length_drop; lia | rewrite Hrm2; subst c1; simpl room; change MAX_VALUE_SIZE with 2048 in *; nia |].
  exists (qs ++ qs'), c3. rewrite lookups_app, Hlqs, !length_app. split; [by apply Forall_app|].
  split; [lia|]. cbv zeta. split; [|split; [|split]].
  - rewrite Hrun, tally_add_assoc. do 3 f_equal. rewrite <- take_take_drop.
    symmetry. apply tally_app. rewrite length_take. lia.
  - by rewrite <- drop_drop.
  - rewrite Hfl, Hf2, Hu2. subst c1. simpl. by rewrite fmap_app, concat_app, <- !app_assoc.
  - intros _. apply Hun. right. by rewrite Hu2.
Qed.

(** C32: the client of the server benchmark reads each reply with its own query.
    From a blocking connection that takes all queries and brings a reply for
    every lookup, in the order of the lookups, the client returns without a failed
    assertion or an access outside its buffers, has sent exactly its [iters_per_client] queries, all
    of them well formed and the insertions with their key at both ends, has
    consumed one reply for every lookup and nothing more, counts the replies that are not
    empty as hits, and prints an error exactly for the replies that do not
    carry the key of their query. *)
Theorem client_reads_replies iters conn queries data seed total vs :
  iters_per_client opt = Z.of_nat iters -> (0 < iters)%nat ->
  batch_size opt <= Z.of_nat (length queries) -> batch_size opt <= MAX_BATCH_SIZE ->
  value_buffer data -> brings vs conn -> (iters <= length vs)%nat -> unflushed conn = [] ->
  (16 + MAX_VALUE_SIZE) * Z.of_nat iters <= Z.of_nat (room conn) ->
  exists qs conn' t, Forall bench_query qs /\ length qs = iters /\
    client_hashserver2 rand_r opt (Some conn) queries data seed total
      = Ok (Totals (i32 (total_nhit total + nhit t)) (i32 (total_nlookup total + nlookup t)),
            Some (conn', t)) /\
    flushed conn' = flushed conn ++ concat (request_bytes <$> qs) /\
    let n := length (lookups 0 qs) in
    t = tally_of (lookups 0 qs) (take n vs) /\
    content (fin conn') = concat (value_bytes <$> drop n vs).
Proof.
  intros Hit Hpos Hq Hd [Hld Hrows] Hbr Hvs Hu Hroom. rewrite <- Hld in Hd.
  destruct (query_rounds_ok iters 0 seed queries data conn (Tally 0 0 []) vs)
    as (qs & conn' & Hall & Hlen & Hrun & (Hc & _) & Hfl & Hun); rewrite ?Z.sub_0_r in *; try (done || lia).
  exists qs, conn', (tally_of (lookups 0 qs) (take (length (lookups 0 qs)) vs)).
  split; [done|]. split; [lia|]. split.
  - unfold client_hashserver2. rewrite Hit, Nat2Z.id, Hrun. cbn [mbind result_bind].
    unfold tally_add. simpl. done.
  - rewrite Hun, app_nil_r, Hu in Hfl by lia. done.
Qed.
End client.

(** ** An example: three queries in two batches *)
Definition demo_rand (seed : Z) : Z * Z :=
  let s := (seed * 1103515245 + 12345) mod 2 ^ 31 in (s, s).

Definition demo_settings : settings := Settings 2 3 11 (2 ^ 20 - 1) 8 24 (1 # 2).

Definition demo_replies : list (list Z) := [[]; le 8 7 ++ le 8 7; le 8 5].

Definition demo_conn : hashconn :=
  HashConn (Stream [0; 0] [More [0; 0; 16]; More (drop 5 (concat (value_bytes <$> demo_replies))); Closed]) [] [] 10000.

Definition demo_data : list (list Z) :=
  replicate (Z.to_nat MAX_BATCH_SIZE) (replicate (Z.to_nat MAX_VALUE_SIZE) 0).

Lemma client_reads_replies_witness :
  exists qs conn' t, Forall bench_query qs /\ length qs = 3%nat /\
    client_hashserver2 demo_rand demo_settings (Some demo_conn) (replicate 2 (ClientQuery OPTYPE_LOOKUP 0 77 []))
      demo_data 1 (Totals 0 0)
      = Ok (Totals (i32 (0 + nhit t)) (i32 (0 + nlookup t)), Some (conn', t)) /\
    flushed conn' = concat (request_bytes <$> qs).
Proof.
  destruct (client_reads_replies demo_rand demo_settings ltac:(vm_compute; discriminate)
    ltac:(vm_compute; discriminate) ltac:(vm_compute; discriminate) ltac:(vm_compute; discriminate)
    3 demo_conn (replicate 2 (ClientQuery OPTYPE_LOOKUP 0 77 [])) demo_data 1
    (Totals 0 0) demo_replies eq_refl ltac:(lia) ltac:(vm_compute; discriminate)
    ltac:(vm_compute; discriminate)) as (qs & conn' & t & Hall & Hlen & Hrun & Hsent & _).
  - exact value_buffer_zero.
  - split; [reflexivity|]. split; [reflexivity|]. split; [reflexivity|].
    repeat constructor; vm_compute; discriminate.
  - simpl; lia.
  - reflexivity.
  - vm_compute; discriminate.
  - exists qs, conn', t. split; [exact Hall|]. split; [exact Hlen|]. split; [exact Hrun | exact Hsent].
Defined.
