(* ===== verification/BenchMemcached.v ===== *)
(** * BenchMemcached: the clients of the server benchmark that call memcached
    ([benchhashserver.c])

    [client_memcached] makes one request at a time, [client_memcached_mget] asks for a
    batch of keys at once and fetches what was found. The library libmemcached is
    a parameter, the class [Memcached]; [MemcachedCache] states what its manual says of the
    calls, for a server that is a cache. [rand_r] is a parameter, as in [Bench]. *)
From stdpp Require Import base list gmap.
From Stdlib Require Import ZArith QArith Lia.
From S2P Require Import Prelude Protocol Stream HashClient BenchServer BenchServerThms.

Local Open Scope Z_scope.

(** [memcached_st] and the calls: return codes, and values as the bytes between
    [value] and [value + size], [None] for NULL. *)
Class Memcached := {
  memcached_st : Type;
  MEMCACHED_SUCCESS : Z;
  MEMCACHED_NOTFOUND : Z;
  memcached_server_push : memcached_st -> Z * memcached_st;
  memcached_set : memcached_st -> list Z -> list Z -> Z * memcached_st;
  memcached_get : memcached_st -> list Z -> option (list Z) * Z * memcached_st;
  memcached_mget : memcached_st -> list (list Z) -> Z * memcached_st;
  memcached_fetch : memcached_st -> option (list Z * list Z) * Z * memcached_st
}.

(** How a client thread ends: the whole process exits, the thread gives up, or it
    is done with these counts. *)
Inductive client_end := ProcessExit | GaveUp | Finished (t : tally).

(** [memcmp(a, b, n) != 0]. *)
Definition memcmp (a b : list Z) (n : nat) : result bool :=
  _ ← check ((n <=? length a)%nat && (n <=? length b)%nat) Undefined;
  mret (negb (bool_decide (take n a = take n b))).

(** The test of both clients, as it is written: the third argument of the second
    [memcmp] is [sizeof(uint64_t) != 0], which is 1. *)
Definition invalid_value (value key : list Z) : result bool :=
  d ← memcmp value key 8;
  if d : bool then mret true else
  _ ← check (8 <=? Z.of_nat (length value)) Undefined;
  memcmp (drop (length value - 8) value) key 1.

Section clients.
Context `{Memcached} (rand_r : Z -> Z * Z) (opt : settings).

(** What is done with a value that was found: the assertions, the test and its
    message at iteration [iter]. *)
Definition check_found (iter : Z) (value : option (list Z)) (key : list Z) (t : tally) : result tally :=
  match value with
  | None => Fault AssertFailed
  | Some v =>
      _ ← check (Z.of_nat (length v) mod 8 =? 0) AssertFailed;
      bad ← invalid_value v key;
      mret (Tally (nhit t) (nlookup t) (errors t ++ if bad : bool then [iter] else []))
  end.

(** The body of the loop of [client_memcached]; [raw] is the array [val] as it
    is on entry. [None]: the call failed, and the thread returns. *)
Definition memcached_round (iter seed : Z) (raw : list Z) (memc : memcached_st) (t : tally)
    : result (option (Z * memcached_st * tally)) :=
  '(optype, key, size, val, seed) ←
    get_random_query rand_r opt (write_threshold opt) (u64 (min_val_length opt)) (u64 (max_val_length opt))
      seed 0 raw;
  match optype with
  | OPTYPE_INSERT =>
      _ ← check (size <=? Z.of_nat (length val)) Undefined;
      let '(rc, memc) := memcached_set memc (le 8 key) (take (Z.to_nat size) val) in
      mret (if rc =? MEMCACHED_SUCCESS then Some (seed, memc, t) else None)
  | OPTYPE_LOOKUP =>
      let '(value, rc, memc) := memcached_get memc (le 8 key) in
      if negb (rc =? MEMCACHED_SUCCESS) && negb (rc =? MEMCACHED_NOTFOUND) then mret None else
      let t := Tally (nhit t) (nlookup t + 1) (errors t) in
      if rc =? MEMCACHED_NOTFOUND then mret (Some (seed, memc, t)) else
      t ← check_found iter value (le 8 key) (Tally (nhit t + 1) (nlookup t) (errors t));
      mret (Some (seed, memc, t))
  end.

(** [todo] iterations from [iter] on; [raws] is what the array [val] holds at the
    start of each. *)
Fixpoint memcached_rounds (todo : nat) (iter seed : Z) (raws : nat -> list Z) (memc : memcached_st) (t : tally)
    : result client_end :=
  match todo with
  | O => mret (Finished t)
  | S todo =>
      o ← memcached_round iter seed (raws todo) memc t;
      match o with
      | None => mret GaveUp
      | Some (seed, memc, t) => memcached_rounds todo (iter + 1) seed raws memc t
      end
  end.

(** Only a thread that is done adds what it counted. *)
Definition add_totals (total : totals) (e : client_end) : totals :=
  match e with
  | Finished t => Totals (i32 (total_nhit total + nhit t)) (i32 (total_nlookup total + nlookup t))
  | _ => total
  end.

(** [memc] is what [memcached_create] gave. *)
Definition client_memcached (raws : nat -> list Z) (memc : memcached_st) (seed : Z) (total : totals)
    : result (client_end * totals) :=
  let '(rc, memc) := memcached_server_push memc in
  if negb (rc =? MEMCACHED_SUCCESS) then mret (ProcessExit, total) else
  e ← memcached_rounds (Z.to_nat (iters_per_client opt)) 0 seed raws memc (Tally 0 0 []);
  mret (e, add_totals total e).

(** ** Batches of keys *)

(** The keys of a batch. The pointers for size and value are NULL: an insertion
    would write through them. *)
Fixpoint mget_keys (n : nat) (k seed : Z) (keysbuf : list Z) : result (list Z * Z) :=
  match n with
  | O => mret (keysbuf, seed)
  | S n =>
      match get_random_query rand_r opt 0 0 0 seed 0 [] with
      | Ok (OPTYPE_LOOKUP, key, _, _, seed) => keysbuf ← aset keysbuf k key; mget_keys n (k + 1) seed keysbuf
      | _ => Fault Undefined
      end
  end.

(** [while ((value = memcached_fetch(...)) != NULL)]; [fuel] bounds the values
    that come. The message for a failed fetch is not kept. *)
Fixpoint fetch_all (fuel : nat) (iter : Z) (memc : memcached_st) (t : tally) : result (memcached_st * tally) :=
  match fuel with
  | O => Fault Blocked
  | S fuel =>
      let '(kv, rc, memc) := memcached_fetch memc in
      match kv with
      | None => mret (memc, t)
      | Some (key, value) =>
          _ ← check (length key =? 8)%nat AssertFailed;
          t ← check_found iter (Some value) key (Tally (nhit t + 1) (nlookup t) (errors t));
          fetch_all fuel iter memc t
      end
  end.

(** The [while] loop over the batches. *)
Fixpoint mget_rounds (fuel values : nat) (i seed : Z) (keysbuf : list Z) (memc : memcached_st) (t : tally)
    : result client_end :=
  if iters_per_client opt <=? i then mret (Finished t) else
  match fuel with
  | O => Fault Blocked
  | S fuel =>
      let nqueries := int_min (iters_per_client opt - i) (batch_size opt) in
      '(keysbuf, seed) ← mget_keys (Z.to_nat nqueries) 0 seed keysbuf;
      let i := i + nqueries in
      let t := Tally (nhit t) (nlookup t + nqueries) (errors t) in
      let '(rc, memc) := memcached_mget memc (le 8 <$> take (Z.to_nat nqueries) keysbuf) in
      if negb (rc =? MEMCACHED_SUCCESS) then mret GaveUp else
      '(memc, t) ← fetch_all values i memc t;
      mget_rounds fuel values i seed keysbuf memc t
  end.

Definition client_memcached_mget (values : nat) (keysbuf : list Z) (memc : memcached_st) (seed : Z)
    (total : totals) : result (client_end * totals) :=
  let '(rc, memc) := memcached_server_push memc in
  if negb (rc =? MEMCACHED_SUCCESS) then mret (ProcessExit, total) else
  e ← mget_rounds (Z.to_nat (iters_per_client opt)) values 0 seed keysbuf memc (Tally 0 0 []);
  mret (e, add_totals total e).
End clients.

(** ** The client that is run *)
Inductive client_func := RunHashServer | RunMemcached | RunMemcachedMget.

Definition choose_client_func (design : Z) (opt : settings) : result client_func :=
  if design =? 1 then mret RunHashServer
  else if design =? 2 then
    mret (if Qeq_bool (write_threshold opt) 0 && (1 <? batch_size opt) then RunMemcachedMget else RunMemcached)
  else Fault AssertFailed.
