(* ===== verification/BenchMemcachedThms.v ===== *)
(** * BenchMemcachedThms: the memcached clients of the server benchmark

    Against a server that does what the manual of libmemcached says, and whose
    values all carry their keys at both ends, as those that the benchmark stores do,
    no client fails an assertion or reads outside a value, every client
    returns, and none prints an error. And what the test of the clients misses. *)
From stdpp Require Import base list gmap.
From Stdlib Require Import ZArith QArith Lia.
From S2P Require Import Prelude Protocol Stream HashClient BenchServer BenchServerThms BenchMemcached.

Local Open Scope Z_scope.

(** ** The test *)

(** Of the last word of a value only the first byte is compared. *)
Lemma invalid_value_one_byte v key :
  (8 <= length v)%nat ->
  invalid_value v (le 8 key) =
    Ok (negb (bool_decide (take 8 v = le 8 key)) ||
        negb (bool_decide (take 1 (drop (length v - 8) v) = take 1 (le 8 key)))).
Proof.
  intros Hl. pose proof (le_length 8 key) as Hk. unfold invalid_value, memcmp. rewrite Hk.
  rewrite (proj2 (Nat.leb_le 8 (length v))) by done. change (8 <=? 8)%nat with true. change (1 <=? 8)%nat with true.
  cbn [andb check mbind result_bind mret result_ret]. rewrite (take_ge (le 8 key) 8) by lia. destruct (bool_decide (take 8 v = le 8 key)); cbn [negb]; [|done].
  rewrite (proj2 (Z.leb_le 8 _)) by lia. cbn [check mbind result_bind orb]. rewrite length_drop.
  by rewrite (proj2 (Nat.leb_le 1 (length v - (length v - 8)))) by lia.
Qed.

(** So a value with the key in front and anything but that byte behind passes. *)
Example one_byte_passes :
  invalid_value (le 8 7 ++ [7; 1; 1; 1; 1; 1; 1; 1]) (le 8 7) = Ok false /\
  carries 7 (le 8 7 ++ [7; 1; 1; 1; 1; 1; 1; 1]) = false.
Proof. split; reflexivity. Qed.

(** A value that the benchmark stores under the bytes [k] of a key. *)
Definition stored (k v : list Z) : Prop :=
  length k = 8%nat /\ (8 <= length v)%nat /\ Z.of_nat (length v) mod 8 = 0 /\
  take 8 v = k /\ drop (length v - 8) v = k.

Lemma stored_valid k v : stored k v -> invalid_value v k = Ok false.
Proof.
  intros (Hk & Hl & _ & Hf & Hb). unfold invalid_value, memcmp. rewrite Hk, Hf, Hb, Hk.
  rewrite (proj2 (Nat.leb_le 8 (length v))) by done. change (8 <=? 8)%nat with true. change (1 <=? 8)%nat with true.
  cbn [andb check mbind result_bind mret result_ret]. rewrite (take_ge k 8), bool_decide_eq_true_2 by (done || lia). cbn [negb].
  rewrite (proj2 (Z.leb_le 8 _)) by lia. cbn [check mbind result_bind].
  by rewrite bool_decide_eq_true_2.
Qed.

(** ** What the library promises

    [contents] is what the server holds; it may lose entries at any time. [coming]
    bounds the values that are still to be fetched. *)
Record MemcachedCache `{Memcached} (contents : memcached_st -> gmap (list Z) (list Z))
    (coming : memcached_st -> nat) : Prop := {
  mc_codes : MEMCACHED_SUCCESS <> MEMCACHED_NOTFOUND;
  mc_push : forall m, contents (memcached_server_push m).2 ⊆ contents m;
  mc_set : forall m k v rc m', memcached_set m k v = (rc, m') -> contents m' ⊆ <[k := v]> (contents m);
  mc_get : forall m k v rc m', memcached_get m k = (v, rc, m') -> contents m' ⊆ contents m /\
    (rc = MEMCACHED_SUCCESS -> exists bs, v = Some bs /\ contents m !! k = Some bs);
  mc_mget : forall m ks rc m', memcached_mget m ks = (rc, m') -> contents m' ⊆ contents m /\
    (coming m' <= length ks)%nat;
  mc_fetch : forall m kv rc m', memcached_fetch m = (kv, rc, m') -> contents m' ⊆ contents m /\
    (forall k v, kv = Some (k, v) -> contents m !! k = Some v /\ (coming m' < coming m)%nat)
}.

Section clients.
Context `{M : Memcached} (rand_r : Z -> Z * Z) (opt : settings).
Context (contents : memcached_st -> gmap (list Z) (list Z)) (coming : memcached_st -> nat).
Context (Hmc : MemcachedCache contents coming).
Context (Hmin : 8 <= min_val_length opt) (Hmax : min_val_length opt <= max_val_length opt)
  (Hsize : max_val_length opt <= MAX_VALUE_SIZE).

(** The server holds only values that carry their keys. *)
Definition clean (m : memcached_st) : Prop := map_Forall stored (contents m).

Lemma clean_less m m' : contents m' ⊆ contents m -> clean m -> clean m'.
Proof. intros Hs Hc k v Hk. apply (Hc k v). by eapply lookup_weaken. Qed.

Lemma found_ok iter k v t : stored k v -> check_found iter (Some v) k t = Ok t.
Proof.
  intros Hs. unfold check_found. rewrite (proj2 (Z.eqb_eq _ 0)) by apply Hs. cbn [check mbind result_bind].
  rewrite (stored_valid k v Hs). cbn [mbind result_bind mret result_ret]. destruct t. by rewrite app_nil_r.
Qed.

(** How the counts of a client grow over [n] lookups, with no error printed. *)
Definition counted (n : Z) (t t' : tally) : Prop :=
  errors t' = errors t /\ 0 <= nhit t' - nhit t /\ nhit t' - nhit t <= nlookup t' - nlookup t <= n.

Lemma counted_trans n1 n2 t1 t2 t3 : counted n1 t1 t2 -> counted n2 t2 t3 -> counted (n1 + n2) t1 t3.
Proof. intros (H1 & ? & ?) (H2 & ? & ?). split; [congruence | lia]. Qed.

(** ** One request at a time *)
Lemma memcached_round_ok iter seed raw m t :
  clean m -> Z.of_nat (length raw) = MAX_VALUE_SIZE ->
  exists o, memcached_round rand_r opt iter seed raw m t = Ok o /\
    match o with None => True | Some (_, m', t') => clean m' /\ counted 1 t t' end.
Proof.
  intros Hm Hraw. unfold memcached_round.
  destruct (bench_query_ok rand_r opt Hmin Hmax Hsize (write_threshold opt) seed 0 raw Hraw)
    as (op & key & size & val & seed' & -> & Hval & [_ Hq] & Hins).
  cbn [mbind result_bind]. destruct op; simpl in Hq.
  - destruct (memcached_get m (le 8 key)) as [[v rc] m'] eqn:Hg.
    destruct (mc_get _ _ Hmc _ _ _ _ _ Hg) as [Hsub Hv]. pose proof (clean_less m m' Hsub Hm) as Hm'.
    destruct (Z.eqb_spec rc MEMCACHED_SUCCESS) as [->|Hs].
    + rewrite (proj2 (Z.eqb_neq _ _) (mc_codes _ _ Hmc)). cbn [negb andb].
      destruct (Hv eq_refl) as (bs & -> & Hbs). rewrite (found_ok iter _ bs _ (Hm _ _ Hbs)).
      cbn [mbind result_bind]. eexists. split; [done|]. split; [done|]. split; [done|]. simpl. lia.
    + destruct (Z.eqb_spec rc MEMCACHED_NOTFOUND) as [->|Hn]; cbn [negb andb].
      * eexists. split; [done|]. split; [done|]. split; [done|]. simpl. lia.
      * by exists None.
  - destruct Hq as (Hsz & _). destruct (Hins eq_refl) as (H8 & Hmod & Hkey).
    rewrite (proj2 (Z.leb_le _ _)) by lia. cbn [check mbind result_bind].
    destruct (memcached_set m (le 8 key) (take (Z.to_nat size) val)) as [rc m'] eqn:Hset.
    eexists. split; [done|]. destruct (rc =? MEMCACHED_SUCCESS); [|done]. split; [|split; [done | lia]].
    apply (mc_set _ _ Hmc) in Hset. intros k v Hk. pose proof (lookup_weaken _ _ _ _ Hk Hset) as Hk2.
    destruct (decide (le 8 key = k)) as [<-|Hne]; [|rewrite lookup_insert_ne in Hk2 by done; by apply (Hm k v)].
    rewrite lookup_insert_eq in Hk2. injection Hk2 as <-. unfold stored. rewrite le_length, length_take.
    destruct Hkey as [H1 H2]. rewrite length_take in H2. split_and!; try done; [lia|].
    rewrite Nat.min_l by lia. by rewrite Z2Nat.id by lia.
Qed.

Lemma memcached_rounds_ok todo : forall iter seed raws m t,
  clean m -> (forall i, Z.of_nat (length (raws i)) = MAX_VALUE_SIZE) ->
  exists e, memcached_rounds rand_r opt todo iter seed raws m t = Ok e /\
    match e with ProcessExit => False | GaveUp => True | Finished t' => counted (Z.of_nat todo) t t' end.
Proof.
  induction todo as [|todo IH]; intros iter seed raws m t Hm Hraws; cbn [memcached_rounds].
  { eexists. split; [done|]. split; [done | lia]. }
  destruct (memcached_round_ok iter seed (raws todo) m t Hm (Hraws todo)) as (o & -> & Ho). cbn [mbind result_bind].
  destruct o as [[[seed' m'] t']|]; [|by exists GaveUp]. destruct Ho as [Hm' Ht'].
  destruct (IH (iter + 1) seed' raws m' t' Hm' Hraws) as (e & -> & He). exists e. split; [done|].
  destruct e; try done. rewrite Nat2Z.inj_succ. replace (Z.succ (Z.of_nat todo)) with (1 + Z.of_nat todo) by lia.
  by eapply counted_trans.
Qed.

(** ** Batches of keys *)
Context (Hrand : forall seed, 0 <= (rand_r seed).1).

(** With a threshold of 0 there are only lookups. *)
Lemma keys_ok n : forall k seed keysbuf,
  (k + n <= length keysbuf)%nat ->
  exists keysbuf' seed', mget_keys rand_r opt n (Z.of_nat k) seed keysbuf = Ok (keysbuf', seed') /\
    length keysbuf' = length keysbuf.
Proof.
  induction n as [|n IH]; intros k seed keysbuf Hk; cbn [mget_keys]; [by exists keysbuf, seed|].
  unfold get_random_query. pose proof (Hrand seed) as Ha. destruct (rand_r seed) as [a s1], (rand_r s1) as [b s2].
  assert (Qle_bool (0 * inject_Z RAND_MAX) (inject_Z a) = true) as ->
    by (apply Qle_bool_iff; unfold Qle; simpl in *; lia).
  cbn [mret result_ret]. rewrite aset_in by lia. cbn [mbind result_bind]. rewrite Nat2Z.id.
  replace (Z.of_nat k + 1) with (Z.of_nat (S k)) by lia.
  edestruct (IH (S k) s2) as (kb & s & -> & Hl); [rewrite length_insert; lia|].
  exists kb, s. by rewrite length_insert in Hl.
Qed.

Lemma fetch_all_ok fuel : forall iter m t,
  clean m -> (coming m < fuel)%nat ->
  exists m' t', fetch_all fuel iter m t = Ok (m', t') /\ clean m' /\ errors t' = errors t /\
    nlookup t' = nlookup t /\ nhit t <= nhit t' <= nhit t + Z.of_nat (coming m).
Proof.
  induction fuel as [|fuel IH]; intros iter m t Hm Hf; [lia|]. cbn [fetch_all].
  destruct (memcached_fetch m) as [[kv rc] m'] eqn:Hx. destruct (mc_fetch _ _ Hmc _ _ _ _ Hx) as [Hsub Hkv].
  pose proof (clean_less m m' Hsub Hm) as Hm'. destruct kv as [[k v]|].
  2: { exists m', t. split_and!; [done..|lia|lia]. }
  destruct (Hkv k v eq_refl) as [Hk Hlt]. pose proof (Hm k v Hk) as Hs.
  rewrite (proj2 (Nat.eqb_eq _ 8)) by apply Hs. cbn [check mbind result_bind].
  rewrite (found_ok iter k v _ Hs). cbn [mbind result_bind].
  destruct (IH iter m' (Tally (nhit t + 1) (nlookup t) (errors t)) Hm' ltac:(lia))
    as (m2 & t2 & -> & Hm2 & He & Hl & Hn). simpl in *. exists m2, t2. split_and!; [done..|lia|lia].
Qed.

Lemma mget_rounds_ok fuel values : forall i seed keysbuf m t,
  1 <= batch_size opt <= MAX_BATCH_SIZE -> batch_size opt < Z.of_nat values ->
  Z.of_nat (length keysbuf) = MAX_BATCH_SIZE -> iters_per_client opt - i <= Z.of_nat fuel -> clean m ->
  exists e, mget_rounds rand_r opt fuel values i seed keysbuf m t = Ok e /\
    match e with
    | ProcessExit => False
    | GaveUp => True
    | Finished t' => counted (Z.max 0 (iters_per_client opt - i)) t t'
    end.
Proof.
  induction fuel as [|fuel IH]; intros i seed keysbuf m t Hb Hv Hk Hf Hm; cbn [mget_rounds];
    (destruct (Z.leb_spec (iters_per_client opt) i) as [Hle|Hgt];
      [exists (Finished t); split; [done|]; split; [done | lia]|]); [lia|].
  unfold int_min. set (n := if _ : bool then _ else _).
  assert (1 <= n /\ n <= batch_size opt /\ n <= iters_per_client opt - i) as (Hn1 & Hn2 & Hn3)
    by (subst n; case_match; lia). clearbody n.
  destruct (keys_ok (Z.to_nat n) 0 seed keysbuf ltac:(lia)) as (kb & s & Hkeys & Hkl).
  change (Z.of_nat 0) with 0 in Hkeys. rewrite Hkeys. cbn [mbind result_bind].
  destruct (memcached_mget m (le 8 <$> take (Z.to_nat n) kb)) as [rc m'] eqn:Hg.
  destruct (mc_mget _ _ Hmc _ _ _ _ Hg) as [Hsub Hcom]. rewrite length_fmap, length_take in Hcom.
  destruct (rc =? MEMCACHED_SUCCESS); cbn [negb]; [|by exists GaveUp].
  destruct (fetch_all_ok values (i + n) m' (Tally (nhit t) (nlookup t + n) (errors t)) (clean_less m m' Hsub Hm) ltac:(lia))
    as (m2 & t2 & -> & Hm2 & He & Hl & Hh). simpl in He, Hl, Hh. cbn [mbind result_bind].
  destruct (IH (i + n) s kb m2 t2 Hb Hv ltac:(lia) ltac:(lia) Hm2) as (e & -> & Hend). exists e. split; [done|].
  destruct e; try done.
  replace (Z.max 0 (iters_per_client opt - i)) with (n + Z.max 0 (iters_per_client opt - (i + n))) by lia.
  eapply counted_trans; [|exact Hend]. split; [done | lia].
Qed.

(** The memcached clients. From a server that holds only values with their keys at
    both ends, the client that [run_benchmark] chooses comes to its end without a
    failed assertion or an access outside its arrays or a value; a thread that is
    done has printed no error, and has counted at most one hit for a lookup and one
    lookup for an iteration. *)
Theorem memcached_clients_end raws keysbuf values m seed total :
  clean m -> (forall i, Z.of_nat (length (raws i)) = MAX_VALUE_SIZE) ->
  1 <= batch_size opt <= MAX_BATCH_SIZE -> batch_size opt < Z.of_nat values ->
  Z.of_nat (length keysbuf) = MAX_BATCH_SIZE -> 0 <= iters_per_client opt ->
  forall r, r = client_memcached rand_r opt raws m seed total \/
    r = client_memcached_mget rand_r opt values keysbuf m seed total ->
  exists e, r = Ok (e, add_totals total e) /\
    match e with Finished t => counted (iters_per_client opt) (Tally 0 0 []) t | _ => True end.
Proof.
  intros Hm Hraws Hb Hv Hk Hit r Hr. pose proof (mc_push _ _ Hmc m) as Hp.
  unfold client_memcached, client_memcached_mget in Hr. destruct (memcached_server_push m) as [rc m'].
  pose proof (clean_less m m' Hp Hm) as Hm'. destruct (rc =? MEMCACHED_SUCCESS); cbn [negb] in Hr.
  2: { exists ProcessExit. split; [by destruct Hr as [->| ->] | done]. }
  destruct Hr as [->| ->].
  - destruct (memcached_rounds_ok (Z.to_nat (iters_per_client opt)) 0 seed raws m' (Tally 0 0 []) Hm' Hraws) as (e & -> & He).
    exists e. split; [done|]. destruct e; try done. by rewrite Z2Nat.id in He.
  - destruct (mget_rounds_ok (Z.to_nat (iters_per_client opt)) values 0 seed keysbuf m' (Tally 0 0 []) Hb Hv Hk
      ltac:(lia) Hm') as (e & -> & He).
    exists e. split; [done|]. destruct e; try done. by rewrite Z.sub_0_r, Z.max_r in He by lia.
Qed.
End clients.

(** ** A server that keeps everything *)
Definition demo_memcached : Memcached := {|
  memcached_st := gmap (list Z) (list Z) * list (list Z);
  MEMCACHED_SUCCESS := 0;
  MEMCACHED_NOTFOUND := 16;
  memcached_server_push m := (0, m);
  memcached_set m k v := (0, (<[k := v]> m.1, m.2));
  memcached_get m k := match m.1 !! k with Some v => (Some v, 0, m) | None => (None, 16, m) end;
  memcached_mget m ks := (0, (m.1, filter (fun k => is_Some (m.1 !! k)) ks));
  memcached_fetch m :=
    match m.2 with
    | k :: ks => match m.1 !! k with Some v => (Some (k, v), 0, (m.1, ks)) | None => (None, 1, (m.1, [])) end
    | [] => (None, 1, m)
    end
|}.

Lemma demo_cache : MemcachedCache (H := demo_memcached) fst (fun m => length m.2).
Proof.
  split; simpl; try done.
  - intros [c l] k v rc m' [= _ <-]. done.
  - intros [c l] k v rc m'. simpl. destruct (c !! k) as [bs|]; intros [= <- <- <-]; split; try done. eauto.
  - intros [c l] ks rc m' [= _ <-]. split; [done|]. apply length_filter.
  - intros [c l] kv rc m'. simpl. destruct l as [|k l]; [|destruct (c !! k) as [v|] eqn:Hk];
      intros [= <- <- <-]; (split; [done|]); intros k0 v0; [done| |done].
    intros [= <- <-]. simpl. split; [done | lia].
Qed.

Example memcached_run :
  client_memcached (H := demo_memcached) demo_rand (Settings 2 20 11 3 8 24 (1 # 2))
    (fun _ => replicate 2048 0) (∅, []) 1 (Totals 0 0)
  = Ok (Finished (Tally 6 10 []), Totals 6 10).
Proof. vm_compute. reflexivity. Qed.
