(* ===== verification/Serve.v ===== *)
(** * Serve: the threads of the hash server over the locking table ([hashserver2.c])

    The threads of the server in design 3. [clientgo]: a batch is gathered from the
    connections, its queries are put to the table with locking calls, the values are filled
    in or prepared as replies, and the replies are written. Every round of the first loop,
    every action of a call, every query of the second loop and every [writev] and
    [release_value] of [write_iovs] is one action, and [tcpserver] has the actions of [HashServer];
    the actions of all threads interleave. *)
From stdpp Require Import base list gmap.
From Stdlib Require Import ZArith QArith Lia.
From S2P Require Import Prelude Protocol ALock Value Partition HashTable Stats Locking LockingWorld.
From S2P Require Import Stream HashClient Gather Reply HashServer.

Local Open Scope Z_scope.

(** The other end of a connection: the results of the calls of [writev] to come, the bytes
    that were taken, and whether a call has failed. *)
Record socket_out := SocketOut { so_accepts : list accept; so_sent : list Z; so_failed : bool }.

(** Where a thread is in its loop. In [Sending] it is in [write_iovs] for place [i]: [todo] are
    the values it releases before it goes on, [cont] the entries from [ciov] on with [ciov_base],
    [None] once the loop is over, and [r] is [ret]. *)
Inductive stage :=
  | Gathering
  | Querying (b : lbatch)
  | Handling (k : Z)
  | Marking (val k : Z)
  | Writing (i : Z)
  | Sending (i : Z) (todo : list Z) (cont : option (list iovec * option Z)) (r : Z).

(** The connections with the batch, [values], [writeiov] with its counts as lengths, and the
    sockets. *)
Record worker := Worker {
  wk_gather : gather;
  wk_values : list Z;
  wk_iovs : list (list iovec);
  wk_stage : stage;
  wk_out : list socket_out
}.

(** The table, [active_clients], and the client threads. *)
Record server := Server { sv_state : lstate; sv_acs : Z; sv_workers : list worker }.

Definition at_stage (s : stage) (c : worker) : worker :=
  Worker (wk_gather c) (wk_values c) (wk_iovs c) s (wk_out c).
Definition with_out (out : list socket_out) (c : worker) : worker :=
  Worker (wk_gather c) (wk_values c) (wk_iovs c) (wk_stage c) out.
Definition with_gather (g : gather) (c : worker) : worker :=
  Worker g (wk_values c) (wk_iovs c) (wk_stage c) (wk_out c).
Definition with_iovs (iovs : list (list iovec)) (c : worker) : worker :=
  Worker (wk_gather c) (wk_values c) iovs (wk_stage c) (wk_out c).
Definition with_values (vs : list Z) (c : worker) : worker :=
  Worker (wk_gather c) vs (wk_iovs c) (wk_stage c) (wk_out c).

(** [active_clients] is shared, and [r] is a variable of the whole loop. *)
Definition with_acs (acs : Z) (g : gather) : gather :=
  Gather (g_cd g) acs (g_resets g) (g_r g) (g_last g) (g_i g) (g_valuebuf g) (g_queries g).
Definition with_r (r : Z) (g : gather) : gather :=
  Gather (g_cd g) (g_acs g) (g_resets g) r (g_last g) (g_i g) (g_valuebuf g) (g_queries g).

(** What [release_value] and [mark_ready] do in the locking design. *)
Definition in_place (op : value_op) : result heap :=
  match op with InPlace h => h | Send _ => Fault Undefined end.

Section worker.
Context `{Machine} (spins : nat) (ht : hash_table) (batch_size verbose : Z).

(** A round of the first loop. *)
Definition gather_act (st : lstate) (acs : Z) (c : worker) : result (lstate * Z * worker) :=
  let g := wk_gather c in
  '(stop, g') ← gather_step batch_size verbose (with_acs acs g);
  ps ← (if g_resets g' =? g_resets g then mret (parts st)
        else t ← stats_reset (set_partitions (parts st) ht); mret (partitions t));
  mret (LState ps (lmem st) (calls st), g_acs g',
        at_stage (if stop : bool then Querying (LBatch 0 (wk_values c)) else Gathering) (with_gather g' c)).

(** [doqueries]. *)
Definition query_act (t : nat) (b : lbatch) (st : lstate) (c : worker) : result (lstate * worker) :=
  '(stop, st, b) ← lbatch_act spins (ht_nservers ht) t (gq_query <$> g_queries (wk_gather c)) st b;
  mret (st, if stop : bool then at_stage (Handling 0) (with_values (lb_values b) c) else at_stage (Querying b) c).

(** The second loop at [k]; [mark_ready] is an action of its own. *)
Definition handle_act (k : Z) (st : lstate) (c : worker) : result (lstate * worker) :=
  let g := wk_gather c in
  if nqueries g <=? k then mret (st, at_stage (Writing 0) c) else
  e ← aget (g_queries g) k;
  v ← aget (wk_values c) k;
  o ← handle_value batch_size (g_cd g) (g_valuebuf g) e v (Replies (hp (lmem st)) (wk_iovs c) []);
  mret (set_lheap (rp_heap o) st,
        at_stage (match made_ready (rp_log o) with val :: _ => Marking val (k + 1) | [] => Handling (k + 1) end)
          (with_iovs (rp_iovs o) c)).

Definition mark_act (val k : Z) (st : lstate) (c : worker) : result (lstate * worker) :=
  h ← in_place (mark_ready 3 (hp (lmem st)) val);
  mret (set_lheap h st, at_stage (Handling k) c).

(** The third loop at place [i]. *)
Definition write_act (i : Z) (c : worker) : result worker :=
  let g := wk_gather c in
  if MAX_SOCKETS <=? i then
    mret (at_stage Gathering (with_gather (gather_start (g_cd g) (g_acs g) (g_resets g) (g_r g) (g_last g)) c))
  else
    iovs ← aget (wk_iovs c) i;
    mret (at_stage (match iovs with
                    | [] => Writing (i + 1)
                    | v :: _ => Sending i [] (Some (iovs, iov_value v)) 0
                    end) c).

(** [write_iovs] at place [i]. *)
Definition send_act (i : Z) (todo : list Z) (cont : option (list iovec * option Z)) (r : Z)
    (st : lstate) (c : worker) : result (lstate * worker) :=
  match todo, cont with
  | ptr :: todo, _ =>
      h ← in_place (release_value 3 (hp (lmem st)) ptr);
      mret (set_lheap h st, at_stage (Sending i todo cont r) c)
  | [], None =>
      iovs ← aset (wk_iovs c) i [];
      mret (st, at_stage (Writing (i + 1)) (with_gather (with_r r (wk_gather c)) (with_iovs iovs c)))
  | [], Some ([], base) => mret (st, at_stage (Sending i (option_list base) None r) c)
  | [], Some (iovs, base) =>
      s ← aget (wk_out c) i;
      match so_accepts s with
      | [] => Fault Blocked
      | Refused :: rs =>
          out ← aset (wk_out c) i (SocketOut rs (so_sent s) true);
          mret (st, at_stage (Sending i (option_list base ++ omap iov_value (tail iovs)) None 2) (with_out out c))
      | Later :: rs =>
          out ← aset (wk_out c) i (SocketOut rs (so_sent s) (so_failed s));
          mret (st, with_out out c)
      | Took n :: rs =>
          bs ← iovs_bytes (hp (lmem st)) iovs;
          let bs := take n bs in
          let '(iovs', base', evs) := progress (length bs) iovs base in
          out ← aset (wk_out c) i (SocketOut rs (so_sent s ++ bs) (so_failed s));
          mret (st, at_stage (Sending i (released evs) (Some (iovs', base')) r) (with_out out c))
      end
  end.

(** The next action of [clientgo], run by thread [t]. *)
Definition clientgo (t : nat) (st : lstate) (acs : Z) (c : worker) : result (lstate * Z * worker) :=
  match wk_stage c with
  | Gathering => gather_act st acs c
  | Querying b => '(st, c) ← query_act t b st c; mret (st, acs, c)
  | Handling k => '(st, c) ← handle_act k st c; mret (st, acs, c)
  | Marking val k => '(st, c) ← mark_act val k st c; mret (st, acs, c)
  | Writing i => c ← write_act i c; mret (st, acs, c)
  | Sending i todo cont r => '(st, c) ← send_act i todo cont r st c; mret (st, acs, c)
  end.

(** Thread [t] makes an action; [None] when there is no such thread. *)
Definition server_act (t : nat) (sv : server) : option (result server) :=
  c ← sv_workers sv !! t;
  Some ('(st, acs, c) ← clientgo t (sv_state sv) (sv_acs sv) c;
        mret (Server st acs (<[t := c]> (sv_workers sv)))).

Definition server_step (sv sv' : server) : Prop := exists t, server_act t sv = Some (Ok sv').

(** A schedule of the threads; it ends at a fault. *)
Fixpoint run_schedule (schedule : list nat) (sv : server) : result server :=
  match schedule with
  | [] => mret sv
  | t :: schedule => sv ← default (mret sv) (server_act t sv); run_schedule schedule sv
  end.

(** A client thread with its connections, before its loop. [values] is the array as
    [memalign] gave it. *)
Definition start_worker (cd : client_data) (values : list Z) (out : list socket_out) : worker :=
  Worker (gather_start cd 0 0 0 0) values (replicate (Z.to_nat MAX_SOCKETS) []) Gathering out.

Definition start_server (m : mem) (acs : Z) (workers : list worker) : server :=
  Server (LState (partitions ht) m (replicate (length workers) None)) acs workers.
End worker.

(** ** [run_server] and [tcpserver] *)

(** The sockets of a thread as [tcpserver] leaves them; [takes] is what the other end of a new
    connection will take. *)
Definition with_cd (cd : client_data) (g : gather) : gather :=
  Gather cd (g_acs g) (g_resets g) (g_r g) (g_last g) (g_i g) (g_valuebuf g) (g_queries g).

Definition connect (takes : list accept) (cd : client_data) (c : worker) : worker :=
  with_out (imap (fun i s => if decide (sockets cd !! i = sockets (g_cd (wk_gather c)) !! i) then s
                             else SocketOut takes [] false) (wk_out c))
    (with_gather (with_cd cd (wk_gather c)) c).

(** What [tcpserver] sees of the client threads. *)
Definition server_cds (sv : server) : list client_data := (fun c => g_cd (wk_gather c)) <$> sv_workers sv.

(** The server, and where [tcpserver] is in its loop. *)
Record front := Front { fr_server : server; fr_listener : listener }.

(** The next action of [tcpserver]. *)
Definition server_accept (takes : list accept) (x : front) : result front :=
  let sv := fr_server x in
  '(cds, acs, l) ← tcpserver (server_cds sv) (sv_acs sv) (fr_listener x);
  mret (Front (Server (sv_state sv) acs (zip_with (connect takes) cds (sv_workers sv))) l).

(** [fin] of a place that was never open: NULL, which is never read from. *)
Definition NULL_FILE : stream := Stream [] [Closed].

(** [run_server] up to [tcpserver], in design 3. [threads] are the arrays [values] of the client
    threads, as [memalign] gave them. *)
Definition run_server (raw : hash_table) (raws : list (partition * list alock)) (size nservers : Z)
    (m : mem) (threads : list (list Z)) : result (hash_table * server) :=
  ht ← create_hash_table raw raws size nservers EVICT_LRU;
  let cd := client_data_init (replicate (Z.to_nat MAX_SOCKETS) NULL_FILE) in
  let out := replicate (Z.to_nat MAX_SOCKETS) (SocketOut [] [] false) in
  mret (ht, start_server ht m 0 ((fun values => start_worker cd values out) <$> threads)).
