(* ===== verification/ServeInv.v ===== *)
(** * ServeInv: the invariant of the hash server over the locking table

    A client thread of [Serve] is a thread of the program of [LockingWorld]. What it holds
    covers the values its stage still needs; every ready value is one that some client sent
    for its key; and the replies prepared for a connection answer a prefix of its lookups. *)
From stdpp Require Import base list gmap relations.
From Stdlib Require Import ZArith QArith Lia.
From S2P Require Import Prelude Protocol ALock Value Partition PartitionInv PartitionLru PartitionThms Link.
From S2P Require Import TableOps Ownership HashTable Stats Estates Stream HashClient Gather GatherThms Reply ReplyThms.
From S2P Require Import Holders Locking LockingThms LockingLive LockingWorld LockingWorldInv DoallThms HashServer Serve.
From S2P Require Import System Bench BenchLocking BenchLockingInv HashServerThms.

Local Open Scope Z_scope.

(** ** Counting what a hand holds *)
Definition count_held (f : request * Z -> bool) (held : list (request * Z)) : Z :=
  zsum (fun x => if f x then 1 else 0) held.

Lemma count_held_app f l1 l2 : count_held f (l1 ++ l2) = count_held f l1 + count_held f l2.
Proof. apply zsum_app. Qed.

Lemma count_held_pos f held : 0 < count_held f held <-> exists x, x ∈ held /\ f x = true.
Proof.
  unfold count_held. split.
  - intros Hp. apply zsum_pos_inv in Hp as (x & Hx & Hf). exists x. split; [done|]. by destruct (f x).
  - intros (x & Hx & Hf). pose proof (zsum_member (fun x => if f x then 1 else 0) held x) as Hm. cbv beta in Hm.
    rewrite Hf in Hm. specialize (Hm ltac:(intros y; by destruct (f y)) Hx). lia.
Qed.

Lemma count_drop f g held :
  existsb g held = true -> (forall x, g x = true -> f x = true) ->
  count_held f (drop_one g held) = count_held f held - 1.
Proof.
  intros Hg Hfg. destruct (drop_one_perm g held Hg) as (x & Hx & Hp). unfold count_held.
  rewrite (zsum_perm _ _ _ Hp), zsum_cons, (Hfg x Hx). lia.
Qed.

Lemma count_drop_other f g held : (forall x, g x = true -> f x = false) -> count_held f (drop_one g held) = count_held f held.
Proof.
  intros Hfg. induction held as [|x held IH]; [done|]. simpl. destruct (g x) eqn:Hx.
  - unfold count_held. rewrite zsum_cons, (Hfg x Hx). lia.
  - unfold count_held in *. by rewrite !zsum_cons, IH.
Qed.

Lemma member_drop g held (x : request * Z) : x ∈ held -> g x = false -> x ∈ drop_one g held.
Proof.
  intros Hx Hg. induction held as [|y held IH]; [by apply elem_of_nil in Hx|]. simpl.
  apply elem_of_cons in Hx as [->|Hx]; [rewrite Hg; left|].
  destruct (g y); [done|]. right. by apply IH.
Qed.

Lemma count_found_in v held : 0 < count_held (found v) held -> exists key, (Lookup key, v) ∈ held.
Proof.
  intros Hp. apply count_held_pos in Hp as ([r v'] & Hx & Hf). unfold found in Hf. simpl in Hf.
  destruct r as [key| |]; try done. apply Z.eqb_eq in Hf as ->. by exists key.
Qed.

Lemma count_wrote_in v held : 0 < count_held (wrote v) held -> exists key sz, (Insert key sz, v) ∈ held.
Proof.
  intros Hp. apply count_held_pos in Hp as ([r v'] & Hx & Hf). unfold wrote in Hf. simpl in Hf.
  destruct r as [|key sz|]; try done. apply Z.eqb_eq in Hf as ->. by exists key, sz.
Qed.

(** A count is at least one where the hand lets a value go. *)
Lemma count_exists f held : 0 < count_held f held -> existsb f held = true.
Proof.
  intros Hp. apply count_held_pos in Hp as (x & Hx & Hf). apply existsb_exists. exists x.
  by rewrite <- list_elem_of_In.
Qed.

(** ** The sockets in the first loop *)
Lemma gather_cd_ok batch_size verbose g stop g' :
  0 <= g_i g -> gather_step batch_size verbose g = Ok (stop, g') -> cd_ok (g_cd g) -> cd_ok (g_cd g').
Proof.
  intros Hi H Hok. unfold gather_step in H. destruct (gather_full batch_size g); [by injection H as <- <-|].
  apply bind_Ok in H as (s0 & Hs0 & H). apply bind_Ok in H as (g1 & Hg1 & H).
  assert (g_cd g' = g_cd g1) as ->.
  { unfold next_socket in H. apply bind_Ok in H as (s1 & _ & H). case_match; by injection H as <- <-. }
  destruct (Z.eqb_spec s0 (-1)) as [_|Hne]; cbn [negb] in Hg1; [by injection Hg1 as <-|].
  apply bind_Ok in Hg1 as (g2 & Hg2 & Hg1). unfold receive in Hg2.
  apply bind_Ok in Hg2 as (f & _ & Hg2). apply bind_Ok in Hg2 as ([[[r last] q] f'] & _ & Hg2).
  apply bind_Ok in Hg2 as (fs & Hfs & Hg2). apply Ok_inj in Hg2. apply aset_Ok in Hfs as (_ & ->).
  assert (g_cd g2 = ClientData (nsockets (g_cd g)) (sockets (g_cd g)) (<[Z.to_nat (g_i g):=f']> (fins (g_cd g))) /\
    g_i g2 = g_i g) as [Hcd2 Hi2] by (subst g2; by destruct q as [[q v]|]).
  assert (cd_ok (g_cd g2)) as Hok2 by (rewrite Hcd2; destruct Hok; split; simpl; by rewrite ?length_insert).
  unfold drop_broken in Hg1. destruct (g_r g2 =? 2); [|by injection Hg1 as <-].
  apply bind_Ok in Hg1 as (cd & Hcd & Hg1). apply Ok_inj in Hg1 as <-. simpl.
  destruct (close_socket_ok (g_cd g2) (g_i g2) s0 Hok2) as (cd' & Hcl & _ & Hok'); [by rewrite Hi2, Hcd2|done|].
  rewrite Hcl in Hcd. by apply Ok_inj in Hcd as <-.
Qed.

(** The first loop closes sockets and opens none. *)
Lemma gather_count batch_size verbose g stop g' :
  gather_step batch_size verbose g = Ok (stop, g') -> cd_ok (g_cd g) -> nsockets (g_cd g') <= nsockets (g_cd g).
Proof.
  intros H Hok. unfold gather_step in H. destruct (gather_full batch_size g); [by injection H as <- <-|].
  apply bind_Ok in H as (s0 & Hs0 & H). apply bind_Ok in H as (g1 & Hg1 & H).
  assert (g_cd g' = g_cd g1) as ->.
  { unfold next_socket in H. apply bind_Ok in H as (s1 & _ & H). case_match; by injection H as <- <-. }
  destruct (Z.eqb_spec s0 (-1)) as [_|Hne]; cbn [negb] in Hg1; [by injection Hg1 as <-|].
  apply bind_Ok in Hg1 as (g2 & Hg2 & Hg1). unfold receive in Hg2.
  apply bind_Ok in Hg2 as (f & _ & Hg2). apply bind_Ok in Hg2 as ([[[r last] q] f'] & _ & Hg2).
  apply bind_Ok in Hg2 as (fs & Hfs & Hg2). apply Ok_inj in Hg2.
  assert (nsockets (g_cd g2) = nsockets (g_cd g)) as Hn by (subst g2; by destruct q as [[q v]|]).
  unfold drop_broken in Hg1. destruct (g_r g2 =? 2); [|injection Hg1 as <-; lia].
  apply bind_Ok in Hg1 as (cd & Hcd & Hg1). apply Ok_inj in Hg1 as <-. simpl.
  unfold close_socket in Hcd. apply bind_Ok in Hcd as (ss & _ & Hcd). apply Ok_inj in Hcd as <-. simpl.
  pose proof (count_range _ Hok) as Hr. change MAX_SOCKETS with 128 in Hr. rewrite Hn, i32_small by lia. lia.
Qed.

Lemma clientgo_count `{Machine} spins ht batch_size verbose t st acs c st' acs' c' :
  clientgo spins ht batch_size verbose t st acs c = Ok (st', acs', c') -> cd_ok (g_cd (wk_gather c)) ->
  nsockets (g_cd (wk_gather c')) <= nsockets (g_cd (wk_gather c)).
Proof.
  intros Hgo Hok. unfold clientgo in Hgo. destruct (wk_stage c) as [|b|k|val k|i|i todo cont r].
  - apply bind_Ok in Hgo as ([stop g'] & Hg & Hgo). apply bind_Ok in Hgo as (ps & _ & Hgo). injection Hgo as _ _ <-. simpl.
    exact (gather_count batch_size verbose (with_acs acs (wk_gather c)) stop g' Hg Hok).
  - apply bind_Ok in Hgo as ([st1 c1] & Hq & Hgo). injection Hgo as _ _ <-.
    apply bind_Ok in Hq as ([[stop st2] b'] & _ & Hq). injection Hq as _ <-. by destruct stop.
  - apply bind_Ok in Hgo as ([st1 c1] & Hq & Hgo). injection Hgo as _ _ <-. unfold handle_act in Hq. case_match; [by injection Hq as _ <-|].
    apply bind_Ok in Hq as (e & _ & Hq). apply bind_Ok in Hq as (v & _ & Hq). apply bind_Ok in Hq as (o & _ & Hq).
    by injection Hq as _ <-.
  - apply bind_Ok in Hgo as ([st1 c1] & Hq & Hgo). injection Hgo as _ _ <-. apply bind_Ok in Hq as (h & _ & Hq).
    by injection Hq as _ <-.
  - apply bind_Ok in Hgo as (c1 & Hq & Hgo). injection Hgo as _ _ <-. unfold write_act in Hq. case_match; [by injection Hq as <-|].
    apply bind_Ok in Hq as (iovs & _ & Hq). by injection Hq as <-.
  - apply bind_Ok in Hgo as ([st1 c1] & Hq & Hgo). injection Hgo as _ _ <-. unfold send_act in Hq.
    destruct todo as [|ptr todo]; [|apply bind_Ok in Hq as (h & _ & Hq); by injection Hq as _ <-].
    destruct cont as [[[|iov iovs] base]|]; [by injection Hq as _ <-| |apply bind_Ok in Hq as (l & _ & Hq); by injection Hq as _ <-].
    apply bind_Ok in Hq as (s & _ & Hq). destruct (so_accepts s) as [|[] rs]; [done|..].
    all: apply bind_Ok in Hq as (x & _ & Hq); try (by injection Hq as _ <-).
    cbv zeta in Hq. destruct (Reply.progress _ _ _) as [[? ?] ?]. apply bind_Ok in Hq as (out & _ & Hq). by injection Hq as _ <-.
Qed.

(** ** What the threads work on *)
Section server.
Context `{M : Machine} (spins : nat) (ht : hash_table) (batch_size verbose : Z) (Hbatch : 0 < batch_size).
Context (h0 : heap) (n ms ev : Z) (Hn : 0 < n < 2 ^ 31) (Hms : ms < 2 ^ 63) (Hht : ht_nservers ht = n).

(** The queries sent on the connection at place [i] of thread [t], and all that were ever sent. *)
Context (qs : nat -> Z -> list client_query) (sent : client_query -> Prop).
Context (Hqs : forall t i q, q ∈ qs t i -> sent q).

(** An insertion fits into a partition, with the size of the value in front of it. *)
Definition fits_table (q : client_query) : Prop :=
  cq_optype q = OPTYPE_INSERT -> elem_size (cq_size q + 4) <= ms.

Context (Hfits : forall q, sent q -> sized q /\ fits_table q).

(** Some client sent [d] as the value for [key]. *)
Definition inserted (key : Z) (d : list Z) : Prop :=
  exists q, sent q /\ cq_optype q = OPTYPE_INSERT /\ cq_key q = key /\ d = (server_view q).2.

(** What the server sees of them. *)
Definition seen (v : hash_query * list Z) : Prop := exists q, sent q /\ v = server_view q.

(** A value as [clientgo] fills it in: its size, and bytes that were sent for its key. *)
Definition good (el : elem) : Prop :=
  exists d junk, value el = value_bytes d ++ junk /\ Z.of_nat (length d) < 2 ^ 32 /\ inserted (Value.key el) d.

Lemma good_contents : of_contents good.
Proof. intros el rc (d & junk & Hv & Hl & Hi). by exists d, junk. Qed.

(** The right reply to a lookup: nothing, or what was sent for the key. *)
Definition right_reply (key : Z) (d : list Z) : Prop := d = [] \/ inserted key d.

(** The key, if it is a lookup. *)
Definition view_key (x : hash_query * list Z) : option Z :=
  if q_optype x.1 =? optype_code OPTYPE_LOOKUP then Some (q_key x.1) else None.

(** The lookups sent on a connection. *)
Definition lookups (l : list client_query) : list Z := omap view_key (server_view <$> l).

(** The same of a batch, for place [i]. *)
Definition batch_lookups (buf : list Z) (i : Z) (ss : list (Z * gathered)) : list Z :=
  omap view_key (entry_view buf <$> from i ss).

(** ** What a stage needs *)
Definition is_lookup (x : gathered * Z) : bool := q_optype (gq_query x.1) =? optype_code OPTYPE_LOOKUP.

(** The values among answers: those found and those to be filled in. *)
Definition found_values (xs : list (gathered * Z)) : list Z :=
  omap (fun x => if is_lookup x && negb (x.2 =? 0) then Some x.2 else None) xs.
Definition written_values (xs : list (gathered * Z)) : list Z :=
  omap (fun x => if is_lookup x then None else Some x.2) xs.

(** The answer is held as the answer to its query; an insertion was not refused. *)
Definition answer_held (held : list (request * Z)) (x : gathered * Z) : Prop :=
  (x.2 <> 0 -> (query_request (gq_query x.1), x.2) ∈ held) /\ (is_lookup x = false -> x.2 <> 0).

(** [held] covers the answers [xs], the found values [fs] and the inserted ones [es]. *)
Record covers (held : list (request * Z)) (xs : list (gathered * Z)) (fs es : list Z) : Prop := {
  cv_answers : Forall (answer_held held) xs;
  cv_found : forall v, occurs v (found_values xs ++ fs) <= count_held (found v) held;
  cv_inserted : forall v, occurs v (es ++ written_values xs) <= count_held (wrote v) held
}.

(** The values that [writeiov] refers to. *)
Definition iov_values (iovs : list (list iovec)) : list Z := omap iov_value (concat iovs).

(** The answers of the batch. *)
Definition answers (c : worker) : list (gathered * Z) := zip (g_queries (wk_gather c)) (wk_values c).

(** How many requests of the batch have been handled. *)
Definition handled (c : worker) : nat :=
  match wk_stage c with
  | Gathering | Querying _ => 0
  | Handling k | Marking _ k => Z.to_nat k
  | Writing _ | Sending _ _ _ _ => length (g_queries (wk_gather c))
  end.

(** What is prepared for place [i] and not written. *)
Definition unsent (c : worker) (i : nat) : list iovec :=
  match wk_stage c with
  | Sending j _ cont _ =>
      if decide (i = Z.to_nat j) then match cont with Some (iovs, _) => iovs | None => [] end
      else default [] (wk_iovs c !! i)
  | _ => default [] (wk_iovs c !! i)
  end.

Definition no_iovs (c : worker) : Prop := wk_iovs c = replicate 128 [].

(** The call of a thread in [doqueries]. *)
Definition in_call (c : worker) (b : lbatch) (o : option lcall) : Prop :=
  o = None \/ exists e cl, g_queries (wk_gather c) !! Z.to_nat (lb_k b) = Some e /\ o = Some cl /\
    lc_op cl = table_op (gq_query e) /\ proper (lc_phase cl).

Definition serving (h : heap) (o : option lcall) (held : list (request * Z)) (c : worker) : Prop :=
  match wk_stage c with
  | Gathering => o = None /\ no_iovs c
  | Querying b => no_iovs c /\ 0 <= lb_k b <= nqueries (wk_gather c) /\
      Z.of_nat (length (lb_values b)) = batch_size /\ in_call c b o /\
      covers held (take (Z.to_nat (lb_k b)) (zip (g_queries (wk_gather c)) (lb_values b))) [] []
  | Handling k => o = None /\ 0 <= k <= nqueries (wk_gather c) /\
      covers held (drop (Z.to_nat k) (answers c)) (iov_values (wk_iovs c)) []
  | Marking v k => o = None /\ 0 <= k <= nqueries (wk_gather c) /\
      covers held (drop (Z.to_nat k) (answers c)) (iov_values (wk_iovs c)) [v] /\
      exists el, h !! elem_of_ptr v = Some el /\ good el
  | Writing i => o = None /\ 0 <= i <= 128 /\ (forall j, (j < Z.to_nat i)%nat -> wk_iovs c !! j = Some []) /\
      covers held [] (iov_values (wk_iovs c)) []
  | Sending i todo cont r => o = None /\ 0 <= i < 128 /\
      (forall j, (j < Z.to_nat i)%nat -> wk_iovs c !! j = Some []) /\
      (forall v iovs base, cont = Some (v :: iovs, base) -> base = iov_value v) /\
      covers held [] (todo ++ match cont with Some (iovs, base) => Reply.kept iovs base | None => [] end ++
                      iov_values (<[Z.to_nat i := []]> (wk_iovs c))) []
  end.

(** Of the connection at a place, [old] are the queries of the batches before, [now] those since,
    [ds] the replies that were prepared, and [fd] the descriptor; [ss] is the batch with the
    places. *)
Record worker_ok (h : heap) (o : option lcall) (held : list (request * Z)) (t : nat) (c : worker)
    (old now : Z -> list client_query) (ss : list (Z * gathered)) (ds : Z -> list (list Z)) (fd : Z -> Z) : Prop := {
  wo_queries : forall i, qs t i = old i ++ now i;
  wo_gather : delivering batch_size fd now seen (-1) (wk_gather c) ss;
  wo_values : Z.of_nat (length (wk_values c)) = batch_size;
  wo_iovs : length (wk_iovs c) = 128%nat;
  wo_out : length (wk_out c) = 128%nat;
  wo_right : forall i, 0 <= i < 128 -> Forall2 right_reply (take (length (ds i)) (lookups (qs t i))) (ds i);
  wo_open : forall i s, sockets (g_cd (wk_gather c)) !! i = Some s -> s <> -1 ->
    length (ds (Z.of_nat i)) = (length (lookups (old (Z.of_nat i))) +
      length (batch_lookups (g_valuebuf (wk_gather c)) (Z.of_nat i) (take (handled c) ss)))%nat;
  wo_room : forall i l, wk_iovs c !! i = Some l -> (length l <= handled c)%nat;
  wo_sent : forall i s, wk_out c !! i = Some s -> exists bs, iovs_bytes h (unsent c i) = Ok bs /\
    (so_failed s = true \/ so_sent s ++ bs = concat (value_bytes <$> ds (Z.of_nat i)));
  wo_stage : serving h o held c;
  wo_descr : forall i, fd i <> -1;
  wo_closed : forall i l, sockets (g_cd (wk_gather c)) !! i = Some (-1) -> wk_iovs c !! i = Some l -> l = [];
  wo_writing : forall i todo cont r, wk_stage c = Sending i todo cont r -> wk_iovs c !! Z.to_nat i <> Some [];
  wo_cd : cd_ok (g_cd (wk_gather c))
}.

Definition worker_inv (h : heap) (o : option lcall) (held : list (request * Z)) (t : nat) (c : worker) : Prop :=
  exists old now ss ds fd, worker_ok h o held t c old now ss ds fd.

Definition sv_heap (sv : server) : heap := hp (lmem (sv_state sv)).

Record server_inv (k : Z) (sv : server) (held : list (list (request * Z))) (owns : list ownership) : Prop := {
  sv_world : lworld_inv h0 n ms ev k (LWorld (sv_state sv) held) owns;
  sv_ready : ready_good good owns (sv_heap sv);
  sv_threads : forall t c, sv_workers sv !! t = Some c -> exists o l,
    calls (sv_state sv) !! t = Some o /\ held !! t = Some l /\ worker_inv (sv_heap sv) o l t c
}.

(** ** What other threads leave alone *)
Lemma covers_found held xs fs es v :
  covers held xs fs es -> v ∈ found_values xs ++ fs -> exists key, (Lookup key, v) ∈ held.
Proof.
  intros Hc Hv. apply count_found_in. apply occurs_pos in Hv. pose proof (cv_found _ _ _ _ Hc v). lia.
Qed.

Lemma covers_inserted held xs fs es v :
  covers held xs fs es -> v ∈ es ++ written_values xs -> exists key sz, (Insert key sz, v) ∈ held.
Proof.
  intros Hc Hv. apply count_wrote_in. apply occurs_pos in Hv. pose proof (cv_inserted _ _ _ _ Hc v). lia.
Qed.

Lemma iov_values_at iovs i l v : iovs !! i = Some l -> v ∈ omap iov_value l -> v ∈ iov_values iovs.
Proof.
  intros Hl Hv. unfold iov_values. apply list_elem_of_omap in Hv as (x & Hx & Hv). apply list_elem_of_omap.
  exists x. split; [|done]. apply elem_of_concat. by exists i, l.
Qed.

Lemma unsent_held h o held c i v :
  serving h o held c -> v ∈ omap iov_value (unsent c i) -> exists key, (Lookup key, v) ∈ held.
Proof.
  intros Hs Hv. unfold serving, unsent in *.
  assert (forall xs fs es, covers held xs fs es -> (forall v, v ∈ iov_values (wk_iovs c) -> v ∈ fs) ->
    v ∈ omap iov_value (default [] (wk_iovs c !! i)) -> exists key, (Lookup key, v) ∈ held) as Hplain.
  { intros xs fs es Hc Hfs Hin. apply (covers_found held xs fs es v Hc). apply elem_of_app. right. apply Hfs.
    destruct (wk_iovs c !! i) as [l|] eqn:Hl; [|by apply elem_of_nil in Hin].
    by apply (iov_values_at (wk_iovs c) i l). }
  assert (no_iovs c -> v ∈ omap iov_value (default [] (wk_iovs c !! i)) -> False) as Hnone.
  { intros Hno Hin. rewrite Hno in Hin. destruct (replicate 128 [] !! i) as [l|] eqn:Hl; [|by apply elem_of_nil in Hin].
    apply lookup_replicate in Hl as [-> _]. by apply elem_of_nil in Hin. }
  destruct (wk_stage c) as [|b|k|val k|j|j todo cont r].
  - by destruct (Hnone (proj2 Hs) Hv).
  - by destruct (Hnone (proj1 Hs) Hv).
  - destruct Hs as (_ & _ & Hc). by apply (Hplain _ _ _ Hc).
  - destruct Hs as (_ & _ & Hc & _). by apply (Hplain _ _ _ Hc).
  - destruct Hs as (_ & _ & _ & Hc). by apply (Hplain _ _ _ Hc).
  - destruct Hs as (_ & Hj & _ & Hbase & Hc). apply (covers_found _ _ _ _ v Hc). rewrite !elem_of_app. right.
    destruct (decide (i = Z.to_nat j)) as [->|Hne].
    + right. left. destruct cont as [[[|iov iovs] base]|]; try by apply elem_of_nil in Hv.
      by rewrite (Hbase iov iovs base eq_refl), kept_all.
    + right. right. destruct (wk_iovs c !! i) as [l|] eqn:Hl; [|by apply elem_of_nil in Hv].
      apply (iov_values_at _ i l); [|done]. by rewrite list_lookup_insert_ne by done.
Qed.

Lemma iovs_bytes_kept h h' iovs :
  (forall v, v ∈ omap iov_value iovs -> Holders.kept h h' (elem_of_ptr v)) -> iovs_bytes h' iovs = iovs_bytes h iovs.
Proof.
  induction iovs as [|iov iovs IH]; intros Hk; [done|]. cbn [iovs_bytes].
  assert (iov_bytes h' iov = iov_bytes h iov) as ->.
  { unfold iov_bytes. destruct (iov_value iov) as [v|] eqn:Hv; [|done].
    destruct (Hk v) as (el & rc & Hel & Hel').
    { apply list_elem_of_omap. exists iov. split; [left|done]. }
    rewrite Hel, Hel'. done. }
  rewrite IH; [done|]. intros v Hv. apply Hk. apply list_elem_of_omap in Hv as (x & Hx & Hv).
  apply list_elem_of_omap. exists x. split; [by right|done].
Qed.

Lemma worker_kept h h' o held t c :
  (forall v, v ∈ held.*2 -> Holders.kept h h' (elem_of_ptr v)) -> worker_inv h o held t c -> worker_inv h' o held t c.
Proof.
  intros Hk (old & now & ss & ds & fd & [Hq Hg Hv Hi Ho Hr Hop Hroom Hs Hst]). exists old, now, ss, ds, fd.
  split; try done.
  - intros i s Hi2. destruct (Hs i s Hi2) as (bs & Hbs & Hsent). exists bs. split; [|done].
    rewrite (iovs_bytes_kept h h'); [done|]. intros v Hv2. destruct (unsent_held _ _ _ _ _ _ Hst Hv2) as [key Hin].
    apply Hk, list_elem_of_fmap. by exists (Lookup key, v).
  - unfold serving in *. destruct (wk_stage c) as [| | |val k| |]; try done.
    destruct Hst as (-> & Hkr & Hc & el & Hel & Hgood). split; [done|]. split; [done|]. split; [done|].
    destruct (covers_inserted _ _ _ _ val Hc) as (key & sz & Hin); [left|].
    destruct (Hk val) as (el1 & rc & H1 & H2); [apply list_elem_of_fmap; by exists (Insert key sz, val)|].
    rewrite Hel in H1. injection H1 as <-. exists (set_ref_count rc el). split; [done|]. by apply good_contents.
Qed.

(** Resetting the statistics changes nothing of this. *)
Lemma reset_world k st held owns t :
  lworld_inv h0 n ms ev k (LWorld st held) owns -> stats_reset (set_partitions (parts st) ht) = Ok t ->
  lworld_inv h0 n ms ev k (LWorld (LState (partitions t) (lmem st) (calls st)) held) owns.
Proof.
  intros Hinv Ht. pose proof (lwi_table _ _ _ _ _ _ _ Hinv) as Htab. pose proof (lv_n _ _ _ _ _ _ _ Htab) as Hlen.
  rewrite reset_all in Ht by (simpl in *; lia). apply Ok_inj in Ht as <-. simpl.
  destruct Hinv as [[[Hl Hp Ha Ho Hi] Hpn Hlk Hcs] Hlh Hnz Hf Hh Hsh Hans]. simpl in *. split; try done.
  split; simpl; [|by rewrite length_fmap| |done].
  - split; simpl; try done; [by rewrite length_fmap|].
    intros s p own Hps Hown. rewrite list_lookup_fmap in Hps. apply fmap_Some in Hps as (p0 & Hp0 & ->).
    destruct (Hp s p0 own Hp0 Hown) as ([Hwf Hm Hh2] & H1 & H2). split; [|done]. split; [by apply part_wf_stats|exact Hm|exact Hh2].
  - intros s p Hps. rewrite list_lookup_fmap in Hps. apply fmap_Some in Hps as (p0 & Hp0 & ->). exact (Hlk s p0 Hp0).
Qed.

(** ** One thread acts *)
Section step.
Context (k : Z) (sv : server) (held : list (list (request * Z))) (owns : list ownership).
Context (Hk : 0 <= k < 2 ^ 62) (Hinv : server_inv k sv held owns).
Context (t : nat) (c : worker) (Hc : sv_workers sv !! t = Some c).
Context (o : option lcall) (l : list (request * Z)).
Context (Ho : calls (sv_state sv) !! t = Some o) (Hl : held !! t = Some l).

Definition world : lworld := LWorld (sv_state sv) held.

Lemma held_nonzero i li v : held !! i = Some li -> v ∈ li.*2 -> v <> 0.
Proof.
  intros Hi Hv. apply list_elem_of_fmap in Hv as (x & -> & Hx).
  apply (lwi_held _ _ _ _ _ _ _ (sv_world _ _ _ _ Hinv) li); [by eapply list_elem_of_lookup_2|done].
Qed.

(** Thread [t] makes an action of the program; [f] is what becomes of the values it holds. *)
Lemma thread_acts a st' acs c' f :
  lallowed ms world a -> writes_own world a ->
  lworld_act spins n a world = Some (Ok (LWorld st' (change_held t f held))) ->
  (forall e el, marks a e -> sv_heap sv !! e = Some el -> good el) ->
  (forall t' ptr bs, a = LWrite t' ptr bs -> t' = t) ->
  (forall i, i <> t -> calls st' !! i = calls (sv_state sv) !! i) ->
  ((forall v, v ∈ l.*2 -> v ∈ (f l).*2 -> (forall t' bs, a <> LWrite t' v bs) ->
      Holders.kept (sv_heap sv) (hp (lmem st')) (elem_of_ptr v)) ->
    exists o', calls st' !! t = Some o' /\ worker_inv (hp (lmem st')) o' (f l) t c') ->
  exists held' owns', server_inv (k + 1) (Server st' acs (<[t := c']> (sv_workers sv))) held' owns'.
Proof.
  intros Ha Hwo Hact Hmk Hwt Hcalls Hown. pose proof (sv_world _ _ _ _ Hinv) as Hw.
  pose proof (lstep_ok h0 n ms ev spins Hn Hms k world a owns Hk Hw Ha) as Hok. rewrite Hact in Hok.
  destruct Hok as (owns' & Hw' & _ & Hcar). exists (change_held t f held), owns'.
  assert (change_held t f held !! t = Some (f l)) as Hlt.
  { unfold change_held. by rewrite list_lookup_alter_eq, Hl. }
  split; [exact Hw'| |].
  - apply (Hcar Hwo good good_contents (sv_ready _ _ _ _ Hinv)). exact Hmk.
  - intros i ci Hi. simpl in Hi |- *. apply list_lookup_insert_Some in Hi as [(<- & <- & _)|[Hne Hi]].
    + destruct Hown as (o' & Ho' & Hwk).
      { intros v Hv Hv' Hnw. apply (step_keeps h0 n ms ev spins Hn Hms k world a _ owns t l t (f l) v Hk Hw Ha Hact); done. }
      by exists o', (f l).
    + destruct (sv_threads _ _ _ _ Hinv i ci Hi) as (oi & li & Hoi & Hli & Hwk). exists oi, li.
      rewrite Hcalls by done. split; [done|].
      assert (change_held t f held !! i = Some li) as Hli'.
      { unfold change_held. by rewrite list_lookup_alter_ne. }
      split; [done|]. apply (worker_kept (sv_heap sv)); [|done]. intros v Hv.
      apply (step_keeps h0 n ms ev spins Hn Hms k world a _ owns i li i li v Hk Hw Ha Hact); try done.
      intros t' bs ->. pose proof (Hwt t' v bs eq_refl) as ->. simpl in Hwo. unfold held_by in Hwo. simpl in Hwo.
      rewrite Hl in Hwo. simpl in Hwo. apply existsb_exists in Hwo as ([r v'] & Hx & Hr). apply list_elem_of_In in Hx.
      unfold wrote in Hr. simpl in Hr. destruct r as [|key sz|]; try done. apply Z.eqb_eq in Hr as ->.
      pose proof (insert_alone h0 n ms ev k world owns Hw t l key sz v i li Hl Hx Hli) as Halone.
      rewrite decide_False in Halone by done. apply occurs_pos in Hv. lia.
Qed.

(** Nothing happens to the table, or only to its statistics. *)
Lemma thread_idles ps acs c' :
  lworld_inv h0 n ms ev k (LWorld (LState ps (lmem (sv_state sv)) (calls (sv_state sv))) held) owns ->
  worker_inv (sv_heap sv) o l t c' ->
  exists held' owns', server_inv (k + 1)
    (Server (LState ps (lmem (sv_state sv)) (calls (sv_state sv))) acs (<[t := c']> (sv_workers sv))) held' owns'.
Proof.
  intros Hw Hown. exists held, owns. split; simpl.
  - by apply lworld_more.
  - exact (sv_ready _ _ _ _ Hinv).
  - intros i ci Hi. apply list_lookup_insert_Some in Hi as [(<- & <- & _)|[Hne Hi]]; [by exists o, l|].
    exact (sv_threads _ _ _ _ Hinv i ci Hi).
Qed.

Lemma same_state acs c' :
  worker_inv (sv_heap sv) o l t c' ->
  exists held' owns', server_inv (k + 1) (Server (sv_state sv) acs (<[t := c']> (sv_workers sv))) held' owns'.
Proof.
  intros Hown. destruct (thread_idles (parts (sv_state sv)) acs c') as (held' & owns' & Hq); [|done|].
  - pose proof (sv_world _ _ _ _ Hinv) as Hw. by destruct (sv_state sv).
  - exists held', owns'. by destruct (sv_state sv).
Qed.

(** The thread is about to fill in the value of an insertion that does not fit the block which
    the allocator gave. *)
Definition fills_past : Prop :=
  exists kk e v el, wk_stage c = Handling kk /\ g_queries (wk_gather c) !! Z.to_nat kk = Some e /\
    q_optype (gq_query e) = optype_code OPTYPE_INSERT /\ wk_values c !! Z.to_nat kk = Some v /\
    sv_heap sv !! elem_of_ptr v = Some el /\ Z.of_nat (length (value el)) < q_size (gq_query e).

(** What a thread may fail with: it fills a value in past the end of its block, it waits for the
    other end of a connection to take more, it finds no victim, or there is no memory for an
    insertion. *)
Definition may_fail_here (f : fault) : Prop :=
  match f with
  | Undefined => fills_past
  | Blocked => (ev = EVICT_RANDOM /\ exists b, wk_stage c = Querying b) \/
      exists i todo cont r s, wk_stage c = Sending i todo cont r /\ wk_out c !! Z.to_nat i = Some s /\ so_accepts s = []
  | AssertFailed => exists b e, wk_stage c = Querying b /\ e ∈ g_queries (wk_gather c) /\
      q_optype (gq_query e) = optype_code OPTYPE_INSERT /\ elem_size (q_size (gq_query e)) <= ms /\
      refused (base.size (sv_heap sv)) (q_size (gq_query e))
  end.

(** The outcome of an action. *)
Definition act_ok (r : result (lstate * Z * worker)) : Prop :=
  match r with
  | Ok (st', acs, c') => exists held' owns', server_inv (k + 1) (Server st' acs (<[t := c']> (sv_workers sv))) held' owns'
  | Fault f => may_fail_here f
  end.

Context (old now : Z -> list client_query) (ss : list (Z * gathered)) (ds : Z -> list (list Z)) (fd : Z -> Z).
Context (Hw : worker_ok (sv_heap sv) o l t c old now ss ds fd).

Lemma now_seen i q : q ∈ now i -> seen (server_view q).
Proof.
  intros Hq. exists q. split; [|done]. apply (Hqs t i). rewrite (wo_queries _ _ _ _ _ _ _ _ _ _ Hw).
  apply elem_of_app. by right.
Qed.

Lemma delivering_acs acs : delivering batch_size fd now seen (-1) (with_acs acs (wk_gather c)) ss.
Proof. destruct (wo_gather _ _ _ _ _ _ _ _ _ _ Hw). by split. Qed.

Lemma covers_nothing : covers l [] [] [].
Proof.
  split; [constructor| |]; intros v; simpl; apply zsum_nonneg; intros x _; by case_match.
Qed.

(** ** The first loop *)
Lemma gather_ok acs : wk_stage c = Gathering -> act_ok (clientgo spins ht batch_size verbose t (sv_state sv) acs c).
Proof.
  intros Hs. unfold clientgo, gather_act. rewrite Hs.
  destruct (gather_safe batch_size verbose fd now seen now_seen (-1) ltac:(done) _ ss (delivering_acs acs))
    as (stop & g' & es & Hg & Hd).
  rewrite Hg. cbn [mbind result_bind].
  pose proof (sv_world _ _ _ _ Hinv) as Hwd. pose proof (lv_n _ _ _ _ _ _ _ (lwi_table _ _ _ _ _ _ _ Hwd)) as Hlen.
  assert (exists ps, (if g_resets g' =? g_resets (wk_gather c) then mret (parts (sv_state sv))
      else t0 ← stats_reset (set_partitions (parts (sv_state sv)) ht); mret (partitions t0)) = Ok ps /\
    lworld_inv h0 n ms ev k (LWorld (LState ps (lmem (sv_state sv)) (calls (sv_state sv))) held) owns) as (ps & -> & Hwd').
  { case_match; [exists (parts (sv_state sv)); split; [done|by destruct (sv_state sv)]|].
    simpl in Hlen. assert (Z.of_nat (length (partitions (set_partitions (parts (sv_state sv)) ht))) =
      ht_nservers (set_partitions (parts (sv_state sv)) ht)) as Hr by (simpl; lia).
    pose proof (reset_all _ Hr) as Hreset. rewrite Hreset. cbn [mbind result_bind]. eexists. split; [done|].
    by apply (reset_world k _ _ _ _ Hwd Hreset). }
  cbn [mbind result_bind mret result_ret act_ok]. apply thread_idles; [done|].
  destruct Hw as [Hq Hdl Hv Hi Hout Hr Hop Hroom Hsent Hst Hde Hcl Hwr Hcd].
  pose proof (proj1 (dl_i _ _ _ _ _ _ _ Hdl)) as Hi0. unfold serving in Hst. rewrite Hs in Hst.
  destruct Hst as [-> Hno]. exists old, now, (ss ++ es), ds, fd.
  assert (handled c = 0%nat) as Hh0 by (unfold handled; by rewrite Hs). rewrite Hh0 in *.
  assert (forall x, handled (at_stage (if stop then Querying x else Gathering) (with_gather g' c)) = 0%nat) as Hh
    by (intros x; by destruct stop).
  split; try done; rewrite ?Hh; simpl; try done.
  - intros i s Hi2 Hne.
    specialize (Hop i s (gather_closes batch_size verbose _ _ _ _ _ Hg Hi2 Hne) Hne). exact Hop.
  - intros i s Hi2. destruct (Hsent i s Hi2) as (bs & Hbs & H). exists bs. split; [|done].
    rewrite <- Hbs. unfold unsent. rewrite Hs. by destruct stop.
  - unfold serving. destruct stop; simpl; [|done]. split; [done|]. split; [unfold nqueries; lia|]. split; [lia|].
    split; [by left|]. apply covers_nothing.
  - intros i l0 _ Hi2. rewrite Hno in Hi2. by apply lookup_replicate in Hi2 as [-> _].
  - by destruct stop.
  - by apply (gather_cd_ok batch_size verbose (with_acs acs (wk_gather c)) stop).
Qed.

(** ** The requests of the batch *)
Lemma entry_query x : x ∈ ss -> exists q, sent q /\ entry_view (g_valuebuf (wk_gather c)) x.2 = server_view q.
Proof.
  intros Hx. pose proof (dl_sent _ _ _ _ _ _ _ (wo_gather _ _ _ _ _ _ _ _ _ _ Hw)) as Hs.
  rewrite Forall_forall in Hs. exact (Hs x Hx).
Qed.

(** A gathered request, as the table sees it. *)
Definition request_shape (e : gathered) : Prop :=
  let q := gq_query e in
  (q_optype q = optype_code OPTYPE_LOOKUP /\ table_op q = LLookup (q_key q) /\ query_request q = Lookup (q_key q) /\
   exists sid sock, gq_place e = ReplyTo sid sock) \/
  (q_optype q = optype_code OPTYPE_INSERT /\ table_op q = LInsert (q_key q) (q_size q) /\
   query_request q = Insert (q_key q) (q_size q) /\ (exists off, gq_place e = ValueAt off) /\
   0 <= q_size q < 2 ^ 31 /\ elem_size (q_size q) <= ms /\
   inserted (q_key q) (entry_view (g_valuebuf (wk_gather c)) e).2 /\
   Z.of_nat (length (entry_view (g_valuebuf (wk_gather c)) e).2) < 2 ^ 32).

Lemma entry_shape e : e ∈ g_queries (wk_gather c) -> request_shape e.
Proof.
  intros He. pose proof (wo_gather _ _ _ _ _ _ _ _ _ _ Hw) as Hd. rewrite <- (dl_entries _ _ _ _ _ _ _ Hd) in He.
  apply list_elem_of_fmap in He as (x & -> & Hx). destruct (entry_query x Hx) as (q & Hq & Hview).
  pose proof (dl_src _ _ _ _ _ _ _ Hd) as Hsrc. rewrite Forall_forall in Hsrc. destruct (Hsrc x Hx) as [Hok _].
  destruct (Hfits q Hq) as [[Hqok Hqs2] Hfit]. destruct (query_header_ok q Hqok) as [Hh _].
  pose proof (f_equal snd Hview) as Hdata. unfold entry_ok, entry_view in Hok, Hview. unfold request_shape.
  destruct (gq_place x.2) as [sid sock|off] eqn:Hpl.
  - left. split; [done|]. unfold table_op, query_request. rewrite Hok. simpl. eauto.
  - right. destruct Hok as (Hopt & Hoff & Hsz & Hbuf). split; [done|]. unfold table_op, query_request. rewrite Hopt. simpl.
    split; [done|]. split; [done|]. split; [by eexists|]. unfold MAX_VALUE_SIZE in Hsz. split; [lia|].
    unfold server_view in Hview. rewrite Hh in Hview. injection Hview as Hop Hs Hkey Hv.
    assert (cq_optype q = OPTYPE_INSERT) as Hins by (rewrite Hopt in Hop; by destruct (cq_optype q)).
    rewrite Hins in Hs. split; [replace (q_size (gq_query x.2)) with (cq_size q + 4) by lia; by apply Hfit|].
    rewrite Hdata. split.
    + exists q. rewrite Hkey. done.
    + unfold MAX_VALUE_SIZE in Hqs2. lia.
Qed.

Lemma is_lookup_shape e v : request_shape e ->
  is_lookup (e, v) = match gq_place e with ReplyTo _ _ => true | ValueAt _ => false end.
Proof.
  unfold is_lookup. simpl. intros [(-> & _ & _ & sid & sock & ->)|(-> & _ & _ & (off & ->) & _)]; done.
Qed.

(** ** [doqueries] *)
Lemma answer_more held1 held2 x : answer_held held1 x -> answer_held (held1 ++ held2) x.
Proof. intros [H1 H2]. split; [|done]. intros Hv. apply elem_of_app. left. by apply H1. Qed.

(** The answer of a call is one more that the hand covers. *)
Lemma covers_answer xs e v :
  request_shape e -> (q_optype (gq_query e) = optype_code OPTYPE_INSERT -> v <> 0) -> covers l xs [] [] ->
  covers (l ++ taken (table_op (gq_query e)) (Some v)) (xs ++ [(e, v)]) [] [].
Proof.
  intros Hsh Hv [Ha Hf Hi]. unfold taken. rewrite request_of_op. split.
  - apply Forall_app. split; [eapply Forall_impl; [exact Ha|]; intros x; apply answer_more|].
    constructor; [|done]. split; simpl.
    + intros Hne. rewrite (proj2 (Z.eqb_neq _ _) Hne). apply elem_of_app. right. left.
    + intros Hlk. apply Hv. unfold is_lookup in Hlk. simpl in Hlk. destruct Hsh as [(Hop & _)|(Hop & _)]; [|done].
      by rewrite Hop in Hlk.
  - intros a. specialize (Hf a). rewrite app_nil_r in *. unfold found_values in *. rewrite omap_app, count_held_app.
    rewrite occurs_app. enough (occurs a (omap (fun x => if is_lookup x && negb (x.2 =? 0) then Some x.2 else None) [(e, v)]) <=
      count_held (found a) (if v =? 0 then [] else [(query_request (gq_query e), v)])) by lia.
    unfold is_lookup, found. simpl. destruct Hsh as [(Hop & _ & Hr & _)|(Hop & _ & Hr & _)]; rewrite Hop, Hr; simpl.
    + destruct (v =? 0); simpl; [done|]. unfold occurs, count_held. autorewrite with smp. simpl. lia.
    + apply zsum_nonneg. intros x _. by case_match.
  - intros a. specialize (Hi a). simpl in *. unfold written_values in *. rewrite omap_app, count_held_app, occurs_app.
    enough (occurs a (omap (fun x => if is_lookup x then None else Some x.2) [(e, v)]) <=
      count_held (wrote a) (if v =? 0 then [] else [(query_request (gq_query e), v)])) by lia.
    unfold is_lookup, wrote. simpl. destruct Hsh as [(Hop & _ & Hr & _)|(Hop & _ & Hr & _)]; rewrite Hop, Hr; simpl.
    + apply zsum_nonneg. intros x _. by case_match.
    + rewrite (proj2 (Z.eqb_neq _ _) (Hv Hop)). unfold occurs, count_held. autorewrite with smp. simpl. lia.
Qed.

Lemma zip_answer (es : list gathered) (vs : list Z) (i : nat) e v :
  es !! i = Some e -> (i < length vs)%nat ->
  take (S i) (zip es (<[i := v]> vs)) = take i (zip es vs) ++ [(e, v)].
Proof.
  intros He Hi. rewrite (take_S_r _ i (e, v)).
  - f_equal. rewrite !zip_with_take. by rewrite take_insert_ge.
  - apply lookup_zip_with_Some. exists e, v. by rewrite list_lookup_insert_eq.
Qed.

(** The next query is put to the table. *)
Lemma call_begins acs b :
  wk_stage c = Querying b -> o = None -> lb_k b < nqueries (wk_gather c) ->
  act_ok (clientgo spins ht batch_size verbose t (sv_state sv) acs c).
Proof.
  intros Hs Ho2 Hlt. pose proof (wo_stage _ _ _ _ _ _ _ _ _ _ Hw) as Hst. unfold serving in Hst. rewrite Hs in Hst.
  destruct Hst as (Hno & Hb & Hlen & _ & Hcov).
  destruct (lookup_lt_is_Some_2 (g_queries (wk_gather c)) (Z.to_nat (lb_k b))) as [e He]; [unfold nqueries in *; lia|].
  unfold clientgo, query_act, lbatch_act. rewrite Hs, Ho, Ho2. cbn [deref mbind result_bind].
  rewrite length_fmap. change (Z.of_nat (length (g_queries (wk_gather c)))) with (nqueries (wk_gather c)).
  rewrite (proj2 (Z.leb_gt _ _)) by done.
  assert (aget (gq_query <$> g_queries (wk_gather c)) (lb_k b) = Ok (gq_query e)) as ->
    by (apply aget_Ok; split; [lia|by rewrite list_lookup_fmap, He]).
  cbn [mbind result_bind mret result_ret act_ok].
  pose proof (entry_shape e ltac:(by eapply list_elem_of_lookup_2)) as Hsh.
  apply (thread_acts (LBegin t (table_op (gq_query e))) _ acs _ (fun l => l)); try done.
  - simpl. destruct Hsh as [(_ & -> & _)|(_ & -> & _ & _ & H1 & H2 & _)]; simpl; done.
  - unfold change_held. rewrite list_alter_id by done. cbn [lworld_act world lw_state]. rewrite Ho, Ho2. simpl.
    by rewrite Hht, query_call_op.
  - intros i Hi. simpl. by apply list_lookup_insert_ne.
  - intros _. exists (Some (query_call (ht_nservers ht) (gq_query e))). simpl.
    rewrite list_lookup_insert_eq by (by eapply lookup_lt_Some). split; [done|].
    exists old, now, ss, ds, fd. destruct Hw as [Hq Hg Hv Hi Hout Hr Hop Hroom Hsent Hst]. split; try done.
    + unfold handled in *. rewrite Hs in *. exact Hop.
    + unfold handled in *. rewrite Hs in *. exact Hroom.
    + unfold unsent in *. rewrite Hs in *. exact Hsent.
    + unfold serving. simpl. split; [done|]. split; [done|]. split; [done|]. split; [|done].
      right. exists e. eexists. split; [done|]. split; [done|]. rewrite query_call_op. split; [by destruct (table_op _)|].
      by destruct (table_op _); intros ?.
Qed.

(** The last query has been answered. *)
Lemma batch_ends acs b :
  wk_stage c = Querying b -> o = None -> nqueries (wk_gather c) <= lb_k b ->
  act_ok (clientgo spins ht batch_size verbose t (sv_state sv) acs c).
Proof.
  intros Hs Ho2 Hge. pose proof (wo_stage _ _ _ _ _ _ _ _ _ _ Hw) as Hst. unfold serving in Hst. rewrite Hs in Hst.
  destruct Hst as (Hno & Hb & Hlen & _ & Hcov).
  unfold clientgo, query_act, lbatch_act. rewrite Hs, Ho, Ho2. cbn [deref mbind result_bind].
  rewrite length_fmap. change (Z.of_nat (length (g_queries (wk_gather c)))) with (nqueries (wk_gather c)).
  rewrite (proj2 (Z.leb_le _ _)) by done. cbn [mbind result_bind mret result_ret act_ok].
  apply same_state. exists old, now, ss, ds, fd. destruct Hw as [Hq Hg Hv Hi Hout Hr Hop Hroom Hsent _].
  split; try done.
  - unfold handled in *. rewrite Hs in *. exact Hop.
  - unfold handled in *. rewrite Hs in *. exact Hroom.
  - unfold unsent in *. rewrite Hs in *. exact Hsent.
  - unfold serving. simpl. split; [done|]. split; [unfold nqueries; lia|].
    assert (wk_iovs c = replicate 128 []) as -> by done. change (iov_values (replicate 128 [])) with (@nil Z).
    change (answers (at_stage (Handling 0) (with_values (lb_values b) c))) with (zip (g_queries (wk_gather c)) (lb_values b)).
    rewrite take_ge in Hcov; [exact Hcov|]. rewrite length_zip_with. unfold nqueries in *. lia.
Qed.

(** After an action of a call. *)
Lemma call_kept b b' st' l' o' :
  wk_stage c = Querying b -> calls st' !! t = Some o' -> in_call (at_stage (Querying b') c) b' o' ->
  0 <= lb_k b' <= nqueries (wk_gather c) -> Z.of_nat (length (lb_values b')) = batch_size ->
  covers l' (take (Z.to_nat (lb_k b')) (zip (g_queries (wk_gather c)) (lb_values b'))) [] [] ->
  (forall v, v ∈ l.*2 -> Holders.kept (sv_heap sv) (hp (lmem st')) (elem_of_ptr v)) ->
  exists o', calls st' !! t = Some o' /\ worker_inv (hp (lmem st')) o' l' t (at_stage (Querying b') c).
Proof.
  intros Hs Ho' Hin Hrange Hlen Hcov Hkeep. destruct (Hw) as [Hq Hg Hv Hi Hout Hr Hop Hroom Hsent Hst].
  assert (handled (at_stage (Querying b') c) = handled c) as Hhd by (unfold handled; by rewrite Hs).
  assert (forall i, unsent (at_stage (Querying b') c) i = unsent c i) as Hun by (intros i; unfold unsent; by rewrite Hs).
  exists o'. split; [done|]. exists old, now, ss, ds, fd. split; rewrite ?Hhd; try done.
  - intros i s Hi2. rewrite Hun. destruct (Hsent i s Hi2) as (bs & Hbs & H). exists bs. split; [|done].
    rewrite (iovs_bytes_kept (sv_heap sv)); [done|]. intros v0 Hv0.
    destruct (unsent_held _ _ _ _ _ _ Hst Hv0) as [key Hkin].
    apply Hkeep, list_elem_of_fmap. by exists (Lookup key, v0).
  - unfold serving in *. rewrite Hs in Hst. simpl. split; [apply Hst|]. done.
Qed.

(** It may fail as the program of [LockingWorld] may. *)
Lemma call_fault b cl e f :
  wk_stage c = Querying b -> e ∈ g_queries (wk_gather c) -> request_shape e -> lc_op cl = table_op (gq_query e) ->
  may_fail ms ev (base.size (sv_heap sv)) (lc_op cl) f -> may_fail_here f.
Proof.
  intros Hs He Hsh Hop Hf. destruct f; simpl in Hf |- *; [|done|left; split; [done|by exists b]].
  destruct Hf as (key & sz & Hi & Hr). rewrite Hop in Hi. exists b, e. do 2 (split; [done|]).
  destruct Hsh as [(_ & Hto & _)|(Hopt & Hto & _ & _ & _ & Hsz & _)]; rewrite Hto in Hi; [done|].
  injection Hi as <- <-. split; [done|]. split; [done|]. destruct Hr as [Hr|Hr]; [exact Hr|lia].
Qed.

(** An action of a call. *)
Lemma call_goes_on acs b cl :
  wk_stage c = Querying b -> o = Some cl ->
  act_ok (clientgo spins ht batch_size verbose t (sv_state sv) acs c).
Proof.
  intros Hs Hcl. pose proof (wo_stage _ _ _ _ _ _ _ _ _ _ Hw) as Hst. unfold serving in Hst. rewrite Hs in Hst.
  destruct Hst as (Hno & Hb & Hlen & Hcall & Hcov). rewrite Hcl in Hcall. pose proof Ho as Hot. rewrite Hcl in Hot.
  destruct Hcall as [?|(e & cl' & He & [= <-] & Hop & Hproper)]; [done|].
  assert (e ∈ g_queries (wk_gather c)) as Hein by (by eapply list_elem_of_lookup_2). pose proof (entry_shape e Hein) as Hsh.
  pose proof (sv_world _ _ _ _ Hinv) as Hwd.
  pose proof (lstep_ok h0 n ms ev spins Hn Hms k world (LAct t) owns Hk Hwd I) as Hok.
  cbn [lworld_act] in Hok. change (lw_state world) with (sv_state sv) in Hok. rewrite Hot in Hok.
  unfold clientgo, query_act, lbatch_act. rewrite Hs, Hot. cbn [deref mbind result_bind].
  destruct (locking_step spins t (sv_state sv)) as [[st' v]|f] eqn:Hstep; cbn [mbind result_bind mret result_ret act_ok] in *.
  2: { destruct Hok as [(t' & c0 & [= <-] & Hc0 & Hf)|[_ []]]. change (lw_state world) with (sv_state sv) in Hc0.
       rewrite Hot in Hc0. injection Hc0 as <-. by apply (call_fault b cl e). }
  destruct (locking_step_calls spins (sv_state sv) t cl st' v Hot Hproper Hstep) as [Hoth Hmine].
  assert (lworld_act spins n (LAct t) world = Some (Ok (LWorld st' (change_held t (fun l => l ++ taken (lc_op cl) v) held))))
    as Hact by (cbn [lworld_act world lw_state]; by rewrite Hot, Hstep).
  assert (forall v0, v0 ∈ l.*2 -> v0 ∈ (l ++ taken (lc_op cl) v).*2) as Hmore
    by (intros v0 H; rewrite fmap_app; apply elem_of_app; by left).
  pose proof (wo_gather _ _ _ _ _ _ _ _ _ _ Hw) as Hg. pose proof (lookup_lt_Some _ _ _ He) as Hlt.
  pose proof (dl_count _ _ _ _ _ _ _ Hg) as Hcount. unfold nqueries in *.
  destruct v as [v|].
  - rewrite aset_in by lia. cbn [mbind result_bind mret result_ret act_ok].
    apply (thread_acts (LAct t) st' acs _ _ I I Hact); try done. intros Hkeep. destruct Hmine as (Hnone & x & Hph).
    apply (call_kept b _ _ _ None Hs Hnone); simpl; [by left|unfold nqueries; lia|by rewrite length_insert| |auto].
    replace (Z.to_nat (lb_k b + 1)) with (S (Z.to_nat (lb_k b))) by lia. rewrite (zip_answer _ _ _ e) by (done || lia).
    rewrite Hop. apply covers_answer; [done| |done]. intros Hins.
    pose proof (lwi_fits _ _ _ _ _ _ _ Hwd t cl Hot) as Hfit. unfold fits_call in Hfit. rewrite Hop in Hfit.
    destruct Hsh as [(Hl2 & _)|(_ & Hto & _)]; [by rewrite Hl2 in Hins|]. rewrite Hto in Hfit. by apply (proj2 Hfit x).
  - apply (thread_acts (LAct t) st' acs _ _ I I Hact); try done. intros Hkeep. destruct Hmine as (ph & Hph & Hpr).
    apply (call_kept b _ _ _ _ Hs Hph); try done; [|by rewrite app_nil_r|auto].
    right. exists e. eexists. split; [done|]. split; [done|]. done.
Qed.

Lemma querying_ok acs b : wk_stage c = Querying b -> act_ok (clientgo spins ht batch_size verbose t (sv_state sv) acs c).
Proof.
  intros Hs. pose proof call_goes_on as H1. pose proof call_begins as H2. pose proof batch_ends as H3.
  destruct o as [cl|]; [by apply (H1 acs b cl)|].
  destruct (Z.ltb_spec (lb_k b) (nqueries (wk_gather c))); [by apply (H2 acs b) | by apply (H3 acs b)].
Qed.

(** ** The third loop *)

(** What a batch took of place [i]. *)
Definition taken_from (i : Z) : nat := length (from i ss).

Lemma batch_views i s f :
  sockets (g_cd (wk_gather c)) !! i = Some s -> fins (g_cd (wk_gather c)) !! i = Some f ->
  exists todo, connection fd now (g_valuebuf (wk_gather c)) ss (Z.of_nat i) s f todo /\
    server_view <$> todo = server_view <$> drop (taken_from (Z.of_nat i)) (now (Z.of_nat i)) /\
    (entry_view (g_valuebuf (wk_gather c)) <$> from (Z.of_nat i) ss) =
      server_view <$> take (taken_from (Z.of_nat i)) (now (Z.of_nat i)).
Proof.
  intros Hs Hf. destruct (dl_conn _ _ _ _ _ _ _ (wo_gather _ _ _ _ _ _ _ _ _ _ Hw) i s f Hs Hf) as [todo Hconn].
  exists todo. split; [done|]. pose proof (cn_got _ _ _ _ _ _ _ _ Hconn) as Hgot.
  rewrite fmap_drop, fmap_take, <- Hgot. unfold taken_from.
  rewrite drop_app_length', take_app_length' by (by rewrite length_fmap). done.
Qed.

Lemma views_bytes (l1 l2 : list client_query) :
  server_view <$> l1 = server_view <$> l2 -> concat (request_bytes <$> l1) = concat (request_bytes <$> l2).
Proof.
  intros Hv. assert (forall l0 : list client_query, request_bytes <$> l0 =
    (fun x => query_bytes x.1 ++ x.2) <$> (server_view <$> l0)) as Hb.
  { intros l0. rewrite <- list_fmap_compose. by apply list_fmap_ext. }
  by rewrite !Hb, Hv.
Qed.

(** After a batch the connections go on where it stopped. *)
Lemma next_batch acs resets r :
  delivering batch_size fd (fun i => drop (taken_from i) (now i)) seen (-1)
    (gather_start (g_cd (wk_gather c)) acs resets r (g_last (wk_gather c))) [].
Proof.
  pose proof (wo_gather _ _ _ _ _ _ _ _ _ _ Hw) as Hd. split; simpl; try done.
  - apply Hd.
  - apply Hd.
  - apply Hd.
  - apply Hd.
  - unfold nqueries. simpl. lia.
  - intros i s f Hs Hf. destruct (batch_views i s f Hs Hf) as (todo & [He Hc2 Hsz Hgot Hfd] & Hv & _).
    pose proof (lookup_lt_Some _ _ _ Hs) as Hlt. rewrite (dl_sockets _ _ _ _ _ _ _ Hd) in Hlt.
    exists (drop (taken_from (Z.of_nat i)) (now (Z.of_nat i))). split; try done.
    + rewrite Hc2. by apply views_bytes.
    + apply Forall_forall. intros q Hq. apply Hfits, (Hqs t (Z.of_nat i)).
      rewrite (wo_queries _ _ _ _ _ _ _ _ _ _ Hw). apply elem_of_app. right.
      rewrite <- (take_drop (taken_from (Z.of_nat i)) (now (Z.of_nat i))). apply elem_of_app. by right.
    + destruct Hfd as [[-> ->]|Hfd]; [left; split; [done|]|by right].
      simpl in Hv. symmetry in Hv. by apply fmap_nil_inv in Hv.
Qed.

Lemma batch_done acs i :
  wk_stage c = Writing i -> 128 <= i -> act_ok (clientgo spins ht batch_size verbose t (sv_state sv) acs c).
Proof.
  intros Hs Hi. unfold clientgo, write_act. rewrite Hs. rewrite MAX_SOCKETS_val, (proj2 (Z.leb_le _ _)) by done.
  cbn [mbind result_bind mret result_ret act_ok]. apply same_state.
  destruct (Hw) as [Hq Hg Hv Hiv Hout Hr Hop Hroom Hsent Hst]. unfold serving in Hst. rewrite Hs in Hst.
  destruct Hst as (Ho2 & Hi2 & Hempty & _).
  assert (no_iovs c) as Hno.
  { apply list_eq. intros j. destruct (decide (j < 128)%nat) as [Hj|Hj].
    - rewrite Hempty by lia. symmetry. by apply lookup_replicate_2.
    - rewrite !lookup_ge_None_2; [done|rewrite length_replicate; lia|lia]. }
  exists (fun i => old i ++ take (taken_from i) (now i)), (fun i => drop (taken_from i) (now i)), [], ds, fd.
  split; simpl; try done.
  - intros j. rewrite <- app_assoc, take_drop. by apply Hq.
  - apply next_batch.
  - intros j s Hj Hne. specialize (Hop j s Hj Hne).
    destruct (lookup_lt_is_Some_2 (fins (g_cd (wk_gather c))) j) as [f Hf].
    { rewrite (dl_fins _ _ _ _ _ _ _ Hg), <- (dl_sockets _ _ _ _ _ _ _ Hg). by eapply lookup_lt_Some. }
    destruct (batch_views j s f Hj Hf) as (todo & _ & _ & Htaken).
    rewrite Hop. unfold handled. rewrite Hs, <- (dl_entries _ _ _ _ _ _ _ Hg), length_fmap, take_ge by done.
    unfold lookups, batch_lookups. rewrite fmap_app, omap_app, length_app, Htaken. simpl. lia.
  - intros j l0 Hj. rewrite Hno in Hj. apply lookup_replicate in Hj as [-> _]. simpl. lia.
  - intros j s Hj. destruct (Hsent j s Hj) as (bs & Hbs & H). exists bs. split; [|done].
    rewrite <- Hbs. unfold unsent. by rewrite Hs.
Qed.

Lemma occurs_omap_concat v (iovs : list (list iovec)) :
  occurs v (iov_values iovs) = zsum (fun l => occurs v (omap iov_value l)) iovs.
Proof.
  unfold iov_values. induction iovs as [|l0 iovs IH]; [done|]. cbn [concat]. by rewrite omap_app, occurs_app, IH.
Qed.

Lemma occurs_insert v (iovs : list (list iovec)) i l1 l2 :
  iovs !! i = Some l1 ->
  occurs v (iov_values (<[i := l2]> iovs)) =
    occurs v (iov_values iovs) - occurs v (omap iov_value l1) + occurs v (omap iov_value l2).
Proof.
  intros Hi. rewrite !occurs_omap_concat, (zsum_insert (fun l => occurs v (omap iov_value l)) _ _ _ _ Hi). lia.
Qed.

Lemma place_begins acs i :
  wk_stage c = Writing i -> i < 128 -> act_ok (clientgo spins ht batch_size verbose t (sv_state sv) acs c).
Proof.
  intros Hs Hi. unfold clientgo, write_act. rewrite Hs. rewrite MAX_SOCKETS_val, (proj2 (Z.leb_gt _ _)) by done.
  destruct (Hw) as [Hq Hg Hv Hiv Hout Hr Hop Hroom Hsent Hst]. unfold serving in Hst. rewrite Hs in Hst.
  destruct Hst as (Ho2 & Hi2 & Hempty & Hcov).
  destruct (lookup_lt_is_Some_2 (wk_iovs c) (Z.to_nat i)) as [l0 Hl0]; [lia|].
  assert (aget (wk_iovs c) i = Ok l0) as -> by (apply aget_Ok; split; [lia|done]).
  cbn [mbind result_bind mret result_ret act_ok]. apply same_state.
  assert (forall s', (s' = Writing (i + 1) \/ exists v rest, l0 = v :: rest /\ s' = Sending i [] (Some (l0, iov_value v)) 0) ->
    handled (at_stage s' c) = handled c /\ forall j, unsent (at_stage s' c) j = unsent c j) as Hsame.
  { intros s' Hs'. unfold handled, unsent. rewrite Hs. destruct Hs' as [->|(v & rest & -> & ->)]; [done|].
    split; [done|]. intros j. simpl. case_decide as Hj; [|done]. by rewrite Hj, Hl0. }
  exists old, now, ss, ds, fd.
  set (s' := match l0 with [] => Writing (i + 1) | v :: _ => Sending i [] (Some (l0, iov_value v)) 0 end).
  destruct (Hsame s') as [Hh Hu]; [unfold s'; destruct l0; [by left|right; eauto]|].
  split; try done; rewrite ?Hh; try done.
  - intros j s Hj. rewrite Hu. by apply Hsent.
  - unfold serving. unfold s'. destruct l0 as [|v rest]; simpl.
    + split; [done|]. split; [lia|]. split; [|done]. intros j Hj.
      destruct (decide (j = Z.to_nat i)) as [->|Hne]; [done|]. apply Hempty. lia.
    + split; [done|]. split; [lia|]. split; [done|]. split; [by intros ? ? ? [= <- _ <-]|].
      destruct Hcov as [Ha Hf Hin]. split; [done| |done]. intros x. specialize (Hf x). simpl in *.
      rewrite occurs_app, kept_all, (occurs_insert x _ _ _ _ Hl0). simpl. rewrite occurs_nil. lia.
  - intros j todo cont r. simpl. unfold s'. destruct l0 as [|v rest]; [done|]. intros [= <- _ _ _]. by rewrite Hl0.
Qed.

Lemma writing_ok acs i : wk_stage c = Writing i -> act_ok (clientgo spins ht batch_size verbose t (sv_state sv) acs c).
Proof. intros Hs. destruct (Z.ltb_spec i 128); [by apply (place_begins acs i) | by apply (batch_done acs i)]. Qed.

(** ** [write_iovs] *)

(** A value that is read-held can be released; what else is held stays. *)
Lemma release_allowed ptr fs :
  covers l [] (ptr :: fs) [] -> existsb (found ptr) l = true.
Proof.
  intros Hcov. apply count_exists. pose proof (cv_found _ _ _ _ Hcov ptr) as Hf. simpl in Hf.
  rewrite occurs_cons, Z.eqb_refl in Hf. pose proof (occurs_nonneg ptr fs). lia.
Qed.

Lemma covers_release ptr fs :
  covers l [] (ptr :: fs) [] -> covers (drop_one (found ptr) l) [] fs [].
Proof.
  intros Hcov. pose proof (release_allowed ptr fs Hcov) as Hex. destruct Hcov as [_ Hf _]. split; [constructor| |].
  - intros v. specialize (Hf v). simpl in *. rewrite occurs_cons in Hf. destruct (Z.eqb_spec ptr v) as [->|Hne].
    + rewrite count_drop by done. lia.
    + rewrite count_drop_other; [lia|]. intros [rq x]. unfold found. simpl. destruct rq; try done.
      intros ->%Z.eqb_eq. by apply Z.eqb_neq.
  - intros v. simpl. rewrite occurs_nil. apply zsum_nonneg. intros x _. by case_match.
Qed.

(** A value is released. *)
Lemma value_released acs i ptr todo cont r :
  wk_stage c = Sending i (ptr :: todo) cont r -> act_ok (clientgo spins ht batch_size verbose t (sv_state sv) acs c).
Proof.
  intros Hs. destruct (Hw) as [Hq Hg Hv Hiv Hout Hr Hop Hroom Hsent Hst]. pose proof Hst as Hst0.
  unfold serving in Hst. rewrite Hs in Hst. destruct Hst as (Ho2 & Hi2 & Hempty & Hbase & Hcov).
  rewrite <- app_comm_cons in Hcov. pose proof (release_allowed _ _ Hcov) as Hex.
  assert (lallowed ms world (LRelease t ptr)) as Ha.
  { simpl. unfold held_by. simpl. by rewrite Hl. }
  pose proof (sv_world _ _ _ _ Hinv) as Hwd.
  pose proof (lstep_ok h0 n ms ev spins Hn Hms k world (LRelease t ptr) owns Hk Hwd Ha) as Hok.
  unfold clientgo, send_act. rewrite Hs. change (in_place (release_value 3 (hp (lmem (sv_state sv))) ptr))
    with (atomic_release_value (hp (lmem (sv_state sv))) ptr).
  cbn [lworld_act] in Hok. change (lw_state world) with (sv_state sv) in Hok. rewrite Ho, Ho2 in Hok.
  destruct (atomic_release_value (hp (lmem (sv_state sv))) ptr) as [h'|f] eqn:Hrel; cbn [mbind result_bind mret result_ret act_ok] in *.
  2: { by destruct Hok as [(t' & c0 & Heq & _)|[_ []]]. }
  apply (thread_acts (LRelease t ptr) _ acs _ (drop_one (found ptr))); try done.
  { cbn [lworld_act world lw_state]. by rewrite Ho, Ho2, Hrel. }
  intros Hkeep. exists None. split; [simpl; by rewrite Ho, Ho2|].
  assert (serving h' None (drop_one (found ptr) l) (at_stage (Sending i todo cont r) c)) as Hst'.
  { unfold serving. simpl. split; [done|]. split; [done|]. split; [done|]. split; [done|]. by apply covers_release in Hcov. }
  exists old, now, ss, ds, fd. split; try done.
  - unfold handled in *. by rewrite Hs in Hop.
  - unfold handled in *. by rewrite Hs in Hroom.
  - intros j s Hj. destruct (Hsent j s Hj) as (bs & Hbs & H).
    assert (unsent (at_stage (Sending i todo cont r) c) j = unsent c j) as Hu by (unfold unsent; by rewrite Hs).
    rewrite Hu. exists bs. split; [|done]. rewrite (iovs_bytes_kept (sv_heap sv)); [done|]. intros v Hv0.
    destruct (unsent_held _ _ _ _ _ _ Hst0 Hv0) as [key1 H1]. rewrite <- Hu in Hv0.
    destruct (unsent_held _ _ _ _ _ _ Hst' Hv0) as [key2 H2].
    apply Hkeep; [apply list_elem_of_fmap; by exists (Lookup key1, v)|apply list_elem_of_fmap; by exists (Lookup key2, v)|done].
  - simpl. intros j td ct r0 [= <- _ _ _]. by apply (wo_writing _ _ _ _ _ _ _ _ _ _ Hw i (ptr :: todo) cont r).
Qed.

(** Nothing changes but what is to be released and what is still to be written. *)
Lemma sending_on acs i cont r todo' cont' r' out' :
  wk_stage c = Sending i [] cont r ->
  (forall v iovs base, cont' = Some (v :: iovs, base) -> base = iov_value v) ->
  (todo' ++ match cont' with Some (iovs, base) => Reply.kept iovs base | None => [] end =
     match cont with Some (iovs, base) => Reply.kept iovs base | None => [] end) ->
  length out' = 128%nat ->
  (forall j s', out' !! j = Some s' -> (j <> Z.to_nat i -> wk_out c !! j = Some s') /\
     (j = Z.to_nat i -> exists s bs bs', wk_out c !! j = Some s /\
        iovs_bytes (sv_heap sv) match cont with Some (iovs, _) => iovs | None => [] end = Ok bs /\
        iovs_bytes (sv_heap sv) match cont' with Some (iovs, _) => iovs | None => [] end = Ok bs' /\
        (so_failed s = true -> so_failed s' = true) /\
        (so_failed s' = true \/ so_sent s' ++ bs' = so_sent s ++ bs))) ->
  act_ok (Ok (sv_state sv, acs, at_stage (Sending i todo' cont' r') (with_out out' c))).
Proof.
  intros Hs Hbase' Hvals Hlen Hsame. cbn [act_ok]. apply same_state.
  destruct (Hw) as [Hq Hg Hv Hiv Hout Hr Hop Hroom Hsent Hst].
  unfold serving in Hst. rewrite Hs in Hst. destruct Hst as (Ho2 & Hi2 & Hempty & Hbase & Hcov).
  exists old, now, ss, ds, fd. split; try done.
  - unfold handled in *. by rewrite Hs in Hop.
  - unfold handled in *. by rewrite Hs in Hroom.
  - intros j s' Hj. simpl in Hj. destruct (Hsame j s' Hj) as [Hother Hmine]. unfold unsent in Hsent |- *. rewrite Hs in Hsent.
    simpl. case_decide as Hji.
    + destruct (Hmine Hji) as (s & bs & bs' & Hsj & Hbs & Hbs' & Hfail & Hcase).
      destruct (Hsent j s Hsj) as (b0 & Hb0 & Hd). rewrite decide_True in Hb0 by done.
      exists bs'. split; [by destruct cont' as [[]|]|].
      assert (b0 = bs) as -> by (destruct cont as [[]|]; rewrite Hbs in Hb0; by injection Hb0).
      destruct Hcase as [?|Hcase]; [by left|]. destruct Hd as [?|Hd]; [left; by apply Hfail|right; congruence].
    + destruct (Hsent j s' (Hother Hji)) as (bs & Hbs & H). rewrite decide_False in Hbs by done. by exists bs.
  - unfold serving. simpl. split; [done|]. split; [done|]. split; [done|]. split; [done|].
    destruct Hcov as [Ha Hf Hin]. split; [done| |done]. intros v. specialize (Hf v). simpl in *.
    by rewrite app_assoc, Hvals.
  - simpl. intros j td ct r0 [= <- _ _ _]. by apply (wo_writing _ _ _ _ _ _ _ _ _ _ Hw i [] cont r).
Qed.

(** The last value is released and the count of the place reset. *)
Lemma place_ends acs i r :
  wk_stage c = Sending i [] None r -> act_ok (clientgo spins ht batch_size verbose t (sv_state sv) acs c).
Proof.
  intros Hs. unfold clientgo, send_act. rewrite Hs. destruct (Hw) as [Hq Hg Hv Hiv Hout Hr Hop Hroom Hsent Hst].
  unfold serving in Hst. rewrite Hs in Hst. destruct Hst as (Ho2 & Hi2 & Hempty & _ & Hcov).
  rewrite aset_in by lia. cbn [mbind result_bind mret result_ret act_ok]. apply same_state.
  exists old, now, ss, ds, fd. split; simpl; try done.
  - destruct Hg. by split.
  - by rewrite length_insert.
  - unfold handled in *. by rewrite Hs in Hop.
  - intros j l0 Hj. apply list_lookup_insert_Some in Hj as [(_ & <- & _)|[_ Hj]]; [simpl; lia|].
    unfold handled in *. rewrite Hs in Hroom. by apply (Hroom j).
  - intros j s Hj. destruct (Hsent j s Hj) as (bs & Hbs & H). exists bs. split; [|done]. rewrite <- Hbs.
    unfold unsent. rewrite Hs. simpl. case_decide as Hji.
    + by rewrite Hji, list_lookup_insert_eq by lia.
    + by rewrite list_lookup_insert_ne by done.
  - unfold serving. simpl. split; [done|]. split; [lia|]. split; [|done].
    intros j Hj. destruct (decide (j = Z.to_nat i)) as [->|Hne]; [apply list_lookup_insert_eq; lia|].
    rewrite list_lookup_insert_ne by done. apply Hempty. lia.
  - intros j l0 Hsj Hj. apply list_lookup_insert_Some in Hj as [(_ & <- & _)|[_ Hj]]; [done|].
    by apply (wo_closed _ _ _ _ _ _ _ _ _ _ Hw j).
Qed.

Lemma out_updated i (s s' : socket_out) j s1 :
  <[Z.to_nat i := s']> (wk_out c) !! j = Some s1 -> wk_out c !! Z.to_nat i = Some s ->
  (j <> Z.to_nat i -> wk_out c !! j = Some s1) /\ (j = Z.to_nat i -> s1 = s').
Proof.
  intros Hj Hi. split.
  - intros Hne. by rewrite list_lookup_insert_ne in Hj.
  - intros ->. rewrite list_lookup_insert_eq in Hj by (by eapply lookup_lt_Some). by injection Hj.
Qed.

(** A call of [writev]. *)
Lemma writev_ok acs i v iovs base r :
  wk_stage c = Sending i [] (Some (v :: iovs, base)) r ->
  act_ok (clientgo spins ht batch_size verbose t (sv_state sv) acs c).
Proof.
  intros Hs. unfold clientgo, send_act. rewrite Hs. destruct (Hw) as [Hq Hg Hv Hiv Hout Hr Hop Hroom Hsent Hst].
  unfold serving in Hst. rewrite Hs in Hst. destruct Hst as (Ho2 & Hi2 & Hempty & Hbase & _).
  destruct (lookup_lt_is_Some_2 (wk_out c) (Z.to_nat i)) as [s Hsi]; [lia|].
  assert (aget (wk_out c) i = Ok s) as -> by (apply aget_Ok; split; [lia|done]). cbn [mbind result_bind].
  destruct (Hsent _ s Hsi) as (bs & Hbs & _). unfold unsent in Hbs. rewrite Hs, decide_True in Hbs by done.
  pose proof (Hbase v iovs base eq_refl) as Hb.
  destruct (so_accepts s) as [|[k0| |] rs] eqn:Ha.
  - simpl. right. eauto 10.
  - change (hp (lmem (sv_state sv))) with (sv_heap sv). rewrite Hbs. cbn [mbind result_bind].
    pose proof (progress_ok (sv_heap sv) (length (take k0 bs)) (v :: iovs) base bs Hbs) as Hp.
    rewrite length_take in Hp at 1. specialize (Hp ltac:(lia) ltac:(intros ? ? [= <- _]; done)).
    destruct (Reply.progress (length (take k0 bs)) (v :: iovs) base) as [[iovs' base'] evs].
    destruct Hp as (Hd & Hrel & _ & Hb'). rewrite aset_in by lia. cbn [mbind result_bind mret result_ret].
    apply (sending_on acs i (Some (v :: iovs, base)) r); [done| | | |].
    + intros v0 rest b0 [= -> ->]. by apply (Hb' v0 rest).
    + exact Hrel.
    + by rewrite length_insert.
    + intros j s1 Hj. destruct (out_updated i s _ j s1 Hj Hsi) as [H1 H2]. split; [done|]. intros ->.
      exists s, bs, (drop (length (take k0 bs)) bs). split; [done|]. split; [done|]. split; [done|].
      rewrite (H2 eq_refl). split; [done|]. right. simpl. rewrite <- app_assoc. f_equal.
      rewrite length_take. destruct (Nat.min_spec k0 (length bs)) as [[_ ->]|[Hle ->]]; [apply take_drop|].
      rewrite take_ge by lia. rewrite drop_ge by lia. apply app_nil_r.
  - rewrite aset_in by lia. cbn [mbind result_bind mret result_ret].
    replace (with_out (<[Z.to_nat i := SocketOut rs (so_sent s) (so_failed s)]> (wk_out c)) c)
      with (at_stage (Sending i [] (Some (v :: iovs, base)) r) (with_out (<[Z.to_nat i := SocketOut rs (so_sent s) (so_failed s)]> (wk_out c)) c))
      by (unfold at_stage, with_out; simpl; by rewrite Hs).
    apply (sending_on acs i (Some (v :: iovs, base)) r); [done|by intros ? ? ? [= <- _ <-]|done|by rewrite length_insert|].
    intros j s1 Hj. destruct (out_updated i s _ j s1 Hj Hsi) as [H1 H2]. split; [done|]. intros ->.
    exists s, bs, bs. rewrite (H2 eq_refl). simpl. eauto 10.
  - rewrite aset_in by lia. cbn [mbind result_bind mret result_ret].
    apply (sending_on acs i (Some (v :: iovs, base)) r); [done|done| |by rewrite length_insert|].
    + rewrite app_nil_r. done.
    + intros j s1 Hj. destruct (out_updated i s _ j s1 Hj Hsi) as [H1 H2]. split; [done|]. intros ->.
      exists s, bs, []. rewrite (H2 eq_refl). simpl. eauto 10.
Qed.

Lemma sending_ok acs i todo cont r :
  wk_stage c = Sending i todo cont r -> act_ok (clientgo spins ht batch_size verbose t (sv_state sv) acs c).
Proof.
  intros Hs. destruct todo as [|ptr todo]; [|by apply (value_released acs i ptr todo cont r)].
  destruct cont as [[[|v iovs] base]|]; [|by apply (writev_ok acs i v iovs base r)|by apply (place_ends acs i r)].
  unfold clientgo, send_act. rewrite Hs. cbn [mbind result_bind mret result_ret].
  replace (at_stage (Sending i (option_list base) None r) c)
    with (at_stage (Sending i (option_list base) None r) (with_out (wk_out c) c)) by (by destruct c).
  apply (sending_on acs i (Some ([], base)) r); [done|done|done|by apply (wo_out _ _ _ _ _ _ _ _ _ _ Hw)|].
  intros j s Hj. split; [done|]. intros ->. exists s, [], []. auto 10.
Qed.

(** ** The second loop *)

(** What is held from an insertion is held once, and not from a lookup. *)
Lemma wrote_alone key sz v : (Insert key sz, v) ∈ l -> count_held (wrote v) l + count_held (found v) l <= 1.
Proof.
  intros Hx. pose proof (insert_alone h0 n ms ev k world owns (sv_world _ _ _ _ Hinv) t l key sz v t l Hl Hx Hl) as Hone.
  rewrite decide_True in Hone by done. rewrite <- Hone. unfold count_held, occurs. clear.
  induction l as [|[rq x] l0 IH]; [done|]. rewrite fmap_cons, !zsum_cons. unfold wrote at 1, found at 1. simpl.
  destruct rq; simpl; destruct (x =? v); lia.
Qed.

Lemma wrote_once key sz v : (Insert key sz, v) ∈ l -> count_held (wrote v) l <= 1.
Proof.
  intros Hx. pose proof (wrote_alone key sz v Hx). enough (0 <= count_held (found v) l) by lia.
  apply zsum_nonneg. intros x _. by case_match.
Qed.

Lemma written_member (x : gathered * Z) xs : x ∈ xs -> is_lookup x = false -> x.2 ∈ written_values xs.
Proof. intros Hx Hl2. unfold written_values. apply list_elem_of_omap. exists x. split; [done|]. by rewrite Hl2. Qed.

(** The value that was filled in is marked ready; nothing else of what is held goes. *)
Lemma covers_mark xs fs v :
  covers l xs fs [v] -> existsb (wrote v) l = true /\ covers (drop_one (wrote v) l) xs fs [].
Proof.
  intros Hcov. pose proof (cv_inserted _ _ _ _ Hcov v) as Hin. rewrite occurs_app, occurs_cons, Z.eqb_refl, occurs_nil in Hin.
  pose proof (occurs_nonneg v (written_values xs)) as Hpos. split; [apply count_exists; lia|].
  destruct (count_wrote_in v l) as (key & sz & Hx); [lia|]. pose proof (wrote_once key sz v Hx) as Hone.
  assert (existsb (wrote v) l = true) as Hex by (apply count_exists; lia).
  destruct Hcov as [Ha Hf Hi]. split.
  - apply Forall_forall. intros x Hxs. rewrite Forall_forall in Ha. destruct (Ha x Hxs) as [H1 H2]. split; [|done].
    intros Hne. apply member_drop; [by apply H1|]. unfold wrote. simpl. unfold query_request.
    destruct (q_optype (gq_query x.1) =? optype_code OPTYPE_LOOKUP) eqn:Hop; [done|]. apply Z.eqb_neq. intros Heq.
    assert (v ∈ written_values xs) as Hv by (rewrite <- Heq; by apply written_member).
    apply occurs_pos in Hv. lia.
  - intros x. rewrite count_drop_other; [apply Hf|]. intros [rq y]. unfold wrote, found. by destruct rq.
  - intros x. simpl. specialize (Hi x). rewrite occurs_app, occurs_cons, occurs_nil in Hi.
    destruct (Z.eqb_spec v x) as [->|Hne]; [rewrite count_drop by done; lia|].
    rewrite count_drop_other; [lia|]. intros [rq y]. unfold wrote. simpl. destruct rq; try done.
    intros ->%Z.eqb_eq. by apply Z.eqb_neq.
Qed.

Lemma marking_ok acs val kk :
  wk_stage c = Marking val kk -> act_ok (clientgo spins ht batch_size verbose t (sv_state sv) acs c).
Proof.
  intros Hs. destruct (Hw) as [Hq Hg Hv Hiv Hout Hr Hop Hroom Hsent Hst]. pose proof Hst as Hst0.
  unfold serving in Hst. rewrite Hs in Hst. destruct Hst as (Ho2 & Hkk & Hcov & el & Hel & Hgood).
  destruct (covers_mark _ _ _ Hcov) as [Hex Hcov'].
  assert (lallowed ms world (LMark t val)) as Ha.
  { simpl. unfold held_by. simpl. by rewrite Hl. }
  pose proof (sv_world _ _ _ _ Hinv) as Hwd.
  pose proof (lstep_ok h0 n ms ev spins Hn Hms k world (LMark t val) owns Hk Hwd Ha) as Hok.
  unfold clientgo, mark_act. rewrite Hs. change (in_place (mark_ready 3 (hp (lmem (sv_state sv))) val))
    with (atomic_mark_ready (hp (lmem (sv_state sv))) val).
  cbn [lworld_act] in Hok. change (lw_state world) with (sv_state sv) in Hok. rewrite Ho, Ho2 in Hok.
  destruct (atomic_mark_ready (hp (lmem (sv_state sv))) val) as [h'|f] eqn:Hrel; cbn [mbind result_bind mret result_ret act_ok] in *.
  2: { by destruct Hok as [(t' & c0 & Heq & _)|[_ []]]. }
  apply (thread_acts (LMark t val) _ acs _ (drop_one (wrote val))); try done.
  { cbn [lworld_act world lw_state]. by rewrite Ho, Ho2, Hrel. }
  { intros e el' -> Hel'. rewrite Hel in Hel'. by injection Hel' as <-. }
  intros Hkeep. exists None. split; [simpl; by rewrite Ho, Ho2|].
  assert (serving h' None (drop_one (wrote val) l) (at_stage (Handling kk) c)) as Hst' by (unfold serving; simpl; done).
  exists old, now, ss, ds, fd. split; try done.
  - unfold handled in *. by rewrite Hs in Hop.
  - unfold handled in *. by rewrite Hs in Hroom.
  - intros j s Hj. destruct (Hsent j s Hj) as (bs & Hbs & H).
    assert (unsent (at_stage (Handling kk) c) j = unsent c j) as Hu by (unfold unsent; by rewrite Hs).
    rewrite Hu. exists bs. split; [|done]. rewrite (iovs_bytes_kept (sv_heap sv)); [done|]. intros v Hv0.
    destruct (unsent_held _ _ _ _ _ _ Hst0 Hv0) as [key1 H1]. rewrite <- Hu in Hv0.
    destruct (unsent_held _ _ _ _ _ _ Hst' Hv0) as [key2 H2].
    apply Hkeep; [apply list_elem_of_fmap; by exists (Lookup key1, v)|apply list_elem_of_fmap; by exists (Lookup key2, v)|done].
Qed.

Lemma handling_ends acs kk :
  wk_stage c = Handling kk -> nqueries (wk_gather c) <= kk ->
  act_ok (clientgo spins ht batch_size verbose t (sv_state sv) acs c).
Proof.
  intros Hs Hge. destruct (Hw) as [Hq Hg Hv Hiv Hout Hr Hop Hroom Hsent Hst].
  unfold serving in Hst. rewrite Hs in Hst. destruct Hst as (Ho2 & Hkk & Hcov).
  unfold clientgo, handle_act. rewrite Hs, (proj2 (Z.leb_le _ _)) by done. cbn [mbind result_bind mret result_ret act_ok].
  apply same_state. exists old, now, ss, ds, fd.
  assert (handled (at_stage (Writing 0) c) = handled c) as Hh.
  { unfold handled. rewrite Hs. simpl. unfold nqueries in *. lia. }
  split; try done; rewrite ?Hh; try done.
  - unfold unsent in *. by rewrite Hs in Hsent.
  - unfold serving. simpl. split; [done|]. split; [lia|]. split; [intros; lia|].
    rewrite drop_ge in Hcov; [done|]. unfold answers. rewrite length_zip_with. unfold nqueries in *. lia.
Qed.

(** The answer that is handled next. *)
Section handled_now.
Context (acs kk : Z) (Hs : wk_stage c = Handling kk) (Hlt : kk < nqueries (wk_gather c)).
Context (i : Z) (e : gathered) (Hsrc : ss !! Z.to_nat kk = Some (i, e)).
Context (v : Z) (Hval : wk_values c !! Z.to_nat kk = Some v).

Lemma kk_range : o = None /\ 0 <= kk /\ covers l (drop (Z.to_nat kk) (answers c)) (iov_values (wk_iovs c)) [].
Proof.
  pose proof (wo_stage _ _ _ _ _ _ _ _ _ _ Hw) as Hst. unfold serving in Hst. rewrite Hs in Hst.
  destruct Hst as (? & [? _] & ?). done.
Qed.

Lemma entry_here : g_queries (wk_gather c) !! Z.to_nat kk = Some e.
Proof. rewrite <- (dl_entries _ _ _ _ _ _ _ (wo_gather _ _ _ _ _ _ _ _ _ _ Hw)), list_lookup_fmap, Hsrc. done. Qed.

Lemma shape_here : request_shape e.
Proof. apply entry_shape. eapply list_elem_of_lookup_2, entry_here. Qed.

Lemma answer_here : drop (Z.to_nat kk) (answers c) = (e, v) :: drop (Z.to_nat (kk + 1)) (answers c).
Proof.
  destruct kk_range as (_ & Hkk & _). replace (Z.to_nat (kk + 1)) with (S (Z.to_nat kk)) by lia.
  apply drop_S. unfold answers. apply lookup_zip_with_Some. exists e, v. split; [done|]. split; [apply entry_here|done].
Qed.

Lemma covered_here : covers l ((e, v) :: drop (Z.to_nat (kk + 1)) (answers c)) (iov_values (wk_iovs c)) [].
Proof. rewrite <- answer_here. apply kk_range. Qed.

Lemma lookups_here j :
  batch_lookups (g_valuebuf (wk_gather c)) j (take (Z.to_nat (kk + 1)) ss) =
  batch_lookups (g_valuebuf (wk_gather c)) j (take (Z.to_nat kk) ss) ++
    (if decide (j = i) then option_list (view_key (entry_view (g_valuebuf (wk_gather c)) e)) else []).
Proof.
  destruct kk_range as (_ & Hkk & _). replace (Z.to_nat (kk + 1)) with (S (Z.to_nat kk)) by lia.
  rewrite (take_S_r _ _ _ Hsrc). unfold batch_lookups. rewrite from_app, fmap_app, omap_app. f_equal.
  case_decide as Hj; [subst j; rewrite from_own; simpl; by destruct (view_key _)|by rewrite from_other by congruence].
Qed.

(** A value that was found holds what was sent for its key. *)
Lemma found_value key : v <> 0 -> (Lookup key, v) ∈ l -> exists el d junk,
  sv_heap sv !! elem_of_ptr v = Some el /\ value el = value_bytes d ++ junk /\ Z.of_nat (length d) < 2 ^ 32 /\ inserted key d.
Proof.
  intros Hv Hin. destruct (hand_answer h0 n ms ev k world owns (sv_world _ _ _ _ Hinv) t l (Lookup key) v Hl Hin)
    as (s & own & e0 & hs & el & Hown & -> & Haddr & He & _ & Hel & _ & Hkey & Hwr).
  destruct (sv_ready _ _ _ _ Hinv s own e0 hs el Hown He Hwr Hel) as (d & junk & Hval2 & Hlen & Hins).
  exists el, d, junk. rewrite elem_of_value_ptr by done. rewrite Hkey in Hins. done.
Qed.

(** The next lookup of the connection is the one that is handled. *)
Lemma next_lookup key s :
  0 <= i < 128 -> sockets (g_cd (wk_gather c)) !! Z.to_nat i = Some s -> s <> -1 ->
  view_key (entry_view (g_valuebuf (wk_gather c)) e) = Some key ->
  lookups (qs t i) !! length (ds i) = Some key.
Proof.
  intros Hi Hso Hopen Hkey. pose proof (wo_gather _ _ _ _ _ _ _ _ _ _ Hw) as Hd.
  destruct (lookup_lt_is_Some_2 (fins (g_cd (wk_gather c))) (Z.to_nat i)) as [f Hf].
  { rewrite (dl_fins _ _ _ _ _ _ _ Hd). lia. }
  pose proof (wo_open _ _ _ _ _ _ _ _ _ _ Hw _ _ Hso Hopen) as Hlen. rewrite Z2Nat.id in Hlen by lia.
  unfold handled in Hlen. rewrite Hs in Hlen.
  destruct (dl_conn _ _ _ _ _ _ _ Hd _ s f Hso Hf) as [todo Hconn]. pose proof (cn_got _ _ _ _ _ _ _ _ Hconn) as Hgot.
  rewrite Z2Nat.id in Hgot by lia. unfold lookups. rewrite (wo_queries _ _ _ _ _ _ _ _ _ _ Hw i), fmap_app, omap_app.
  rewrite <- Hgot, omap_app. rewrite <- (take_drop (Z.to_nat kk) ss). rewrite (drop_S ss (i, e) _ Hsrc), cons_middle.
  rewrite !from_app, from_own, !fmap_app, !omap_app. cbn [fmap list_fmap omap list_omap]. rewrite Hkey.
  rewrite Hlen. unfold batch_lookups.
  set (A := omap view_key (server_view <$> old i)).
  set (B := omap view_key (entry_view (g_valuebuf (wk_gather c)) <$> from i (take (Z.to_nat kk) ss))).
  change (length (lookups (old i))) with (length A). rewrite lookup_app_r by lia.
  replace (length A + length B - length A)%nat with (length B) by lia. rewrite <- !app_assoc.
  rewrite lookup_app_r by lia. by rewrite Nat.sub_diag.
Qed.

Lemma handled_here c' s' :
  wk_gather c' = wk_gather c -> wk_stage c' = s' -> (s' = Handling (kk + 1) \/ s' = Marking v (kk + 1)) ->
  handled c' = S (handled c) /\ handled c = Z.to_nat kk.
Proof.
  intros Hg Hs' Hcase. destruct kk_range as (_ & Hkk & _). unfold handled. rewrite Hs, Hs'.
  destruct Hcase as [-> | ->]; lia.
Qed.

(** How many lookups of a connection the handled requests are. *)
Lemma count_here j :
  length (batch_lookups (g_valuebuf (wk_gather c)) j (take (Z.to_nat (kk + 1)) ss)) =
  (length (batch_lookups (g_valuebuf (wk_gather c)) j (take (Z.to_nat kk) ss)) +
    if decide (j = i) then if (q_optype (gq_query e) =? optype_code OPTYPE_LOOKUP)%Z then 1 else 0 else 0)%nat.
Proof.
  rewrite lookups_here, length_app. case_decide as Hj; [|done]. f_equal. unfold view_key.
  destruct shape_here as [(Hop & _ & _ & sid & sock & Hp)|(Hop & _ & _ & (off & Hp) & _)];
    unfold entry_view; rewrite Hp; simpl; rewrite Hop; done.
Qed.

(** The action is the round of the loop. *)
Lemma handling_here :
  clientgo spins ht batch_size verbose t (sv_state sv) acs c =
    (r ← handle_value batch_size (g_cd (wk_gather c)) (g_valuebuf (wk_gather c)) e v (Replies (sv_heap sv) (wk_iovs c) []);
     mret (set_lheap (rp_heap r) (sv_state sv), acs,
           at_stage (match made_ready (rp_log r) with x :: _ => Marking x (kk + 1) | [] => Handling (kk + 1) end)
             (with_iovs (rp_iovs r) c))).
Proof.
  destruct kk_range as (_ & Hkk & _). unfold clientgo, handle_act. rewrite Hs, (proj2 (Z.leb_gt _ _)) by done.
  assert (aget (g_queries (wk_gather c)) kk = Ok e) as -> by (apply aget_Ok; split; [done|apply entry_here]).
  assert (aget (wk_values c) kk = Ok v) as -> by (by apply aget_Ok). cbn [mbind result_bind].
  change (hp (lmem (sv_state sv))) with (sv_heap sv). by destruct (handle_value _ _ _ _ _ _).
Qed.

Lemma heap_set_back st : set_lheap (hp (lmem st)) st = st.
Proof. unfold set_lheap. by destruct st as [ps [h tk] cs]. Qed.

(** After a lookup: [iovs'] are the replies that are prepared then. *)
Lemma lookup_after iovs' ds' :
  q_optype (gq_query e) = optype_code OPTYPE_LOOKUP -> length iovs' = 128%nat ->
  (forall x, occurs x (iov_values iovs') <= occurs x (iov_values (wk_iovs c)) + occurs x (if v =? 0 then [] else [v])) ->
  (forall j l0, iovs' !! j = Some l0 -> (length l0 <= S (Z.to_nat kk))%nat) ->
  (forall j l0, sockets (g_cd (wk_gather c)) !! j = Some (-1) -> iovs' !! j = Some l0 -> l0 = []) ->
  (forall j, 0 <= j < 128 -> Forall2 right_reply (take (length (ds' j)) (lookups (qs t j))) (ds' j)) ->
  (forall j s, sockets (g_cd (wk_gather c)) !! j = Some s -> s <> -1 ->
     length (ds' (Z.of_nat j)) = (length (ds (Z.of_nat j)) + if decide (Z.of_nat j = i) then 1 else 0)%nat) ->
  (forall j bs, iovs_bytes (sv_heap sv) (default [] (wk_iovs c !! j)) = Ok bs -> exists bs',
     iovs_bytes (sv_heap sv) (default [] (iovs' !! j)) = Ok (bs ++ bs') /\
     concat (value_bytes <$> ds' (Z.of_nat j)) = concat (value_bytes <$> ds (Z.of_nat j)) ++ bs') ->
  worker_ok (sv_heap sv) o l t (at_stage (Handling (kk + 1)) (with_iovs iovs' c)) old now ss ds' fd.
Proof.
  intros Hop Hlen Hocc Hroom' Hclosed Hright Hcount Hbytes.
  destruct kk_range as (Ho2 & Hkk & _). pose proof covered_here as Hcov.
  destruct (handled_here (at_stage (Handling (kk + 1)) (with_iovs iovs' c)) _ eq_refl eq_refl ltac:(by left)) as [Hh Hh0].
  destruct (Hw) as [Hq Hg Hv Hiv Hout Hr Hopen Hroom Hsent _]. split; try done.
  - simpl. intros j s Hsj Hne. rewrite (Hcount j s Hsj Hne), (Hopen j s Hsj Hne), Hh, Hh0.
    replace (S (Z.to_nat kk)) with (Z.to_nat (kk + 1)) by lia. rewrite count_here, Hop.
    change (optype_code OPTYPE_LOOKUP =? optype_code OPTYPE_LOOKUP) with true. cbn iota. case_decide; lia.
  - simpl. intros j l0 Hj. rewrite Hh, Hh0. by apply (Hroom' j).
  - intros j s Hj. destruct (Hsent j s Hj) as (bs & Hbs & H). unfold unsent in *. rewrite Hs in Hbs. simpl.
    destruct (Hbytes j bs Hbs) as (bs' & Hbs' & Hc'). exists (bs ++ bs'). split; [done|].
    destruct H as [H|H]; [by left|right]. by rewrite Hc', <- H, app_assoc.
  - unfold serving. simpl. split; [done|]. split; [lia|]. destruct Hcov as [Ha Hf Hin]. split.
    + by inversion Ha.
    + intros x. specialize (Hf x). specialize (Hocc x). unfold found_values in *. cbn [omap list_omap] in Hf.
      unfold is_lookup in Hf at 1. simpl in Hf. rewrite Hop in Hf. simpl in Hf.
      change (answers (at_stage (Handling (kk + 1)) (with_iovs iovs' c))) with (answers c).
      rewrite !occurs_app in *. destruct (v =? 0); simpl in *; [rewrite occurs_nil in Hocc; lia|].
      rewrite occurs_cons in *. rewrite occurs_nil in Hocc. lia.
    + intros x. specialize (Hin x). unfold written_values in *. cbn [omap list_omap] in Hin.
      unfold is_lookup in Hin at 1. simpl in Hin. by rewrite Hop in Hin.
Qed.

(** The data of the reply. *)
Lemma reply_data :
  q_optype (gq_query e) = optype_code OPTYPE_LOOKUP -> exists d, right_reply (q_key (gq_query e)) d /\ (v = 0 -> d = []) /\
    (v = 0 \/ exists el junk, sv_heap sv !! elem_of_ptr v = Some el /\ value el = value_bytes d ++ junk /\
      Z.of_nat (length d) < 2 ^ 32).
Proof.
  intros Hop. destruct (Z.eq_dec v 0) as [Hv|Hv]; [exists []; split; [by left|]; auto|].
  pose proof (cv_answers _ _ _ _ covered_here) as Ha. apply Forall_cons in Ha as [[Ha _] _]. simpl in Ha.
  destruct shape_here as [(_ & _ & Hr & _)|(Hop2 & _)]; [|by rewrite Hop in Hop2].
  rewrite Hr in Ha. destruct (found_value _ Hv (Ha Hv)) as (el & d & junk & Hel & Hbs & Hlen & Hins).
  exists d. split; [by right|]. split; [done|]. right. by exists el, junk.
Qed.

Lemma iovs_bytes_app h iovs1 iovs2 :
  iovs_bytes h (iovs1 ++ iovs2) = (b1 ← iovs_bytes h iovs1; b2 ← iovs_bytes h iovs2; mret (b1 ++ b2)).
Proof.
  induction iovs1 as [|x iovs1 IH]; cbn [iovs_bytes app mbind result_bind mret result_ret].
  - by destruct (iovs_bytes h iovs2).
  - rewrite IH. destruct (iov_bytes h x); [|done]. cbn [mbind result_bind]. destruct (iovs_bytes h iovs1); [|done].
    cbn [mbind result_bind mret result_ret]. destruct (iovs_bytes h iovs2); [|done].
    cbn [mbind result_bind mret result_ret]. by rewrite app_assoc.
Qed.

(** Where the reply goes: to the connection the lookup came from, or nowhere. *)
Lemma reply_place :
  q_optype (gq_query e) = optype_code OPTYPE_LOOKUP -> exists sid sock s l0,
    gq_place e = ReplyTo sid sock /\ 0 <= sid < 128 /\ sockets (g_cd (wk_gather c)) !! Z.to_nat sid = Some s /\
    wk_iovs c !! Z.to_nat sid = Some l0 /\ (length l0 <= Z.to_nat kk)%nat /\
    (s = sock -> sid = i /\ sock = fd i) /\
    (s <> sock -> forall (j : nat) s', sockets (g_cd (wk_gather c)) !! j = Some s' -> s' <> -1 -> Z.of_nat j <> i).
Proof.
  intros Hop. pose proof (wo_gather _ _ _ _ _ _ _ _ _ _ Hw) as Hg. pose proof (wo_iovs _ _ _ _ _ _ _ _ _ _ Hw) as Hiv.
  destruct shape_here as [(_ & _ & _ & sid & sock & Hp)|(Hop2 & _)]; [|by rewrite Hop in Hop2].
  pose proof (dl_src _ _ _ _ _ _ _ Hg) as Hsrc2. rewrite Forall_forall in Hsrc2.
  destruct (Hsrc2 (i, e) ltac:(by eapply list_elem_of_lookup_2)) as [_ Hway]. unfold way_back in Hway. simpl in Hway.
  rewrite Hp in Hway. destruct Hway as (Hsid & Hsock & Hway).
  destruct (lookup_lt_is_Some_2 (sockets (g_cd (wk_gather c))) (Z.to_nat sid)) as [s Hso]; [rewrite (dl_sockets _ _ _ _ _ _ _ Hg); lia|].
  destruct (lookup_lt_is_Some_2 (fins (g_cd (wk_gather c))) (Z.to_nat sid)) as [f Hf]; [rewrite (dl_fins _ _ _ _ _ _ _ Hg); lia|].
  destruct (lookup_lt_is_Some_2 (wk_iovs c) (Z.to_nat sid)) as [l0 Hl0]; [lia|].
  pose proof (wo_room _ _ _ _ _ _ _ _ _ _ Hw _ _ Hl0) as Hroom. unfold handled in Hroom. rewrite Hs in Hroom.
  assert (s <> -1 -> s = fd sid) as Hopen.
  { intros Hne. destruct (dl_conn _ _ _ _ _ _ _ Hg _ _ _ Hso Hf) as [todo Hconn].
    destruct (cn_fd _ _ _ _ _ _ _ _ Hconn) as [[? _]|[Hs2 _]]; [done|]. by rewrite Z2Nat.id in Hs2 by lia. }
  exists sid, sock, s, l0. do 5 (split; [done|]). destruct Hway as [[-> ->]|[Hlow Hother]].
  - split; [done|]. intros Hne j s' Hj Hne' <-. rewrite Nat2Z.id in Hso. rewrite Hj in Hso. injection Hso as ->. by apply Hne, Hopen.
  - split; [intros ->; by destruct Hother; apply Hopen|]. intros _ j s' _ _. lia.
Qed.

(** The reply is prepared. *)
Lemma reply_prepared data l0 :
  q_optype (gq_query e) = optype_code OPTYPE_LOOKUP -> readable data (sv_heap sv) v -> right_reply (q_key (gq_query e)) (data v) ->
  0 <= i < 128 -> sockets (g_cd (wk_gather c)) !! Z.to_nat i = Some (fd i) -> wk_iovs c !! Z.to_nat i = Some l0 ->
  (length l0 <= Z.to_nat kk)%nat -> data 0 = [] ->
  worker_ok (sv_heap sv) o l t (at_stage (Handling (kk + 1)) (with_iovs (<[Z.to_nat i := l0 ++ [reply_iov data v]]> (wk_iovs c)) c))
    old now ss (fun j => if decide (j = i) then ds i ++ [data v] else ds j) fd.
Proof.
  intros Hop Hrd Hright Hi Hso Hl0 Hroom Hnull. pose proof (wo_iovs _ _ _ _ _ _ _ _ _ _ Hw) as Hiv.
  pose proof (wo_descr _ _ _ _ _ _ _ _ _ _ Hw i) as Hfd.
  assert (forall j : nat, Z.of_nat j = i <-> j = Z.to_nat i) as Hji by lia.
  apply lookup_after; [done|by rewrite length_insert|..].
  - intros x. rewrite (occurs_insert x _ _ _ _ Hl0), omap_app, occurs_app. unfold reply_iov. simpl.
    destruct (v =? 0); simpl; lia.
  - intros j l1 Hj. apply list_lookup_insert_Some in Hj as [(_ & <- & _)|[_ Hj]]; [rewrite length_app; simpl; lia|].
    pose proof (wo_room _ _ _ _ _ _ _ _ _ _ Hw _ _ Hj) as Hr. unfold handled in Hr. rewrite Hs in Hr. lia.
  - intros j l1 Hsj Hj. apply list_lookup_insert_Some in Hj as [(<- & _ & _)|[_ Hj]]; [by rewrite Hso in Hsj; injection Hsj|].
    by apply (wo_closed _ _ _ _ _ _ _ _ _ _ Hw j).
  - intros j Hj. pose proof (wo_right _ _ _ _ _ _ _ _ _ _ Hw j Hj) as Hr. case_decide as Heq; [|done]. subst j.
    rewrite length_app. simpl. replace (length (ds i) + 1)%nat with (S (length (ds i))) by lia.
    rewrite (take_S_r _ _ (q_key (gq_query e))); [apply Forall2_app; [done|by constructor]|].
    apply (next_lookup _ _ Hi Hso Hfd). destruct (reply_place Hop) as (sid & sock & _ & _ & Hp & _).
    unfold view_key, entry_view. rewrite Hp. simpl. by rewrite Hop.
  - intros j s' _ _. case_decide as Heq; [|lia]. rewrite Heq, length_app. simpl. lia.
  - intros j bs Hbs. case_decide as Heq.
    + pose proof (proj1 (Hji j) Heq) as ->. rewrite list_lookup_insert_eq by lia. rewrite Hl0 in Hbs. simpl in *. rewrite Heq.
      exists (value_bytes (data v)). rewrite iovs_bytes_app, Hbs. cbn [mbind result_bind iovs_bytes].
      rewrite (iov_bytes_reply data) by done. cbn [mbind result_bind mret result_ret].
      split; [by rewrite app_nil_r|]. rewrite fmap_app, concat_app. f_equal. simpl. by rewrite app_nil_r.
    + exists []. rewrite list_lookup_insert_ne by (rewrite Hji in Heq; congruence). by rewrite !app_nil_r.
Qed.

Lemma lookup_handled :
  q_optype (gq_query e) = optype_code OPTYPE_LOOKUP ->
  act_ok (clientgo spins ht batch_size verbose t (sv_state sv) acs c).
Proof.
  intros Hop. pose proof (wo_gather _ _ _ _ _ _ _ _ _ _ Hw) as Hg. pose proof (wo_iovs _ _ _ _ _ _ _ _ _ _ Hw) as Hiv.
  destruct (reply_place Hop) as (sid & sock & s & l0 & Hp & Hsid & Hso & Hl0 & Hroom & Hsame & Hother).
  destruct (reply_data Hop) as (d & Hright & Hnull & Hread).
  set (data := fun x : Z => if x =? 0 then [] else d).
  assert (data v = d) as Hdv by (unfold data; destruct (Z.eqb_spec v 0) as [Hv|]; [by rewrite Hnull|done]).
  rewrite <- Hdv in Hright, Hread. pose proof (dl_count _ _ _ _ _ _ _ Hg) as Hcount.
  rewrite handling_here. unfold handle_value. rewrite Hop, Z.eqb_refl, Hp.
  rewrite (handle_lookup_ok batch_size (g_cd (wk_gather c)) data eq_refl sid sock v
    (Replies (sv_heap sv) (wk_iovs c) []) (Z.to_nat sid) l0); [|lia|done|rewrite Hso; by eexists|
    simpl; by rewrite Hiv, (dl_sockets _ _ _ _ _ _ _ Hg)|unfold nqueries in *; lia|done].
  case_bool_decide as Hsk; cbn [mbind result_bind mret result_ret rp_log rp_iovs rp_heap made_ready omap list_omap];
    rewrite (heap_set_back (sv_state sv) : set_lheap (sv_heap sv) _ = _); cbn [act_ok]; apply same_state;
    rewrite Hso in Hsk.
  - injection Hsk as ->. destruct (Hsame eq_refl) as [-> ->].
    exists old, now, ss, (fun j => if decide (j = i) then ds i ++ [data v] else ds j), fd.
    apply reply_prepared; try done.
    destruct Hread as [?|(el & junk & ? & ? & _)]; [by left|right; by exists el, junk].
  - exists old, now, ss, ds, fd. assert (s <> sock) as Hne by congruence. apply lookup_after; try done.
    + intros x. pose proof (occurs_nonneg x (if v =? 0 then [] else [v])). lia.
    + intros j l1 Hj. pose proof (wo_room _ _ _ _ _ _ _ _ _ _ Hw _ _ Hj) as Hr. unfold handled in Hr. rewrite Hs in Hr. lia.
    + apply (wo_closed _ _ _ _ _ _ _ _ _ _ Hw).
    + apply (wo_right _ _ _ _ _ _ _ _ _ _ Hw).
    + intros j s' Hj Hne'. rewrite decide_False by (by apply (Hother Hne j s')). lia.
    + intros j bs Hbs. exists []. by rewrite !app_nil_r.
Qed.

(** The memory that an insertion got. *)
Lemma insert_granted :
  q_optype (gq_query e) = optype_code OPTYPE_INSERT ->
  (Insert (q_key (gq_query e)) (q_size (gq_query e)), v) ∈ l /\ v <> 0 /\
  exists el, sv_heap sv !! elem_of_ptr v = Some el /\ Value.key el = q_key (gq_query e).
Proof.
  intros Hop. pose proof (cv_answers _ _ _ _ covered_here) as Ha. apply Forall_cons in Ha as [[Ha Hnz] _]. simpl in *.
  destruct shape_here as [(Hop2 & _)|(_ & _ & Hr & (off & Hp) & Hsz & _)]; [by rewrite Hop in Hop2|]. rewrite Hr in Ha.
  assert (v <> 0) as Hv by (apply Hnz; unfold is_lookup; simpl; by rewrite Hop).
  destruct (hand_answer h0 n ms ev k world owns (sv_world _ _ _ _ Hinv) t l _ v Hl (Ha Hv))
    as (s & own & e0 & hs & el & _ & -> & Haddr & _ & _ & Hel & _ & Hkey & Hsize & _).
  rewrite elem_of_value_ptr by done. change (lw_heap world) with (sv_heap sv) in Hel.
  split; [by apply Ha|]. split; [done | by exists el].
Qed.

(** After the value was filled in, with memory [h']. *)
Lemma insert_after h' el bs :
  q_optype (gq_query e) = optype_code OPTYPE_INSERT -> h' !! elem_of_ptr v = Some el -> good el ->
  (forall x, x ∈ l.*2 -> (forall t' bs', LWrite t v bs <> LWrite t' x bs') -> Holders.kept (sv_heap sv) h' (elem_of_ptr x)) ->
  worker_ok h' None l t (at_stage (Marking v (kk + 1)) (with_iovs (wk_iovs c) c)) old now ss ds fd.
Proof.
  intros Hop Hel Hgood Hkeep. destruct (insert_granted Hop) as (Hin & _). destruct kk_range as (_ & Hkk & _).
  pose proof covered_here as Hcov. pose proof (wo_stage _ _ _ _ _ _ _ _ _ _ Hw) as Hst0.
  destruct (handled_here (at_stage (Marking v (kk + 1)) (with_iovs (wk_iovs c) c)) _ eq_refl eq_refl ltac:(by right)) as [Hh Hh0].
  destruct (Hw) as [Hq Hg Hv Hiv Hout Hright Hopen Hroom Hsent _]. split; try done.
  - simpl. intros j s Hsj Hne. rewrite (Hopen j s Hsj Hne), Hh, Hh0. replace (S (Z.to_nat kk)) with (Z.to_nat (kk + 1)) by lia.
    rewrite count_here, Hop. change (optype_code OPTYPE_INSERT =? optype_code OPTYPE_LOOKUP) with false. case_decide; lia.
  - simpl. intros j l0 Hj. specialize (Hroom j l0 Hj). lia.
  - intros j s Hj. destruct (Hsent j s Hj) as (b0 & Hb0 & H). exists b0. split; [|done].
    assert (unsent (at_stage (Marking v (kk + 1)) (with_iovs (wk_iovs c) c)) j = unsent c j) as ->
      by (unfold unsent; simpl; by rewrite Hs).
    rewrite (iovs_bytes_kept (sv_heap sv)); [done|]. intros x Hx.
    destruct (unsent_held _ _ _ _ _ _ Hst0 Hx) as [key Hxl].
    apply Hkeep; [apply list_elem_of_fmap; by exists (Lookup key, x)|]. intros t' bs' [= _ -> _].
    pose proof (wrote_alone _ _ _ Hin) as Hone.
    assert (0 < count_held (wrote x) l) by (apply count_held_pos; eexists; split; [exact Hin|unfold wrote; simpl; apply Z.eqb_refl]).
    assert (0 < count_held (found x) l) by (apply count_held_pos; eexists; split; [exact Hxl|unfold found; simpl; apply Z.eqb_refl]).
    lia.
  - unfold serving. simpl. split; [done|]. split; [lia|]. split; [|by exists el].
    change (answers (at_stage (Marking v (kk + 1)) (with_iovs (wk_iovs c) c))) with (answers c).
    destruct Hcov as [Ha Hf Hi]. split; [by inversion Ha| |].
    + intros x. specialize (Hf x). unfold found_values in *. cbn [omap list_omap] in Hf.
      unfold is_lookup in Hf at 1. simpl in Hf. by rewrite Hop in Hf.
    + intros x. specialize (Hi x). unfold written_values in *. cbn [omap list_omap] in Hi.
      unfold is_lookup in Hi at 1. simpl in Hi. by rewrite Hop in Hi.
Qed.

Lemma insert_handled :
  q_optype (gq_query e) = optype_code OPTYPE_INSERT ->
  act_ok (clientgo spins ht batch_size verbose t (sv_state sv) acs c).
Proof.
  intros Hop. destruct (insert_granted Hop) as (Hin & Hv & el & Hel & Hkey0). destruct kk_range as (Ho2 & Hkk & _).
  destruct shape_here as [(Hop2 & _)|(_ & _ & _ & (off & Hp) & _ & _ & Hins & Hlen)]; [by rewrite Hop in Hop2|].
  pose proof (dl_src _ _ _ _ _ _ _ (wo_gather _ _ _ _ _ _ _ _ _ _ Hw)) as Hsrc2. rewrite Forall_forall in Hsrc2.
  destruct (Hsrc2 (i, e) ltac:(by eapply list_elem_of_lookup_2)) as [Hok _]. simpl in Hok.
  pose proof (handle_insert_spec (g_valuebuf (wk_gather c)) e off v (Replies (sv_heap sv) (wk_iovs c) []) el Hp Hok Hv Hel)
    as Hdone. simpl in Hdone.
  assert (length (value_bytes (entry_view (g_valuebuf (wk_gather c)) e).2) = Z.to_nat (q_size (gq_query e))) as Hbl.
  { unfold entry_ok in Hok. rewrite Hp in Hok. destruct Hok as (_ & Hoff & Hsz & Hbuf). unfold entry_view. rewrite Hp.
    rewrite value_bytes_length. simpl. rewrite length_take, length_drop. lia. }
  set (d := (entry_view (g_valuebuf (wk_gather c)) e).2) in *. set (bs := value_bytes d) in *.
  rewrite handling_here. unfold handle_value. rewrite Hop. change (optype_code OPTYPE_INSERT =? optype_code OPTYPE_LOOKUP) with false.
  rewrite Z.eqb_refl, Hp, Hdone. case_decide as Hfit.
  2: { exists kk, e, v, el. split; [done|]. split; [apply entry_here|]. repeat (split; [done|]). lia. }
  cbn [mbind result_bind mret result_ret rp_log rp_iovs rp_heap made_ready omap list_omap act_ok].
  apply (thread_acts (LWrite t v bs) _ acs _ (fun l => l)); try done.
  - simpl. unfold held_by. simpl. rewrite Hl. simpl. apply list_elem_of_fmap. by eexists (_, v).
  - simpl. unfold held_by. simpl. rewrite Hl. apply existsb_exists. eexists. split; [by apply list_elem_of_In|].
    unfold wrote. simpl. apply Z.eqb_refl.
  - unfold change_held. rewrite list_alter_id by done. cbn [lworld_act world lw_state]. rewrite Ho, Ho2.
    change (hp (lmem (sv_state sv))) with (sv_heap sv). by rewrite (write_value_spec _ _ bs el Hel), decide_True by lia.
  - by intros t' ptr bs' [= -> _ _].
  - intros Hkeep. exists None. split; [simpl; by rewrite Ho, Ho2|]. exists old, now, ss, ds, fd.
    apply (insert_after _ (overwritten bs el) bs Hop); [apply lookup_insert_eq| |].
    + eexists d, _. simpl. by rewrite Hkey0.
    + intros x Hx Hne. by apply Hkeep.
Qed.
End handled_now.

Lemma handling_ok acs kk :
  wk_stage c = Handling kk -> act_ok (clientgo spins ht batch_size verbose t (sv_state sv) acs c).
Proof.
  intros Hs. destruct (Z.leb_spec (nqueries (wk_gather c)) kk) as [Hge|Hlt]; [by apply (handling_ends acs kk)|].
  pose proof (wo_stage _ _ _ _ _ _ _ _ _ _ Hw) as Hst. unfold serving in Hst. rewrite Hs in Hst. destruct Hst as (_ & Hkk & _).
  pose proof (wo_gather _ _ _ _ _ _ _ _ _ _ Hw) as Hg. pose proof (dl_entries _ _ _ _ _ _ _ Hg) as Hent.
  pose proof (dl_count _ _ _ _ _ _ _ Hg) as Hcount. unfold nqueries in *.
  destruct (lookup_lt_is_Some_2 ss (Z.to_nat kk)) as [[i e] Hsrc].
  { rewrite <- (length_fmap snd ss), Hent. lia. }
  destruct (lookup_lt_is_Some_2 (wk_values c) (Z.to_nat kk)) as [v Hval]; [pose proof (wo_values _ _ _ _ _ _ _ _ _ _ Hw); lia|].
  destruct (shape_here kk i e Hsrc) as [(Hop & _)|(Hop & _)].
  - by apply (lookup_handled acs kk Hs Hlt i e Hsrc v Hval).
  - by apply (insert_handled acs kk Hs Hlt i e Hsrc v Hval).
Qed.

Lemma clientgo_ok acs : act_ok (clientgo spins ht batch_size verbose t (sv_state sv) acs c).
Proof.
  destruct (wk_stage c) as [|b|kk|val kk|i|i todo cont r] eqn:Hs.
  - by apply gather_ok.
  - by apply (querying_ok acs b).
  - by apply (handling_ok acs kk).
  - by apply (marking_ok acs val kk).
  - by apply (writing_ok acs i).
  - by apply (sending_ok acs i todo cont r).
Qed.
End step.

(** ** Runs *)
Lemma server_act_ok k sv held owns t r :
  0 <= k < 2 ^ 62 -> server_inv k sv held owns -> server_act spins ht batch_size verbose t sv = Some r ->
  match r with
  | Ok sv' => exists held' owns', server_inv (k + 1) sv' held' owns'
  | Fault f => exists c, sv_workers sv !! t = Some c /\ may_fail_here sv c f
  end.
Proof.
  intros Hk Hinv Hact. unfold server_act in Hact. apply bind_Some in Hact as (c & Hc & [= <-]).
  destruct (sv_threads _ _ _ _ Hinv t c Hc) as (o & l & Ho & Hl & old & now & ss & ds & fd & Hw).
  pose proof (clientgo_ok k sv held owns Hk Hinv t c Hc o l Ho Hl old now ss ds fd Hw (sv_acs sv)) as Hok.
  destruct (clientgo spins ht batch_size verbose t (sv_state sv) (sv_acs sv) c) as [[[st acs] c']|f]; [exact Hok|].
  exists c. done.
Qed.

Lemma server_steps_inv j k sv sv' held owns :
  nsteps (server_step spins ht batch_size verbose) j sv sv' -> 0 <= k -> k + Z.of_nat j < 2 ^ 62 ->
  server_inv k sv held owns -> exists held' owns', server_inv (k + Z.of_nat j) sv' held' owns'.
Proof.
  intros Hs. revert k held owns. induction Hs as [sv|j sv1 sv2 sv3 (t & Hact) _ IH]; intros k held owns Hk Hlt Hinv.
  - exists held, owns. by rewrite Z.add_0_r.
  - destruct (server_act_ok k sv1 held owns t _ ltac:(lia) Hinv Hact) as (held2 & owns2 & Hinv2).
    destruct (IH (k + 1) held2 owns2 ltac:(lia) ltac:(lia) Hinv2) as (held3 & owns3 & Hinv3).
    exists held3, owns3. by replace (k + Z.of_nat (S j)) with (k + 1 + Z.of_nat j) by lia.
Qed.
End server.
