(* ===== verification/ServeAccept.v ===== *)
(** * ServeAccept: connections that come while the hash server runs

    The actions of [tcpserver] between those of the client threads keep the invariant of
    [ServeInv], once a place is taken for the queries of the new connection in place of those of the one that
    had its place before. *)
From stdpp Require Import base list gmap relations.
From Stdlib Require Import ZArith QArith Lia.
From S2P Require Import Prelude Protocol ALock Value Partition PartitionThms HashTable Estates.
From S2P Require Import Stream HashClient Gather GatherThms Reply ReplyThms Holders Locking LockingWorld LockingWorldInv.
From S2P Require Import HashServer HashServerThms Serve ServeInv.

Local Open Scope Z_scope.

(** ** The connections so far *)
Record peer := Peer { pr_thread : nat; pr_place : nat; pr_queries : list client_query }.

(** The queries sent on the last connection at place [i] of thread [t]. *)
Definition current (ps : list peer) (t : nat) (i : Z) : list client_query :=
  default [] (pr_queries <$> last (filter (fun p => pr_thread p = t /\ Z.of_nat (pr_place p) = i) ps)).

Definition sent_by (ps : list peer) (q : client_query) : Prop := exists p, p ∈ ps /\ q ∈ pr_queries p.

Lemma current_sent ps t i q : q ∈ current ps t i -> sent_by ps q.
Proof.
  unfold current. destruct (last _) as [p|] eqn:Hp; simpl; [|by intros ?%elem_of_nil].
  intros Hq. exists p. split; [|done]. apply last_Some_elem_of in Hp. by apply list_elem_of_filter in Hp as [_ Hp].
Qed.

Lemma current_new ps t i q t' i' :
  current (ps ++ [Peer t i q]) t' i' = if decide (t' = t /\ i' = Z.of_nat i) then q else current ps t' i'.
Proof.
  unfold current. rewrite filter_app, filter_cons, filter_nil. simpl. case_decide as H1; case_decide as H2.
  - by rewrite last_snoc.
  - destruct H2. destruct H1 as [-> <-]. done.
  - destruct H1. destruct H2 as [-> ->]. done.
  - by rewrite app_nil_r.
Qed.

Lemma sent_more ps p q : sent_by ps q -> sent_by (ps ++ [p]) q.
Proof. intros (p' & Hp & Hq). exists p'. split; [apply elem_of_app; by left|done]. Qed.

(** ** A place is opened *)
Definition relabel (i : Z) (ss : list (Z * gathered)) : list (Z * gathered) :=
  (fun x => (if decide (x.1 = i) then -1 else x.1, x.2)) <$> ss.

Lemma relabel_entries i ss : (relabel i ss).*2 = ss.*2.
Proof. unfold relabel. rewrite <- list_fmap_compose. by apply list_fmap_ext. Qed.

Lemma from_relabel i j ss : 0 <= j -> from j (relabel i ss) = if decide (j = i) then [] else from j ss.
Proof.
  intros Hj. unfold relabel. induction ss as [|[l e] ss IH]; [simpl; by case_decide|].
  change ((l, e) :: ss) with ([(l, e)] ++ ss). rewrite fmap_app, !from_app, IH. cbn [fmap list_fmap fst snd].
  destruct (decide (l = i)) as [->|Hl].
  - rewrite from_other by lia. case_decide as Hji; [done|]. by rewrite from_other.
  - case_decide as Hji; [|done]. subst j. by rewrite from_other.
Qed.

Lemma take_relabel i m ss : take m (relabel i ss) = relabel i (take m ss).
Proof. unfold relabel. by rewrite fmap_take. Qed.

Section opened.
Context (batch_size : Z) (fd : Z -> Z) (now : Z -> list client_query) (sent : hash_query * list Z -> Prop).
Context (g : gather) (ss : list (Z * gathered)) (Hd : delivering batch_size fd now sent (-1) g ss).
Context (Hfd : forall i, fd i <> -1).
Context (i : nat) (Hi : sockets (g_cd g) !! i = Some (-1)) (sock : Z) (Hsock : sock <> -1).
Context (Hfresh : forall e, e ∈ g_queries g -> gq_place e <> ReplyTo (Z.of_nat i) sock).
Context (f : stream) (q : list client_query) (Hq : GatherThms.carries f q).

Definition at_i {A} (x : A) (h : Z -> A) (j : Z) : A := if decide (j = Z.of_nat i) then x else h j.

Definition opened_cd : client_data :=
  ClientData (nsockets (g_cd g) + 1) (<[i := sock]> (sockets (g_cd g))) (<[i := f]> (fins (g_cd g))).

Lemma opened_delivering :
  delivering batch_size (at_i sock fd) (at_i q now) sent (-1) (with_cd opened_cd g) (relabel (Z.of_nat i) ss).
Proof.
  pose proof (lookup_lt_Some _ _ _ Hi) as Hlt. destruct (Hd) as [D1 D2 D3 D4 Dent Dplace Dempty D8 D9 Dsrc Dsent Dconn]. split; simpl; try done.
  - by rewrite length_insert.
  - by rewrite length_insert.
  - by rewrite relabel_entries.
  - unfold relabel. apply Forall_fmap. eapply Forall_impl; [exact Dplace|]. intros x Hx. simpl in *. case_decide; lia.
  - intros Hnil. apply fmap_nil_inv in Hnil. by apply Dempty.
  - unfold relabel. apply Forall_fmap. apply Forall_forall. intros x Hx. rewrite Forall_forall in Dsrc.
    destruct (Dsrc x Hx) as [Hok Hway]. split; [done|]. simpl. unfold way_back in *. simpl.
    destruct (gq_place x.2) as [sid so|] eqn:Hp; [|done]. destruct Hway as (Hsid & Hso & Hway).
    assert (sid = Z.of_nat i -> so <> sock) as Hne.
    { intros -> ->. apply (Hfresh x.2); [|done]. rewrite <- Dent. apply list_elem_of_fmap. by exists x. }
    split; [done|]. split; [done|]. unfold at_i. destruct Hway as [[-> ->]|[Hx1 Hother]].
    + case_decide as Hxi; [right; split; [lia|by apply Hne]|left; by rewrite decide_False].
    + right. rewrite decide_False by lia. split; [done|]. case_decide as Hsi; [by apply Hne|done].
  - unfold relabel. apply Forall_fmap. eapply Forall_impl; [exact Dsent|]. done.
  - intros j s f' Hs Hf. unfold at_i. destruct (decide (j = i)) as [->|Hne].
    + rewrite list_lookup_insert_eq in Hs by done. rewrite list_lookup_insert_eq in Hf by lia. injection Hs as <-. injection Hf as <-.
      exists q. split; [apply Hq|by apply carries_content|apply Hq| |].
      * rewrite from_relabel by lia. by rewrite !decide_True.
      * right. by rewrite decide_True.
    + rewrite list_lookup_insert_ne in Hs by done. rewrite list_lookup_insert_ne in Hf by done.
      destruct (Dconn j s f' Hs Hf) as [todo []]. exists todo. split; try done.
      * rewrite from_relabel by lia. rewrite !decide_False by lia. done.
      * by rewrite decide_False by lia.
Qed.
End opened.

Lemma delivering_more batch_size fd now (sent sent' : hash_query * list Z -> Prop) lo g ss :
  (forall v, sent v -> sent' v) -> delivering batch_size fd now sent lo g ss -> delivering batch_size fd now sent' lo g ss.
Proof.
  intros Hmore [D1 D2 D3 D4 Dent Dplace Dempty D8 D9 Dsrc Dsent Dconn]. split; try done.
  eapply Forall_impl; [exact Dsent|]. intros x. apply Hmore.
Qed.

(** ** The threads *)
Section accept.
Context (batch_size : Z) (qs qs' : nat -> Z -> list client_query) (sent sent' : client_query -> Prop).
Context (Hmore : forall q, sent q -> sent' q).

Lemma inserted_more key d : inserted sent key d -> inserted sent' key d.
Proof. intros (q & Hq & H). exists q. split; [by apply Hmore|done]. Qed.

Lemma right_more key d : right_reply sent key d -> right_reply sent' key d.
Proof. intros [?|H]; [by left|right; by apply inserted_more]. Qed.

Lemma seen_more v : seen sent v -> seen sent' v.
Proof. intros (q & Hq & ->). exists q. split; [by apply Hmore|done]. Qed.

Lemma good_more el : good sent el -> good sent' el.
Proof. intros (d & junk & Hv & Hl & Hi). exists d, junk. split; [done|]. split; [done|]. by apply inserted_more. Qed.

Lemma serving_more h o held c : serving batch_size sent h o held c -> serving batch_size sent' h o held c.
Proof.
  unfold serving. destruct (wk_stage c); try done. intros (Ho & Hk & Hc & el & Hel & Hg).
  split; [done|]. split; [done|]. split; [done|]. exists el. split; [done|]. by apply good_more.
Qed.

(** The other threads. *)
Lemma worker_more h o held t c :
  (forall i, qs' t i = qs t i) -> worker_inv batch_size qs sent h o held t c -> worker_inv batch_size qs' sent' h o held t c.
Proof.
  intros Hqs (old & now & ss & ds & fd & []). exists old, now, ss, ds, fd. split; try done.
  - intros i. by rewrite Hqs.
  - eapply delivering_more; [apply seen_more|done].
  - intros i Hi. rewrite Hqs. eapply Forall2_impl; [by apply wo_right|]. intros. by apply right_more.
  - by apply serving_more.
Qed.

(** The thread with the new connection. *)
Context (h : heap) (o : option lcall) (held : list (request * Z)) (t : nat) (c : worker).
Context (i : nat) (Hi : sockets (g_cd (wk_gather c)) !! i = Some (-1)) (sock : Z) (Hsock : sock <> -1).
Context (Hfresh : forall e, e ∈ g_queries (wk_gather c) -> gq_place e <> ReplyTo (Z.of_nat i) sock).
Context (f : stream) (q : list client_query) (Hq : GatherThms.carries f q).
Context (Hqs : forall j, qs' t j = if decide (j = Z.of_nat i) then q else qs t j).
Context (Hcd : cd_ok (opened_cd (wk_gather c) i sock f)) (takes : list accept).

Lemma closed_unsent old now ss ds fd : worker_ok batch_size qs sent h o held t c old now ss ds fd -> unsent c i = [].
Proof.
  intros Hw. assert (default [] (wk_iovs c !! i) = []) as Hnone.
  { destruct (wk_iovs c !! i) as [l|] eqn:Hl; [|done]. by apply (wo_closed _ _ _ _ _ _ _ _ _ _ _ _ _ Hw i). }
  unfold unsent. destruct (wk_stage c) as [| | | | |j todo cont r] eqn:Hs; try done.
  case_decide as Hij; [|done]. exfalso. apply (wo_writing _ _ _ _ _ _ _ _ _ _ _ _ _ Hw j todo cont r Hs).
  rewrite <- Hij. destruct (lookup_lt_is_Some_2 (wk_iovs c) i) as [l Hl]; [|rewrite Hl in *; by simpl in Hnone; subst].
  rewrite (wo_iovs _ _ _ _ _ _ _ _ _ _ _ _ _ Hw), <- (dl_sockets _ _ _ _ _ _ _ (wo_gather _ _ _ _ _ _ _ _ _ _ _ _ _ Hw)).
  by eapply lookup_lt_Some.
Qed.

Lemma worker_opened :
  worker_inv batch_size qs sent h o held t c ->
  worker_inv batch_size qs' sent' h o held t (connect takes (opened_cd (wk_gather c) i sock f) c).
Proof.
  intros (old & now & ss & ds & fd & Hw). pose proof (closed_unsent _ _ _ _ _ Hw) as Hun.
  destruct Hw as [Wq Wg Wv Wi Wo Wr Wop Wroom Ws Wst Wd Wc Ww _].
  exists (at_i i [] old), (at_i i q now), (relabel (Z.of_nat i) ss), (at_i i [] ds), (at_i i sock fd).
  split; try done.
  - intros j. rewrite Hqs. unfold at_i. case_decide; [done|apply Wq].
  - apply opened_delivering; try done. eapply delivering_more; [apply seen_more|done].
  - simpl. by rewrite length_imap.
  - intros j Hj. unfold at_i. case_decide; [constructor|]. rewrite Hqs, decide_False by done.
    eapply Forall2_impl; [by apply Wr|]. intros. by apply right_more.
  - intros j s Hj Hne. change (handled (connect _ _ _)) with (handled c). rewrite take_relabel. unfold at_i, batch_lookups.
    rewrite from_relabel by lia. simpl in Hj |- *. case_decide as Hji; [done|].
    rewrite list_lookup_insert_ne in Hj by lia. by apply (Wop j s).
  - intros j s Hj. change (unsent (connect _ _ _) j) with (unsent c j). simpl in Hj. rewrite list_lookup_imap in Hj.
    apply fmap_Some in Hj as (s0 & Hs0 & ->). unfold at_i. destruct (decide (j = i)) as [->|Hne].
    + exists []. rewrite Hun. split; [done|]. rewrite (decide_True (P:=Z.of_nat i = Z.of_nat i)) by done.
      rewrite list_lookup_insert_eq, Hi by (by eapply lookup_lt_Some). rewrite decide_False by congruence. by right.
    + rewrite list_lookup_insert_ne, decide_True by done. rewrite decide_False by lia. by apply Ws.
  - change (serving batch_size sent' h o held c). by apply serving_more.
  - intros j. unfold at_i. by case_decide.
  - intros j l Hj Hl. simpl in Hj, Hl. destruct (decide (j = i)) as [->|Hne].
    + rewrite list_lookup_insert_eq in Hj by (by eapply lookup_lt_Some). by injection Hj.
    + rewrite list_lookup_insert_ne in Hj by done. by apply (Wc j).
Qed.
End accept.

(** ** The server *)

(** No request of the batch of thread [t] came from place [i] with the descriptor [sock]: none is left
    of a connection that had both before. *)
Definition fresh_at (sv : server) (t i : nat) (sock : Z) : Prop :=
  forall c e, sv_workers sv !! t = Some c -> e ∈ g_queries (wk_gather c) -> gq_place e <> ReplyTo (Z.of_nat i) sock.

Lemma connect_same takes c : connect takes (g_cd (wk_gather c)) c = c.
Proof.
  unfold connect, with_out, with_gather, with_cd. destruct c as [g vs iovs s out]. simpl. f_equal; [by destruct g|].
  apply list_eq. intros i. rewrite list_lookup_imap. destruct (out !! i); simpl; [by rewrite decide_True|done].
Qed.

Section serve.
Context (batch_size : Z) (h0 : heap) (n ms ev : Z).

Lemma server_cd_ok qs sent k sv held owns : server_inv batch_size h0 n ms ev qs sent k sv held owns -> Forall cd_ok (server_cds sv).
Proof.
  intros Hinv. apply Forall_forall. intros cd Hin. apply list_elem_of_fmap in Hin as (c & -> & Hin).
  apply list_elem_of_lookup in Hin as [t Hc].
  destruct (sv_threads _ _ _ _ _ _ _ _ _ _ _ Hinv t c Hc) as (o & l & _ & _ & old & now & ss & ds & fd & Hw).
  apply (wo_cd _ _ _ _ _ _ _ _ _ _ _ _ _ Hw).
Qed.

(** Who gets a connection gets it as [connect] has it, and the others are as before. *)
Lemma accepted_workers ws k cd cd' takes t :
  ((fun c => g_cd (wk_gather c)) <$> ws) !! k = Some cd ->
  zip_with (connect takes) (<[k := cd']> ((fun c => g_cd (wk_gather c)) <$> ws)) ws !! t =
    if decide (t = k) then connect takes cd' <$> (ws !! k) else ws !! t.
Proof.
  intros Hk. rewrite lookup_zip_with. destruct (decide (t = k)) as [->|Hne].
  - rewrite list_lookup_insert_eq by (by eapply lookup_lt_Some). simpl. by destruct (ws !! k).
  - rewrite list_lookup_insert_ne, list_lookup_fmap by done. destruct (ws !! t) as [c|]; [|done]. simpl. by rewrite connect_same.
Qed.

Lemma accept_inv k ps sock f cid place takes q sv x' held owns :
  server_inv batch_size h0 n ms ev (current ps) (sent_by ps) k sv held owns ->
  listener_ok (server_cds sv) (Searching sock (Some f) cid place) ->
  server_accept takes (Front sv (Searching sock (Some f) cid place)) = Ok x' -> fr_listener x' = Counting ->
  let t := Z.to_nat cid in let i := Z.to_nat place in fresh_at sv t i sock -> GatherThms.carries f q ->
  server_inv batch_size h0 n ms ev (current (ps ++ [Peer t i q])) (sent_by (ps ++ [Peer t i q])) (k + 1) (fr_server x') held owns.
Proof.
  intros Hinv Hl Hacc Hcount t i Hfresh0 Hq. pose proof (server_cd_ok _ _ _ _ _ _ Hinv) as Hcds.
  unfold server_accept in Hacc. cbn [fr_server fr_listener] in Hacc. apply bind_Ok in Hacc as ([[cds acs] l'] & Ha & Hx).
  apply Ok_inj in Hx. pose proof (tcpserver_ok _ (sv_acs sv) _ Hcds Hl) as Hok. rewrite Ha in Hok.
  destruct Hok as (Hall & _ & _ & [[_ Hno]|[Hop _]] & _); [by rewrite <- Hx in Hcount|].
  destruct Hop as (sock0 & f0 & cid0 & i0 & cd & [= <- <- <- <-] & Hk0 & _ & Hi & ->). fold t i in Hk0, Hi, Hall, Hx.
  destruct Hl as [Hsock _]. pose proof (accepted_workers (sv_workers sv) t cd) as Hws. pose proof Hk0 as Hc.
  unfold server_cds in Hc. rewrite list_lookup_fmap in Hc. apply fmap_Some in Hc as (c & Hc & ->).
  assert (forall e, e ∈ g_queries (wk_gather c) -> gq_place e <> ReplyTo (Z.of_nat i) sock) as Hfresh
    by (intros e He; by apply (Hfresh0 c)).
  assert (cd_ok (opened_cd (wk_gather c) i sock f)) as Hcd.
  { rewrite Forall_lookup in Hall. apply (Hall t). rewrite list_lookup_insert_eq; [done|]. by eapply lookup_lt_Some. }
  assert (forall q0, sent_by ps q0 -> sent_by (ps ++ [Peer t i q]) q0) as Hmore by (intros q0; apply sent_more).
  subst x'. split.
  - simpl. apply lworld_more. exact (sv_world _ _ _ _ _ _ _ _ _ _ _ Hinv).
  - intros s own e hs el Hown He Hwr Hel. eapply good_more; [exact Hmore|].
    exact (sv_ready _ _ _ _ _ _ _ _ _ _ _ Hinv s own e hs el Hown He Hwr Hel).
  - intros t' d Hd. cbn [fr_server sv_workers] in Hd. unfold server_cds in Hd.
    rewrite (Hws _ _ t') in Hd by exact Hk0.
    destruct (decide (t' = t)) as [->|Hne].
    + rewrite Hc in Hd. injection Hd as <-. destruct (sv_threads _ _ _ _ _ _ _ _ _ _ _ Hinv t c Hc) as (o & l & Ho & Hl & Hw).
      exists o, l. split; [done|]. split; [done|].
      apply (worker_opened batch_size (current ps) _ (sent_by ps) _ Hmore _ _ _ _ _ _ Hi _ Hsock Hfresh f q); try done.
      intros j0. rewrite current_new. destruct (decide (j0 = Z.of_nat i)); [by rewrite decide_True|].
      rewrite decide_False; [done|]. by intros [_ ?].
    + destruct (sv_threads _ _ _ _ _ _ _ _ _ _ _ Hinv t' d Hd) as (o & l & Ho & Hl & Hw).
      exists o, l. split; [done|]. split; [done|]. apply (worker_more batch_size (current ps) _ (sent_by ps)); try done.
      intros j0. rewrite current_new, decide_False; [done|]. by intros [? _].
Qed.

(** Where no place is taken, nothing happens to the threads. *)
Lemma listen_inv k ps takes x x' held owns :
  server_inv batch_size h0 n ms ev (current ps) (sent_by ps) k (fr_server x) held owns ->
  listener_ok (server_cds (fr_server x)) (fr_listener x) -> server_accept takes x = Ok x' -> fr_listener x' <> Counting ->
  server_inv batch_size h0 n ms ev (current ps) (sent_by ps) (k + 1) (fr_server x') held owns /\
  server_cds (fr_server x') = server_cds (fr_server x).
Proof.
  destruct x as [sv l]. cbn [fr_server fr_listener]. intros Hinv Hl Hacc Hno. pose proof (server_cd_ok _ _ _ _ _ _ Hinv) as Hcds.
  unfold server_accept in Hacc. cbn [fr_server fr_listener] in Hacc. apply bind_Ok in Hacc as ([[cds acs] l'] & Ha & Hx).
  apply Ok_inj in Hx as <-. pose proof (tcpserver_ok _ (sv_acs sv) _ Hcds Hl) as Hok. rewrite Ha in Hok.
  destruct Hok as (_ & _ & _ & [[-> _]|[_ ?]] & _); [|done]. cbn [fr_server].
  assert (zip_with (connect takes) (server_cds sv) (sv_workers sv) = sv_workers sv) as Hws.
  { apply list_eq. intros t. rewrite lookup_zip_with. unfold server_cds. rewrite list_lookup_fmap.
    destruct (sv_workers sv !! t) as [c|]; [|done]. simpl. by rewrite connect_same. }
  rewrite Hws. split; [|done]. destruct Hinv as [Hw Hr Ht]. split; simpl; [by apply lworld_more|exact Hr|exact Ht].
Qed.
End serve.
