(* ===== verification/ServeThms.v ===== *)
(** * ServeThms: the hash server over the locking table, from its start on

    What the invariant of [ServeInv] means for the clients at the other end. *)
From stdpp Require Import base list gmap relations.
From Stdlib Require Import ZArith QArith Lia.
From S2P Require Import Prelude Protocol ALock Value Partition PartitionInv PartitionThms HashTable HashTableThms Estates.
From S2P Require Import Stream HashClient Gather GatherThms Reply Holders Locking LockingThms LockingWorld LockingWorldInv.
From S2P Require Import LockingWorldThms HashServer HashServerThms Serve ServeInv ServeAccept.

Local Open Scope Z_scope.

(** The server with the connections so far. An action is one of a client thread, or one of
    [tcpserver]. [accept] gives a descriptor; where [tcpserver] takes the place for it, the connection brings
    well-formed queries of a client ([carries]), of which the insertions fit into a partition
    ([ms]), and no request of the batch there has its place and descriptor. *)
Inductive serve_step `{Machine} (spins : nat) (ht : hash_table) (batch_size verbose ms : Z) :
    front * list peer -> front * list peer -> Prop :=
  | step_thread t sv sv' l ps :
      server_act spins ht batch_size verbose t sv = Some (Ok sv') ->
      serve_step spins ht batch_size verbose ms (Front sv l, ps) (Front sv' l, ps)
  | step_arrive sock file sv ps :
      sock <> -1 -> serve_step spins ht batch_size verbose ms (Front sv Listening, ps) (Front sv (connected sock file), ps)
  | step_listen takes x x' ps :
      server_accept takes x = Ok x' -> fr_listener x' <> Counting ->
      serve_step spins ht batch_size verbose ms (x, ps) (x', ps)
  | step_open sock f cid i takes q sv x' ps :
      server_accept takes (Front sv (Searching sock (Some f) cid i)) = Ok x' -> fr_listener x' = Counting ->
      fresh_at sv (Z.to_nat cid) (Z.to_nat i) sock -> GatherThms.carries f q -> Forall (fits_table ms) q ->
      serve_step spins ht batch_size verbose ms (Front sv (Searching sock (Some f) cid i), ps)
        (x', ps ++ [Peer (Z.to_nat cid) (Z.to_nat i) q]).

Section served.
Context `{M : Machine} (spins : nat).
Context (raw : hash_table) (raws : list (partition * list alock)) (size n : Z) (m : mem) (threads : list (list Z)).
Context (ht : hash_table) (start : server) (Hstart : run_server raw raws size n m threads = Ok (ht, start)).
Context (Hsize : 0 <= size < 2 ^ 63) (Hclear : Forall (fun r => clear_lock n (plock r.1)) raws).
Context (Hthreads : 0 < Z.of_nat (length threads) <= n).
Context (batch_size verbose : Z) (Hbatch : 0 < batch_size).
Context (Hvalues : Forall (fun values => Z.of_nat (length values) = batch_size) threads).

Lemma created : create_hash_table raw raws size n EVICT_LRU = Ok ht /\ ht_nservers ht = n /\
  start = start_server ht m 0 ((fun values => start_worker (client_data_init (replicate (Z.to_nat MAX_SOCKETS) NULL_FILE)) values
    (replicate (Z.to_nat MAX_SOCKETS) (SocketOut [] [] false))) <$> threads).
Proof.
  pose proof Hstart as H. unfold run_server in H. apply bind_Ok in H as (t & Ht & H). apply Ok_inj in H.
  injection H as <- <-. split; [done|]. split; [|done]. unfold create_hash_table in Ht.
  apply bind_Ok in Ht as (u & _ & Ht). apply bind_Ok in Ht as (ps & _ & Ht). apply Ok_inj in Ht. by rewrite <- Ht.
Qed.

(** A thread before its loop. *)
Lemma start_worker_inv (h : heap) t values :
  Z.of_nat (length values) = batch_size ->
  worker_inv batch_size (current []) (sent_by []) h None [] t
    (start_worker (client_data_init (replicate (Z.to_nat MAX_SOCKETS) NULL_FILE)) values
      (replicate (Z.to_nat MAX_SOCKETS) (SocketOut [] [] false))).
Proof.
  intros Hv. exists (fun _ => []), (fun _ => []), [], (fun _ => []), (fun _ => 0). unfold start_worker.
  rewrite MAX_SOCKETS_val. change (Z.to_nat 128) with 128%nat. unfold client_data_init.
  rewrite MAX_SOCKETS_val. change (Z.to_nat 128) with 128%nat.
  split; cbn [wk_gather wk_values wk_iovs wk_out wk_stage gather_start g_cd sockets fins g_valuebuf g_queries]; try done.
  - split; cbn [gather_start g_cd sockets fins g_valuebuf g_queries]; try done; [unfold nqueries; simpl; lia|].
    intros i s f Hs Hf. apply lookup_replicate in Hs as [-> _]. apply lookup_replicate in Hf as [-> _].
    exists []. split; try done. by left.
  - intros i l Hl. apply lookup_replicate in Hl as [-> _]. simpl. lia.
  - intros i s Hs. apply lookup_replicate in Hs as [-> Hi]. exists []. split; [|by right].
    unfold unsent. cbn [wk_stage wk_iovs]. by rewrite lookup_replicate_2.
  - intros i l _ Hl. by apply lookup_replicate in Hl as [-> _].
Qed.

Lemma start_server_inv :
  server_inv batch_size (hp m) n (lshare size n) EVICT_LRU (current []) (sent_by []) 0 start
    (replicate (length threads) []) (no_holders (partitions ht)).
Proof.
  destruct created as (Hht & _ & ->). unfold start_server. rewrite length_fmap. split.
  - exact (start_linv raw raws size n EVICT_LRU ht Hht ltac:(by left) Hsize Hclear (length threads) (proj2 Hthreads) m).
  - intros s own e hs el Hown He. unfold no_holders in Hown. apply lookup_replicate in Hown as [-> _].
    by rewrite lookup_empty in He.
  - intros t c Hc. cbn [sv_workers sv_state calls] in *. rewrite list_lookup_fmap in Hc. apply fmap_Some in Hc as (vs & Hvs & ->).
    pose proof (lookup_lt_Some _ _ _ Hvs) as Hlt. exists None, []. split; [by apply lookup_replicate|].
    split; [by apply lookup_replicate|]. apply start_worker_inv. rewrite Forall_lookup in Hvalues. by apply (Hvalues t).
Qed.

Lemma bounds : 0 < n < 2 ^ 31 /\ lshare size n < 2 ^ 63.
Proof.
  destruct created as (Hht & _). destruct (created_parts _ _ _ _ _ _ Hht) as (Hpos & _).
  pose proof (created_bound _ _ _ _ _ _ Hht) as Hb. pose proof (share_bound _ _ _ _ _ _ Hht Hsize Hb) as Hshare.
  unfold MAX_CLIENTS in Hb. split; [lia|apply Hshare].
Qed.

(** The invariant, with what is known of the queries. *)
Definition served (k : Z) (x : front * list peer) : Prop :=
  (forall q, sent_by x.2 q -> sized q /\ fits_table (lshare size n) q) /\
  (length (server_cds (fr_server x.1)) = length threads /\ listener_ok (server_cds (fr_server x.1)) (fr_listener x.1)) /\
  exists held owns,
    server_inv batch_size (hp m) n (lshare size n) EVICT_LRU (current x.2) (sent_by x.2) k (fr_server x.1) held owns.

(** A client thread leaves [tcpserver] in order. *)
Lemma listener_kept sv l t sv' :
  Forall cd_ok (server_cds sv) -> server_act spins ht batch_size verbose t sv = Some (Ok sv') ->
  length (server_cds sv) = length threads /\ listener_ok (server_cds sv) l ->
  length (server_cds sv') = length threads /\ listener_ok (server_cds sv') l.
Proof.
  intros Hcds Hact [Hlen Hl]. unfold server_act in Hact. apply bind_Some in Hact as (c & Hc & [= Hact]).
  apply bind_Ok in Hact as ([[st acs] c'] & Hgo & Hact). apply Ok_inj in Hact as <-.
  assert (server_cds sv !! t = Some (g_cd (wk_gather c))) as Hk by (unfold server_cds; by rewrite list_lookup_fmap, Hc).
  assert (server_cds (Server st acs (<[t := c']> (sv_workers sv))) = <[t := g_cd (wk_gather c')]> (server_cds sv)) as ->
    by (unfold server_cds; simpl; by rewrite list_fmap_insert).
  rewrite length_insert. split; [done|]. eapply listener_ok_less; [|exact Hl].
  apply (less_changed _ _ (g_cd (wk_gather c))); [exact Hk|].
  apply (clientgo_count _ _ _ _ _ _ _ _ _ _ _ Hgo). by eapply Forall_lookup_1.
Qed.

Lemma act_served k sv l ps t r :
  0 <= k < 2 ^ 62 -> served k (Front sv l, ps) -> server_act spins ht batch_size verbose t sv = Some r ->
  match r with
  | Ok sv' => served (k + 1) (Front sv' l, ps)
  | Fault f => exists c, sv_workers sv !! t = Some c /\ may_fail_here (lshare size n) EVICT_LRU sv c f
  end.
Proof.
  intros Hk (Hfits & Hl & held & owns & Hinv) Hact. destruct bounds as [Hn Hms]. destruct created as (_ & Hns & _).
  pose proof (server_act_ok spins ht batch_size verbose Hbatch (hp m) n (lshare size n) EVICT_LRU Hn Hms Hns (current ps)
    (sent_by ps) (current_sent ps) Hfits k sv held owns t r Hk Hinv Hact) as Hok.
  destruct r as [sv'|f]; [|exact Hok]. split; [done|]. split; [|done].
  apply (listener_kept sv l t sv'); [by apply (server_cd_ok _ _ _ _ _ _ _ _ _ _ _ Hinv)|done|done].
Qed.

(** What an action of [tcpserver] leaves of it and of the places. *)
Lemma listened takes x x' :
  Forall cd_ok (server_cds (fr_server x)) -> server_accept takes x = Ok x' ->
  length (server_cds (fr_server x)) = length threads /\ listener_ok (server_cds (fr_server x)) (fr_listener x) ->
  length (server_cds (fr_server x')) = length threads /\ listener_ok (server_cds (fr_server x')) (fr_listener x').
Proof.
  intros Hcds Hacc [Hlen Hl]. unfold server_accept in Hacc. apply bind_Ok in Hacc as ([[cds acs] l'] & Ha & Hx).
  apply Ok_inj in Hx as <-. pose proof (tcpserver_ok _ (sv_acs (fr_server x)) _ Hcds Hl) as Hok. rewrite Ha in Hok.
  destruct Hok as (_ & Hl' & Hlen' & _). cbn [fr_server fr_listener].
  assert (server_cds (Server (sv_state (fr_server x)) acs (zip_with (connect takes) cds (sv_workers (fr_server x)))) = cds) as ->;
    [|split; [congruence | done]].
  unfold server_cds. simpl. apply list_eq. intros t. rewrite list_lookup_fmap, lookup_zip_with.
  destruct (cds !! t) as [cd|] eqn:Hcd; [|done]. pose proof (lookup_lt_Some _ _ _ Hcd) as Hlt.
  unfold server_cds in Hlen'. rewrite length_fmap in Hlen'.
  destruct (lookup_lt_is_Some_2 (sv_workers (fr_server x)) t) as [c Hc]; [lia|]. by rewrite Hc.
Qed.

Lemma step_served k x y :
  0 <= k < 2 ^ 62 -> served k x -> serve_step spins ht batch_size verbose (lshare size n) x y -> served (k + 1) y.
Proof.
  intros Hk Hx Hstep. destruct Hstep as [t sv sv' l ps Hact|sock f sv ps Hsock|takes x x' ps Hacc Hno
    |sock f cid i takes q sv x' ps Hacc Hcount Hfresh Hq Hfit].
  - exact (act_served k sv l ps t _ Hk Hx Hact).
  - destruct Hx as (Hfits & [Hlen Hl] & held & owns & [Hw Hr Ht]). split; [done|]. split; [split; [done|]; simpl in *; lia|].
    exists held, owns. split; simpl; [by apply lworld_more|exact Hr|exact Ht].
  - destruct Hx as (Hfits & Hlist & held & owns & Hinv). pose proof (server_cd_ok _ _ _ _ _ _ _ _ _ _ _ Hinv) as Hcds.
    split; [done|]. split; [by apply (listened takes x)|]. exists held, owns.
    exact (proj1 (listen_inv _ _ _ _ _ k ps takes x x' held owns Hinv (proj2 Hlist) Hacc Hno)).
  - destruct Hx as (Hfits & Hlist & held & owns & Hinv). pose proof (server_cd_ok _ _ _ _ _ _ _ _ _ _ _ Hinv) as Hcds.
    split; [|split; [by apply (listened takes _ _ Hcds Hacc)|]].
    + intros q0 (p & Hp & Hq0). simpl in Hp. apply elem_of_app in Hp as [Hp|Hp]; [apply Hfits; by exists p|].
      apply list_elem_of_singleton in Hp as ->. simpl in Hq0. rewrite Forall_forall in Hfit. split; [|by apply Hfit].
      destruct Hq as (_ & Hsz & _). rewrite Forall_forall in Hsz. by apply Hsz.
    + exists held, owns.
      exact (accept_inv _ _ _ _ _ k ps sock f cid i takes q sv x' held owns Hinv (proj2 Hlist) Hacc Hcount Hfresh Hq).
Qed.

Lemma steps_served j k x y :
  nsteps (serve_step spins ht batch_size verbose (lshare size n)) j x y -> 0 <= k -> k + Z.of_nat j < 2 ^ 62 ->
  served k x -> served (k + Z.of_nat j) y.
Proof.
  intros Hs. revert k. induction Hs as [x|j x y z Hxy _ IH]; intros k Hk Hlt Hx; [by rewrite Z.add_0_r|].
  replace (k + Z.of_nat (S j)) with (k + 1 + Z.of_nat j) by lia. apply IH; [lia|lia|].
  apply (step_served k x y); [lia|done|done].
Qed.

Context (j : nat) (sv : server) (lis : listener) (ps : list peer) (Hj : Z.of_nat (S j) < 2 ^ 62).
Context (Hsteps : nsteps (serve_step spins ht batch_size verbose (lshare size n)) j
  (Front start Listening, []) (Front sv lis, ps)).

Lemma reached_served : served (Z.of_nat j) (Front sv lis, ps).
Proof.
  apply (steps_served j 0 (Front start Listening, [])); [done|lia|lia|].
  split; [intros q (p & Hp & _); by apply elem_of_nil in Hp|]. split.
  - destruct created as (_ & _ & ->). split; [|done]. unfold server_cds. simpl. by rewrite !length_fmap.
  - exists (replicate (length threads) []), (no_holders (partitions ht)). apply start_server_inv.
Qed.

(** C1: the hash server with the locking table goes wrong at one place only. The clients send
    well-formed queries of the client library, of values of at most 1 MB which fit into a
    partition (what other bytes can do is in [GatherThms.request_outcome]); there are at most
    [nservers] client threads, the lock slots are clear at first, and a descriptor is not used again for the
    place where a batch still has it. Then, in whatever pieces the queries arrive, whenever connections come and
    go, and in whatever order the client threads and [tcpserver] act, no action reads or
    writes outside an object, uses memory that was freed or finds a count out of range, but for
    one: filling in the value of an insertion, when it is longer than the block that the
    allocator gave. [hash_insert] asks for 64 bytes, so that nothing but the generosity of the allocator
    makes room. Other actions fail only where the code waits or gives up: in [writev] while the other
    end takes nothing, in [accept] until a connection comes, and on the assertion that an
    insertion got memory. *)
Theorem server_threads_safe :
  (forall t f, server_act spins ht batch_size verbose t sv = Some (Fault f) ->
     exists c, sv_workers sv !! t = Some c /\
     match f with
     | Undefined => exists k e v el, wk_stage c = Handling k /\ g_queries (wk_gather c) !! Z.to_nat k = Some e /\
         q_optype (gq_query e) = optype_code OPTYPE_INSERT /\ wk_values c !! Z.to_nat k = Some v /\
         hp (lmem (sv_state sv)) !! elem_of_ptr v = Some el /\ Z.of_nat (length (value el)) < q_size (gq_query e)
     | Blocked => exists i todo cont r s, wk_stage c = Sending i todo cont r /\
         wk_out c !! Z.to_nat i = Some s /\ so_accepts s = []
     | AssertFailed => exists b e, wk_stage c = Querying b /\ e ∈ g_queries (wk_gather c) /\
         q_optype (gq_query e) = optype_code OPTYPE_INSERT /\ elem_size (q_size (gq_query e)) <= lshare size n /\
         refused (base.size (hp (lmem (sv_state sv)))) (q_size (gq_query e))
     end) /\
  (forall takes, match server_accept takes (Front sv lis) with
     | Ok _ => True
     | Fault e => e = Blocked /\ lis = Listening
     end).
Proof.
  pose proof reached_served as Hserved. split.
  - intros t f Hact. destruct (act_served (Z.of_nat j) sv lis ps t _ ltac:(lia) Hserved Hact) as (c & Hc & Hf). exists c. split; [done|].
    destruct f; simpl in *; [done|done|]. destruct Hf as [[? _]|Hf]; [done|exact Hf].
  - intros takes. destruct Hserved as (_ & [_ Hl] & held & owns & Hinv).
    pose proof (server_cd_ok _ _ _ _ _ _ _ _ _ _ _ Hinv) as Hcds. simpl in Hl, Hcds.
    pose proof (tcpserver_ok _ (sv_acs sv) _ Hcds Hl) as Hok. unfold server_accept. cbn [fr_server fr_listener].
    destruct (tcpserver _ _ _) as [[[cds acs] l']|e']; [done|exact Hok].
Qed.

(** C2: the hash server with the locking table answers right, for well-formed queries of the client
    library whose values, of at most 1 MB, fit into a partition, and under the conditions of C1. It holds as far as
    the server gets: a value that does not fit the block of its element ends the run, as C1 says. On a connection on which no
    [writev] failed, what was written is the beginning of replies to the lookups sent on it, one
    each and in their order: each is NULL or the whole value that some client sent for that
    key. When a thread is back at gathering, every reply it prepared is written whole; and on
    a connection that is still open these answer all lookups of the batches before, the rest of
    what was sent being in the batch or still to be read. *)
Theorem server_replies_right t c (i : nat) s :
  sv_workers sv !! t = Some c -> wk_out c !! i = Some s -> so_failed s = false ->
  exists ds, Forall2 (right_reply (sent_by ps)) (take (length ds) (lookups (current ps t (Z.of_nat i)))) ds /\
    (exists rest, so_sent s ++ rest = concat (value_bytes <$> ds)) /\
    (wk_stage c = Gathering -> so_sent s = concat (value_bytes <$> ds) /\
       forall sock f, sockets (g_cd (wk_gather c)) !! i = Some sock -> sock <> -1 -> fins (g_cd (wk_gather c)) !! i = Some f ->
       exists old batch rest, sublist batch (g_queries (wk_gather c)) /\ length ds = length (lookups old) /\
         server_view <$> current ps t (Z.of_nat i) = (server_view <$> old) ++
           (entry_view (g_valuebuf (wk_gather c)) <$> batch) ++ (server_view <$> rest) /\
         content f = concat (request_bytes <$> rest)).
Proof.
  intros Hc Hs Hok. destruct reached_served as (_ & _ & held & owns & Hinv). simpl in Hinv.
  destruct (sv_threads _ _ _ _ _ _ _ _ _ _ _ Hinv t c Hc) as (o & l & Ho & Hl & old & now & ss & ds & fd & Hw).
  destruct (wo_sent _ _ _ _ _ _ _ _ _ _ _ _ _ Hw i s Hs) as (bs & Hbs & [Hf|Hsent]); [by rewrite Hok in Hf|].
  pose proof (wo_out _ _ _ _ _ _ _ _ _ _ _ _ _ Hw) as Hout. pose proof (lookup_lt_Some _ _ _ Hs) as Hi.
  exists (ds (Z.of_nat i)). split; [apply (wo_right _ _ _ _ _ _ _ _ _ _ _ _ _ Hw); lia|]. split; [by exists bs|].
  intros Hg. pose proof (wo_stage _ _ _ _ _ _ _ _ _ _ _ _ _ Hw) as Hst. unfold serving in Hst. rewrite Hg in Hst.
  destruct Hst as [_ Hno]. split.
  - unfold unsent in Hbs. rewrite Hg in Hbs. rewrite Hno, lookup_replicate_2 in Hbs by lia.
    simpl in Hbs. injection Hbs as <-. by rewrite app_nil_r in Hsent.
  - intros sock f Hso Hopen Hf. pose proof (wo_gather _ _ _ _ _ _ _ _ _ _ _ _ _ Hw) as Hd.
    destruct (dl_conn _ _ _ _ _ _ _ Hd i sock f Hso Hf) as [rest Hconn].
    exists (old (Z.of_nat i)), (from (Z.of_nat i) ss), rest. split_and!.
    + rewrite <- (dl_entries _ _ _ _ _ _ _ Hd). unfold from. apply fmap_sublist, sublist_filter.
    + rewrite (wo_open _ _ _ _ _ _ _ _ _ _ _ _ _ Hw i sock Hso Hopen). unfold handled. rewrite Hg, take_0. simpl. lia.
    + rewrite (cn_got _ _ _ _ _ _ _ _ Hconn), (wo_queries _ _ _ _ _ _ _ _ _ _ _ _ _ Hw). by rewrite fmap_app.
    + apply (cn_content _ _ _ _ _ _ _ _ Hconn).
Qed.
End served.

(** ** A server with two threads

    Two connections come: the first, to thread 0, brings the insertion and the lookup of
    [demo_queries], the second, to thread 1, a lookup of the same key. Thread 0 takes the
    insertion and goes on to its third loop; then thread 1 answers the lookup, with a
    [writev] that stops within the size, one that takes nothing and one that takes the rest. *)
Lemma run_schedule_steps `{Machine} spins ht batch_size verbose ms lis ps l sv sv' :
  run_schedule spins ht batch_size verbose l sv = Ok sv' ->
  exists j, (j <= length l)%nat /\
    nsteps (serve_step spins ht batch_size verbose ms) j (Front sv lis, ps) (Front sv' lis, ps).
Proof.
  revert sv. induction l as [|t l IH]; intros sv Hr.
  - apply Ok_inj in Hr as <-. exists 0%nat. split; [done|constructor].
  - cbn [run_schedule] in Hr. apply bind_Ok in Hr as (sv1 & H1 & Hr). destruct (IH sv1 Hr) as (j & Hj & Hs).
    destruct (server_act spins ht batch_size verbose t sv) as [r|] eqn:Hact; simpl in H1.
    + subst r. exists (S j). split; [simpl; lia|]. econstructor; [by eapply step_thread|done].
    + apply Ok_inj in H1 as <-. exists j. split; [simpl; lia|done].
Qed.

Definition lookup_queries : list client_query := [ClientQuery OPTYPE_LOOKUP 7 0 []].

Definition lookup_stream : stream := Stream (concat (request_bytes <$> lookup_queries)) [Stall; Stall; Closed].

Lemma lookup_carries : GatherThms.carries lookup_stream lookup_queries.
Proof.
  split; [reflexivity|]. split.
  - repeat constructor; simpl; vm_compute; reflexivity || discriminate.
  - exists (Stream [] []), 100%nat. eexists. split; vm_compute; reflexivity.
Qed.

Definition or_else {A} (r : result A) (x : A) : A := match r with Ok y => y | Fault _ => x end.

Definition serve_threads : list (list Z) := replicate 2 (replicate 10 0).

Definition serve_started : hash_table * server :=
  or_else (run_server demo_raw demo_raws 1024 2 (Mem ∅ 0) serve_threads) (demo_raw, Server (LState [] (Mem ∅ 0) []) 0 []).

(** [tcpserver] acts alone [k] times. *)
Fixpoint accept_alone (k : nat) (takes : list accept) (x : front) : front :=
  match k with O => x | S k => accept_alone k takes (or_else (server_accept takes x) x) end.

(** A connection that comes, up to its place, and then counted. *)
Definition serve_search (sock : Z) (f : stream) (sv : server) : front :=
  accept_alone 4 [] (Front sv (connected sock (Some f))).
Definition serve_opened (sock : Z) (f : stream) (takes : list accept) (sv : server) : front :=
  or_else (server_accept takes (serve_search sock f sv)) (serve_search sock f sv).
Definition serve_counted (sock : Z) (f : stream) (takes : list accept) (sv : server) : server :=
  fr_server (or_else (server_accept [] (serve_opened sock f takes sv)) (serve_opened sock f takes sv)).

Definition serve_one : server := serve_counted 9 demo_stream [Took 40] serve_started.2.

Definition serve_two (takes : list accept) : server := serve_counted 11 lookup_stream takes serve_one.

Definition serve_run (takes : list accept) (k0 k1 : nat) : server :=
  or_else (run_schedule 8 demo_table 10 0 (replicate k0 0%nat ++ replicate k1 1%nat) (serve_two takes)) (serve_two takes).

Definition serve_peers : list peer := [Peer 0 0 demo_queries; Peer 1 0 lookup_queries].

(** A connection that comes to threads of which [cid] has the fewest. *)
Lemma accept_steps k takes x ps :
  (forall j, (j < k)%nat -> exists y, server_accept takes (accept_alone j takes x) = Ok y /\ fr_listener y <> Counting) ->
  nsteps (serve_step 8 demo_table 10 0 512) k (x, ps) (accept_alone k takes x, ps).
Proof.
  revert x. induction k as [|k IH]; intros x Hx; [constructor|].
  destruct (Hx 0%nat ltac:(lia)) as (y & Hy & Hno). cbn [accept_alone] in Hy.
  apply (nsteps_l _ _ _ (y, ps)); [by apply (step_listen 8 demo_table 10 0 512 takes)|]. cbn [accept_alone]. rewrite Hy.
  apply IH. intros j Hj. specialize (Hx (S j) ltac:(lia)). cbn [accept_alone] in Hx. by rewrite Hy in Hx.
Qed.

Lemma connect_steps sock f takes cid q sv ps :
  sock <> -1 ->
  (forall j, (j < 4)%nat -> exists y, server_accept [] (accept_alone j [] (Front sv (connected sock (Some f)))) = Ok y /\
     fr_listener y <> Counting) ->
  serve_search sock f sv = Front sv (Searching sock (Some f) cid 0) ->
  (exists y, server_accept takes (serve_search sock f sv) = Ok y /\ fr_listener y = Counting /\
     exists z, server_accept [] y = Ok z /\ fr_listener z = Listening) ->
  fresh_at sv (Z.to_nat cid) 0 sock -> GatherThms.carries f q -> Forall (fits_table 512) q ->
  nsteps (serve_step 8 demo_table 10 0 512) 7 (Front sv Listening, ps)
    (Front (serve_counted sock f takes sv) Listening, ps ++ [Peer (Z.to_nat cid) 0 q]).
Proof.
  intros Hsock Hscan Hsearch (y & Hy & Hcount & z & Hz & Hl) Hfresh Hq Hfit.
  apply (nsteps_l _ _ _ (Front sv (connected sock (Some f)), ps)); [by apply step_arrive|].
  apply (nsteps_trans 4 2 _ (serve_search sock f sv, ps)); [by apply accept_steps|].
  unfold serve_counted, serve_opened. rewrite Hy. cbn [or_else]. rewrite Hz. cbn [or_else]. rewrite Hsearch in Hy |- *.
  apply (nsteps_l _ _ _ (y, ps ++ [Peer (Z.to_nat cid) (Z.to_nat 0) q])).
  - by apply (step_open 8 demo_table 10 0 512 sock f cid 0 takes q sv).
  - apply nsteps_once. replace (Front (fr_server z) Listening) with z by (rewrite <- Hl; by destruct z).
    apply (step_listen 8 demo_table 10 0 512 []); [exact Hz|]. by rewrite Hl.
Qed.

Lemma serve_connected takes :
  nsteps (serve_step 8 demo_table 10 0 512) 14 (Front serve_started.2 Listening, [])
    (Front (serve_two takes) Listening, serve_peers).
Proof.
  apply (nsteps_trans 7 7 _ (Front serve_one Listening, [Peer 0 0 demo_queries])).
  - apply (connect_steps 9 demo_stream [Took 40] 0 demo_queries serve_started.2 []).
    + discriminate.
    + intros [|[|[|[|j]]]] Hj; [..|lia]; (eexists; split; [vm_compute; reflexivity | discriminate]).
    + vm_compute. reflexivity.
    + eexists. split; [vm_compute; reflexivity|]. split; [reflexivity|]. eexists. split; vm_compute; reflexivity.
    + intros c e Hc He. vm_compute in Hc. injection Hc as <-. by apply elem_of_nil in He.
    + exact demo_carries.
    + repeat constructor; vm_compute; reflexivity || discriminate.
  - apply (connect_steps 11 lookup_stream takes 1 lookup_queries serve_one [Peer 0 0 demo_queries]).
    + discriminate.
    + intros [|[|[|[|j]]]] Hj; [..|lia]; (eexists; split; [vm_compute; reflexivity | discriminate]).
    + vm_compute. reflexivity.
    + eexists. split; [vm_compute; reflexivity|]. split; [reflexivity|]. eexists. split; vm_compute; reflexivity.
    + intros c e Hc He. vm_compute in Hc. injection Hc as <-. by apply elem_of_nil in He.
    + exact lookup_carries.
    + repeat constructor; vm_compute; reflexivity || discriminate.
Qed.

Lemma serve_started_ok : run_server demo_raw demo_raws 1024 2 (Mem ∅ 0) serve_threads = Ok (demo_table, serve_started.2).
Proof. reflexivity. Qed.

Lemma serve_values : Forall (fun values : list Z => Z.of_nat (length values) = 10) serve_threads.
Proof. repeat constructor. Qed.

(** The steps of such a run, within the bound of the theorems. *)
Lemma serve_run_steps takes k0 k1 :
  run_schedule 8 demo_table 10 0 (replicate k0 0%nat ++ replicate k1 1%nat) (serve_two takes) = Ok (serve_run takes k0 k1) ->
  (k0 + k1 < 2000)%nat ->
  exists j, Z.of_nat (S j) < 2 ^ 62 /\
    nsteps (serve_step 8 demo_table 10 0 (lshare 1024 2)) j (Front serve_started.2 Listening, [])
      (Front (serve_run takes k0 k1) Listening, serve_peers).
Proof.
  intros Hr Hk. destruct (run_schedule_steps 8 demo_table 10 0 512 Listening serve_peers _ _ _ Hr) as (j & Hj & Hs).
  exists (14 + j)%nat. rewrite length_app, !length_replicate in Hj. split; [lia|].
  exact (nsteps_trans 14 j _ _ _ (serve_connected takes) Hs).
Qed.

(** The other end takes three bytes, and no more. *)
Lemma server_threads_safe_witness :
  server_act 8 demo_table 10 0 1 (serve_run [Took 3] 155 142) = Some (Fault Blocked) /\
  exists c, sv_workers (serve_run [Took 3] 155 142) !! 1%nat = Some c.
Proof.
  destruct (serve_run_steps [Took 3] 155 142 ltac:(vm_compute; reflexivity) ltac:(lia)) as (j & Hj & Hs).
  assert (server_act 8 demo_table 10 0 1 (serve_run [Took 3] 155 142) = Some (Fault Blocked)) as Hact
    by (vm_compute; reflexivity).
  destruct (server_threads_safe 8 demo_raw demo_raws 1024 2 (Mem ∅ 0) serve_threads demo_table serve_started.2 serve_started_ok
    ltac:(split; reflexivity || discriminate) demo_clear ltac:(split; reflexivity || discriminate) 10 0 ltac:(reflexivity) serve_values
    j _ _ _ Hj Hs) as [H _].
  destruct (H 1%nat Blocked Hact) as (c & Hc & _). split; [exact Hact|]. exists c. exact Hc.
Defined.

Lemma server_replies_right_witness :
  exists ds, Forall2 (right_reply (sent_by serve_peers)) (take (length ds) [7]) ds /\ le 4 3 ++ [1; 2; 3] = concat (value_bytes <$> ds).
Proof.
  destruct (serve_run_steps [Took 3; Later; Took 40] 155 290 ltac:(vm_compute; reflexivity) ltac:(lia)) as (j & Hj & Hs).
  destruct (server_replies_right 8 demo_raw demo_raws 1024 2 (Mem ∅ 0) serve_threads demo_table serve_started.2 serve_started_ok
    ltac:(split; reflexivity || discriminate) demo_clear ltac:(split; reflexivity || discriminate) 10 0 ltac:(reflexivity) serve_values
    j _ _ _ Hj Hs 1%nat
    (default (start_worker (client_data_init []) [] []) (sv_workers (serve_run [Took 3; Later; Took 40] 155 290) !! 1%nat)) 0%nat
    (SocketOut [] (le 4 3 ++ [1; 2; 3]) false)) as (ds & Hds & _ & H).
  - vm_compute. reflexivity.
  - vm_compute. reflexivity.
  - reflexivity.
  - exists ds. split; [exact Hds|]. destruct H as [H _]; [vm_compute; reflexivity|exact H].
Defined.
