(* ===== verification/Options.v ===== *)
(** * Options: the command lines of the programs

    [main] of the two benchmarks and of the hash server: [getopt] over the arguments, one
    option after the other. Of the C library, [atoi], [atol] and [sscanf] with [%d] read
    decimal integers, and what does not fit is undefined; [atof] reads a decimal fraction
    with an exponent (its hexadecimal, infinite and undefined numbers are left out).
    [getopt] is the one of the GNU library: arguments that are not options are passed over,
    and [--] ends the options. *)
From Stdlib Require Import Ascii String ZArith QArith Lia.
From stdpp Require Import base list strings.
From S2P Require Import Prelude Protocol Partition Stats Bench BenchServer.

Local Open Scope Z_scope.

(** ** Numbers *)
Definition isspace (c : ascii) : bool :=
  let n := Z.of_nat (nat_of_ascii c) in (n =? 32) || ((9 <=? n) && (n <=? 13)).

Definition digit (c : ascii) : option Z :=
  let n := Z.of_nat (nat_of_ascii c) - 48 in if (0 <=? n) && (n <=? 9) then Some n else None.

Fixpoint skip_space (s : string) : string :=
  match s with
  | String c rest => if isspace c then skip_space rest else s
  | EmptyString => s
  end.

Definition scan_sign (s : string) : Z * string :=
  match s with
  | String "-" rest => (-1, rest)
  | String "+" rest => (1, rest)
  | _ => (1, s)
  end.

(** The digits at the head of [s] behind those in [v], how many they are, and the rest. *)
Fixpoint scan_digits (v : Z) (n : nat) (s : string) : Z * nat * string :=
  match s with
  | String c rest =>
      match digit c with Some d => scan_digits (10 * v + d) (S n) rest | None => (v, n, s) end
  | EmptyString => (v, n, s)
  end.

(** An integer, and what is behind it. *)
Definition scan_int (s : string) : option (Z * string) :=
  let '(sign, s) := scan_sign (skip_space s) in
  let '(v, n, rest) := scan_digits 0 0 s in
  match n with O => None | S _ => Some (sign * v, rest) end.

Definition int_fits (w v : Z) : bool := (- 2 ^ (w - 1) <=? v) && (v <? 2 ^ (w - 1)).

Definition to_width (w : Z) (s : string) : result Z :=
  match scan_int s with
  | Some (v, _) => _ ← check (int_fits w v) Undefined; mret v
  | None => mret 0
  end.

Definition atoi : string -> result Z := to_width 32.
Definition atol : string -> result Z := to_width 64.

(** [sscanf] of two integers with a slash in between, which leaves what it does not get
    to as it was. *)
Definition sscanf_pair (s : string) (a b : Z) : result (Z * Z) :=
  match scan_int s with
  | None => mret (a, b)
  | Some (a, rest) =>
      _ ← check (int_fits 32 a) Undefined;
      match rest with
      | String "/" rest =>
          match scan_int rest with
          | Some (b, _) => _ ← check (int_fits 32 b) Undefined; mret (a, b)
          | None => mret (a, b)
          end
      | _ => mret (a, b)
      end
  end.

(** The exponent of a fraction; without digits the letter does not belong to it. *)
Definition scan_exponent (s : string) : Z :=
  match s with
  | String c rest =>
      if bool_decide (c = "e"%char) || bool_decide (c = "E"%char) then
        let '(sign, rest) := scan_sign rest in let '(v, _, _) := scan_digits 0 0 rest in sign * v
      else 0
  | EmptyString => 0
  end.

Definition atof (s : string) : Q :=
  let '(sign, s) := scan_sign (skip_space s) in
  let '(whole, n, s) := scan_digits 0 0 s in
  let '(v, places, s) := match s with String "." rest => scan_digits whole 0 rest | _ => (whole, O, s) end in
  if (n + places =? 0)%nat then 0%Q
  else inject_Z (sign * v) * Qpower 10 (scan_exponent s - Z.of_nat places).

(** The conversion of a [double] to an [int] cuts the fraction off. *)
Definition int_of_double (q : Q) : result Z :=
  let v := Z.quot (Qnum q) (Z.pos (Qden q)) in _ ← check (int_fits 32 v) Undefined; mret v.

(** ** [getopt]

    [takes_arg optstring c] tells whether the option [c] has an argument, [None] when there is
    no such option. *)
Fixpoint takes_arg (optstring : string) (c : ascii) : option bool :=
  match optstring with
  | EmptyString => None
  | String o rest =>
      if bool_decide (c = o /\ c <> ":"%char)
      then Some match rest with String ":" _ => true | _ => false end
      else takes_arg rest c
  end.

(** What the calls of [getopt] return before they return -1, each with [optarg]; [?]
    stands for an option that does not exist or lacks its argument. *)
Fixpoint getopt (optstring : string) (argv : list string) : list (ascii * string) :=
  match argv with
  | [] => []
  | arg :: argv =>
      if bool_decide (arg = "--"%string) then []
      else match arg with
      | String "-" cluster =>
          (fix options (cluster : string) : list (ascii * string) :=
             match cluster with
             | EmptyString => getopt optstring argv
             | String c rest =>
                 match takes_arg optstring c with
                 | None => ("?"%char, ""%string) :: options rest
                 | Some false => (c, ""%string) :: options rest
                 | Some true =>
                     match rest, argv with
                     | EmptyString, [] => [("?"%char, ""%string)]
                     | EmptyString, optarg :: argv => (c, optarg) :: getopt optstring argv
                     | _, _ => (c, rest) :: getopt optstring argv
                     end
                 end
             end) cluster
      | _ => getopt optstring argv
      end
  end.

(** The loop of a [main]: [None] stands for [exit(-1)] after the help. *)
Fixpoint set_options {A} (set : ascii -> string -> A -> result (option A)) (opts : list (ascii * string)) (o : A)
    : result (option A) :=
  match opts with
  | [] => mret (Some o)
  | (c, optarg) :: opts =>
      r ← set c optarg o;
      match r with Some o => set_options set opts o | None => mret None end
  end.

(** [1 << n] and the two variables of option [-m]: the mask is computed before the shift
    is looked at. *)
Definition key_bits (optarg : string) : result (Z * Z) :=
  n ← atoi optarg;
  let query_shift := 31 - n in
  _ ← check (int_fits 32 query_shift) Undefined;
  _ ← check ((0 <=? n) && (n <? 31)) Undefined;
  let query_mask := Z.shiftl 1 n - 1 in
  _ ← check (0 <? query_shift) AssertFailed;
  mret (query_shift, query_mask).

(** [niters / nclients] *)
Definition per_client (niters nclients : Z) : result Z :=
  _ ← check (negb (nclients =? 0)) Undefined;
  let q := Z.quot niters nclients in
  _ ← check (int_fits 32 q) Undefined;
  mret q.

(** ** [benchhashtable.c] *)
Module TableBench.
Record table_options := TableOptions {
  design : Z;
  nservers : Z;
  nclients : Z;
  first_core : Z;
  batch_size : Z;
  niters : Z;
  size : Z;
  query_mask : Z;
  query_shift : Z;
  write_threshold : Z;
  evictalgo : Z;
  track_cpu_usage : Z
}.

Definition default_table_options : table_options :=
  TableOptions 1 1 1 (-1) 1000 100000000 6400000 (Z.shiftl 1 20 - 1) (31 - 20) 644245119 EVICT_LRU 0.

Definition set_table_option (c : ascii) (optarg : string) (o : table_options) : result (option table_options) :=
  match c with
  | "s"%char => v ← atoi optarg;
      mret (Some (TableOptions (design o) v (nclients o) (first_core o) (batch_size o) (niters o) (size
          o) (query_mask o) (query_shift o) (write_threshold o) (evictalgo o) (track_cpu_usage
          o)))
  | "c"%char => v ← atoi optarg;
      mret (Some (TableOptions (design o) (nservers o) v (first_core o) (batch_size o) (niters o) (size
          o) (query_mask o) (query_shift o) (write_threshold o) (evictalgo o) (track_cpu_usage
          o)))
  | "f"%char => v ← atoi optarg;
      mret (Some (TableOptions (design o) (nservers o) (nclients o) v (batch_size o) (niters o) (size o)
          (query_mask o) (query_shift o) (write_threshold o) (evictalgo o) (track_cpu_usage o)))
  | "i"%char => v ← atoi optarg;
      mret (Some (TableOptions (design o) (nservers o) (nclients o) (first_core o) (batch_size o) v
          (size o) (query_mask o) (query_shift o) (write_threshold o) (evictalgo o)
          (track_cpu_usage o)))
  | "t"%char => v ← atol optarg;
      mret (Some (TableOptions (design o) (nservers o) (nclients o) (first_core o) (batch_size o)
          (niters o) (u64 v) (query_mask o) (query_shift o) (write_threshold o) (evictalgo o)
          (track_cpu_usage o)))
  | "m"%char => '(shift, mask) ← key_bits optarg;
      mret (Some (TableOptions (design o) (nservers o) (nclients o) (first_core o) (batch_size o)
          (niters o) (size o) mask shift (write_threshold o) (evictalgo o) (track_cpu_usage o)))
  | "w"%char => v ← int_of_double (atof optarg * inject_Z RAND_MAX);
      mret (Some (TableOptions (design o) (nservers o) (nclients o) (first_core o) (batch_size o)
          (niters o) (size o) (query_mask o) (query_shift o) v (evictalgo o) (track_cpu_usage o)))
  | "d"%char => v ← atoi optarg;
      mret (Some (TableOptions v (nservers o) (nclients o) (first_core o) (batch_size o) (niters o)
          (size o) (query_mask o) (query_shift o) (write_threshold o) (evictalgo o)
          (track_cpu_usage o)))
  | "b"%char => v ← atoi optarg;
      mret (Some (TableOptions (design o) (nservers o) (nclients o) (first_core o) v (niters o) (size o)
          (query_mask o) (query_shift o) (write_threshold o) (evictalgo o) (track_cpu_usage o)))
  | "e"%char => v ← atoi optarg;
      mret (Some (TableOptions (design o) (nservers o) (nclients o) (first_core o) (batch_size o)
          (niters o) (size o) (query_mask o) (query_shift o) (write_threshold o) v
          (track_cpu_usage o)))
  | "u"%char => mret (Some (TableOptions (design o) (nservers o) (nclients o) (first_core o) (batch_size o)
          (niters o) (size o) (query_mask o) (query_shift o) (write_threshold o) (evictalgo o) 1))
  | _ => mret None
  end.

(** The options and [iters_per_client]. *)
Definition table_main (argv : list string) : result (option (table_options * Z)) :=
  r ← set_options set_table_option (getopt "s:c:f:i:n:t:m:w:d:f:b:e:u" argv) default_table_options;
  match r with
  | None => mret None
  | Some o =>
      let first_core := if first_core o =? -1 then nclients o else first_core o in
      iters_per_client ← per_client (niters o) (nclients o);
      mret (Some (TableOptions (design o) (nservers o) (nclients o) first_core (batch_size o) (niters o)
          (size o) (query_mask o) (query_shift o) (write_threshold o) (evictalgo o)
          (track_cpu_usage o), iters_per_client))
  end.

(** What the clients use of them. *)
Definition client_options (o : table_options) : Bench.options :=
  Bench.Options (batch_size o) (query_shift o) (query_mask o) (write_threshold o).
End TableBench.

(** ** [hashserver2.c] *)
Module HashServer2.
Record server_options := ServerOptions {
  design : Z;
  nservers : Z;
  nclients : Z;
  batch_size : Z;
  nelems : Z;
  size : Z;
  port : Z
}.

Definition default_server_options : server_options :=
  ServerOptions 2 1 1 1000 100000 6400000 2117.

Definition set_server_option (c : ascii) (optarg : string) (o : server_options) : result (option server_options) :=
  match c with
  | "s"%char => v ← atoi optarg;
      mret (Some (ServerOptions (design o) v (nclients o) (batch_size o) (nelems o) (size o) (port o)))
  | "p"%char => v ← atoi optarg;
      mret (Some (ServerOptions (design o) (nservers o) (nclients o) (batch_size o) (nelems o) (size o)
          v))
  | "c"%char => v ← atoi optarg;
      _ ← check (v <=? MAX_CLIENTS) AssertFailed;
      mret (Some (ServerOptions (design o) (nservers o) v (batch_size o) (nelems o) (size o) (port o)))
  | "n"%char => v ← atoi optarg;
      mret (Some (ServerOptions (design o) (nservers o) (nclients o) (batch_size o) v (size o) (port o)))
  | "t"%char => v ← atol optarg;
      mret (Some (ServerOptions (design o) (nservers o) (nclients o) (batch_size o) (nelems o) (u64 v)
          (port o)))
  | "d"%char => v ← atoi optarg;
      mret (Some (ServerOptions v (nservers o) (nclients o) (batch_size o) (nelems o) (size o) (port o)))
  | "b"%char => v ← atoi optarg;
      mret (Some (ServerOptions (design o) (nservers o) (nclients o) v (nelems o) (size o) (port o)))
  | _ => mret None
  end.

Definition server_main (argv : list string) : result (option server_options) :=
  set_options set_server_option (getopt "s:c:n:t:d:b:" argv) default_server_options.
End HashServer2.

(** ** [benchhashserver.c] *)
Module ServerBench.
Record bench_options := BenchOptions {
  design : Z;
  nclients : Z;
  nservers : Z;
  batch_size : Z;
  niters : Z;
  query_mask : Z;
  query_shift : Z;
  min_val_length : Z;
  max_val_length : Z;
  first_core : Z;
  end_core : Z;
  write_threshold : Q;
  serverip : string;
  port : Z
}.

Definition default_bench_options : bench_options :=
  BenchOptions 1 1 1 1000 100000 (Z.shiftl 1 20 - 1) (31 - 20) 8 8 (-1) (-1) (5033165 # 16777216) "127.0.0.1"%string 2117.

(** [strlen(optarg) < 100] before the copy. *)
Definition set_bench_option (c : ascii) (optarg : string) (o : bench_options) : result (option bench_options) :=
  match c with
  | "s"%char =>
      mret (if (String.length optarg <? 100)%nat
        then Some (BenchOptions (design o) (nclients o) (nservers o) (batch_size o) (niters o)
              (query_mask o) (query_shift o) (min_val_length o) (max_val_length o) (first_core
              o) (end_core o) (write_threshold o) optarg (port o))
        else None)
  | "p"%char => v ← atoi optarg;
      mret (Some (BenchOptions (design o) (nclients o) (nservers o) (batch_size o) (niters o)
          (query_mask o) (query_shift o) (min_val_length o) (max_val_length o) (first_core o)
          (end_core o) (write_threshold o) (serverip o) v))
  | "c"%char => v ← atoi optarg;
      mret (Some (BenchOptions (design o) v (nservers o) (batch_size o) (niters o) (query_mask o)
          (query_shift o) (min_val_length o) (max_val_length o) (first_core o) (end_core o)
          (write_threshold o) (serverip o) (port o)))
  | "n"%char => v ← atoi optarg;
      mret (Some (BenchOptions (design o) (nclients o) v (batch_size o) (niters o) (query_mask o)
          (query_shift o) (min_val_length o) (max_val_length o) (first_core o) (end_core o)
          (write_threshold o) (serverip o) (port o)))
  | "i"%char => v ← atoi optarg;
      mret (Some (BenchOptions (design o) (nclients o) (nservers o) (batch_size o) v (query_mask o)
          (query_shift o) (min_val_length o) (max_val_length o) (first_core o) (end_core o)
          (write_threshold o) (serverip o) (port o)))
  | "m"%char => '(shift, mask) ← key_bits optarg;
      mret (Some (BenchOptions (design o) (nclients o) (nservers o) (batch_size o) (niters o) mask shift
          (min_val_length o) (max_val_length o) (first_core o) (end_core o) (write_threshold o)
          (serverip o) (port o)))
  | "l"%char => '(a, b) ← sscanf_pair optarg (min_val_length o) (max_val_length o);
      mret (Some (BenchOptions (design o) (nclients o) (nservers o) (batch_size o) (niters o)
          (query_mask o) (query_shift o) a b (first_core o) (end_core o) (write_threshold o)
          (serverip o) (port o)))
  | "w"%char =>
      mret (Some (BenchOptions (design o) (nclients o) (nservers o) (batch_size o) (niters o)
          (query_mask o) (query_shift o) (min_val_length o) (max_val_length o) (first_core o)
          (end_core o) (atof optarg) (serverip o) (port o)))
  | "b"%char => v ← atoi optarg;
      mret (Some (BenchOptions (design o) (nclients o) (nservers o) v (niters o) (query_mask o)
          (query_shift o) (min_val_length o) (max_val_length o) (first_core o) (end_core o)
          (write_threshold o) (serverip o) (port o)))
  | "f"%char => '(a, b) ← sscanf_pair optarg (first_core o) (end_core o);
      mret (Some (BenchOptions (design o) (nclients o) (nservers o) (batch_size o) (niters o)
          (query_mask o) (query_shift o) (min_val_length o) (max_val_length o) a b
          (write_threshold o) (serverip o) (port o)))
  | "d"%char => v ← atoi optarg;
      mret (Some (BenchOptions v (nclients o) (nservers o) (batch_size o) (niters o) (query_mask o)
          (query_shift o) (min_val_length o) (max_val_length o) (first_core o) (end_core o)
          (write_threshold o) (serverip o) (port o)))
  | _ => mret None
  end.

Definition bench_main (argv : list string) : result (option (bench_options * Z)) :=
  r ← set_options set_bench_option (getopt "s:p:c:n:i:m:l:w:b:f:d:" argv) default_bench_options;
  match r with
  | None => mret None
  | Some o => iters_per_client ← per_client (niters o) (nclients o); mret (Some (o, iters_per_client))
  end.

Definition client_settings (o : bench_options) (iters_per_client : Z) : BenchServer.settings :=
  BenchServer.Settings (batch_size o) iters_per_client (query_shift o) (query_mask o)
    (min_val_length o) (max_val_length o) (write_threshold o).
End ServerBench.
