(* ===== verification/OptionsThms.v ===== *)
(** * OptionsThms: what the programs accept on their command lines

    Numbers are read back as they are printed, [getopt] gives the options of a command
    line one by one, and of every option what the parts of the program that are behind
    it expect. *)
From Stdlib Require Import Ascii String ZArith QArith Lia.
From stdpp Require Import base list strings pretty.
From S2P Require Import Prelude Protocol Partition Bench BenchServer Options.

Local Open Scope Z_scope.

#[local] Arguments atoi : simpl never.
#[local] Arguments atol : simpl never.

(** ** Numbers *)
Lemma digit_char (d : N) : (d < 10)%N -> digit (pretty_N_char d) = Some (Z.of_N d).
Proof.
  intros Hd. assert (d ∈ (N.of_nat <$> seq 0 10)) as Hin.
  { apply list_elem_of_fmap. exists (N.to_nat d). split; [by rewrite N2Nat.id|]. apply elem_of_seq. lia. }
  vm_compute in Hin. repeat (apply elem_of_cons in Hin as [->|Hin]; [done|]). by apply elem_of_nil in Hin.
Qed.

Lemma digit_not_space c d : digit c = Some d -> isspace c = false /\ c <> "-"%char /\ c <> "+"%char.
Proof.
  unfold digit, isspace. intros Hd. set (n := Z.of_nat (nat_of_ascii c)) in *.
  destruct ((0 <=? n - 48) && (n - 48 <=? 9)) eqn:Hr; [|done].
  split; [|split; intros ->; vm_compute in Hr; done].
  apply andb_prop in Hr as [H1 H2]. apply Z.leb_le in H1, H2.
  apply orb_false_intro; [apply Z.eqb_neq; lia|]. apply andb_false_intro2, Z.leb_gt. lia.
Qed.

Lemma scan_pretty (x : N) :
  exists k : nat, ((0 < x)%N -> (0 < k)%nat) /\
    forall s v n, scan_digits v n (pretty_N_go x s) = scan_digits (v * 10 ^ Z.of_nat k + Z.of_N x) (n + k) s.
Proof.
  induction x as [x IH] using (well_founded_induction N.lt_wf_0).
  destruct (decide (0 < x)%N) as [Hx|Hx]; cycle 1.
  { replace x with 0%N by lia. exists O. split; [lia|]. intros s v n. rewrite pretty_N_go_0. f_equal; lia. }
  destruct (IH (x `div` 10)%N) as (k & _ & Hk); [by apply N.div_lt|].
  exists (S k). split; [lia|]. intros s v n. rewrite (pretty_N_go_step x s) by done. rewrite Hk.
  simpl. rewrite digit_char by (apply N.mod_lt; lia).
  f_equal; [|lia]. rewrite N2Z.inj_div, N2Z.inj_mod, Nat2Z.inj_succ, Z.pow_succ_r by lia.
  pose proof (Z.div_mod (Z.of_N x) (Z.of_N 10) ltac:(lia)). lia.
Qed.

(** The first character of a number is a digit. *)
Lemma pretty_head (x : N) s :
  (0 < x)%N -> exists c d rest, digit c = Some d /\ pretty_N_go x s = String c rest.
Proof.
  revert s. induction x as [x IH] using (well_founded_induction N.lt_wf_0). intros s Hx.
  rewrite pretty_N_go_step by done. destruct (decide (0 < x `div` 10)%N) as [Hd|Hd].
  - apply IH; [by apply N.div_lt|done].
  - apply N.nlt_ge, N.le_0_r in Hd. rewrite Hd, pretty_N_go_0.
    eexists _, _, _. split; [|done]. apply digit_char, N.mod_lt. lia.
Qed.

Lemma scan_head c d rest :
  digit c = Some d -> skip_space (String c rest) = String c rest /\ scan_sign (String c rest) = (1, String c rest).
Proof.
  intros Hd. destruct (digit_not_space _ _ Hd) as (Hs & H1 & H2). simpl. rewrite Hs. split; [done|].
  destruct c as [[] [] [] [] [] [] [] []]; try done; by vm_compute in Hd.
Qed.

Lemma scan_int_pretty (v : Z) : scan_int (pretty v) = Some (v, EmptyString).
Proof.
  destruct v as [|p|p]; [done| |].
  all: destruct (pretty_head (Npos p) "" ltac:(lia)) as (c & d & rest & Hd & Hp).
  all: destruct (scan_head c d rest Hd) as [Hs Hsg]; destruct (scan_pretty (Npos p)) as (k & Hk & Hscan).
  all: specialize (Hscan EmptyString 0 O); specialize (Hk ltac:(lia)).
  - unfold scan_int. change (pretty (Z.pos p)) with (pretty_N_go (Npos p) ""). rewrite Hp, Hs, Hsg, <- Hp.
    rewrite Hscan. simpl. destruct k; [lia|done].
  - unfold scan_int. change (pretty (Z.neg p)) with (String "-" (pretty_N_go (Npos p) "")).
    cbn [skip_space]. replace (isspace "-") with false by done. cbn [scan_sign]. rewrite Hscan. simpl.
    destruct k; [lia|done].
Qed.

Lemma atoi_pretty v : - 2 ^ 31 <= v < 2 ^ 31 -> atoi (pretty v) = Ok v.
Proof.
  intros Hv. unfold atoi, to_width. rewrite scan_int_pretty. unfold int_fits.
  rewrite (proj2 (Z.leb_le _ _)), (proj2 (Z.ltb_lt _ _)) by lia. done.
Qed.

Lemma atol_pretty v : - 2 ^ 63 <= v < 2 ^ 63 -> atol (pretty v) = Ok v.
Proof.
  intros Hv. unfold atol, to_width. rewrite scan_int_pretty. unfold int_fits.
  rewrite (proj2 (Z.leb_le _ _)), (proj2 (Z.ltb_lt _ _)) by lia. done.
Qed.

Lemma to_width_fits w s v : 0 < w -> to_width w s = Ok v -> - 2 ^ (w - 1) <= v < 2 ^ (w - 1).
Proof.
  intros Hw. unfold to_width. pose proof (Z.pow_pos_nonneg 2 (w - 1) ltac:(lia) ltac:(lia)).
  destruct (scan_int s) as [[x ?]|]; intros Hv; [|injection Hv as <-; lia].
  invb Hv. unfold int_fits in Ha. apply andb_prop in Ha as [H1 H2]. lia.
Qed.

Lemma key_bits_range s shift mask :
  key_bits s = Ok (shift, mask) -> exists n, 0 <= n <= 30 /\ shift = 31 - n /\ mask = 2 ^ n - 1.
Proof.
  unfold key_bits. intros H. apply bind_Ok in H as (n & Hn & H). invb H.
  exists n. rewrite Z.shiftl_1_l. split; [lia|done].
Qed.

(** The assertion on the shift never fails: a shift out of range is met before. *)
Lemma key_bits_no_assertion s : key_bits s <> Fault AssertFailed.
Proof.
  unfold key_bits, atoi, to_width. destruct (scan_int s) as [[n ?]|]; [|done].
  cbn [mbind result_bind]. destruct (int_fits 32 n); [|done]. cbn.
  destruct (int_fits 32 (31 - n)); [|done]. cbn. destruct (0 <=? n); [|done]. cbn.
  destruct (n <? 31) eqn:Hn; [|done]. cbn. apply Z.ltb_lt in Hn.
  rewrite (proj2 (Z.ltb_lt _ _)) by lia. done.
Qed.

(** ** [getopt] *)

(** One option after the other, each with its argument. *)
Definition command_line (opts : list (ascii * string)) : list string :=
  concat ((fun '(c, optarg) => [String "-" (String c EmptyString); optarg]) <$> opts).

Lemma getopt_command_line optstring opts :
  Forall (fun o => takes_arg optstring o.1 = Some true /\ o.1 <> "-"%char) opts ->
  getopt optstring (command_line opts) = opts.
Proof.
  induction 1 as [|[c optarg] opts [Hc Hd] _ IH]; [done|]. cbn [fst] in Hc, Hd.
  change (command_line ((c, optarg) :: opts))
    with (String "-" (String c EmptyString) :: optarg :: command_line opts).
  cbn [getopt]. rewrite bool_decide_false by congruence. by rewrite Hc, IH.
Qed.

Lemma getopt_known optstring argv :
  Forall (fun o => is_Some (takes_arg optstring o.1) \/ o.1 = "?"%char) (getopt optstring argv).
Proof.
  induction argv as [argv IH] using (induction_ltof1 _ (@length string)). unfold ltof in IH.
  destruct argv as [|arg argv]; [done|]. cbn [getopt]. case_bool_decide as Hend; [done|].
  assert (forall argv', (length argv' <= length argv)%nat ->
    Forall (fun o => is_Some (takes_arg optstring o.1) \/ o.1 = "?"%char) (getopt optstring argv')) as IH'.
  { intros argv' Hl. apply IH. simpl. lia. }
  clear IH. destruct arg as [|c cluster]; [by apply IH'|].
  destruct c as [[] [] [] [] [] [] [] []]; try by apply IH'.
  clear Hend. induction cluster as [|c cluster IHc]; [by apply IH'|].
  destruct (takes_arg optstring c) as [[]|] eqn:Hc.
  - destruct cluster; [destruct argv|]; constructor; simpl; auto; apply IH'; simpl; lia.
  - constructor; [left; simpl; rewrite Hc; by eexists|done].
  - constructor; [by right|done].
Qed.

Lemma set_options_invariant {A} (set : ascii -> string -> A -> result (option A)) (P : A -> Prop) opts o r :
  (forall c s x x', c ∈ opts.*1 -> P x -> set c s x = Ok (Some x') -> P x') ->
  P o -> set_options set opts o = Ok (Some r) -> P r.
Proof.
  intros Hset. revert o. induction opts as [|[c s] opts IH]; intros o Ho Hr; simpl in Hr.
  - by injection Hr as ->.
  - apply bind_Ok in Hr as (x & Hx & Hr). destruct x as [x|]; [|done].
    apply (IH (fun c' s' x1 x2 Hin => Hset c' s' x1 x2 ltac:(simpl; by apply list_elem_of_further)) x);
      [|done]. apply (Hset c s o); [simpl; left|done|done].
Qed.

(** ** The hash server *)
Definition is_int (v : Z) : Prop := - 2 ^ 31 <= v < 2 ^ 31.

Definition server_options_ok (o : HashServer2.server_options) : Prop :=
  HashServer2.port o = 2117 /\ HashServer2.nclients o <= MAX_CLIENTS /\
  is_int (HashServer2.design o) /\ is_int (HashServer2.nservers o) /\ is_int (HashServer2.nclients o) /\
  is_int (HashServer2.batch_size o) /\ is_int (HashServer2.nelems o) /\ 0 <= HashServer2.size o < 2 ^ 64.

(** A command line that sets every option. *)
Definition server_command_line (o : HashServer2.server_options) : list string :=
  command_line
    [("d"%char, pretty (HashServer2.design o)); ("s"%char, pretty (HashServer2.nservers o));
     ("c"%char, pretty (HashServer2.nclients o)); ("b"%char, pretty (HashServer2.batch_size o));
     ("n"%char, pretty (HashServer2.nelems o));
     ("t"%char, pretty (if HashServer2.size o <? 2 ^ 63 then HashServer2.size o else HashServer2.size o - 2 ^ 64))].

Lemma server_option_ok c s o o' :
  c <> "p"%char -> server_options_ok o -> HashServer2.set_server_option c s o = Ok (Some o') -> server_options_ok o'.
Proof.
  intros Hc (Hp & Hn & Hd & Hs & Hcl & Hb & He & Ht) Hset. unfold HashServer2.set_server_option in Hset.
  destruct c as [[] [] [] [] [] [] [] []]; try discriminate Hset; try done.
  all: apply bind_Ok in Hset as (v & Hv & Hset).
  all: try (apply bind_Ok in Hset as (u & Hu & Hset); apply check_Ok, Z.leb_le in Hu).
  all: injection Hset as <-; apply to_width_fits in Hv; [|lia]; pose proof (u64_range v).
  all: unfold server_options_ok; simpl; repeat split; try done; try apply Hd; try apply Hs; try apply Hcl;
    try apply Hb; try apply He; try apply Ht; try apply Hv; try apply H.
Qed.

(** C39: the settings that a command line of the hash server can bring it to are exactly these:
    every number of servers, batch size, design and element count that is an [int], every
    memory size, at most [MAX_CLIENTS] clients, and the port 2117. The documented option [-p]
    cannot be given. *)
Theorem server_settings o :
  (exists argv, HashServer2.server_main argv = Ok (Some o)) <-> server_options_ok o.
Proof.
  split.
  - intros [argv Hmain]. unfold HashServer2.server_main in Hmain.
    refine (set_options_invariant _ server_options_ok _ _ _ _ _ Hmain).
    + intros c s x x' Hin. apply server_option_ok. intros ->.
      apply list_elem_of_fmap in Hin as ([c s'] & [= <-] & Hin).
      pose proof (getopt_known "s:c:n:t:d:b:" argv) as Hknown. rewrite Forall_forall in Hknown.
      destruct (Hknown _ Hin) as [[? Ho]|Ho]; discriminate Ho.
    + repeat split; by vm_compute.
  - intros (Hp & Hn & Hd & Hs & Hcl & Hb & He & Ht). exists (server_command_line o).
    unfold HashServer2.server_main, server_command_line.
    rewrite getopt_command_line by (repeat constructor; done).
    destruct o as [design nservers nclients batch nelems size port]; simpl in *.
    rewrite !atoi_pretty by done. simpl. rewrite (proj2 (Z.leb_le _ _)) by done. simpl.
    rewrite atol_pretty by (destruct (Z.ltb_spec size (2 ^ 63)); lia).
    simpl. subst port. do 4 f_equal. unfold u64.
    destruct (Z.ltb_spec size (2 ^ 63)); [by rewrite Z.mod_small|].
    replace (size - 2 ^ 64) with (size + (-1) * 2 ^ 64) by lia. rewrite Z.mod_add by lia. by rewrite Z.mod_small.
Qed.

(** ** The benchmarks *)

(** The shift and the mask leave the [n] highest of 31 bits. *)
Definition key_space (n shift mask : Z) : Prop := 0 <= n <= 30 /\ shift = 31 - n /\ mask = 2 ^ n - 1.

Lemma masked_key n shift mask r :
  key_space n shift mask -> 0 <= r < 2 ^ 31 ->
  Z.land (Z.shiftr r shift) mask = r / 2 ^ (31 - n) /\ 0 <= r / 2 ^ (31 - n) < 2 ^ n.
Proof.
  intros (Hn & -> & ->) Hr. rewrite Z.shiftr_div_pow2 by lia.
  assert (0 <= r / 2 ^ (31 - n) < 2 ^ n) as Hk.
  { split; [apply Z.div_pos; lia|]. apply Z.div_lt_upper_bound; [lia|]. rewrite <- Z.pow_add_r by lia.
    replace (31 - n + n) with 31 by lia. lia. }
  split; [|done]. replace (2 ^ n - 1) with (Z.ones n) by (rewrite Z.ones_equiv; lia).
  rewrite Z.land_ones by lia. by apply Z.mod_small.
Qed.

Lemma set_options_fault {A} (set : ascii -> string -> A -> result (option A)) f opts o :
  (forall c s x, set c s x <> Fault f) -> set_options set opts o <> Fault f.
Proof.
  intros Hset. revert o. induction opts as [|[c s] opts IH]; intros o; [done|]. simpl.
  specialize (Hset c s o). destruct (set c s o) as [[x|]|f']; [apply IH|done|]. intros [= ->]. done.
Qed.

Lemma per_client_spec niters nclients q :
  per_client niters nclients = Ok q -> nclients <> 0 /\ q = Z.quot niters nclients.
Proof.
  unfold per_client. intros H. invb H. split; [|done]. intros ->. done.
Qed.

Definition table_options_ok (o : TableBench.table_options) : Prop :=
  (exists n, key_space n (TableBench.query_shift o) (TableBench.query_mask o)) /\
  is_int (TableBench.write_threshold o) /\ 0 <= TableBench.size o < 2 ^ 64.

Lemma table_option_ok c s o o' :
  table_options_ok o -> TableBench.set_table_option c s o = Ok (Some o') -> table_options_ok o'.
Proof.
  intros (Hk & Hw & Ht) Hset. unfold TableBench.set_table_option in Hset.
  destruct c as [[] [] [] [] [] [] [] []]; try discriminate Hset.
  all: try (injection Hset as <-; done).
  all: apply bind_Ok in Hset as (v & Hv & Hset).
  all: try (injection Hset as <-; done).
  - injection Hset as <-. unfold int_of_double in Hv. apply bind_Ok in Hv as (u & Hu & Hv). injection Hv as <-.
    apply check_Ok, andb_prop in Hu as [H1 H2]. split; [done|]. split; [|done]. exact (conj (proj1 (Z.leb_le _ _) H1) (proj1 (Z.ltb_lt _ _) H2)).
  - destruct v as [shift mask]. injection Hset as <-. split; [|done]. exact (key_bits_range _ _ _ Hv).
  - injection Hset as <-. split; [done|]. split; [done|]. apply u64_range.
Qed.

Lemma table_option_asserts_not c s o : TableBench.set_table_option c s o <> Fault AssertFailed.
Proof.
  pose proof (key_bits_no_assertion s) as Hk.
  unfold TableBench.set_table_option, atoi, atol, to_width, int_of_double.
  destruct c as [[] [] [] [] [] [] [] []]; try done.
  all: try (destruct (key_bits s) as [[shift mask]|f]; [done|by intros [= ->]]).
  all: try (destruct (scan_int s) as [[v ?]|]; [|done]).
  all: destruct (int_fits _ _); done.
Qed.

(** C38: whatever the command line of the benchmark of the table, if [main] gets to the
    benchmark then the number of clients is not 0, [iters_per_client] is their part of the
    iterations (a negative number of clients is not refused, see [negative_clients]), and for some
    [n] of at most 30 every key of the generator is the [n] highest bits of a random number: it
    is below [2^n], which the clients need of their options. The assertion on the option
    [-m] never fails: a number of bits that is out of range is undefined before. *)
Theorem table_benchmark_options argv :
  TableBench.table_main argv <> Fault AssertFailed /\
  forall o iters, TableBench.table_main argv = Ok (Some (o, iters)) ->
    TableBench.nclients o <> 0 /\ iters = Z.quot (TableBench.niters o) (TableBench.nclients o) /\
    0 <= Bench.query_mask (TableBench.client_options o) < 2 ^ 31 /\
    exists n, 0 <= n <= 30 /\
    forall (rand_r : Z -> Z * Z) seed, (forall s, 0 <= (rand_r s).1 <= RAND_MAX) ->
      let r := (rand_r (rand_r seed).2).1 in
      let q := (Bench.get_random_query rand_r (TableBench.client_options o) seed).1 in
      q_key q = r / 2 ^ (31 - n) /\ 0 <= q_key q < 2 ^ n.
Proof.
  unfold TableBench.table_main. split.
  - match goal with |- context [set_options ?set ?opts ?o] =>
      pose proof (set_options_fault set AssertFailed opts o table_option_asserts_not) as Hf;
      destruct (set_options set opts o) as [[x|]|f] end; [|done|by intros [= ->]].
    simpl. intros Hq. destruct (per_client (TableBench.niters x) (TableBench.nclients x)) as [q|f] eqn:Hp; [done|].
    revert Hp. unfold per_client. destruct (_ =? 0); simpl; [by injection Hq as ->; intros [= ]|].
    destruct (int_fits _ _); [done|]. injection Hq as ->. by intros [= ].
  - intros o iters Hmain. apply bind_Ok in Hmain as (r & Hset & Hmain). destruct r as [o0|]; [|done].
    apply bind_Ok in Hmain as (q & Hq & Hmain). apply per_client_spec in Hq as [Hn Hq].
    injection Hmain as <- <-. simpl.
    assert (table_options_ok o0) as ((n & Hk) & _).
    { refine (set_options_invariant _ table_options_ok _ _ _ _ _ Hset).
      - intros c s x x' _. apply table_option_ok.
      - split; [exists 20; repeat split; by vm_compute|by vm_compute]. }
    split; [done|]. split; [done|]. pose proof Hk as (Hn30 & _ & Hmask).
    split; [rewrite Hmask; pose proof (Z.pow_le_mono_r 2 n 30); lia|].
    exists n. split; [done|]. intros rand_r seed Hrand. unfold Bench.get_random_query.
    pose proof (Hrand (rand_r seed).2) as Hr. destruct (rand_r seed) as [a s1]. simpl in *.
    destruct (rand_r s1) as [b s2]. simpl in *. unfold RAND_MAX in Hr.
    destruct (masked_key n _ _ b Hk) as [-> Hb]; [lia|done].
Qed.

Lemma table_benchmark_options_witness :
  exists o, TableBench.table_main ["-m"; "15"; "-c4"]%string = Ok (Some (o, 25000000)) /\
    0 <= Bench.query_mask (TableBench.client_options o) < 2 ^ 31.
Proof.
  eexists. split; [vm_compute; reflexivity|].
  refine (proj1 (proj2 (proj2 (proj2 (table_benchmark_options ["-m"; "15"; "-c4"]%string) _ 25000000 _)))).
  vm_compute. reflexivity.
Defined.

(** A negative number of clients gets to the benchmark too, where no client is started. *)
Example negative_clients :
  match TableBench.table_main ["-c"; "-4"]%string with
  | Ok (Some (o, iters)) => TableBench.nclients o = -4 /\ iters = -25000000
  | _ => False
  end.
Proof. vm_compute. split; reflexivity. Qed.

(** The command line of the help text. *)
Example table_command_line :
  TableBench.table_main
    ["-d"; "2"; "-s"; "3"; "-c"; "3"; "-f"; "3"; "-b"; "1000"; "-i"; "100000000"; "-t"; "640000"; "-m"; "15"; "-w"; "0.3"]%string
  = Ok (Some (TableBench.TableOptions 2 3 3 3 1000 100000000 640000 32767 16 644245094 1 0, 33333333)).
Proof. vm_compute. reflexivity. Qed.

Definition bench_options_ok (o : ServerBench.bench_options) : Prop :=
  (exists n, key_space n (ServerBench.query_shift o) (ServerBench.query_mask o)) /\
  (String.length (ServerBench.serverip o) < 100)%nat.

Lemma bench_option_ok c s o o' :
  bench_options_ok o -> ServerBench.set_bench_option c s o = Ok (Some o') -> bench_options_ok o'.
Proof.
  intros [Hk Hip] Hset. unfold ServerBench.set_bench_option in Hset.
  destruct c as [[] [] [] [] [] [] [] []]; try discriminate Hset.
  all: try (injection Hset as <-; done).
  all: try (apply bind_Ok in Hset as (v & Hv & Hset)).
  all: try (injection Hset as <-; done).
  all: try (destruct v as [a b]; injection Hset as <-; first [done|split; [exact (key_bits_range _ _ _ Hv)|done]]).
  destruct (Nat.ltb_spec (String.length s) 100); [|done]. injection Hset as <-. done.
Qed.

(** The buffer of the address holds what is copied into it, and the keys are as above. *)
Lemma server_benchmark_options argv o iters :
  ServerBench.bench_main argv = Ok (Some (o, iters)) ->
  bench_options_ok o /\ ServerBench.nclients o <> 0 /\
  iters = Z.quot (ServerBench.niters o) (ServerBench.nclients o).
Proof.
  unfold ServerBench.bench_main. intros Hmain. apply bind_Ok in Hmain as (r & Hset & Hmain).
  destruct r as [o0|]; [|done]. apply bind_Ok in Hmain as (q & Hq & Hmain). apply per_client_spec in Hq as [Hn Hq].
  injection Hmain as <- <-. split; [|done].
  refine (set_options_invariant _ bench_options_ok _ _ _ _ _ Hset).
  - intros c s x x' _. apply bench_option_ok.
  - split; [exists 20; repeat split; by vm_compute|vm_compute; lia].
Qed.
