(* ===== verification/PerfCounters.v ===== *)
(** * PerfCounters: model-specific registers and the counters of the benchmark

    [ia32msr.c], [ia32perf.c] and the loops of [benchhashtable.c] that start and read the
    counters of every core. The files of the registers are the operating system's: a class
    says which of them open and which registers they have. What a counter counts in between
    is the machine's, and a parameter too. *)
From Stdlib Require Import Ascii String ZArith Lia.
From stdpp Require Import base list gmap strings pretty.
From S2P Require Import Prelude Protocol.

Local Open Scope Z_scope.

(** ** [ia32msr.c] *)

(** The registers of the cores, and the open descriptors with their cores. *)
Record device := Device { d_regs : gmap (Z * Z) Z; d_fds : gmap Z Z }.

(** [open_msr name write] is the core whose registers are behind a file that opens, and
    [new_fd] the descriptor that [open] returns. *)
Class MsrFiles := {
  open_msr : string -> bool -> option Z;
  new_fd : gmap Z Z -> Z;
  new_fd_spec fds : 0 <= new_fd fds /\ fds !! new_fd fds = None
}.

(** What [sprintf] writes. *)
Definition msr_file_name (cpu : Z) : string := ("/dev/cpu/" +:+ pretty cpu +:+ "/msr")%string.

Section msr.
Context `{MsrFiles}.

(** [open]: -1 if it fails. *)
Definition sys_open (name : string) (write : bool) (d : device) : Z * device :=
  match open_msr name write with
  | None => (-1, d)
  | Some cpu => let fd := new_fd (d_fds d) in (fd, Device (d_regs d) (<[fd := cpu]> (d_fds d)))
  end.

Definition sys_close (fd : Z) (d : device) : device := Device (d_regs d) (delete fd (d_fds d)).

(** [pread] and [pwrite] of 8 bytes; the offset is the register. *)
Definition sys_pread (fd reg : Z) (d : device) : option Z :=
  cpu ← d_fds d !! fd; d_regs d !! (cpu, reg).

Definition sys_pwrite (fd reg value : Z) (d : device) : option device :=
  cpu ← d_fds d !! fd; _ ← d_regs d !! (cpu, reg); Some (Device (<[(cpu, reg) := value]> (d_regs d)) (d_fds d)).

(** The results are what is returned and, in [ReadMSR], what is in [*value] then. The name has to
    fit into its array of 64 characters, with the 0 behind it. *)
Definition ReadMSR (cpu reg value : Z) (d : device) : result (Z * Z * device) :=
  let name := msr_file_name cpu in
  _ ← check (String.length name <? 64)%nat Undefined;
  let '(fd, d) := sys_open name false d in
  if fd <? 0 then mret (-1, value, d)
  else match sys_pread fd reg d with
       | Some v => mret (0, v, sys_close fd d)
       | None => mret (-1, value, sys_close fd d)
       end.

Definition WriteMSR (cpu reg value : Z) (d : device) : result (Z * device) :=
  let name := msr_file_name cpu in
  _ ← check (String.length name <? 64)%nat Undefined;
  let '(fd, d) := sys_open name true d in
  if fd <? 0 then mret (-1, d)
  else match sys_pwrite fd reg value d with
       | Some d => mret (0, sys_close fd d)
       | None => mret (-1, sys_close fd d)
       end.

(** ** [ia32perf.c] *)

(** The two processors the code can be compiled for. *)
Inductive processor := INTEL64 | AMD64.

Context (arch : processor).

Definition NPMC : Z := match arch with INTEL64 => 3 | AMD64 => 4 end.
Definition PMC0 : Z := match arch with INTEL64 => 0xC1 | AMD64 => 0xC0010004 end.
Definition PERFEVTSEL0 : Z := match arch with INTEL64 => 0x186 | AMD64 => 0xC0010000 end.

Definition StartCounter (cpu pmc_index event_select_value : Z) (d : device) : result (Z * device) :=
  if NPMC <=? pmc_index then mret (-1, d)
  else
    '(r, d) ← WriteMSR cpu (u32 (PERFEVTSEL0 + pmc_index)) 0 d;
    if r <? 0 then mret (r, d)
    else
      '(r, d) ← WriteMSR cpu (u32 (PMC0 + pmc_index)) 0 d;
      if r <? 0 then mret (r, d)
      else
        '(r, d) ← WriteMSR cpu (u32 (PERFEVTSEL0 + pmc_index)) event_select_value d;
        if r <? 0 then mret (r, d) else mret (0, d).

Definition ReadCounter (cpu pmc_index value : Z) (d : device) : result (Z * Z * device) :=
  if NPMC <=? pmc_index then mret (-1, value, d)
  else
    '(r, value, d) ← ReadMSR cpu (u32 (PMC0 + pmc_index)) value d;
    if r <? 0 then mret (r, value, d) else mret (0, value, d).

(** ** The counters of [benchhashtable.c] *)

(** The misses of the second cache, and on AMD64 of the third. *)
Definition evts : list Z := match arch with INTEL64 => [0x00410224] | AMD64 => [0x000041077E; 0x04004107E1] end.

Definition NEVT : Z := Z.of_nat (length evts).

(** The event for core [i]: the second one has the number of the core in it. *)
Definition event_of (i k event : Z) : Z := if k =? 1 then Z.lor event (Z.shiftl (Z.rem i 6) 12) else event.

(** [pmclast[k][i]], and the cores whose counters could not be started. *)
Record perf := Perf { p_dev : device; pmclast : list (list Z); p_failed : list Z }.

Fixpoint each {A S} (f : A -> S -> result S) (l : list A) (s : S) : result S :=
  match l with
  | [] => mret s
  | x :: l => s ← f x s; each f l s
  end.

(** The body of the loops before the clients start. *)
Definition start_event (i k : Z) (p : perf) : result perf :=
  event ← aget evts k;
  '(r, d) ← StartCounter i k (event_of i k event) (p_dev p);
  row ← aget (pmclast p) k;
  last ← aget row i;
  '(_, value, d) ← ReadCounter i k last d;
  row ← aset row i value;
  rows ← aset (pmclast p) k row;
  mret (Perf d rows (if r =? 0 then p_failed p else p_failed p ++ [i])).

Definition start_counters (first count : Z) (p : perf) : result perf :=
  each (fun i => each (start_event i) (seqZ 0 NEVT)) (seqZ first count) p.

(** A whole number that is not negative as a [double]: with the 53 bits of its significand, rounded to
    the nearest, and to the even one of two that are equally near. *)
Definition round_double (x : Z) : Z :=
  let e := Z.max 0 (Z.log2 x - 52) in
  let q := Z.shiftr x e in
  let r := x mod 2 ^ e in
  Z.shiftl (if 2 * r <? 2 ^ e then q else if 2 ^ e <? 2 * r then q + 1 else q + q mod 2) e.

(** [total += x] for a [double] and a [uint64_t]. *)
Definition add_double (total x : Z) : Z := round_double (total + round_double x).

(** The body of the loops after it. [raw] is what the variable [tmp] holds before it is
    assigned. *)
Definition read_event (raw : Z -> Z -> Z) (pmclast : list (list Z)) (i k : Z) (s : list Z * device)
    : result (list Z * device) :=
  let '(totalpmc, d) := s in
  '(_, tmp, d) ← ReadCounter i k (raw i k) d;
  row ← aget pmclast k;
  last ← aget row i;
  total ← aget totalpmc k;
  totalpmc ← aset totalpmc k (add_double total (u64 (tmp - last)));
  mret (totalpmc, d).

Definition read_counters (raw : Z -> Z -> Z) (pmclast : list (list Z)) (first count : Z) (d : device)
    : result (list Z * device) :=
  each (fun i => each (read_event raw pmclast i) (seqZ 0 NEVT)) (seqZ first count)
    (replicate (Z.to_nat NEVT) 0, d).
End msr.
