(* ===== verification/PerfCountersThms.v ===== *)
(** * PerfCountersThms: descriptors are closed again, and what the sums count

    Every call of the counters returns, whatever fails, and leaves no descriptor open. When
    the files of the cores open, the benchmark counts on every core from zero, and its sums
    are what the counters have counted. *)
From Stdlib Require Import Ascii String ZArith Lia.
From stdpp Require Import base list gmap strings pretty.
From S2P Require Import Prelude Protocol PerfCounters.

Local Open Scope Z_scope.

(** ** The name of the file *)
Lemma length_pretty_N (k : nat) (x : N) s :
  (x < 10 ^ N.of_nat k)%N -> (String.length (pretty_N_go x s) <= k + String.length s)%nat.
Proof.
  revert x s. induction k as [|k IH]; intros x s Hx.
  - replace x with 0%N by lia. by rewrite pretty_N_go_0.
  - destruct (decide (0 < x)%N) as [Hp|Hp].
    + rewrite pretty_N_go_step by done. etransitivity; [apply IH|simpl; lia].
      apply N.Div0.div_lt_upper_bound. replace (10 * 10 ^ N.of_nat k)%N with (10 ^ N.of_nat (S k))%N; [done|].
      by rewrite Nat2N.inj_succ, N.pow_succ_r by lia.
    + replace x with 0%N by lia. rewrite pretty_N_go_0. lia.
Qed.

Lemma length_file_name cpu : - 2 ^ 31 <= cpu < 2 ^ 31 -> (String.length (msr_file_name cpu) <? 64)%nat = true.
Proof.
  intros Hc. apply Nat.ltb_lt. unfold msr_file_name.
  assert (forall a b, String.length (a +:+ b) = String.length a + String.length b)%nat as Happ.
  { induction a; intros b; [done|]. simpl. by rewrite IHa. }
  rewrite !Happ. simpl.
  assert (forall p, Z.pos p <= 2 ^ 31 -> (String.length (pretty_N_go (Npos p) "") <= 10)%nat) as Hp.
  { intros p Hp. etransitivity; [apply (length_pretty_N 10); lia|done]. }
  destruct cpu as [|p|p]; [simpl; lia| |].
  - change (pretty (Z.pos p)) with (pretty_N_go (Npos p) ""). specialize (Hp p ltac:(lia)). lia.
  - change (pretty (Z.neg p)) with (String "-" (pretty_N_go (Npos p) "")). simpl. specialize (Hp p ltac:(lia)). lia.
Qed.

Section msr.
Context `{MsrFiles} (arch : processor).

Lemma close_new fds fd cpu : fds !! fd = None -> delete fd (<[fd := cpu]> fds) = (fds : gmap Z Z).
Proof. intros Hn. by apply delete_insert_id. Qed.

(** ** One register *)
Definition int (v : Z) : Prop := - 2 ^ 31 <= v < 2 ^ 31.

Lemma write_msr cpu reg v d :
  int cpu -> WriteMSR cpu reg v d =
  Ok (match open_msr (msr_file_name cpu) true with
      | Some c => match d_regs d !! (c, reg) with
                  | Some _ => (0, Device (<[(c, reg) := v]> (d_regs d)) (d_fds d))
                  | None => (-1, d) end
      | None => (-1, d) end).
Proof.
  intros Hc. unfold WriteMSR. rewrite length_file_name by done. simpl. unfold sys_open.
  destruct (open_msr _ true) as [c|]; [|done]. destruct (new_fd_spec (d_fds d)) as [Hfd Hnew].
  rewrite (proj2 (Z.ltb_ge _ _)) by done. unfold sys_pwrite, sys_close. simpl. rewrite lookup_insert_eq. simpl.
  destruct (d_regs d !! (c, reg)); simpl; rewrite close_new by done; [done|by destruct d].
Qed.

Lemma read_msr cpu reg v d :
  int cpu -> ReadMSR cpu reg v d =
  Ok (match open_msr (msr_file_name cpu) false ≫= (fun c => d_regs d !! (c, reg)) with
      | Some x => (0, x, d)
      | None => (-1, v, d) end).
Proof.
  intros Hc. unfold ReadMSR. rewrite length_file_name by done. simpl. unfold sys_open.
  destruct (open_msr _ false) as [c|]; [|done]. destruct (new_fd_spec (d_fds d)) as [Hfd Hnew].
  rewrite (proj2 (Z.ltb_ge _ _)) by done. unfold sys_pread, sys_close. simpl. rewrite lookup_insert_eq. simpl.
  rewrite close_new by done. destruct d; by destruct (_ !! (c, reg)).
Qed.

(** ** One counter *)

(** The registers of a counter. *)
Definition event_reg (k : Z) : Z := u32 (PERFEVTSEL0 arch + k).
Definition count_reg (k : Z) : Z := u32 (PMC0 arch + k).

(** The files of the core open, and the core has the counter. *)
Definition countable (i k : Z) (d : device) : Prop :=
  (forall w, open_msr (msr_file_name i) w = Some i) /\
  is_Some (d_regs d !! (i, event_reg k)) /\ is_Some (d_regs d !! (i, count_reg k)).

Lemma regs_apart k k' : 0 <= k < NPMC arch -> 0 <= k' < NPMC arch -> event_reg k <> count_reg k'.
Proof.
  unfold event_reg, count_reg, u32, PERFEVTSEL0, PMC0, NPMC. destruct arch; intros.
  all: rewrite !Z.mod_small by lia; lia.
Qed.

Lemma count_regs_apart k k' : 0 <= k < NPMC arch -> 0 <= k' < NPMC arch -> count_reg k = count_reg k' -> k = k'.
Proof.
  unfold count_reg, u32, PMC0, NPMC. destruct arch; intros ? ?; rewrite !Z.mod_small by lia; lia.
Qed.

(** Starting a counter returns and leaves no descriptor open, whatever fails. It succeeds
    for a counter that exists on a core whose files open; then the counter is at zero and
    has the event, and every other register is as it was. *)
Theorem start_counter_outcome cpu k event d :
  int cpu -> 0 <= k ->
  exists r d', StartCounter arch cpu k event d = Ok (r, d') /\ d_fds d' = d_fds d /\
    (r = 0 \/ r = -1) /\ (NPMC arch <= k -> r = -1 /\ d' = d) /\
    (k < NPMC arch -> countable cpu k d ->
     r = 0 /\ d_regs d' = <[(cpu, event_reg k) := event]> (<[(cpu, count_reg k) := 0]> (d_regs d))).
Proof.
  intros Hc Hk. unfold StartCounter. destruct (Z.leb_spec (NPMC arch) k) as [Hn|Hn].
  { exists (-1), d. split; [done|]. split; [done|]. split; [auto|]. split; [done|lia]. }
  fold (event_reg k) (count_reg k). pose proof (regs_apart k k ltac:(lia) ltac:(lia)) as Hne.
  rewrite write_msr by done. simpl. unfold countable.
  destruct (open_msr (msr_file_name cpu) true) as [c|] eqn:Hopen; simpl.
  2:{ exists (-1), d. split; [done|]. split; [done|]. split; [auto|]. split; [lia|].
      intros _ (Ho & _). by rewrite Ho in Hopen. }
  destruct (d_regs d !! (c, event_reg k)) eqn:He; simpl.
  2:{ exists (-1), d. split; [done|]. split; [done|]. split; [auto|]. split; [lia|].
      intros _ (Ho & (? & He') & _). rewrite Ho in Hopen. injection Hopen as <-. by rewrite He in He'. }
  rewrite write_msr by done. simpl. rewrite Hopen, lookup_insert_ne by congruence.
  destruct (d_regs d !! (c, count_reg k)) eqn:Hr; simpl.
  2:{ eexists (-1), _. split; [done|]. split; [done|]. split; [auto|]. split; [lia|].
      intros _ (Ho & _ & (? & Hr')). rewrite Ho in Hopen. injection Hopen as <-. by rewrite Hr in Hr'. }
  rewrite write_msr by done. simpl. rewrite Hopen, lookup_insert_ne, lookup_insert_eq by congruence. simpl.
  eexists 0, _. split; [done|]. split; [done|]. split; [auto|]. split; [lia|]. intros _ (Ho & _). split; [done|].
  simpl. rewrite Ho in Hopen. injection Hopen as <-.
  rewrite (insert_insert_ne _ _ (cpu, event_reg k)) by congruence. by rewrite insert_insert_eq.
Qed.

(** ** Sums of type [double] *)
Lemma round_exact x : 0 <= x <= 2 ^ 53 -> round_double x = x.
Proof.
  intros Hx. destruct (Z.eq_dec x (2 ^ 53)) as [->|Hne]; [by vm_compute|]. unfold round_double.
  assert (Z.log2 x <= 52) as Hl.
  { destruct (Z.eq_dec x 0) as [->|Hz]; [by vm_compute|]. apply Z.lt_succ_r, Z.log2_lt_pow2; [lia|]. change (Z.succ 52) with 53. lia. }
  rewrite Z.max_l by lia. change (2 ^ 0) with 1. by rewrite Z.shiftr_0_r, Z.shiftl_0_r, Z.mod_1_r.
Qed.

(** One more than a [double] can tell, two more, and three more. *)
Example round_odd : round_double (2 ^ 53 + 1) = 2 ^ 53 /\ round_double (2 ^ 53 + 2) = 2 ^ 53 + 2 /\
  round_double (2 ^ 53 + 3) = 2 ^ 53 + 4 /\ round_double (2 ^ 64 - 1) = 2 ^ 64.
Proof. by vm_compute. Qed.

Definition double_sum (l : list Z) : Z := fold_left add_double l 0.

Lemma double_sum_snoc l x : double_sum (l ++ [x]) = add_double (double_sum l) x.
Proof. unfold double_sum. by rewrite fold_left_app. Qed.

(** Up to the 53 bits of a [double] the sum is exact. *)
Lemma double_sum_exact l : Forall (Z.le 0) l -> zsum id l <= 2 ^ 53 -> double_sum l = zsum id l.
Proof.
  induction l as [|x l IH] using rev_ind; intros Hl Hb; [done|].
  apply Forall_app in Hl as [Hl Hx%Forall_inv]. rewrite zsum_app, zsum_cons, zsum_nil in *. unfold id in *.
  assert (0 <= zsum (fun x => x) l) as Hp.
  { apply zsum_nonneg. intros y Hy. rewrite Forall_forall in Hl. by apply Hl. }
  rewrite double_sum_snoc, IH by (done || lia). unfold add_double. rewrite !(round_exact x) by lia. rewrite round_exact; lia.
Qed.

(** ** The loops over all cores *)
Lemma each_app {A S} (f : A -> S -> result S) l1 l2 s :
  each f (l1 ++ l2) s = (s ← each f l1 s; each f l2 s).
Proof.
  revert s. induction l1 as [|x l1 IH]; intros s; [done|]. simpl. destruct (f x s); [apply IH|done].
Qed.

Lemma each_nested {A B S} (f : A -> B -> S -> result S) l ks s :
  each (fun i => each (f i) ks) l s = each (fun x => f x.1 x.2) (i ← l; pair i <$> ks) s.
Proof.
  assert (forall i s, each (f i) ks s = each (fun x => f x.1 x.2) (pair i <$> ks) s) as Hi.
  { intros i. induction ks as [|k ks IH]; intros s'; [done|]. simpl. destruct (f i k s'); [apply IH|done]. }
  revert s. induction l as [|i l IH]; intros s; [done|]. cbn [mbind list_bind each].
  rewrite each_app, <- Hi. destruct (each (f i) ks s); [apply IH|done].
Qed.

Lemma each_inv {A S} (f : A -> S -> result S) (I : list A -> S -> Prop) l s :
  I [] s ->
  (forall before x s, x ∈ l -> I before s -> exists s', f x s = Ok s' /\ I (before ++ [x]) s') ->
  exists s', each f l s = Ok s' /\ I l s'.
Proof.
  intros HI Hstep.
  assert (forall before s, I before s -> exists s', each f l s = Ok s' /\ I (before ++ l) s') as Hgen.
  { clear HI s. induction l as [|x l IH]; intros before s Hs; [rewrite app_nil_r; by eexists|].
    destruct (Hstep before x s) as (s1 & Hf & Hs1); [left|done|]. cbn [each]. rewrite Hf.
    destruct (IH (fun b y s0 Hy => Hstep b y s0 ltac:(by right)) (before ++ [x]) s1 Hs1) as (s2 & Hl & Hs2).
    exists s2. by rewrite cons_middle, app_assoc. }
  exact (Hgen [] s HI).
Qed.

Definition cores (first count : Z) : list (Z * Z) := i ← seqZ first count; pair i <$> seqZ 0 (NEVT arch).

Lemma elem_of_cores first count i k :
  (i, k) ∈ cores first count <-> first <= i < first + count /\ 0 <= k < NEVT arch.
Proof.
  unfold cores. rewrite list_elem_of_bind. split.
  - intros (i' & Hk & Hi). apply list_elem_of_fmap in Hk as (k' & [= <- <-] & Hk).
    rewrite elem_of_seqZ in Hi, Hk. lia.
  - intros [Hi Hk]. exists i. split; [|by apply elem_of_seqZ]. apply list_elem_of_fmap. exists k.
    split; [done|]. apply elem_of_seqZ. lia.
Qed.

(** The events have counters. *)
Lemma events_counted k : 0 <= k < NEVT arch -> 0 <= k < NPMC arch.
Proof. unfold NEVT, NPMC. destruct arch; simpl; lia. Qed.

Lemma event_regs_apart k k' : 0 <= k < NPMC arch -> 0 <= k' < NPMC arch -> event_reg k = event_reg k' -> k = k'.
Proof.
  unfold event_reg, u32, PERFEVTSEL0, NPMC. destruct arch; intros ? ?; rewrite !Z.mod_small by lia; lia.
Qed.

Lemma read_counter i k v d x :
  int i -> k < NPMC arch -> countable i k d -> d_regs d !! (i, count_reg k) = Some x ->
  ReadCounter arch i k v d = Ok (0, x, d).
Proof.
  intros Hi Hk (Ho & _) Hx. unfold ReadCounter. rewrite (proj2 (Z.leb_gt _ _)) by done.
  fold (count_reg k). rewrite read_msr, Ho by done. simpl. by rewrite Hx.
Qed.

(** The array [pmclast] as it is declared. *)
Definition counts_ok (rows : list (list Z)) : Prop :=
  Z.of_nat (length rows) = NEVT arch /\ Forall (fun row => Z.of_nat (length row) = MAX_SERVERS + MAX_CLIENTS) rows.

Definition count_at (rows : list (list Z)) (k i : Z) : option Z := row ← rows !! Z.to_nat k; row !! Z.to_nat i.

Lemma counts_in rows k i :
  counts_ok rows -> 0 <= k < NEVT arch -> 0 <= i < MAX_SERVERS + MAX_CLIENTS ->
  exists row x, aget rows k = Ok row /\ aget row i = Ok x /\ count_at rows k i = Some x /\
    Z.of_nat (length row) = MAX_SERVERS + MAX_CLIENTS.
Proof.
  intros [Hl Hrows] Hk Hi. destruct (lookup_lt_is_Some_2 rows (Z.to_nat k)) as [row Hrow]; [lia|].
  rewrite Forall_forall in Hrows. pose proof (Hrows _ (list_elem_of_lookup_2 _ _ _ Hrow)) as Hlen.
  destruct (lookup_lt_is_Some_2 row (Z.to_nat i)) as [x Hx]; [lia|].
  exists row, x. unfold count_at. rewrite Hrow, !aget_Ok. simpl. repeat split; try done; lia.
Qed.

(** A core whose counter runs from zero. *)
Definition started (p : perf) (i k : Z) : Prop :=
  exists event, evts arch !! Z.to_nat k = Some event /\
    d_regs (p_dev p) !! (i, event_reg k) = Some (event_of i k event) /\
    d_regs (p_dev p) !! (i, count_reg k) = Some 0 /\ count_at (pmclast p) k i = Some 0.

Lemma countable_insert i k key v d :
  countable i k d -> countable i k (Device (<[key := v]> (d_regs d)) (d_fds d)).
Proof. intros (Ho & He & Hc). split; [done|]. simpl. by rewrite !lookup_insert_is_Some'; auto. Qed.

Lemma start_event_ok i k p :
  0 <= i < MAX_SERVERS + MAX_CLIENTS -> 0 <= k < NEVT arch -> counts_ok (pmclast p) -> countable i k (p_dev p) ->
  exists event rows,
    let d := Device (<[(i, event_reg k) := event_of i k event]> (<[(i, count_reg k) := 0]> (d_regs (p_dev p))))
               (d_fds (p_dev p)) in
    start_event arch i k p = Ok (Perf d rows (p_failed p)) /\ evts arch !! Z.to_nat k = Some event /\ counts_ok rows /\
    count_at rows k i = Some 0 /\
    forall k' i', 0 <= k' -> 0 <= i' -> (i', k') <> (i, k) -> count_at rows k' i' = count_at (pmclast p) k' i'.
Proof.
  intros Hi Hk Hrows Hcount. pose proof (events_counted k Hk) as Hkc.
  destruct (lookup_lt_is_Some_2 (evts arch) (Z.to_nat k)) as [event Hevent]; [unfold NEVT in Hk; lia|].
  assert (int i) as Hint by (unfold int, MAX_SERVERS, MAX_CLIENTS in *; lia).
  destruct (start_counter_outcome i k (event_of i k event) (p_dev p) Hint ltac:(lia))
    as (r & d & Hstart & Hfds & _ & _ & Hok).
  destruct (Hok ltac:(lia) Hcount) as [-> Hregs]. clear Hok.
  destruct (counts_in _ k i Hrows Hk Hi) as (row & x & Hrow & Hx & _ & Hlen).
  set (d' := Device (<[(i, event_reg k) := event_of i k event]> (<[(i, count_reg k) := 0]> (d_regs (p_dev p))))
               (d_fds (p_dev p))).
  assert (d = d') as -> by (destruct d; simpl in *; by subst).
  exists event, (<[Z.to_nat k := <[Z.to_nat i := 0]> row]> (pmclast p)).
  apply aget_Ok in Hrow as Hrow'. destruct Hrow' as [_ Hrow'].
  assert (countable i k d') as Hcount'.
  { apply (countable_insert i k _ _ (Device _ (d_fds (p_dev p)))). by apply countable_insert. }
  assert (d_regs d' !! (i, count_reg k) = Some 0) as Hzero.
  { simpl. rewrite lookup_insert_ne; [apply lookup_insert_eq|]. intros [= Heq].
    by apply (regs_apart k k Hkc Hkc) in Heq. }
  destruct Hrows as [Hl Hrows]. split.
  { unfold start_event. rewrite (proj2 (aget_Ok _ _ _) (conj (proj1 Hk) Hevent)). cbn [mbind result_bind].
    rewrite Hstart. cbn [mbind result_bind]. rewrite Hrow. cbn [mbind result_bind]. rewrite Hx. cbn [mbind result_bind].
    rewrite (read_counter i k x d' 0) by (done || lia). cbn [mbind result_bind].
    rewrite aset_in by lia. cbn [mbind result_bind]. rewrite aset_in by lia. done. }
  split; [done|]. split; [|split].
  - split; [by rewrite length_insert|]. apply Forall_insert; [done|]. by rewrite length_insert.
  - unfold count_at. rewrite list_lookup_insert_eq by lia. simpl. apply list_lookup_insert_eq. lia.
  - intros k' i' Hk' Hi' Hne. unfold count_at. destruct (decide (k' = k)) as [->|Hnk].
    + rewrite list_lookup_insert_eq by lia. simpl. rewrite list_lookup_insert_ne by (intros ?; apply Hne; f_equal; lia).
      by rewrite Hrow'.
    + rewrite list_lookup_insert_ne by lia. done.
Qed.

Lemma started_stays p p' i k j l event :
  0 <= i -> 0 <= k < NEVT arch -> 0 <= j -> 0 <= l < NEVT arch ->
  d_regs (p_dev p') = <[(j, event_reg l) := event]> (<[(j, count_reg l) := 0]> (d_regs (p_dev p))) ->
  (forall k' i', 0 <= k' -> 0 <= i' -> (i', k') <> (j, l) -> count_at (pmclast p') k' i' = count_at (pmclast p) k' i') ->
  (i, k) <> (j, l) -> started p i k -> started p' i k.
Proof.
  intros Hi Hk Hj Hl Hregs Hcounts Hne (ev & Hev & He & Hc & Hlast).
  apply events_counted in Hk as Hkc, Hl as Hlc.
  pose proof (regs_apart k l Hkc Hlc). pose proof (regs_apart l k Hlc Hkc).
  pose proof (event_regs_apart k l Hkc Hlc). pose proof (count_regs_apart k l Hkc Hlc).
  exists ev. split; [done|]. rewrite Hregs. split; [|split].
  - rewrite !lookup_insert_ne; [done|naive_solver|naive_solver].
  - rewrite !lookup_insert_ne; [done|naive_solver|naive_solver].
  - rewrite Hcounts; [done|lia|lia|done].
Qed.

(** The counters of all cores are started: no failure is printed, no descriptor stays open. *)
Lemma counters_started first count p :
  0 <= first -> first + count <= MAX_SERVERS + MAX_CLIENTS -> counts_ok (pmclast p) ->
  (forall i k, first <= i < first + count -> 0 <= k < NEVT arch -> countable i k (p_dev p)) ->
  exists p', start_counters arch first count p = Ok p' /\ p_failed p' = p_failed p /\
    d_fds (p_dev p') = d_fds (p_dev p) /\ counts_ok (pmclast p') /\
    forall i k, first <= i < first + count -> 0 <= k < NEVT arch -> countable i k (p_dev p') /\ started p' i k.
Proof.
  intros Hfirst Hbound Hrows Hcountable. unfold start_counters. rewrite each_nested. fold (cores first count).
  destruct (each_inv (fun x : Z * Z => start_event arch x.1 x.2)
    (fun before p' => p_failed p' = p_failed p /\ d_fds (p_dev p') = d_fds (p_dev p) /\ counts_ok (pmclast p') /\
       (forall i k, (i, k) ∈ cores first count -> countable i k (p_dev p')) /\
       forall i k, (i, k) ∈ before -> (i, k) ∈ cores first count /\ started p' i k)
    (cores first count) p) as (p' & Hrun & Hf & Hfds & Hr & Hc & Hs).
  - split; [done|]. split; [done|]. split; [done|]. split.
    + intros i k Hin. apply elem_of_cores in Hin as [Hi Hk]. by apply Hcountable.
    + intros i k Hin. by apply not_elem_of_nil in Hin.
  - intros before [j l] s Hin (Hf & Hfds & Hr & Hc & Hs). pose proof Hin as Hjl. apply elem_of_cores in Hjl as [Hj Hl].
    destruct (start_event_ok j l s ltac:(lia) Hl Hr (Hc j l Hin)) as (event & rows & Hrun & Hev & Hr' & Hzero & Hother).
    eexists. split; [exact Hrun|]. split; [done|]. split; [done|]. split; [done|]. split.
    + intros i k Hik. simpl. apply (countable_insert i k _ _ (Device _ (d_fds (p_dev s)))).
      apply countable_insert. by apply Hc.
    + intros i k Hik. apply elem_of_app in Hik. destruct (decide ((i, k) = (j, l))) as [[= -> ->]|Hne].
      * split; [done|]. exists event. pose proof (events_counted l Hl) as Hlc. pose proof (regs_apart l l Hlc Hlc).
        simpl. rewrite lookup_insert_eq, lookup_insert_ne, lookup_insert_eq by congruence. done.
      * destruct Hik as [Hik|Hik]; [|apply list_elem_of_singleton in Hik; congruence].
        destruct (Hs i k Hik) as [Hcore Hst]. split; [done|]. pose proof Hcore as Hc'. apply elem_of_cores in Hc'.
        apply (started_stays s _ i k j l (event_of j l event)); [lia|apply Hc'|lia|exact Hl|reflexivity|exact Hother|done|done].
  - exists p'. split; [done|]. split; [done|]. split; [done|]. split; [done|]. intros i k Hi Hk.
    assert ((i, k) ∈ cores first count) as Hin by (by apply elem_of_cores). split; [by apply Hc|by apply Hs].
Qed.

(** What the sums add up for one event. *)
Definition misses (rows : list (list Z)) (d : device) (k i : Z) : Z :=
  match d_regs d !! (i, count_reg k), count_at rows k i with
  | Some now, Some last => u64 (now - last)
  | _, _ => 0
  end.

Lemma counters_read raw rows first count d :
  0 <= first -> first + count <= MAX_SERVERS + MAX_CLIENTS -> counts_ok rows ->
  (forall i k, first <= i < first + count -> 0 <= k < NEVT arch -> countable i k d) ->
  exists totals, read_counters arch raw rows first count d = Ok (totals, d) /\
    forall k, 0 <= k < NEVT arch ->
      totals !! Z.to_nat k = Some (double_sum (misses rows d k <$> (filter (fun x => x.2 = k) (cores first count)).*1)).
Proof.
  intros Hfirst Hbound Hrows Hcountable. unfold read_counters. rewrite each_nested. fold (cores first count).
  destruct (each_inv (fun x : Z * Z => read_event arch raw rows x.1 x.2)
    (fun before s => s.2 = d /\ Z.of_nat (length s.1) = NEVT arch /\
       forall k, 0 <= k < NEVT arch ->
         s.1 !! Z.to_nat k = Some (double_sum (misses rows d k <$> (filter (fun x => x.2 = k) before).*1)))
    (cores first count) (replicate (Z.to_nat (NEVT arch)) 0, d)) as ([totals d'] & Hrun & Hd & Hl & Ht).
  - split; [done|]. simpl. rewrite length_replicate. split; [unfold NEVT; lia|].
    intros k Hk. apply lookup_replicate_2. lia.
  - intros before [i k] [totals d'] Hin (Hd & Hl & Ht). simpl in Hd, Hl, Ht. subst d'.
    apply elem_of_cores in Hin as [Hi Hk]. pose proof (Hcountable i k Hi Hk) as Hc.
    pose proof Hc as (_ & _ & [x Hx]). pose proof (events_counted k Hk) as Hkc.
    assert (int i) as Hint by (unfold int, MAX_SERVERS, MAX_CLIENTS in *; lia).
    destruct (counts_in rows k i Hrows Hk ltac:(lia)) as (row & last & Hrow & Hlast & Hat & _).
    exists (<[Z.to_nat k := add_double (double_sum (misses rows d k <$> (filter (fun x => x.2 = k) before).*1))
                              (u64 (x - last))]> totals, d).
    split.
    + unfold read_event. cbn [fst snd].
      rewrite (read_counter i k _ d x) by (done || lia). cbn [mbind result_bind].
      rewrite Hrow. cbn [mbind result_bind]. rewrite Hlast. cbn [mbind result_bind].
      rewrite (proj2 (aget_Ok _ _ _) (conj (proj1 Hk) (Ht k Hk))). cbn [mbind result_bind].
      rewrite aset_in by lia. done.
    + split; [done|]. split; [simpl; by rewrite length_insert|]. intros k' Hk'. simpl.
      rewrite filter_app, !fmap_app. destruct (decide (k' = k)) as [->|Hne].
      * rewrite list_lookup_insert_eq by lia. rewrite filter_cons_True by done. simpl. rewrite double_sum_snoc.
        unfold misses at 3. by rewrite Hx, Hat.
      * rewrite list_lookup_insert_ne by lia. rewrite Ht by done. rewrite filter_cons_False by (simpl; congruence).
        simpl. by rewrite app_nil_r.
  - simpl in *. subst d'. eauto.
Qed.

Lemma cores_of_event first count k :
  0 <= k < NEVT arch -> (filter (fun x => x.2 = k) (cores first count)).*1 = seqZ first count.
Proof.
  intros Hk. unfold cores. induction (seqZ first count) as [|i l IH]; [done|].
  cbn [mbind list_bind]. rewrite filter_app, fmap_app. rewrite IH. unfold NEVT in *.
  destruct arch; simpl in *.
  - change (seqZ 0 1) with [0]. simpl. by rewrite filter_cons_True by (simpl; lia).
  - change (seqZ 0 2) with [0; 1]. simpl. destruct (decide (k = 0)) as [->|Hne].
    + by rewrite filter_cons_True, filter_cons_False by (simpl; lia).
    + by rewrite filter_cons_False, filter_cons_True by (simpl; lia).
Qed.

(** Bit 22 of an event-select register lets its counter count. *)
Lemma event_enabled i k event : 0 <= k -> evts arch !! Z.to_nat k = Some event -> Z.testbit (event_of i k event) 22 = true.
Proof.
  intros Hk He. assert (Z.testbit event 22 = true) as Hb.
  { unfold evts in He. destruct arch; destruct (Z.to_nat k) as [|[|n]]; simpl in He; try done; by injection He as <-. }
  unfold event_of. case_match; [|done]. by rewrite Z.lor_spec, Hb.
Qed.

(** C40: if the files of the cores open and the cores have the counters, then the benchmark starts
    them all: the event-select register of every counter has the event of the list, with the bit that
    enables counting, the counter is at 0, and 0 is what was noted for it. It prints no failure and leaves no descriptor
    open. The total it makes for an event after its run, whatever the counters are at then, is the
    sum in [double] arithmetic of what the counters of the cores have counted since,
    one core after the other; it is exact as long as the sum is at most 2^53. *)
Theorem benchmark_counts first count p :
  0 <= first -> first + count <= MAX_SERVERS + MAX_CLIENTS -> counts_ok (pmclast p) ->
  (forall i k, first <= i < first + count -> 0 <= k < NEVT arch -> countable i k (p_dev p)) ->
  exists p', start_counters arch first count p = Ok p' /\ p_failed p' = p_failed p /\
    d_fds (p_dev p') = d_fds (p_dev p) /\
    (forall i k, first <= i < first + count -> 0 <= k < NEVT arch -> exists event,
       evts arch !! Z.to_nat k = Some event /\ Z.testbit (event_of i k event) 22 = true /\
       d_regs (p_dev p') !! (i, event_reg k) = Some (event_of i k event) /\
       d_regs (p_dev p') !! (i, count_reg k) = Some 0 /\ count_at (pmclast p') k i = Some 0) /\
    forall now raw, (forall i k, first <= i < first + count -> 0 <= k < NEVT arch -> 0 <= now i k < 2 ^ 64) ->
    forall d, (forall i k, first <= i < first + count -> 0 <= k < NEVT arch ->
                 d_regs d !! (i, event_reg k) = d_regs (p_dev p') !! (i, event_reg k) /\
                 d_regs d !! (i, count_reg k) = Some (now i k)) ->
    exists totals, read_counters arch raw (pmclast p') first count d = Ok (totals, d) /\
      forall k, 0 <= k < NEVT arch ->
        totals !! Z.to_nat k = Some (fold_left add_double ((fun i => now i k) <$> seqZ first count) 0) /\
        (zsum (fun i => now i k) (seqZ first count) <= 2 ^ 53 ->
         totals !! Z.to_nat k = Some (zsum (fun i => now i k) (seqZ first count))).
Proof.
  intros Hfirst Hbound Hrows Hcountable.
  destruct (counters_started first count p Hfirst Hbound Hrows Hcountable) as (p' & Hrun & Hf & Hfds & Hr & Hall).
  exists p'. split; [done|]. split; [done|]. split; [done|]. split.
  { intros i k Hi Hk. destruct (Hall i k Hi Hk) as [_ (ev & Hev & He & Hc & Hat)]. exists ev. split; [done|].
    split; [apply event_enabled; [lia | done] | done]. }
  intros now raw Hnow d Hd.
  destruct (counters_read raw (pmclast p') first count d Hfirst Hbound Hr) as (totals & Hread & Ht).
  { intros i k Hi Hk. destruct (Hd i k Hi Hk) as [He Hc]. destruct (Hall i k Hi Hk) as [(Ho & Hev & _) _].
    split; [done|]. rewrite He, Hc. split; [done|by eexists]. }
  exists totals. split; [done|]. intros k Hk. specialize (Ht k Hk). rewrite cores_of_event in Ht by done.
  assert (misses (pmclast p') d k <$> seqZ first count = (fun i => now i k) <$> seqZ first count) as Heq.
  { apply list_fmap_ext. intros n i Hi. apply list_elem_of_lookup_2, elem_of_seqZ in Hi. destruct (Hd i k Hi Hk) as [_ Hc].
    destruct (Hall i k Hi Hk) as [_ (ev & _ & _ & _ & Hat)]. unfold misses. rewrite Hc, Hat, Z.sub_0_r.
    apply u64_small. by apply Hnow. }
  rewrite Heq in Ht. split; [exact Ht|]. intros Hsum. rewrite Ht. f_equal.
  assert (zsum id ((fun i => now i k) <$> seqZ first count) = zsum (fun i => now i k) (seqZ first count)) as Hz
    by apply zsum_fmap.
  rewrite double_sum_exact; [done | | by rewrite Hz].
  apply Forall_fmap, Forall_forall. intros i Hi. apply elem_of_seqZ in Hi. by apply (Hnow i k).
Qed.
End msr.

(** ** A machine with two cores *)
Section two_cores.
#[local] Instance two_cores : MsrFiles.
Proof.
  refine {| open_msr name _ := if bool_decide (name = msr_file_name 0) then Some 0
                               else if bool_decide (name = msr_file_name 1) then Some 1 else None;
            new_fd fds := Z.of_nat (fresh (set_map (C := gset Z) (D := gset nat) Z.to_nat (dom fds))) |}.
  intros fds. split; [lia|]. apply not_elem_of_dom. intros Hin.
  apply (is_fresh (set_map (C := gset Z) (D := gset nat) Z.to_nat (dom fds))).
  apply elem_of_map. exists (Z.of_nat (fresh (set_map (C := gset Z) (D := gset nat) Z.to_nat (dom fds)))).
  by rewrite Nat2Z.id.
Defined.

Definition cold : device :=
  Device (list_to_map [((0, 0x186), 5); ((0, 0xC1), 7); ((1, 0x186), 0); ((1, 0xC1), 9)]) empty.

Lemma start_counter_outcome_witness :
  exists d, StartCounter INTEL64 1 0 0x410224 cold = Ok (0, d) /\ d_regs d !! (1, 0xC1) = Some 0.
Proof.
  destruct (start_counter_outcome INTEL64 1 0 0x410224 cold ltac:(split; lia) ltac:(lia))
    as (r & d & Hrun & _ & _ & _ & Hok).
  destruct Hok as [-> Hregs].
  - vm_compute. done.
  - split; [intros []; vm_compute; done|]. split; vm_compute; by eexists.
  - exists d. split; [done|]. rewrite Hregs. vm_compute. done.
Defined.

Lemma benchmark_counts_witness :
  exists p', start_counters INTEL64 0 2 (Perf cold [replicate 2048 3] []) = Ok p' /\ p_failed p' = [] /\
    d_regs (p_dev p') !! (1, 0x186) = Some 0x410224 /\ d_regs (p_dev p') !! (1, 0xC1) = Some 0.
Proof.
  destruct (benchmark_counts INTEL64 0 2 (Perf cold [replicate 2048 3] [])) as (p' & Hrun & Hf & _ & Hon & _).
  - lia.
  - vm_compute. done.
  - split; [done|]. repeat constructor.
  - intros i k Hi Hk. assert (k = 0) as -> by (unfold NEVT in Hk; simpl in Hk; lia).
    assert (i = 0 \/ i = 1) as [-> | ->] by lia.
    all: split; [intros []; vm_compute; done|]; split; vm_compute; by eexists.
  - exists p'. split; [exact Hrun|]. split; [exact Hf|]. clear Hrun.
    destruct (Hon 1 0 ltac:(lia) ltac:(unfold NEVT; simpl; lia)) as (ev & Hev & _ & He & Hc & _).
    change (Some 0x410224 = Some ev) in Hev. injection Hev as <-. split; [exact He | exact Hc].
Defined.
End two_cores.
